(** * XTC / XTCH converter: page pipeline and container codec

    A shallow embedding of the page pipeline of the converter and of
    its container format:

    - [Geometry]:   [clampMarginPercent], [getAxisCropRect]
                    (src/lib/processing/geometry.ts);
    - [Image]:      [calculateOverlapSegments] (lib/processing/image.ts);
    - [Converter]:  [PageMappingContext], [calculateOutputPageCount],
                    [processCanvasAsImage], the TOC remapping and the
                    page loop of the parallel path of [convertCbzToXtc]
                    (src/lib/converter.ts);
    - [ManhwaStitcher]:
                    [append] and [finish]
                    (src/lib/processing/manhwa-stitcher.ts);
    - [Conversion]: the streamed, the manhwa and the parallel path of
                    [convertCbzToXtc] (src/lib/converter.ts);
    - [Filters]:    [applyUnifiedFilters] (lib/processing/image.ts) and
                    the filter stage of [processAndEncode];
    - [CanvasFilters]:
                    [applyContrast], [applyGamma], [applyInvert],
                    [toGrayscale] and the filter stage of
                    [ManhwaStitcher.append]
                    (src/lib/processing/image.ts);
    - [Dithering], [DitheringOpt]:
                    [applyThreshold] and [applyFloydSteinberg] in their
                    two versions (src/lib/processing/dithering.ts, whose
                    Floyd-Steinberg is also that of xtc_converter.js, and
                    the optimised lib/processing/dithering.ts);
    - [XtcFormat]:  [imageDataToXtg], [imageDataToXth], [writeTocHeader],
                    [writeMetadata], [buildXtcFromBuffers]
                    (lib/xtc-format.ts);
    - [TextDecoder]:
                    the UTF-8 decoder behind [readNullTerminatedString];
    - [XtcReader]:  [parseXtcHeader], [parseMetadata], [parseXtcFile],
                    [decodeXtcPageToCanvas] (src/lib/xtc-reader.ts);
    - [XtcStream]:  [buildXtcHeaderAndIndex], [wrapWasmData]
                    (lib/xtc-format.ts);
    - [XtcExtract]: [getXtcPageCount], [extractXtcPages],
                    [extractXtcRawPages] (src/lib/xtc-reader.ts);
    - [Diffusion]:  [applyAtkinson], [applyStucki], [applyZhouFang],
                    [applyOstromoukhov], [applyOrdered] and the
                    dispatcher [applyDitheringToData]
                    (lib/processing/dithering.ts);
    - [DiffusionLegacy]:
                    [applyAtkinson], [applyStucki], [applyOrdered] and
                    the dispatcher [applyDithering] of the first
                    version (src/lib/processing/dithering.ts);
    - [Pipeline]:   the JavaScript branch of [processAndEncode]
                    (src/lib/converter.ts);
    - [Canvas]:     the placement of [resizeWithPadding]
                    (lib/processing/canvas.ts).

    [Layout] holds the byte layout of a container, field by field, as
    the reference that the writer and the reader are compared with;
    [Fields] holds the fields that the reader takes from a buffer and
    the condition under which all its reads stay inside the buffer;
    [Utf8] holds the well-formed byte sequences of UTF-8.

    Conventions.  JavaScript integers are [Z]; array indices and loop
    counters that are never negative are [nat]; typed arrays are lists
    read with [!!] and written with [<[ _ := _ ]>]; code that can throw
    returns a [result].  A JavaScript double is the rational [Q] that it
    denotes.  In the filters, in [calculateOverlapSegments], in the
    manhwa branch of [processCanvasAsImage] and in [ManhwaStitcher] an
    arithmetic operation is followed by its rounding to the nearest
    double ([Js.fl]: [Js.fadd], [Js.fsub], [Js.fmul], [Js.fdiv]);
    operations on integers below [2^53] are exact and are written on
    [Z].  In the dithering kernels, the crop rectangle and the letterbox
    placement the arithmetic is that of the rationals: there only the
    roundings that the source writes ([Math.floor], [Math.round], [>>],
    a store into a typed array) are modelled.  The clock is a parameter
    ([Date_now]) of the functions that read it.

    The first part of the file holds the definitions, the second part
    the properties. *)

From Stdlib Require Import ZArith QArith Qround Qabs Qpower Lia Lqa Bool String.
From stdpp Require Import base numbers list.

Local Open Scope Z_scope.

(** ** JavaScript arithmetic helpers *)

Module Js.

(** [Math.floor] and [Math.round] on a finite number. *)
Definition Math_floor (q : Q) : Z := Qfloor q.
Definition Math_round (q : Q) : Z := Qfloor (q + (1 # 2)).

Definition Qltb (a b : Q) : bool := negb (Qle_bool b a).

Definition Math_maxQ (a b : Q) : Q := if Qle_bool a b then b else a.
Definition Math_minQ (a b : Q) : Q := if Qle_bool a b then a else b.

(** Truncation toward zero, and the [ToInt32] conversion that the
    bitwise operators apply to their operands. *)
Definition trunc (q : Q) : Z := if Qle_bool 0 q then Qfloor q else Qceiling q.
Definition ToInt32 (q : Q) : Z := (trunc q + 2 ^ 31) mod 2 ^ 32 - 2 ^ 31.

(** [q >> k]: [ToInt32] then an arithmetic shift. *)
Definition sar (q : Q) (k : Z) : Z := Z.shiftr (ToInt32 q) k.

(** Store of a number into a [Uint8ClampedArray] cell: clamp to
    [0, 255], round to nearest, ties to even. *)
Definition clamp8 (q : Q) : Z :=
  if Qle_bool q 0 then 0
  else if Qle_bool 255 q then 255
  else
    let f := Qfloor q in
    let r := (q - inject_Z f)%Q in
    if Qltb r (1 # 2) then f
    else if Qltb (1 # 2) r then f + 1
    else if Z.even f then f else f + 1.

(** Store into a [Uint8Array] cell: wrap modulo 256. *)
Definition u8 (v : Z) : Z := v mod 256.

(** *** Double arithmetic

    A JavaScript number is an IEEE 754 double: every arithmetic
    operation returns the double nearest to the exact result, ties to
    the even significand.  [fl q] is that double for an exact result
    [q] in the normal range (the magnitudes of this program are far
    from the subnormal numbers and from the overflow threshold). *)

(** [2^e] for an exponent of either sign. *)
Definition pow2 (e : Z) : Q :=
  if 0 <=? e then inject_Z (2 ^ e) else 1 # Z.to_pos (2 ^ (- e)).

(** The nearest integer, ties to even. *)
Definition roundEven (q : Q) : Z :=
  let f := Qfloor q in
  let r := (q - inject_Z f)%Q in
  if Qltb r (1 # 2) then f
  else if Qltb (1 # 2) r then f + 1
  else if Z.even f then f else f + 1.

(** The exponent [e] of the last place of a positive [q]:
    [2^52 <= q / 2^e < 2^53]. *)
Definition binade (q : Q) : Z :=
  let e := Z.log2 (Qnum q) - Z.log2 (Z.pos (Qden q)) - 52 in
  if Qle_bool (pow2 (e + 52)) q then e else e - 1.

Definition fl (q : Q) : Q :=
  if Qeq_bool q 0 then 0%Q
  else
    let a := Qabs q in
    let e := binade a in
    let v := (inject_Z (roundEven (a / pow2 e)) * pow2 e)%Q in
    if Qle_bool 0 q then v else (- v)%Q.

(** The rounding of a positive number, in which the properties of [fl]
    are stated. *)
Definition flPos (a : Q) : Q :=
  (inject_Z (roundEven (a / pow2 (binade a))) * pow2 (binade a))%Q.

(** [a + b], [a - b], [a * b] and [a / b] on doubles (for a divisor
    that is not zero). *)
Definition fadd (a b : Q) : Q := fl (a + b).
Definition fsub (a b : Q) : Q := fl (a - b).
Definition fmul (a b : Q) : Q := fl (a * b).
Definition fdiv (a b : Q) : Q := fl (a / b).

(** [a / b > c] for doubles [a], [b] and a positive double [c]: a zero
    divisor gives [+Infinity] (greater than [c]) for a positive
    dividend, and [NaN] or [-Infinity] (comparison false) otherwise. *)
Definition div_gt (a b c : Q) : bool :=
  if Qeq_bool b 0 then Qltb 0 a else Qltb c (fdiv a b).

End Js.

(** ** Shared types (lib/types.ts) *)

Inductive Orientation := landscape | portrait.
Inductive ImageMode := cover | letterbox | fill | crop.
Inductive Device := X4 | X3.
Inductive SourceType := cbz | pdf | image | video.

(** A margin is a JavaScript number: [None] stands for the non-finite
    values ([NaN], [Infinity], [-Infinity]). *)
Record ConversionOptions := {
  splitMode : string;
  dithering : string;
  contrast : Q;
  horizontalMargin : option Q;
  verticalMargin : option Q;
  orientation : Orientation;
  is2bit : bool;
  manhwa : bool;
  manhwaOverlap : Q;
  sidewaysOverviews : bool;
  includeOverviews : bool;
  padBlack : bool;
  gamma : Q;
  imageMode : ImageMode;
  invert : bool;
  videoFps : Q;
  device : Device;
  sourceType : SourceType
}.

Record CropRect := { x : Z; y : Z; width : Z; height : Z }.

Record Dimensions := { dim_width : Z; dim_height : Z }.

(** [DEVICE_DIMENSIONS] of lib/processing/canvas.ts, as repeated in
    xtc_converter.js. *)
Definition DEVICE_DIMENSIONS (d : Device) : Dimensions :=
  match d with
  | X4 => {| dim_width := 480; dim_height := 800 |}
  | X3 => {| dim_width := 528; dim_height := 792 |}
  end.

(** ** Geometry (src/lib/processing/geometry.ts) *)

Module Geometry.

Definition clampMarginPercent (value : option Q) : Q :=
  match value with
  | None => 0
  | Some v => Js.Math_maxQ 0 (Js.Math_minQ 20 v)
  end.

Definition getAxisCropRect (sourceWidth sourceHeight : Z)
    (options : ConversionOptions) : CropRect :=
  let verticalMarginRaw :=
    if manhwa options then Some 0%Q else verticalMargin options in
  let horizontalMargin := clampMarginPercent (horizontalMargin options) in
  let verticalMargin := clampMarginPercent verticalMarginRaw in
  let maxCropX := Js.Math_floor (inject_Z (sourceWidth - 1) / 2) in
  let maxCropY := Js.Math_floor (inject_Z (sourceHeight - 1) / 2) in
  let cropX :=
    Z.min (Js.Math_floor (inject_Z sourceWidth * horizontalMargin / 100)) maxCropX in
  let cropY :=
    Z.min (Js.Math_floor (inject_Z sourceHeight * verticalMargin / 100)) maxCropY in
  {| x := cropX;
     y := cropY;
     width := Z.max 1 (sourceWidth - cropX * 2);
     height := Z.max 1 (sourceHeight - cropY * 2) |}.

End Geometry.

(** Options used in the examples: a comic converted for the X4 in
    landscape with overlapping splits, no margins. *)
Definition defaultOptions : ConversionOptions :=
  {| splitMode := "overlap"; dithering := "none"; contrast := 0;
     horizontalMargin := Some 0%Q; verticalMargin := Some 0%Q;
     orientation := landscape; is2bit := false; manhwa := false;
     manhwaOverlap := 50; sidewaysOverviews := false;
     includeOverviews := false; padBlack := false; gamma := 1;
     imageMode := letterbox; invert := false; videoFps := 1;
     device := X4; sourceType := cbz |}.

Definition withMargins (h v : Q) (o : ConversionOptions) : ConversionOptions :=
  {| splitMode := splitMode o; dithering := dithering o; contrast := contrast o;
     horizontalMargin := Some h; verticalMargin := Some v;
     orientation := orientation o; is2bit := is2bit o; manhwa := manhwa o;
     manhwaOverlap := manhwaOverlap o; sidewaysOverviews := sidewaysOverviews o;
     includeOverviews := includeOverviews o; padBlack := padBlack o;
     gamma := gamma o; imageMode := imageMode o; invert := invert o;
     videoFps := videoFps o; device := device o; sourceType := sourceType o |}.

(** ** Overlap segments (lib/processing/image.ts) *)

Module Image.

Record Segment := { seg_x : Z; seg_y : Z; seg_w : Z; seg_h : Z }.

(** [const scale = targetHeight / width;
     const segmentHeight = Math.floor(targetWidth / scale)] *)
Definition segmentHeight (width targetWidth targetHeight : Z) : Z :=
  let scale := Js.fdiv (inject_Z targetHeight) (inject_Z width) in
  Js.Math_floor (Js.fdiv (inject_Z targetWidth) scale).

(** [Math.floor(segmentHeight - (segmentHeight * numSegments - height)
    / (numSegments - 1))]; [numSegments] runs from 3 to 10, so
    [numSegments - 1] is exact. *)
Definition shiftFor (segmentHeight height numSegments : Z) : Z :=
  Js.Math_floor
    (Js.fsub (inject_Z segmentHeight)
       (Js.fdiv
          (Js.fsub (Js.fmul (inject_Z segmentHeight) (inject_Z numSegments))
                   (inject_Z height))
          (inject_Z (numSegments - 1)))).

(** The literal [0.95] is the double nearest to 95/100. *)
Definition minShare : Q := Js.fl (95 # 100).

(** The [while (shift / segmentHeight > 0.95 && numSegments < 10)] loop.
    Each turn increases [numSegments], so [10 - numSegments] turns are
    enough; [fuel] counts them. *)
Fixpoint growSegments (fuel : nat) (segmentHeight height numSegments shift : Z)
    : Z * Z :=
  match fuel with
  | O => (numSegments, shift)
  | S fuel' =>
      if Js.div_gt (inject_Z shift) (inject_Z segmentHeight) minShare
         && (numSegments <? 10)
      then
        let numSegments' := numSegments + 1 in
        growSegments fuel' segmentHeight height numSegments'
          (shiftFor segmentHeight height numSegments')
      else (numSegments, shift)
  end.

Definition calculateOverlapSegments (width height targetWidth targetHeight : Z)
    : list Segment :=
  let segmentHeight := segmentHeight width targetWidth targetHeight in
  let numSegments0 := 3 in
  let shift0 := shiftFor segmentHeight height numSegments0 in
  let '(numSegments, shift) :=
    growSegments (Z.to_nat (10 - numSegments0)) segmentHeight height
      numSegments0 shift0 in
  map (fun i : nat =>
         let i := Z.of_nat i in
         {| seg_x := 0;
            seg_y := shift * i;
            seg_w := width;
            seg_h := if i =? numSegments - 1 then height - shift * i
                     else segmentHeight |})
      (seq 0 (Z.to_nat numSegments)).

End Image.

(** ** Page fan-out and page mapping (src/lib/converter.ts) *)

Module Converter.

Definition getTargetDimensions (options : ConversionOptions) : Dimensions :=
  DEVICE_DIMENSIONS (device options).

Definition getOrientationAngle (o : Orientation) : Z :=
  match o with landscape => 90 | portrait => 0 end.

(** *** PageMappingContext *)

Record Mapping := {
  originalPage : Z;
  xtcStartPage : Z;
  xtcPageCount : Z
}.

Record PageMappingContext := {
  mappings : list Mapping;
  currentXtcPage : Z
}.

Definition newPageMappingContext : PageMappingContext :=
  {| mappings := []; currentXtcPage := 1 |}.

Definition addOriginalPage (ctx : PageMappingContext)
    (originalPage xtcPageCount : Z) : PageMappingContext :=
  {| mappings :=
       mappings ctx ++
       [ {| originalPage := originalPage;
            xtcStartPage := currentXtcPage ctx;
            xtcPageCount := xtcPageCount |} ];
     currentXtcPage := currentXtcPage ctx + xtcPageCount |}.

Definition getXtcPage (ctx : PageMappingContext) (page : Z) : Z :=
  match List.find (fun m => originalPage m =? page) (mappings ctx) with
  | Some mapping => xtcStartPage mapping
  | None => page
  end.

Definition getTotalXtcPages (ctx : PageMappingContext) : Z :=
  currentXtcPage ctx - 1.

(** A sequence of [addOriginalPage] calls, in call order. *)
Definition addOriginalPages (ctx : PageMappingContext) (calls : list (Z * Z))
    : PageMappingContext :=
  fold_left (fun c call => addOriginalPage c (fst call) (snd call)) calls ctx.

(** *** calculateOutputPageCount *)

Definition calculateOutputPageCount (width height : Z)
    (options : ConversionOptions) : Z :=
  if manhwa options then 0
  else
    let count := 0 in
    let count := if sidewaysOverviews options then count + 1 else count in
    let count := if includeOverviews options then count + 1 else count in
    match orientation options with
    | portrait => count + 1
    | landscape =>
        let shouldSplit :=
          (width <? height) && negb (String.eqb (splitMode options) "nosplit") in
        count + (if shouldSplit
                 then (if String.eqb (splitMode options) "overlap" then 3 else 2)
                 else 1)
    end.

(** *** processCanvasAsImage

    The canvases themselves (drawing, rotation, scaling) are outside the
    model.  What is kept of every [results.push(processAndEncode(...))]
    is which branch produced the page and from which region of the
    cropped source. *)

Inductive EmittedPage :=
| SidewaysOverview
| Overview
| SingleImage (angle : Z) (mode : ImageMode)
| ManhwaSlice (slice_y slice_h : Z)
| PortraitPage
| OverlapSegment (seg : Image.Segment)
| SplitHalf (half_y half_h : Z)
| RotatedPage.

(** The slicing loop of the manhwa branch,
    [for (let y = 0; y < newHeight; ) { ... if (y + h >= newHeight) break; y += sliceStep }]. *)
Fixpoint manhwaSlices (fuel : nat) (newHeight devHeight sliceStep y : Z)
    : list EmittedPage :=
  match fuel with
  | O => []
  | S fuel' =>
      if y <? newHeight then
        let h0 := Z.min devHeight (newHeight - y) in
        let '(y1, h) :=
          if (h0 <? devHeight) && (devHeight <? newHeight)
          then (newHeight - devHeight, devHeight) else (y, h0) in
        ManhwaSlice y1 h ::
          (if newHeight <=? y1 + h then []
           else manhwaSlices fuel' newHeight devHeight sliceStep (y1 + sliceStep))
      else []
  end.

(** [const scale = dims.width / crop.width;
     const newHeight = Math.floor(crop.height * scale)] *)
Definition manhwaNewHeight (dims : Dimensions) (crop : CropRect) : Z :=
  let scale := Js.fdiv (inject_Z (dim_width dims)) (inject_Z (width crop)) in
  Js.Math_floor (Js.fmul (inject_Z (height crop)) scale).

(** [const sliceStep = dims.height
       - Math.floor(dims.height * (options.manhwaOverlap / 100))] *)
Definition manhwaSliceStep (dims : Dimensions) (manhwaOverlap : Q) : Z :=
  dim_height dims
  - Js.Math_floor (Js.fmul (inject_Z (dim_height dims)) (Js.fdiv manhwaOverlap 100)).

Definition isSingleImage (options : ConversionOptions) : bool :=
  match sourceType options with image => true | _ => false end
  && negb (manhwa options) && String.eqb (splitMode options) "nosplit".

Definition processCanvasAsImage (sourceWidth sourceHeight : Z)
    (options : ConversionOptions) : list EmittedPage :=
  let dims := getTargetDimensions options in
  let crop := Geometry.getAxisCropRect sourceWidth sourceHeight options in
  let results := [] in
  let results :=
    if sidewaysOverviews options then results ++ [SidewaysOverview] else results in
  let results :=
    if includeOverviews options then results ++ [Overview] else results in
  if isSingleImage options then
    results ++ [SingleImage (getOrientationAngle (orientation options))
                            (imageMode options)]
  else if manhwa options then
    let newHeight := manhwaNewHeight dims crop in
    let sliceStep := manhwaSliceStep dims (manhwaOverlap options) in
    results ++ manhwaSlices (Z.to_nat newHeight) newHeight (dim_height dims) sliceStep 0
  else
    match orientation options with
    | portrait => results ++ [PortraitPage]
    | landscape =>
        if (width crop <? height crop)
           && negb (String.eqb (splitMode options) "nosplit")
        then
          if String.eqb (splitMode options) "overlap" then
            let segs :=
              Image.calculateOverlapSegments (width crop) (height crop)
                (dim_width dims) (dim_height dims) in
            results ++ map OverlapSegment segs
          else
            let half := Js.Math_floor (inject_Z (height crop) / 2) in
            results ++ [SplitHalf 0 half; SplitHalf half (height crop - half)]
        else results ++ [RotatedPage]
    end.

(** *** TOC remapping (shared by the CBZ, CBR and PDF converters) *)

Record TocEntry := {
  title : string;
  startPage : Z;
  endPage : Z
}.

(** [metadata.toc = metadata.toc.map((entry, index) => ...)]: inside the
    callback [metadata.toc] is still the array being mapped. *)
Definition remapToc (mappingCtx : PageMappingContext) (toc : list TocEntry)
    : list TocEntry :=
  if (0 <? length toc)%nat then
    let totalXtcPages := getTotalXtcPages mappingCtx in
    imap (fun index entry =>
            let adjustedStartPage := getXtcPage mappingCtx (startPage entry) in
            let adjustedEndPage :=
              if (index <? length toc - 1)%nat then
                match toc !! (index + 1)%nat with
                | Some next => getXtcPage mappingCtx (startPage next) - 1
                | None => totalXtcPages
                end
              else totalXtcPages in
            {| title := title entry;
               startPage := adjustedStartPage;
               endPage := adjustedEndPage |})
         toc
  else toc.

(** The page loop of the parallel path of [convertCbzToXtc] outside
    manhwa mode: batches are reordered by [globalIdx], so frames are
    consumed in source order; [frames] holds, for every source frame,
    the encoded pages that [processImageAsBinary] returned for it.  The
    manhwa loop and the streamed path are in [Conversion] below. *)
Definition collectPages {Page} (frames : list (list Page))
    : list Page * PageMappingContext :=
  fst (fold_left
         (fun '(pageBlobs, mappingCtx, globalIdx) results =>
            (pageBlobs ++ results,
             addOriginalPage mappingCtx (globalIdx + 1) (Z.of_nat (length results)),
             globalIdx + 1))
         frames ([], newPageMappingContext, 0)).

(** *** Reference definitions used to state the properties *)

Definition sumZ (l : list Z) : Z := fold_right Z.add 0 l.

(** The mappings that a run of [addOriginalPage] calls records when the
    first free page number is [start]. *)
Fixpoint mkMappings (start : Z) (calls : list (Z * Z)) : list Mapping :=
  match calls with
  | [] => []
  | c :: rest =>
      {| originalPage := fst c; xtcStartPage := start; xtcPageCount := snd c |}
        :: mkMappings (start + snd c) rest
  end.

(** The [addOriginalPage] calls that [collectPages] makes for [frames]
    when [g] frames came before them. *)
Definition frameCalls {Page} (g : Z) (frames : list (list Page)) : list (Z * Z) :=
  imap (fun i results => (g + Z.of_nat i + 1, Z.of_nat (length results))) frames.

(** The emitted start page of source frame [k] (1-indexed): one more
    than the number of pages emitted for the frames before it. *)
Definition emittedStartPage {Page} (frames : list (list Page)) (k : Z) : Z :=
  1 + Z.of_nat (length (concat (take (Z.to_nat (k - 1)) frames))).

(** Scenario 5 of the specification: four frames with fan-out counts
    (2, 1, 3, 1) and a two-chapter table of contents. *)
Definition exampleFrames : list (list nat) := [[1;2];[3];[4;5;6];[7]]%nat.

Definition exampleToc : list TocEntry :=
  [ {| title := "A"; startPage := 1; endPage := 2 |};
    {| title := "B"; startPage := 3; endPage := 4 |} ].

End Converter.

(** ** ManhwaStitcher (src/lib/processing/manhwa-stitcher.ts)

    The stitcher keeps one canvas, the strip that has not been cut yet.
    All its canvases are [targetWidth] wide; what is kept of the strip
    is its height.  What [isSolidColor] says of a slice depends on the
    pixels: it is a parameter, asked with the number of the page that
    the slice becomes. *)

Module ManhwaStitcher.

Section WithOracle.

Variable isSolid : Z -> bool.
Variable options : ConversionOptions.

Record Stitcher := {
  buffer : option Z;
  pageCount : Z
}.

Definition new : Stitcher := {| buffer := None; pageCount := 0 |}.

Definition targetWidth : Z := dim_width (Converter.getTargetDimensions options).
Definition targetHeight : Z := dim_height (Converter.getTargetDimensions options).

(** [const overlapPercent = this.options.manhwaOverlap || 50] *)
Definition overlapPercent : Q :=
  if Qeq_bool (manhwaOverlap options) 0 then 50 else manhwaOverlap options.

Definition overlapPixels : Z :=
  Js.Math_floor (Js.fmul (inject_Z targetHeight) (Js.fdiv overlapPercent 100)).

(** The [while (this.buffer && this.buffer.height >= this.targetHeight)]
    loop on a strip of [height] rows; the result is the strip that is
    left, the page counter and the numbers of the pages cut.  A turn
    shortens the strip as soon as the step is positive, so [fuel]
    bounds the turns by the height of the strip; with a step of zero
    rows or less the source loops for ever. *)
Fixpoint cut (fuel : nat) (height count : Z) (pages : list Z)
    : option Z * Z * list Z :=
  match fuel with
  | O => (Some height, count, pages)
  | S fuel' =>
      if targetHeight <=? height then
        let count := count + 1 in
        let step :=
          if isSolid count then targetHeight else targetHeight - overlapPixels in
        let pages := pages ++ [count] in
        let remainingHeight := height - step in
        if remainingHeight <=? 0 then (None, count, pages)
        else cut fuel' remainingHeight count pages
      else (Some height, count, pages)
  end.

(** [append(source)] for a source of [width] by [height] pixels, at
    least one pixel wide: the new state and the pages returned. *)
Definition append (st : Stitcher) (width height : Z) : Stitcher * list Z :=
  let scale := Js.fdiv (inject_Z targetWidth) (inject_Z width) in
  let newHeight := Js.Math_floor (Js.fmul (inject_Z height) scale) in
  let combinedHeight :=
    match buffer st with
    | None => newHeight
    | Some bufferHeight => bufferHeight + newHeight
    end in
  let '(buffer', count, pages) :=
    cut (Z.to_nat combinedHeight) combinedHeight (pageCount st) [] in
  ({| buffer := buffer'; pageCount := count |}, pages).

(** [finish()]: what is left of the strip, padded to a full page. *)
Definition finish (st : Stitcher) : Stitcher * list Z :=
  match buffer st with
  | Some height =>
      if 0 <? height
      then ({| buffer := buffer st; pageCount := pageCount st + 1 |},
            [pageCount st + 1])
      else (st, [])
  | None => (st, [])
  end.

End WithOracle.

End ManhwaStitcher.

(** ** The three page loops of [convertCbzToXtc] (src/lib/converter.ts)

    A source is the list of the dimensions of its images, in the order
    of their paths.  Decoding, drawing and encoding are outside the
    model: what is kept is how many chunks are written, how many pages
    the index table announces, and the table of contents. *)

Module Conversion.

Import Converter.

Record Result := {
  written : Z;           (* chunks written after the header and index *)
  announced : Z;         (* [pageInfos.length], the page count of the header *)
  contents : list TocEntry
}.

(** [metadata.toc = imageFiles.map((_, index) => ...)]: one entry per
    image; the titles do not matter here and are a parameter. *)
Definition imageToc (titleOf : nat -> string) (frames : list (Z * Z))
    : list TocEntry :=
  imap (fun index _ =>
          let pg := Z.of_nat index + 1 in
          {| title := titleOf index; startPage := pg; endPage := pg |})
       frames.

(** The streamed path: the first pass maps the predicted page counts,
    the second pass writes the pages that the frames give. *)
Definition streamed (frames : list (Z * Z)) (options : ConversionOptions)
    (toc : list TocEntry) : Result :=
  let isSimple1to1 :=
    String.eqb (splitMode options) "nosplit"
    && negb (sidewaysOverviews options) && negb (includeOverviews options) in
  let predicted :=
    map (fun '(w, h) =>
           if isSimple1to1 then 1
           else
             let crop := Geometry.getAxisCropRect w h options in
             calculateOutputPageCount (width crop) (height crop) options)
        frames in
  let mappingCtx :=
    addOriginalPages newPageMappingContext
      (imap (fun i count => (Z.of_nat i + 1, count)) predicted) in
  {| written :=
       sumZ (map (fun '(w, h) =>
                    Z.of_nat (length (processCanvasAsImage w h options)))
                 frames);
     announced := sumZ predicted;
     contents := remapToc mappingCtx toc |}.

(** The manhwa loop: the slices that [append] returns are mapped to the
    frame that completed them; the page of [finish] is pushed after the
    loop. *)
Definition stitched (isSolid : Z -> bool) (frames : list (Z * Z))
    (options : ConversionOptions) (toc : list TocEntry) : Result :=
  let '(stitcher, pages, mappingCtx, _) :=
    fold_left
      (fun '(stitcher, pages, mappingCtx, i) '(w, h) =>
         let '(stitcher, slices) :=
           ManhwaStitcher.append isSolid options stitcher w h in
         (stitcher, pages ++ slices,
          addOriginalPage mappingCtx (i + 1) (Z.of_nat (length slices)),
          i + 1))
      frames (ManhwaStitcher.new, [], newPageMappingContext, 0) in
  let pages := pages ++ snd (ManhwaStitcher.finish stitcher) in
  {| written := Z.of_nat (length pages);
     announced := Z.of_nat (length pages);
     contents := remapToc mappingCtx toc |}.

(** The parallel path: batches are reordered by [globalIdx], so the
    frames are consumed in source order. *)
Definition buffered (frames : list (Z * Z)) (options : ConversionOptions)
    (toc : list TocEntry) : Result :=
  let '(pages, mappingCtx) :=
    collectPages (map (fun '(w, h) => processCanvasAsImage w h options) frames) in
  {| written := Z.of_nat (length pages);
     announced := Z.of_nat (length pages);
     contents := remapToc mappingCtx toc |}.

Definition convertCbzToXtc (isSolid : Z -> bool) (titleOf : nat -> string)
    (streamedDownload : bool) (frames : list (Z * Z))
    (options : ConversionOptions) : Result :=
  let toc := imageToc titleOf frames in
  if streamedDownload && negb (manhwa options) then streamed frames options toc
  else if manhwa options then stitched isSolid frames options toc
  else buffered frames options toc.

End Conversion.

(** ** Fused filter pass (lib/processing/image.ts) *)

Module Filters.

Section WithPow.

(** [Math.pow] on the arguments the gamma table uses; its values are
    irrational in general, so the function is a parameter. *)
Variable Math_pow : Q -> Q -> Q.

(** [0.299 * r + 0.587 * g + 0.114 * b]: three double products added
    from left to right; the constants are the doubles nearest to the
    decimal literals. *)
Definition luminosity (r g b : Q) : Q :=
  Js.fadd
    (Js.fadd (Js.fmul (Js.fl (299 # 1000)) r) (Js.fmul (Js.fl (587 # 1000)) g))
    (Js.fmul (Js.fl (114 # 1000)) b).

(** The rounded luminosity of every pixel, in array order (the
    histogram pass). *)
Fixpoint grays (data : list Z) : list Z :=
  match data with
  | r :: g :: b :: _ :: rest =>
      Js.Math_round (luminosity (inject_Z r) (inject_Z g) (inject_Z b)) :: grays rest
  | _ => []
  end.

Definition histogram (gs : list Z) (i : Z) : Z :=
  Z.of_nat (length (filter (fun g => g = i) gs)).

(** [for (let i = 0; i < 256; i++) { count += histogram[i];
      if (count >= blackThreshold) { blackPoint = i; break; } }] *)
Fixpoint findBlackPoint (fuel : nat) (hist : Z -> Z) (blackThreshold : Q)
    (i count : Z) : Z :=
  match fuel with
  | O => 0
  | S fuel' =>
      let count := count + hist i in
      if Qle_bool blackThreshold (inject_Z count) then i
      else findBlackPoint fuel' hist blackThreshold (i + 1) count
  end.

(** [for (let i = 255; i >= 0; i--) { count += histogram[i];
      if (count >= whiteThreshold) { whitePoint = i; break; } }] *)
Fixpoint findWhitePoint (fuel : nat) (hist : Z -> Z) (whiteThreshold : Q)
    (i count : Z) : Z :=
  match fuel with
  | O => 255
  | S fuel' =>
      let count := count + hist i in
      if Qle_bool whiteThreshold (inject_Z count) then i
      else findWhitePoint fuel' hist whiteThreshold (i - 1) count
  end.

(** [(blackPoint, range)] of step 1. *)
Definition contrastPoints (data : list Z) (contrast : Q) : Z * Z :=
  if Js.Qltb 0 contrast then
    let hist := histogram (grays data) in
    let totalPixels := Js.fdiv (inject_Z (Z.of_nat (length data))) 4 in
    let blackThreshold :=
      Js.fdiv (Js.fmul totalPixels (Js.fmul 3 contrast)) 100 in
    let whiteThreshold :=
      Js.fdiv (Js.fmul totalPixels (Js.fadd 3 (Js.fmul 9 contrast))) 100 in
    let blackPoint := findBlackPoint 256 hist blackThreshold 0 0 in
    let whitePoint := findWhitePoint 256 hist whiteThreshold 255 0 in
    (blackPoint, whitePoint - blackPoint)
  else (0, 255).

(** [gammaLut[i] = Math.round(Math.pow(i / 255, gamma) * 255)], stored
    in a [Uint8Array]. *)
Definition gammaLut (gamma : Q) (i : Z) : Z :=
  Js.u8 (Js.Math_round (Js.fmul (Math_pow (Js.fdiv (inject_Z i) 255) gamma) 255)).

(** [Math.max(0, Math.min(255, ((c - blackPoint) / range) * 255))] *)
Definition stretch (blackPoint range : Z) (c : Q) : Q :=
  Js.Math_maxQ 0
    (Js.Math_minQ 255
       (Js.fmul (Js.fdiv (Js.fsub c (inject_Z blackPoint)) (inject_Z range)) 255)).

(** The luminosity of one pixel after the optional inversion and the
    optional contrast stretch of its channels. *)
Definition filteredLuminosity (contrast : Q) (invert : bool)
    (blackPoint range : Z) (r g b : Z) : Q :=
  let r := inject_Z r in
  let g := inject_Z g in
  let b := inject_Z b in
  let '(r, g, b) :=
    if invert then (255 - r, 255 - g, 255 - b)%Q else (r, g, b) in
  let '(r, g, b) :=
    if Js.Qltb 0 contrast && (0 <? range)
    then (stretch blackPoint range r, stretch blackPoint range g,
          stretch blackPoint range b)
    else (r, g, b) in
  luminosity r g b.

(** The body of the single pass: the value written to the three colour
    channels of the pixel. *)
Definition filterPixel (contrast gamma : Q) (invert : bool)
    (blackPoint range : Z) (r g b : Z) : Z :=
  let gray := filteredLuminosity contrast invert blackPoint range r g b in
  let gray :=
    if negb (Qeq_bool gamma 1)
    then inject_Z (gammaLut gamma (Js.Math_round gray)) else gray in
  Js.clamp8 gray.

(** [for (let i = 0; i < length; i += 4) { ... data[i] = data[i+1] =
    data[i+2] = gray }] over an RGBA array; alpha is left untouched. *)
Fixpoint mapPixels (f : Z -> Z -> Z -> Z) (data : list Z) : list Z :=
  match data with
  | r :: g :: b :: a :: rest =>
      let gray := f r g b in gray :: gray :: gray :: a :: mapPixels f rest
  | _ => data
  end.

Definition applyUnifiedFilters (data : list Z) (contrast gamma : Q)
    (invert : bool) : list Z :=
  let '(blackPoint, range) := contrastPoints data contrast in
  mapPixels (filterPixel contrast gamma invert blackPoint range) data.

(** The filter stage of [processAndEncode] (JavaScript pipeline): the
    gamma handed to the filter pass is the option's only for 2-bit
    output. *)
Definition processAndEncode_filters (data : list Z)
    (options : ConversionOptions) : list Z :=
  applyUnifiedFilters data (contrast options)
    (if is2bit options then gamma options else 1) (invert options).

(** What the filter pass writes when the gamma table is applied to the
    luminosity of every pixel, and what it writes when it is not. *)
Definition gammaCorrected (data : list Z) (options : ConversionOptions)
    : list Z :=
  let '(blackPoint, range) := contrastPoints data (contrast options) in
  mapPixels
    (fun r g b =>
       Js.clamp8
         (inject_Z
            (gammaLut (gamma options)
               (Js.Math_round
                  (filteredLuminosity (contrast options) (invert options)
                     blackPoint range r g b)))))
    data.

Definition notGammaCorrected (data : list Z) (options : ConversionOptions)
    : list Z :=
  let '(blackPoint, range) := contrastPoints data (contrast options) in
  mapPixels
    (fun r g b =>
       Js.clamp8
         (filteredLuminosity (contrast options) (invert options)
            blackPoint range r g b))
    data.

End WithPow.

(** [Math.pow(x, 2)]: the double nearest to the square. *)
Definition powSquare (x _ : Q) : Q := Js.fmul x x.


End Filters.

(** ** The canvas filters (src/lib/processing/image.ts)

    Each of these functions reads the pixels of a canvas, rewrites them
    and puts them back; they are the filter stage of
    [ManhwaStitcher.append]. *)

Module CanvasFilters.

Section WithPow.

Variable Math_pow : Q -> Q -> Q.

(** [for (i = 0; i < data.length; i += 4)] with one store per colour
    channel; alpha is left untouched. *)
Fixpoint mapChannels (f : Z -> Z) (data : list Z) : list Z :=
  match data with
  | r :: g :: b :: a :: rest => f r :: f g :: f b :: a :: mapChannels f rest
  | _ => data
  end.

Definition toGrayscale (data : list Z) : list Z :=
  Filters.mapPixels
    (fun r g b =>
       Js.clamp8 (Filters.luminosity (inject_Z r) (inject_Z g) (inject_Z b)))
    data.

Definition applyContrast (data : list Z) (width height : Z) (level : Q) : list Z :=
  let blackCutoff := Js.fmul 3 level in
  let whiteCutoff := Js.fadd 3 (Js.fmul 9 level) in
  let hist := Filters.histogram (Filters.grays data) in
  let totalPixels := inject_Z (width * height) in
  let blackThreshold := Js.fdiv (Js.fmul totalPixels blackCutoff) 100 in
  let whiteThreshold := Js.fdiv (Js.fmul totalPixels whiteCutoff) 100 in
  let blackPoint := Filters.findBlackPoint 256 hist blackThreshold 0 0 in
  let whitePoint := Filters.findWhitePoint 256 hist whiteThreshold 255 0 in
  let range := whitePoint - blackPoint in
  if 0 <? range then
    mapChannels
      (fun val => Js.clamp8 (Filters.stretch blackPoint range (inject_Z val)))
      data
  else data.

Definition applyInvert (data : list Z) : list Z :=
  mapChannels (fun v => 255 - v) data.

(** [lut[v]]; outside the table the read is [undefined], stored as 0. *)
Definition lutAt (gamma : Q) (v : Z) : Z :=
  if (0 <=? v) && (v <? 256) then Filters.gammaLut Math_pow gamma v else 0.



(** The stage with the gamma table applied to every colour channel
    after the contrast stretch, and the stage without the table. *)
Definition stretched (data : list Z) (targetWidth newHeight : Z)
    (options : ConversionOptions) : list Z :=
  if Js.Qltb 0 (contrast options)
  then applyContrast data targetWidth newHeight (contrast options) else data.

Definition inverted (data : list Z) (options : ConversionOptions) : list Z :=
  if invert options then applyInvert data else data.

Definition gammaCorrected (data : list Z) (targetWidth newHeight : Z)
    (options : ConversionOptions) : list Z :=
  toGrayscale
    (inverted
       (mapChannels (lutAt (gamma options))
          (stretched data targetWidth newHeight options))
       options).

Definition notGammaCorrected (data : list Z) (targetWidth newHeight : Z)
    (options : ConversionOptions) : list Z :=
  toGrayscale (inverted (stretched data targetWidth newHeight options) options).

End WithPow.

End CanvasFilters.

(** ** Dithering *)

(** The quantizer written inline in every diffusion loop: two levels
    for 1-bit output, four for 2-bit. *)
Definition quantize (is2bit : bool) (oldVal : Q) : Z :=
  if is2bit then
    if Js.Qltb oldVal 42 then 0
    else if Js.Qltb oldVal 127 then 85
    else if Js.Qltb oldVal 212 then 170
    else 255
  else if Js.Qltb oldVal 128 then 0 else 255.

(** [data[i] += d] on a [Float32Array]. *)
Definition addAt (data : list Q) (i : nat) (d : Q) : list Q :=
  match data !! i with
  | Some v => <[ i := (v + d)%Q ]> data
  | None => data
  end.

(** [const data = new Float32Array(width * height);
     for (i...) data[i] = pixels[i * 4]] *)
Definition initBuffer (pixels : list Z) (width height : nat) : list Q :=
  map (fun i => inject_Z (default 0 (pixels !! (i * 4)%nat)))
      (seq 0 (width * height)).

(** [pixels[i*4] = pixels[i*4+1] = pixels[i*4+2] = clamp(data[i])] *)
Definition writeBack (pixels : list Z) (data : list Q) : list Z :=
  foldl (fun pixels i =>
           let val := Js.clamp8 (Js.Math_maxQ 0 (Js.Math_minQ 255 (default 0%Q (data !! i)))) in
           <[ (i * 4 + 2)%nat := val ]>
             (<[ (i * 4 + 1)%nat := val ]> (<[ (i * 4)%nat := val ]> pixels)))
        pixels (seq 0 (length data)).

(** One turn of the Floyd-Steinberg double loop at pixel [(x, y)].
    [term err k] is the amount added to a neighbour of weight [k]; the
    two versions of the function differ only there. *)
Definition floydSteinbergStep (term : Q -> Q -> Q) (width height : nat)
    (is2bit : bool) (data : list Q) (y x : nat) : list Q :=
  let stride := width in
  let idx := (y * stride + x)%nat in
  match data !! idx with
  | None => data
  | Some oldVal =>
      let newVal := inject_Z (quantize is2bit oldVal) in
      let data := <[ idx := newVal ]> data in
      let err := (oldVal - newVal)%Q in
      let data :=
        if (x + 1 <? width)%nat then addAt data (idx + 1)%nat (term err 7%Q) else data in
      if (y + 1 <? height)%nat then
        let data :=
          if (0 <? x)%nat then addAt data (idx + stride - 1)%nat (term err 3%Q) else data in
        let data := addAt data (idx + stride)%nat (term err 5%Q) in
        if (x + 1 <? width)%nat then addAt data (idx + stride + 1)%nat (term err 1%Q)
        else data
      else data
  end.

Definition floydSteinbergLoop (term : Q -> Q -> Q) (width height : nat)
    (is2bit : bool) (data : list Q) : list Q :=
  foldl (fun data y =>
           foldl (fun data x => floydSteinbergStep term width height is2bit data y x)
                 data (seq 0 width))
        data (seq 0 height).

(** *** src/lib/processing/dithering.ts (also xtc_converter.js) *)

Module Dithering.

Definition thresholdValue (is2bit : bool) (val : Z) : Z :=
  if is2bit then
    if val <? 42 then 0
    else if val <? 127 then 1
    else if val <? 212 then 2
    else 255
  else if val <? 128 then 0 else 255.

Fixpoint applyThreshold (data : list Z) (is2bit : bool) : list Z :=
  match data with
  | r :: _ :: _ :: a :: rest =>
      let val := thresholdValue is2bit r in
      val :: val :: val :: a :: applyThreshold rest is2bit
  | r :: tail =>
      let val := thresholdValue is2bit r in val :: map (fun _ => val) tail
  | [] => []
  end.

(** [data[...] += (err * k) >> 4] *)
Definition term (err k : Q) : Q := inject_Z (Js.sar (err * k) 4).

Definition applyFloydSteinberg (pixels : list Z) (width height : nat)
    (is2bit : bool) : list Z :=
  writeBack pixels
    (floydSteinbergLoop term width height is2bit (initBuffer pixels width height)).

End Dithering.

(** *** lib/processing/dithering.ts (the optimised version used by
    [processAndEncode]) *)

Module DitheringOpt.

Definition thresholdValue (is2bit : bool) (val : Z) : Z :=
  if is2bit then
    if val <? 42 then 0
    else if val <? 127 then 85
    else if val <? 212 then 170
    else 255
  else if val <? 128 then 0 else 255.

Fixpoint applyThreshold (data : list Z) (is2bit : bool) : list Z :=
  match data with
  | r :: _ :: _ :: a :: rest =>
      let val := thresholdValue is2bit r in
      val :: val :: val :: a :: applyThreshold rest is2bit
  | r :: tail =>
      let val := thresholdValue is2bit r in val :: map (fun _ => val) tail
  | [] => []
  end.

(** [data[...] += (err * k) / 16] *)
Definition term (err k : Q) : Q := (err * k / 16)%Q.

Definition applyFloydSteinberg (pixels : list Z) (width height : nat)
    (is2bit : bool) : list Z :=
  writeBack pixels
    (floydSteinbergLoop term width height is2bit (initBuffer pixels width height)).

End DitheringOpt.

(** ** Errors, byte buffers, DataView and typed arrays *)

Inductive error :=
| RangeError       (* a DataView access or a typed-array view out of bounds *)
| InvalidMagic     (* [throw new Error('Invalid ...: bad magic number')] *)
| IndexSizeError.  (* [createImageData] with a zero dimension *)

Inductive result (A : Type) :=
| Ok (a : A)
| Err (e : error).

Arguments Ok {A} a.
Arguments Err {A} e.

Definition bind {A B} (r : result A) (k : A -> result B) : result B :=
  match r with
  | Ok a => k a
  | Err e => Err e
  end.

Notation "'let*' x := r 'in' k" := (bind r (fun x => k))
  (at level 10, x name, r at level 100, k at level 200).

Fixpoint mapM {A B} (f : A -> result B) (l : list A) : result (list B) :=
  match l with
  | [] => Ok []
  | a :: rest =>
      let* b := f a in
      let* bs := mapM f rest in
      Ok (b :: bs)
  end.

(** A buffer is the list of its bytes. *)
Definition Buffer := list Z.

Definition byteLength (buffer : list Z) : Z := Z.of_nat (length buffer).

(** [Math.ceil(n / 8)] for a non-negative integer [n]. *)
Definition ceil8 (n : nat) : nat := ((n + 7) / 8)%nat.

Module DataView.

Definition inBounds (buffer : list Z) (byteOffset size : Z) : bool :=
  (0 <=? byteOffset) && (byteOffset + size <=? byteLength buffer).

Definition byteAt (buffer : list Z) (i : Z) : Z :=
  default 0 (buffer !! Z.to_nat i).

Definition getUint16 (buffer : list Z) (byteOffset : Z) : result Z :=
  if inBounds buffer byteOffset 2
  then Ok (byteAt buffer byteOffset + 256 * byteAt buffer (byteOffset + 1))
  else Err RangeError.

Definition getUint32 (buffer : list Z) (byteOffset : Z) : result Z :=
  if inBounds buffer byteOffset 4
  then Ok (byteAt buffer byteOffset
           + 256 * byteAt buffer (byteOffset + 1)
           + 65536 * byteAt buffer (byteOffset + 2)
           + 16777216 * byteAt buffer (byteOffset + 3))
  else Err RangeError.

(** The little-endian bytes of the low [8 * n] bits of [v]. *)
Fixpoint bytesLE (n : nat) (v : Z) : list Z :=
  match n with
  | O => []
  | S n' => v mod 256 :: bytesLE n' (v / 256)
  end.

Definition overwrite (buffer : list Z) (offset : nat) (bytes : list Z) : list Z :=
  take offset buffer ++ bytes ++ drop (offset + length bytes) buffer.

Definition setUint (n : nat) (buffer : list Z) (byteOffset v : Z)
    : result (list Z) :=
  if inBounds buffer byteOffset (Z.of_nat n)
  then Ok (overwrite buffer (Z.to_nat byteOffset) (bytesLE n v))
  else Err RangeError.

Definition setUint8 := setUint 1.
Definition setUint16 := setUint 2.
Definition setUint32 := setUint 4.

End DataView.

Module Uint8Array.

(** [new Uint8Array(buffer, byteOffset, length)] *)
Definition view (buffer : list Z) (byteOffset len : Z) : result (list Z) :=
  if (0 <=? len) && DataView.inBounds buffer byteOffset len
  then Ok (take (Z.to_nat len) (drop (Z.to_nat byteOffset) buffer))
  else Err RangeError.

(** [target.set(source, offset)] *)
Definition set (target source : list Z) (offset : Z) : result (list Z) :=
  if DataView.inBounds target offset (byteLength source)
  then Ok (DataView.overwrite target (Z.to_nat offset) source)
  else Err RangeError.

(** [arr[i] |= mask]; a store outside the array is ignored. *)
Definition orAt (arr : list Z) (i : nat) (mask : Z) : list Z :=
  match arr !! i with
  | Some b => <[ i := Js.u8 (Z.lor b mask) ]> arr
  | None => arr
  end.

(** [arr[i] = v] for an [i] that may be outside the array. *)
Definition store (arr : list Z) (i : nat) (v : Z) : list Z :=
  <[ i := Js.u8 v ]> arr.

End Uint8Array.

(** [buffer.slice(begin, end)] for non-negative [begin], [end]: both
    ends are clamped to the buffer. *)
Definition slice (buffer : list Z) (begin_ end_ : Z) : list Z :=
  let len := byteLength buffer in
  let first := Z.min begin_ len in
  let final := Z.min end_ len in
  take (Z.to_nat (Z.max (final - first) 0)) (drop (Z.to_nat first) buffer).

(** [for (a = 0; a < A; a++) for (b = 0; b < B; b++) s = step s a b] *)
Definition loop2 {S} (A B : nat) (step : S -> nat -> nat -> S) (s : S) : S :=
  foldl (fun s a => foldl (fun s b => step s a b) s (seq 0 B)) s (seq 0 A).

Record ImageData := {
  img_width : nat;
  img_height : nat;
  img_data : list Z
}.

(** ** Chunk packers and container writer (lib/xtc-format.ts) *)

Module XtcFormat.

Definition HEADER_BASE_SIZE := 48.
Definition TOC_OFFSET_PTR_SIZE := 8.
Definition HEADER_WITH_METADATA_SIZE := HEADER_BASE_SIZE + TOC_OFFSET_PTR_SIZE.
Definition INDEX_ENTRY_SIZE := 16.
Definition TITLE_SIZE := 128.
Definition AUTHOR_SIZE := 64.
Definition PUBLISHER_SIZE := 32.
Definition LANGUAGE_SIZE := 16.
Definition TOC_HEADER_SIZE := 16.
Definition TOC_ENTRY_SIZE := 96.
Definition TOC_TITLE_SIZE := 80.
Definition FLAG_HAS_METADATA_LOW := 0x01000100.
Definition FLAG_HAS_METADATA_HIGH := 0x00000001.

(** [setBigUint64(view, offset, value)]: two 32-bit halves. *)
Definition setBigUint64 (view : list Z) (offset value : Z) : result (list Z) :=
  let low := Z.land value 0xFFFFFFFF in
  let high := Z.shiftr value 32 in
  let* view := DataView.setUint32 view offset low in
  DataView.setUint32 view (offset + 4) high.

(** *** imageDataToXtg *)

(** [data[idx] >= 128], false for a missing element. *)
Definition xtgBit (imageData : ImageData) (y x : nat) : bool :=
  let idx := ((y * img_width imageData + x) * 4)%nat in
  match img_data imageData !! idx with
  | Some v => 128 <=? v
  | None => false
  end.

Definition xtgPixelData (imageData : ImageData) : list Z :=
  let w := img_width imageData in
  let h := img_height imageData in
  let rowBytes := ceil8 w in
  loop2 h w
    (fun pixelData y x =>
       let byteIndex := (y * rowBytes + x / 8)%nat in
       let bitIndex := 7 - Z.of_nat (x mod 8) in
       if xtgBit imageData y x
       then Uint8Array.orAt pixelData byteIndex (Z.shiftl 1 bitIndex)
       else pixelData)
    (replicate (rowBytes * h) 0).

(** [md5digest[i] = pixelData[i]] for [i < Math.min(8, pixelData.length)] *)
Definition xtgDigest (pixelData : list Z) : list Z :=
  take 8 pixelData ++ replicate (8 - length pixelData) 0.

(** The first 14 bytes of the 22-byte chunk header: magic, width,
    height, colour mode, compression, payload length. *)
Definition writeChunkHeader (buffer magic : list Z) (w h payloadLength : nat)
    : result (list Z) :=
  let uint8 :=
    foldl (fun uint8 i => Uint8Array.store uint8 i (default 0 (magic !! i)))
          buffer (seq 0 4) in
  let* view := DataView.setUint16 uint8 4 (Z.of_nat w) in
  let* view := DataView.setUint16 view 6 (Z.of_nat h) in
  let* view := DataView.setUint8 view 8 0 in
  let* view := DataView.setUint8 view 9 0 in
  DataView.setUint32 view 10 (Z.of_nat payloadLength).

Definition imageDataToXtg (imageData : ImageData) : result (list Z) :=
  let w := img_width imageData in
  let h := img_height imageData in
  let pixelData := xtgPixelData imageData in
  let md5digest := xtgDigest pixelData in
  let headerSize := 22%nat in
  let totalSize := (headerSize + length pixelData)%nat in
  let buffer := replicate totalSize 0 in
  let* view :=
    writeChunkHeader buffer [0x58; 0x54; 0x47; 0x00] w h (length pixelData) in
  let* uint8 := Uint8Array.set view md5digest 14 in
  Uint8Array.set uint8 pixelData (Z.of_nat headerSize).

(** *** imageDataToXth *)

Definition xthVal (imageData : ImageData) (x y : nat) : Z :=
  let idx := ((y * img_width imageData + x) * 4)%nat in
  match img_data imageData !! idx with
  | Some gray =>
      if 212 <=? gray then 0
      else if 127 <=? gray then 1
      else if 42 <=? gray then 2
      else 3
  | None => 3
  end.

Definition xthPlanes (imageData : ImageData) : list Z * list Z :=
  let w := img_width imageData in
  let h := img_height imageData in
  let colBytes := ceil8 h in
  let planeSize := (colBytes * w)%nat in
  loop2 w h
    (fun '(p0, p1) x y =>
       let targetCol := (w - 1 - x)%nat in
       let colOffset := (targetCol * colBytes)%nat in
       let val := xthVal imageData x y in
       let byteIdx := (colOffset + y / 8)%nat in
       let bitIdx := 7 - Z.of_nat (y mod 8) in
       let p0 :=
         if negb (Z.land val 1 =? 0)
         then Uint8Array.orAt p0 byteIdx (Z.shiftl 1 bitIdx) else p0 in
       let p1 :=
         if negb (Z.land val 2 =? 0)
         then Uint8Array.orAt p1 byteIdx (Z.shiftl 1 bitIdx) else p1 in
       (p0, p1))
    (replicate planeSize 0, replicate planeSize 0).

(** [for (let i = 0; i < 8; i++) uint8[14 + i] = p0[i] ^ p1[i]]; a
    missing element is [undefined] and counts as 0. *)
Definition xthDigest (uint8 p0 p1 : list Z) : list Z :=
  foldl (fun uint8 i =>
           Uint8Array.store uint8 (14 + i)
             (Z.lxor (default 0 (p0 !! i)) (default 0 (p1 !! i))))
        uint8 (seq 0 8).

Definition imageDataToXth (imageData : ImageData) : result (list Z) :=
  let w := img_width imageData in
  let h := img_height imageData in
  let colBytes := ceil8 h in
  let planeSize := (colBytes * w)%nat in
  let '(p0, p1) := xthPlanes imageData in
  let headerSize := 22%nat in
  let totalSize := (headerSize + planeSize * 2)%nat in
  let buffer := replicate totalSize 0 in
  let* view :=
    writeChunkHeader buffer [0x58; 0x54; 0x48; 0x00] w h (planeSize * 2) in
  let uint8 := xthDigest view p0 p1 in
  let* uint8 := Uint8Array.set uint8 p0 (Z.of_nat headerSize) in
  Uint8Array.set uint8 p1 (Z.of_nat (headerSize + planeSize)).

Definition getXtcPageSize (width height : nat) (is2bit : bool) : nat :=
  if is2bit then
    let colBytes := ceil8 height in
    let planeSize := (colBytes * width)%nat in
    (22 + planeSize * 2)%nat
  else
    let rowBytes := ceil8 width in
    (22 + rowBytes * height)%nat.

(** [buffer = options.is2bit ? imageDataToXth(imageData)
                             : imageDataToXtg(imageData)] *)
Definition encodeImageData (is2bit : bool) (imageData : ImageData)
    : result (list Z) :=
  if is2bit then imageDataToXth imageData else imageDataToXtg imageData.

(** *** Metadata block and container *)

Record BookMetadata := {
  meta_title : option string;
  meta_author : option string;
  meta_publisher : option string;
  meta_language : option string;
  createTime : option Z;
  coverPage : option Z;
  toc : list Converter.TocEntry
}.

Record XtcBuildOptions := {
  metadata : option BookMetadata;
  build_is2bit : bool
}.

(** [new TextEncoder().encode(s)]: a string is kept as its UTF-8 bytes. *)
Definition encode (s : string) : list Z :=
  map (fun c => Z.of_nat (Ascii.nat_of_ascii c)) (list_ascii_of_string s).

(** Truthiness of an optional string: present and not empty. *)
Definition truthy (s : option string) : bool :=
  match s with
  | Some (String _ _) => true
  | _ => false
  end.

(** [if (field) { bytes = encoder.encode(field);
      len = Math.min(bytes.length, size - 1);
      uint8.set(bytes.subarray(0, len), currentOffset) }] *)
Definition writeText (uint8 : list Z) (field : option string)
    (size currentOffset : Z) : result (list Z) :=
  match field with
  | Some (String _ _ as text) =>
      let bytes := encode text in
      let len := Z.min (byteLength bytes) (size - 1) in
      Uint8Array.set uint8 (take (Z.to_nat len) bytes) currentOffset
  | _ => Ok uint8
  end.

(** [Date_now] is the reading of [Date.now()], in milliseconds. *)
Definition writeTocHeader (Date_now : Z) (view : list Z)
    (offset chapterCount : Z) (coverPage createTime : option Z)
    : result (list Z) :=
  let timestamp :=
    match createTime with
    | Some t => if t =? 0 then Js.Math_floor (inject_Z Date_now / 1000) else t
    | None => Js.Math_floor (inject_Z Date_now / 1000)
    end in
  let* view := DataView.setUint32 view offset timestamp in
  let* view :=
    DataView.setUint16 view (offset + 4)
      (match coverPage with Some c => c | None => 0xFFFF end) in
  DataView.setUint16 view (offset + 6) chapterCount.

Fixpoint writeTocEntries (uint8 : list Z) (offset : Z)
    (toc : list Converter.TocEntry) : result (list Z) :=
  match toc with
  | [] => Ok uint8
  | entry :: rest =>
      let entryOffset := offset in
      let titleBytes := encode (Converter.title entry) in
      let titleLen := Z.min (byteLength titleBytes) (TOC_TITLE_SIZE - 1) in
      let* uint8 :=
        Uint8Array.set uint8 (take (Z.to_nat titleLen) titleBytes) entryOffset in
      let* view :=
        DataView.setUint16 uint8 (entryOffset + TOC_TITLE_SIZE)
          (Converter.startPage entry) in
      let* view :=
        DataView.setUint16 view (entryOffset + TOC_TITLE_SIZE + 2)
          (Converter.endPage entry) in
      writeTocEntries view (entryOffset + TOC_ENTRY_SIZE) rest
  end.

Definition writeMetadata (Date_now : Z) (uint8 : list Z) (offset : Z)
    (metadata : BookMetadata) : result (list Z) :=
  let currentOffset := offset in
  let* uint8 := writeText uint8 (meta_title metadata) TITLE_SIZE currentOffset in
  let currentOffset := currentOffset + TITLE_SIZE in
  let* uint8 := writeText uint8 (meta_author metadata) AUTHOR_SIZE currentOffset in
  let currentOffset := currentOffset + AUTHOR_SIZE in
  let* uint8 := writeText uint8 (meta_publisher metadata) PUBLISHER_SIZE currentOffset in
  let currentOffset := currentOffset + PUBLISHER_SIZE in
  let* uint8 := writeText uint8 (meta_language metadata) LANGUAGE_SIZE currentOffset in
  let currentOffset := currentOffset + LANGUAGE_SIZE in
  let* view :=
    writeTocHeader Date_now uint8 currentOffset (Z.of_nat (length (toc metadata)))
      (coverPage metadata) (createTime metadata) in
  let currentOffset := currentOffset + TOC_HEADER_SIZE in
  if (0 <? length (toc metadata))%nat
  then writeTocEntries view currentOffset (toc metadata)
  else Ok view.

Definition hasMetadata (options : XtcBuildOptions) : bool :=
  match metadata options with
  | Some m =>
      truthy (meta_title m) || truthy (meta_author m)
      || truthy (meta_publisher m) || truthy (meta_language m)
      || (0 <? length (toc m))%nat
  | None => false
  end.

(** The index loop of [buildXtcFromBuffers]: one 16-byte entry per
    chunk, with the chunk's own width and height. *)
Fixpoint writeIndex (view : list Z) (entryOffset relOffset : Z)
    (xtgBlobs : list (list Z)) : result (list Z) :=
  match xtgBlobs with
  | [] => Ok view
  | blob :: rest =>
      let* w := DataView.getUint16 blob 4 in
      let* h := DataView.getUint16 blob 6 in
      let* view := setBigUint64 view entryOffset relOffset in
      let* view := DataView.setUint32 view (entryOffset + 8) (byteLength blob) in
      let* view := DataView.setUint16 view (entryOffset + 12) w in
      let* view := DataView.setUint16 view (entryOffset + 14) h in
      writeIndex view (entryOffset + INDEX_ENTRY_SIZE)
        (relOffset + byteLength blob) rest
  end.

Fixpoint writeData (uint8 : list Z) (writeOffset : Z)
    (xtgBlobs : list (list Z)) : result (list Z) :=
  match xtgBlobs with
  | [] => Ok uint8
  | blob :: rest =>
      let* uint8 := Uint8Array.set uint8 blob writeOffset in
      writeData uint8 (writeOffset + byteLength blob) rest
  end.

Definition buildXtcFromBuffers (Date_now : Z) (xtgBlobs : list (list Z))
    (options : XtcBuildOptions) : result (list Z) :=
  let is2bit := build_is2bit options in
  let pageCount := Z.of_nat (length xtgBlobs) in
  let hasMetadata := hasMetadata options in
  let tocLength :=
    match metadata options with Some m => Z.of_nat (length (toc m)) | None => 0 end in
  let metadataSize :=
    if hasMetadata then
      TITLE_SIZE + AUTHOR_SIZE + PUBLISHER_SIZE + LANGUAGE_SIZE + TOC_HEADER_SIZE
      + (if 0 <? tocLength then tocLength * TOC_ENTRY_SIZE else 0)
    else 0 in
  let tocEntriesOffset :=
    if hasMetadata then
      HEADER_WITH_METADATA_SIZE + TITLE_SIZE + AUTHOR_SIZE + PUBLISHER_SIZE
      + LANGUAGE_SIZE + TOC_HEADER_SIZE
    else 0 in
  let headerSize :=
    if hasMetadata then HEADER_WITH_METADATA_SIZE else HEADER_BASE_SIZE in
  let metadataOffset := if hasMetadata then HEADER_WITH_METADATA_SIZE else 0 in
  let indexOffset := headerSize + metadataSize in
  let dataOffset := indexOffset + pageCount * INDEX_ENTRY_SIZE in
  let totalSize := fold_left (fun t blob => t + byteLength blob) xtgBlobs dataOffset in
  let buffer := replicate (Z.to_nat totalSize) 0 in
  let magic := if is2bit then [0x58; 0x54; 0x43; 0x48] else [0x58; 0x54; 0x43; 0x00] in
  let uint8 :=
    foldl (fun uint8 i => Uint8Array.store uint8 i (default 0 (magic !! i)))
          buffer (seq 0 4) in
  let* view := DataView.setUint16 uint8 4 1 in
  let* view := DataView.setUint16 view 6 pageCount in
  let* view :=
    DataView.setUint32 view 8 (if hasMetadata then FLAG_HAS_METADATA_LOW else 0) in
  let* view :=
    DataView.setUint32 view 12 (if hasMetadata then FLAG_HAS_METADATA_HIGH else 0) in
  let* view := setBigUint64 view 16 metadataOffset in
  let* view := setBigUint64 view 24 indexOffset in
  let* view := setBigUint64 view 32 dataOffset in
  let* view := setBigUint64 view 40 0 in
  let* view :=
    if hasMetadata then setBigUint64 view 48 tocEntriesOffset else Ok view in
  let* view :=
    match metadata options with
    | Some m =>
        if hasMetadata
        then writeMetadata Date_now view HEADER_WITH_METADATA_SIZE m
        else Ok view
    | None => Ok view
    end in
  let* view := writeIndex view indexOffset dataOffset xtgBlobs in
  writeData view dataOffset xtgBlobs.


(** A 3x2 XTG chunk. *)
Definition exampleChunk : list Z :=
  [88; 84; 71; 0; 3; 0; 2; 0; 0; 0; 2; 0; 0; 0; 160; 32; 0; 0; 0; 0; 0; 0; 160; 32].

Definition exampleMetadata (ct : option Z) : BookMetadata :=
  {| meta_title := Some "T"%string; meta_author := None; meta_publisher := None;
     meta_language := None; createTime := ct; coverPage := None;
     toc := [ {| Converter.title := "A"; Converter.startPage := 1;
                 Converter.endPage := 1 |} ] |}.

Definition exampleBuildOptions (ct : option Z) : XtcBuildOptions :=
  {| metadata := Some (exampleMetadata ct); build_is2bit := false |}.

End XtcFormat.

(** ** Container reader (src/lib/xtc-reader.ts) *)

(** ** [TextDecoder] (the UTF-8 decoder of the Encoding standard)

    [new TextDecoder('utf-8').decode(bytes)].  The decoded string is
    kept as its UTF-8 bytes: a well-formed sequence decodes to a code
    point that encodes to the same bytes (the bounds on the second byte
    exclude over-long forms, surrogates and code points above
    U+10FFFF), every error gives U+FFFD, and a byte order mark at the
    start of the text is dropped. *)

Module TextDecoder.

(** The bytes of U+FFFD and of U+FEFF. *)
Definition replacement : list Z := [239; 191; 189].
Definition byteOrderMark : list Z := [239; 187; 191].

(** The decoder's state between two characters: [need] continuation
    bytes are still expected, [pending] holds the bytes of the
    character seen so far, and the next byte must lie in
    [[lower, upper]]. *)
Record State := {
  need : nat;
  pending : list Z;
  lower : Z;
  upper : Z
}.

Definition initial : State :=
  {| need := 0; pending := []; lower := 0x80; upper := 0xBF |}.

Definition inRange (lo hi b : Z) : bool := (lo <=? b) && (b <=? hi).

(** A byte met when no continuation byte is expected: what is emitted
    and the next state. *)
Definition start (b : Z) : list Z * State :=
  if inRange 0x00 0x7F b then ([b], initial)
  else if inRange 0xC2 0xDF b then
    ([], {| need := 1; pending := [b]; lower := 0x80; upper := 0xBF |})
  else if inRange 0xE0 0xEF b then
    ([], {| need := 2; pending := [b];
            lower := if b =? 0xE0 then 0xA0 else 0x80;
            upper := if b =? 0xED then 0x9F else 0xBF |})
  else if inRange 0xF0 0xF4 b then
    ([], {| need := 3; pending := [b];
            lower := if b =? 0xF0 then 0x90 else 0x80;
            upper := if b =? 0xF4 then 0x8F else 0xBF |})
  else (replacement, initial).

(** The handler, byte by byte.  A byte outside the expected range ends
    the character with an error and is read again from the initial
    state. *)
Fixpoint run (st : State) (bytes : list Z) : list Z :=
  match bytes with
  | [] => match need st with O => [] | S _ => replacement end
  | b :: rest =>
      match need st with
      | O => let '(out, st') := start b in out ++ run st' rest
      | S n =>
          if inRange (lower st) (upper st) b then
            match n with
            | O => (pending st ++ [b]) ++ run initial rest
            | S _ =>
                run {| need := n; pending := pending st ++ [b];
                       lower := 0x80; upper := 0xBF |} rest
            end
          else
            let '(out, st') := start b in replacement ++ out ++ run st' rest
      end
  end.

Definition dropByteOrderMark (text : list Z) : list Z :=
  match text with
  | 239 :: 187 :: 191 :: rest => rest
  | _ => text
  end.

Definition decode (bytes : list Z) : list Z :=
  dropByteOrderMark (run initial bytes).

End TextDecoder.

(** Well-formed UTF-8 (table 3-7 of the Unicode standard), which is
    what [TextEncoder.encode] returns for every string. *)

Module Utf8.

Definition cont (b : Z) : bool := TextDecoder.inRange 0x80 0xBF b.

Fixpoint wellFormed (bytes : list Z) : bool :=
  match bytes with
  | [] => true
  | b1 :: rest =>
      if TextDecoder.inRange 0x00 0x7F b1 then wellFormed rest
      else
        match rest with
        | [] => false
        | b2 :: rest2 =>
            if TextDecoder.inRange 0xC2 0xDF b1 then cont b2 && wellFormed rest2
            else
              match rest2 with
              | [] => false
              | b3 :: rest3 =>
                  if TextDecoder.inRange 0xE0 0xEF b1 then
                    TextDecoder.inRange (if b1 =? 0xE0 then 0xA0 else 0x80)
                                        (if b1 =? 0xED then 0x9F else 0xBF) b2
                    && cont b3 && wellFormed rest3
                  else
                    match rest3 with
                    | [] => false
                    | b4 :: rest4 =>
                        TextDecoder.inRange 0xF0 0xF4 b1
                        && TextDecoder.inRange (if b1 =? 0xF0 then 0x90 else 0x80)
                                               (if b1 =? 0xF4 then 0x8F else 0xBF) b2
                        && cont b3 && cont b4 && wellFormed rest4
                    end
              end
        end
  end.

Definition hasByteOrderMark (bytes : list Z) : bool :=
  match bytes with
  | 239 :: 187 :: 191 :: _ => true
  | _ => false
  end.

(** Text that a NUL-terminated field can hold as it is: well-formed,
    without a NUL character and without a byte order mark in front. *)
Definition plain (bytes : list Z) : bool :=
  wellFormed bytes && forallb (fun b => negb (b =? 0)) bytes
  && negb (hasByteOrderMark bytes).

End Utf8.

Module XtcReader.

Record XtcHeader := {
  hdr_is2bit : bool;
  hdr_version : Z;
  hdr_pageCount : Z;
  hdr_hasMetadata : bool;
  hdr_metadataOffset : Z;
  hdr_indexOffset : Z;
  hdr_dataOffset : Z;
  hdr_tocOffset : Z
}.

Record XtcIndexEntry := {
  entry_offset : Z;
  entry_size : Z;
  entry_width : Z;
  entry_height : Z
}.

(** Decoded text is kept as its UTF-8 bytes. *)
Record ParsedTocEntry := {
  ptoc_title : list Z;
  ptoc_startPage : Z;
  ptoc_endPage : Z
}.

Record ParsedMetadata := {
  pm_title : option (list Z);
  pm_author : option (list Z);
  pm_publisher : option (list Z);
  pm_language : option (list Z);
  pm_createTime : option Z;
  pm_coverPage : option Z;
  pm_toc : list ParsedTocEntry
}.

Record ParsedXtc := {
  header : XtcHeader;
  parsed_metadata : ParsedMetadata;
  entries : list XtcIndexEntry;
  pageData : list (list Z)
}.

(** [String.fromCharCode(uint8[0], uint8[1], uint8[2]) === c0 c1 c2]; a
    missing byte gives the character of code 0. *)
Definition magicIs (c0 c1 c2 : Z) (uint8 : list Z) : bool :=
  (default 0 (uint8 !! 0%nat) =? c0)
  && (default 0 (uint8 !! 1%nat) =? c1)
  && (default 0 (uint8 !! 2%nat) =? c2).

Definition getBigUint64 (view : list Z) (offset : Z) : result Z :=
  let* low := DataView.getUint32 view offset in
  let* high := DataView.getUint32 view (offset + 4) in
  Ok (low + Z.shiftl high 32).

Definition parseXtcHeader (view : list Z) : result XtcHeader :=
  let* uint8 := Uint8Array.view view 0 4 in
  let is2bit :=
    (default 0 (uint8 !! 3%nat) =? 0x48) || (default 0 (uint8 !! 3%nat) =? 0x68) in
  if negb (magicIs 0x58 0x54 0x43 uint8) then Err InvalidMagic
  else
    let* flagsLow := DataView.getUint32 view 8 in
    let hasMetadata := negb (flagsLow =? 0) in
    let* version := DataView.getUint16 view 4 in
    let* pageCount := DataView.getUint16 view 6 in
    let* metadataOffset := getBigUint64 view 16 in
    let* indexOffset := getBigUint64 view 24 in
    let* dataOffset := getBigUint64 view 32 in
    let* tocOffset :=
      if hasMetadata && (56 <=? byteLength view)
      then getBigUint64 view 48 else Ok 0 in
    Ok {| hdr_is2bit := is2bit;
          hdr_version := version;
          hdr_pageCount := pageCount;
          hdr_hasMetadata := hasMetadata;
          hdr_metadataOffset := metadataOffset;
          hdr_indexOffset := indexOffset;
          hdr_dataOffset := dataOffset;
          hdr_tocOffset := tocOffset |}.

(** [while (len < maxLength && bytes[len] !== 0) len++] *)
Fixpoint untilNul (bytes : list Z) : list Z :=
  match bytes with
  | [] => []
  | b :: rest => if b =? 0 then [] else b :: untilNul rest
  end.

Definition readNullTerminatedString (view : list Z) (offset maxLength : Z)
    : result (list Z) :=
  let* bytes := Uint8Array.view view offset maxLength in
  Ok (TextDecoder.decode (untilNul bytes)).

Definition emptyMetadata : ParsedMetadata :=
  {| pm_title := None; pm_author := None; pm_publisher := None;
     pm_language := None; pm_createTime := None; pm_coverPage := None;
     pm_toc := [] |}.

Definition parseTocEntry (view : list Z) (tocOffset : Z) (i : nat)
    : result ParsedTocEntry :=
  let entryOffset := tocOffset + Z.of_nat i * 96 in
  let* title := readNullTerminatedString view entryOffset 80 in
  let* startPage := DataView.getUint16 view (entryOffset + 80) in
  let* endPage := DataView.getUint16 view (entryOffset + 82) in
  Ok {| ptoc_title := title; ptoc_startPage := startPage; ptoc_endPage := endPage |}.

Definition parseMetadata (view : list Z) (header : XtcHeader)
    : result ParsedMetadata :=
  if negb (hdr_hasMetadata header) || (hdr_metadataOffset header =? 0)
  then Ok emptyMetadata
  else
    let metaOffset := hdr_metadataOffset header in
    let* title := readNullTerminatedString view metaOffset 128 in
    let* author := readNullTerminatedString view (metaOffset + 128) 64 in
    let* publisher := readNullTerminatedString view (metaOffset + 192) 32 in
    let* language := readNullTerminatedString view (metaOffset + 224) 16 in
    let tocHeaderOffset := metaOffset + 240 in
    let* createTime := DataView.getUint32 view tocHeaderOffset in
    let* coverPage := DataView.getUint16 view (tocHeaderOffset + 4) in
    let* chapterCount := DataView.getUint16 view (tocHeaderOffset + 6) in
    let tocOffset :=
      if negb (hdr_tocOffset header =? 0) then hdr_tocOffset header
      else tocHeaderOffset + 16 in
    let* toc := mapM (parseTocEntry view tocOffset) (seq 0 (Z.to_nat chapterCount)) in
    Ok {| pm_title := Some title; pm_author := Some author;
          pm_publisher := Some publisher; pm_language := Some language;
          pm_createTime := Some createTime; pm_coverPage := Some coverPage;
          pm_toc := toc |}.

Definition parseIndexEntry (view : list Z) (offset : Z) : result XtcIndexEntry :=
  let* off := getBigUint64 view offset in
  let* size := DataView.getUint32 view (offset + 8) in
  let* width := DataView.getUint16 view (offset + 12) in
  let* height := DataView.getUint16 view (offset + 14) in
  Ok {| entry_offset := off; entry_size := size;
        entry_width := width; entry_height := height |}.

(** [buffer.slice(offset, offset + entry.size)] *)
Definition pageSlice (buffer : list Z) (entry : XtcIndexEntry) : list Z :=
  let offset := entry_offset entry in
  slice buffer offset (offset + entry_size entry).

Definition parseXtcFile (buffer : list Z) : result ParsedXtc :=
  let view := buffer in
  let* header := parseXtcHeader view in
  let* metadata := parseMetadata view header in
  let indexOffset := hdr_indexOffset header in
  let* entries :=
    mapM (fun i : nat => parseIndexEntry view (indexOffset + Z.of_nat i * 16))
         (seq 0 (Z.to_nat (hdr_pageCount header))) in
  let pageData := map (pageSlice buffer) entries in
  Ok {| header := header; parsed_metadata := metadata;
        entries := entries; pageData := pageData |}.

(** *** decodeXtcPageToCanvas *)

(** [(plane[byteIdx] >> bitIdx) & 1]; a missing byte is [undefined] and
    gives 0. *)
Definition bitOf (plane : list Z) (byteIdx : nat) (bitIdx : Z) : Z :=
  Z.land (Z.shiftr (default 0 (plane !! byteIdx)) bitIdx) 1.

(** [data[idx] = data[idx+1] = data[idx+2] = color; data[idx+3] = 255] *)
Definition putPixel (data : list Z) (idx : nat) (color : Z) : list Z :=
  <[ (idx + 3)%nat := 255 ]>
    (<[ (idx + 2)%nat := color ]>
       (<[ (idx + 1)%nat := color ]> (<[ idx := color ]> data))).

Definition xthColor (val : Z) : Z :=
  if val =? 0 then 255
  else if val =? 1 then 170
  else if val =? 2 then 85
  else 0.

Definition decodeXtcPageToCanvas (pageBuffer : list Z) : result ImageData :=
  let view := pageBuffer in
  let uint8 := pageBuffer in
  let is2bit := magicIs 0x58 0x54 0x48 uint8 in
  if negb (magicIs 0x58 0x54 0x47 uint8) && negb (magicIs 0x58 0x54 0x48 uint8)
  then Err InvalidMagic
  else
    let* width := DataView.getUint16 view 4 in
    let* height := DataView.getUint16 view 6 in
    let headerSize := 22 in
    if (width =? 0) || (height =? 0) then Err IndexSizeError
    else
      let w := Z.to_nat width in
      let h := Z.to_nat height in
      let data := replicate (4 * w * h) 0 in
      if is2bit then
        let colBytes := ceil8 h in
        let planeSize := Z.of_nat (colBytes * w) in
        let* p0 := Uint8Array.view pageBuffer headerSize planeSize in
        let* p1 := Uint8Array.view pageBuffer (headerSize + planeSize) planeSize in
        let data :=
          loop2 w h
            (fun data x y =>
               let targetCol := (w - 1 - x)%nat in
               let colOffset := (targetCol * colBytes)%nat in
               let byteIdx := (colOffset + y / 8)%nat in
               let bitIdx := 7 - Z.of_nat (y mod 8) in
               let bit0 := bitOf p0 byteIdx bitIdx in
               let bit1 := bitOf p1 byteIdx bitIdx in
               let val := Z.lor bit0 (Z.shiftl bit1 1) in
               let color := xthColor val in
               let idx := ((y * w + x) * 4)%nat in
               putPixel data idx color)
            data in
        Ok {| img_width := w; img_height := h; img_data := data |}
      else
        let* pixelDataSize := DataView.getUint32 view 10 in
        let* pixelData := Uint8Array.view pageBuffer headerSize pixelDataSize in
        let rowBytes := ceil8 w in
        let data :=
          loop2 h w
            (fun data y x =>
               let byteIndex := (y * rowBytes + x / 8)%nat in
               let bitIndex := 7 - Z.of_nat (x mod 8) in
               let bit := bitOf pixelData byteIndex bitIndex in
               let idx := ((y * w + x) * 4)%nat in
               let color := if negb (bit =? 0) then 255 else 0 in
               putPixel data idx color)
            data in
        Ok {| img_width := w; img_height := h; img_data := data |}.

(** A 64-byte container: "XTC\0", version 1, one page, no metadata,
    index at 48, data at 64; its only index entry claims 100 bytes at
    offset 1000. *)
Definition outOfRangeContainer : list Z :=
  [88; 84; 67; 0;  1; 0;  1; 0;  0; 0; 0; 0;  0; 0; 0; 0;
   0; 0; 0; 0; 0; 0; 0; 0;   48; 0; 0; 0; 0; 0; 0; 0;
   64; 0; 0; 0; 0; 0; 0; 0;  0; 0; 0; 0; 0; 0; 0; 0;
   232; 3; 0; 0; 0; 0; 0; 0;  100; 0; 0; 0;  224; 1;  32; 3].

(** The entry's byte range lies inside [[dataOffset, fileSize)]. *)
Definition inRange (fileSize : Z) (h : XtcHeader) (e : XtcIndexEntry) : Prop :=
  hdr_dataOffset h <= entry_offset e
  /\ entry_offset e + entry_size e <= fileSize.

(** Every error that [r] can raise satisfies [P]. *)
Definition failsOnlyWith {A} (P : error -> Prop) (r : result A) : Prop :=
  forall e, r = Err e -> P e.

Definition isRangeError (e : error) : Prop := e = RangeError.

End XtcReader.

(** ** Reference definitions: the fields of a container and the reads
    that a parse makes *)

Module Fields.

Definition u16At (buffer : list Z) (o : Z) : Z :=
  DataView.byteAt buffer o + 256 * DataView.byteAt buffer (o + 1).

Definition u32At (buffer : list Z) (o : Z) : Z :=
  DataView.byteAt buffer o
  + 256 * DataView.byteAt buffer (o + 1)
  + 65536 * DataView.byteAt buffer (o + 2)
  + 16777216 * DataView.byteAt buffer (o + 3).

Definition u64At (buffer : list Z) (o : Z) : Z :=
  u32At buffer o + Z.shiftl (u32At buffer (o + 4)) 32.

(** The [size] bytes from [offset] on lie inside the buffer. *)
Definition holds (buffer : list Z) (offset size : Z) : Prop :=
  0 <= offset /\ offset + size <= byteLength buffer.

Definition pageCount (buffer : list Z) : Z := u16At buffer 6.
Definition hasMetadata (buffer : list Z) : bool := negb (u32At buffer 8 =? 0).
Definition metadataOffset (buffer : list Z) : Z := u64At buffer 16.
Definition indexOffset (buffer : list Z) : Z := u64At buffer 24.

(** The table of contents starts where the header field at 48 says,
    when the header is 56 bytes long and the field is not zero, and
    after the 16 bytes of the TOC header otherwise. *)
Definition tocOffset (buffer : list Z) : Z :=
  if (56 <=? byteLength buffer) && negb (u64At buffer 48 =? 0)
  then u64At buffer 48 else metadataOffset buffer + 256.

Definition chapterCount (buffer : list Z) : Z :=
  u16At buffer (metadataOffset buffer + 246).

(** Everything the parser reads lies inside the buffer: the 40 bytes of
    the header fields; when the header announces metadata, the 248
    bytes of the text fields and of the TOC header and the chapters (96
    bytes apart, 84 bytes read of each); 16 bytes for every page of the
    index table. *)
Definition readable (buffer : list Z) : Prop :=
  40 <= byteLength buffer
  /\ (hasMetadata buffer = true -> metadataOffset buffer <> 0 ->
      holds buffer (metadataOffset buffer) 248
      /\ (0 < chapterCount buffer ->
          holds buffer (tocOffset buffer) (96 * chapterCount buffer - 12)))
  /\ (0 < pageCount buffer ->
      holds buffer (indexOffset buffer) (16 * pageCount buffer)).

(** The [i]-th record of the index table. *)
Definition entryAt (buffer : list Z) (i : nat) : XtcReader.XtcIndexEntry :=
  let o := indexOffset buffer + Z.of_nat i * 16 in
  {| XtcReader.entry_offset := u64At buffer o;
     XtcReader.entry_size := u32At buffer (o + 8);
     XtcReader.entry_width := u16At buffer (o + 12);
     XtcReader.entry_height := u16At buffer (o + 14) |}.

End Fields.

Definition isOk {A} (r : result A) : bool :=
  match r with Ok _ => true | Err _ => false end.

(** ** Reference definitions for the loop invariants

    [(a', b')] has been visited when the double loop stands at [(a, b)]. *)
Definition lexDone (a b a' b' : nat) : Prop := (a' < a)%nat \/ (a' = a /\ (b' < b)%nat).

(** The invariant of [loop2] at [(a, b)]: visited places show their
    final observation [v], the others the initial one. *)
Definition loopInv {S O} (A B : nat) (Inv : S -> Prop) (obs : S -> nat -> nat -> O)
    (v : nat -> nat -> O) (s0 : S) (a b : nat) (s : S) : Prop :=
  Inv s
  /\ forall a' b', (a' < A)%nat -> (b' < B)%nat ->
       (lexDone a b a' b' -> obs s a' b' = v a' b')
       /\ (~ lexDone a b a' b' -> obs s a' b' = obs s0 a' b').

(** The first 14 bytes of a chunk, as [writeChunkHeader] leaves them. *)
Definition chunkHeader (magic : list Z) (w h payloadLength : nat) : list Z :=
  magic ++ DataView.bytesLE 2 (Z.of_nat w) ++ DataView.bytesLE 2 (Z.of_nat h)
  ++ [0; 0] ++ DataView.bytesLE 4 (Z.of_nat payloadLength).

(** The pixel loops of [decodeXtcPageToCanvas], for a 1-bit payload and
    for the two planes of a 2-bit payload. *)
Definition xtgDecoded (w h : nat) (pixelData : list Z) : list Z :=
  loop2 h w
    (fun data y x =>
       XtcReader.putPixel data ((y * w + x) * 4)
         (if negb (XtcReader.bitOf pixelData (y * ceil8 w + x / 8) (7 - Z.of_nat (x mod 8)) =? 0)
          then 255 else 0))
    (replicate (4 * w * h) 0).

Definition xthDecoded (w h : nat) (p0 p1 : list Z) : list Z :=
  loop2 w h
    (fun data x y =>
       XtcReader.putPixel data ((y * w + x) * 4)
         (XtcReader.xthColor
            (Z.lor (XtcReader.bitOf p0 ((w - 1 - x) * ceil8 h + y / 8) (7 - Z.of_nat (y mod 8)))
                   (Z.shiftl
                      (XtcReader.bitOf p1 ((w - 1 - x) * ceil8 h + y / 8) (7 - Z.of_nat (y mod 8)))
                      1))))
    (replicate (4 * w * h) 0).

(** *** Quantized images

    The levels a quantized image may hold. *)
Definition levels (is2bit : bool) : list Z :=
  if is2bit then [0; 85; 170; 255] else [0; 255].

(** Every pixel has a red value among the levels and R = G = B. *)
Fixpoint grayPixels (lv : list Z) (data : list Z) : bool :=
  match data with
  | [] => true
  | r :: g :: b :: _ :: rest =>
      existsb (Z.eqb r) lv && (g =? r) && (b =? r) && grayPixels lv rest
  | _ => false
  end.

(** An [ImageData] as the pipeline hands it to the packer: non-empty,
    with dimensions that fit the 16-bit fields of the chunk header, and
    four bytes per pixel. *)
Definition validImage (img : ImageData) : Prop :=
  1 <= Z.of_nat (img_width img) < 65536
  /\ 1 <= Z.of_nat (img_height img) < 65536
  /\ length (img_data img) = (4 * img_width img * img_height img)%nat.

Definition quantized (is2bit : bool) (img : ImageData) : Prop :=
  grayPixels (levels is2bit) (img_data img) = true.

Definition exampleImage1bit : ImageData :=
  {| img_width := 3; img_height := 2;
     img_data := [255; 255; 255; 255;  0; 0; 0; 255;  255; 255; 255; 255;
                  0; 0; 0; 255;  0; 0; 0; 255;  255; 255; 255; 255] |}.

Definition exampleImage2bit : ImageData :=
  {| img_width := 3; img_height := 2;
     img_data := [255; 255; 255; 255;  0; 0; 0; 255;  85; 85; 85; 255;
                  170; 170; 170; 255;  0; 0; 0; 255;  255; 255; 255; 255] |}.

(** ** Streamed header and wasm wrapper (lib/xtc-format.ts) *)

Module XtcStream.

Record StreamPageInfo := { page_width : nat; page_height : nat }.

(** The index loop of [buildXtcHeaderAndIndex]: the size of every entry
    is computed from the page's dimensions. *)
Fixpoint writeIndex (view : list Z) (entryOffset relOffset : Z) (is2bit : bool)
    (pages : list StreamPageInfo) : result (list Z) :=
  match pages with
  | [] => Ok view
  | page :: rest =>
      let pageSize :=
        Z.of_nat (XtcFormat.getXtcPageSize (page_width page) (page_height page) is2bit) in
      let* view := XtcFormat.setBigUint64 view entryOffset relOffset in
      let* view := DataView.setUint32 view (entryOffset + 8) pageSize in
      let* view := DataView.setUint16 view (entryOffset + 12) (Z.of_nat (page_width page)) in
      let* view := DataView.setUint16 view (entryOffset + 14) (Z.of_nat (page_height page)) in
      writeIndex view (entryOffset + XtcFormat.INDEX_ENTRY_SIZE)
        (relOffset + pageSize) is2bit rest
  end.

Definition buildXtcHeaderAndIndex (Date_now : Z) (pages : list StreamPageInfo)
    (options : XtcFormat.XtcBuildOptions) : result (list Z) :=
  let is2bit := XtcFormat.build_is2bit options in
  let pageCount := Z.of_nat (length pages) in
  let hasMetadata := XtcFormat.hasMetadata options in
  let tocLength :=
    match XtcFormat.metadata options with
    | Some m => Z.of_nat (length (XtcFormat.toc m))
    | None => 0
    end in
  let metadataSize :=
    if hasMetadata then
      XtcFormat.TITLE_SIZE + XtcFormat.AUTHOR_SIZE + XtcFormat.PUBLISHER_SIZE
      + XtcFormat.LANGUAGE_SIZE + XtcFormat.TOC_HEADER_SIZE
      + (if 0 <? tocLength then tocLength * XtcFormat.TOC_ENTRY_SIZE else 0)
    else 0 in
  let tocEntriesOffset :=
    if hasMetadata then
      XtcFormat.HEADER_WITH_METADATA_SIZE + XtcFormat.TITLE_SIZE
      + XtcFormat.AUTHOR_SIZE + XtcFormat.PUBLISHER_SIZE
      + XtcFormat.LANGUAGE_SIZE + XtcFormat.TOC_HEADER_SIZE
    else 0 in
  let headerSize :=
    if hasMetadata then XtcFormat.HEADER_WITH_METADATA_SIZE
    else XtcFormat.HEADER_BASE_SIZE in
  let metadataOffset :=
    if hasMetadata then XtcFormat.HEADER_WITH_METADATA_SIZE else 0 in
  let indexOffset := headerSize + metadataSize in
  let dataOffset := indexOffset + pageCount * XtcFormat.INDEX_ENTRY_SIZE in
  let headerAndIndexBuffer := replicate (Z.to_nat dataOffset) 0 in
  let magic := if is2bit then [0x58; 0x54; 0x43; 0x48] else [0x58; 0x54; 0x43; 0x00] in
  let uint8 :=
    foldl (fun uint8 i => Uint8Array.store uint8 i (default 0 (magic !! i)))
          headerAndIndexBuffer (seq 0 4) in
  let* view := DataView.setUint16 uint8 4 1 in
  let* view := DataView.setUint16 view 6 pageCount in
  let* view :=
    DataView.setUint32 view 8
      (if hasMetadata then XtcFormat.FLAG_HAS_METADATA_LOW else 0) in
  let* view :=
    DataView.setUint32 view 12
      (if hasMetadata then XtcFormat.FLAG_HAS_METADATA_HIGH else 0) in
  let* view := XtcFormat.setBigUint64 view 16 metadataOffset in
  let* view := XtcFormat.setBigUint64 view 24 indexOffset in
  let* view := XtcFormat.setBigUint64 view 32 dataOffset in
  let* view := XtcFormat.setBigUint64 view 40 0 in
  let* view :=
    if hasMetadata then XtcFormat.setBigUint64 view 48 tocEntriesOffset
    else Ok view in
  let* view :=
    match XtcFormat.metadata options with
    | Some m =>
        if hasMetadata
        then XtcFormat.writeMetadata Date_now view XtcFormat.HEADER_WITH_METADATA_SIZE m
        else Ok view
    | None => Ok view
    end in
  writeIndex view indexOffset dataOffset is2bit pages.

(** [wrapWasmData(pixelData, w, h, is2bit)]: the 22-byte chunk header
    around a payload packed elsewhere. *)
Definition wrapWasmData (pixelData : list Z) (w h : nat) (is2bit : bool)
    : result (list Z) :=
  let md5digest := XtcFormat.xtgDigest pixelData in
  let headerSize := 22%nat in
  let totalSize := (headerSize + length pixelData)%nat in
  let buffer := replicate totalSize 0 in
  let magic := if is2bit then [0x58; 0x54; 0x48; 0x00] else [0x58; 0x54; 0x47; 0x00] in
  let* view := XtcFormat.writeChunkHeader buffer magic w h (length pixelData) in
  let* uint8 := Uint8Array.set view md5digest 14 in
  Uint8Array.set uint8 pixelData (Z.of_nat headerSize).

End XtcStream.

(** ** Page extraction (src/lib/xtc-reader.ts) *)

Module XtcExtract.

Definition getXtcPageCount (buffer : list Z) : result Z :=
  let view := buffer in
  let* header := XtcReader.parseXtcHeader view in
  Ok (XtcReader.hdr_pageCount header).

(** [parsed.pageData.map(data => decodeXtcPageToCanvas(data))] *)
Definition extractXtcPages (buffer : list Z) : result (list ImageData) :=
  let* parsed := XtcReader.parseXtcFile buffer in
  mapM XtcReader.decodeXtcPageToCanvas (XtcReader.pageData parsed).

Definition extractXtcRawPages (buffer : list Z) : result (list (list Z)) :=
  let* parsed := XtcReader.parseXtcFile buffer in
  Ok (XtcReader.pageData parsed).

End XtcExtract.

(** ** Reference layout of a container

    The bytes that the container writer leaves in each region of the
    file, used to state what the reader gets back. *)

Module Layout.

(** A 64-bit field as [setBigUint64] writes it. *)
Definition u64 (v : Z) : list Z :=
  DataView.bytesLE 4 (Z.land v 0xFFFFFFFF) ++ DataView.bytesLE 4 (Z.shiftr v 32).

(** A zero-padded text field of [size] bytes holding at most [size - 1]
    bytes of text. *)
Definition textBytes (size : nat) (bytes : list Z) : list Z :=
  take (size - 1) bytes ++ replicate (size - length (take (size - 1) bytes)) 0.

Definition textField (size : nat) (field : option string) : list Z :=
  textBytes size (XtcFormat.encode (default EmptyString field)).

Definition timestamp (Date_now : Z) (createTime : option Z) : Z :=
  match createTime with
  | Some t => if t =? 0 then Js.Math_floor (inject_Z Date_now / 1000) else t
  | None => Js.Math_floor (inject_Z Date_now / 1000)
  end.

Definition tocHeaderBytes (Date_now chapterCount : Z) (coverPage createTime : option Z)
    : list Z :=
  DataView.bytesLE 4 (timestamp Date_now createTime)
  ++ DataView.bytesLE 2 (default 0xFFFF coverPage)
  ++ DataView.bytesLE 2 chapterCount ++ replicate 8 0.

Definition tocEntryBytes (entry : Converter.TocEntry) : list Z :=
  textBytes 80 (XtcFormat.encode (Converter.title entry))
  ++ DataView.bytesLE 2 (Converter.startPage entry)
  ++ DataView.bytesLE 2 (Converter.endPage entry) ++ replicate 12 0.

Definition metadataBytes (Date_now : Z) (m : XtcFormat.BookMetadata) : list Z :=
  textField 128 (XtcFormat.meta_title m)
  ++ textField 64 (XtcFormat.meta_author m)
  ++ textField 32 (XtcFormat.meta_publisher m)
  ++ textField 16 (XtcFormat.meta_language m)
  ++ tocHeaderBytes Date_now (Z.of_nat (length (XtcFormat.toc m)))
       (XtcFormat.coverPage m) (XtcFormat.createTime m)
  ++ concat (map tocEntryBytes (XtcFormat.toc m)).

(** Header size, metadata size and the two offsets that depend on them. *)
Definition metadataSection (Date_now : Z) (options : XtcFormat.XtcBuildOptions)
    : list Z :=
  match XtcFormat.metadata options with
  | Some m =>
      if XtcFormat.hasMetadata options
      then u64 312 ++ metadataBytes Date_now m
      else []
  | None => []
  end.

Definition indexOffset (options : XtcFormat.XtcBuildOptions) : Z :=
  match XtcFormat.metadata options with
  | Some m =>
      if XtcFormat.hasMetadata options
      then 312 + 96 * Z.of_nat (length (XtcFormat.toc m))
      else 48
  | None => 48
  end.

Definition dataOffset (pageCount : nat) (options : XtcFormat.XtcBuildOptions) : Z :=
  indexOffset options + 16 * Z.of_nat pageCount.

Definition headerBytes (pageCount : nat) (options : XtcFormat.XtcBuildOptions)
    : list Z :=
  let hasMetadata := XtcFormat.hasMetadata options in
  [0x58; 0x54; 0x43; if XtcFormat.build_is2bit options then 0x48 else 0x00]
  ++ DataView.bytesLE 2 1
  ++ DataView.bytesLE 2 (Z.of_nat pageCount)
  ++ DataView.bytesLE 4 (if hasMetadata then 0x01000100 else 0)
  ++ DataView.bytesLE 4 (if hasMetadata then 1 else 0)
  ++ u64 (if hasMetadata then 56 else 0)
  ++ u64 (indexOffset options)
  ++ u64 (dataOffset pageCount options)
  ++ u64 0.

(** One index entry: offset, size, width and height of a page. *)
Definition indexEntryBytes (relOffset size w h : Z) : list Z :=
  u64 relOffset ++ DataView.bytesLE 4 size
  ++ DataView.bytesLE 2 w ++ DataView.bytesLE 2 h.

(** Width and height as the 22-byte chunk header holds them. *)
Definition chunkWidth (blob : list Z) : Z :=
  DataView.byteAt blob 4 + 256 * DataView.byteAt blob 5.

Definition chunkHeight (blob : list Z) : Z :=
  DataView.byteAt blob 6 + 256 * DataView.byteAt blob 7.

Fixpoint indexBytes (relOffset : Z) (xtgBlobs : list (list Z)) : list Z :=
  match xtgBlobs with
  | [] => []
  | blob :: rest =>
      indexEntryBytes relOffset (byteLength blob) (chunkWidth blob) (chunkHeight blob)
      ++ indexBytes (relOffset + byteLength blob) rest
  end.

Definition containerBytes (Date_now : Z) (xtgBlobs : list (list Z))
    (options : XtcFormat.XtcBuildOptions) : list Z :=
  headerBytes (length xtgBlobs) options
  ++ metadataSection Date_now options
  ++ indexBytes (dataOffset (length xtgBlobs) options) xtgBlobs
  ++ concat xtgBlobs.

(** The index that [buildXtcHeaderAndIndex] writes for pages of the
    given dimensions. *)
Fixpoint streamIndexBytes (relOffset : Z) (is2bit : bool)
    (pages : list XtcStream.StreamPageInfo) : list Z :=
  match pages with
  | [] => []
  | page :: rest =>
      let pageSize :=
        Z.of_nat (XtcFormat.getXtcPageSize (XtcStream.page_width page)
                    (XtcStream.page_height page) is2bit) in
      indexEntryBytes relOffset pageSize (Z.of_nat (XtcStream.page_width page))
        (Z.of_nat (XtcStream.page_height page))
      ++ streamIndexBytes (relOffset + pageSize) is2bit rest
  end.

(** The page information the converter records for an image. *)
Definition pageInfo (imageData : ImageData) : XtcStream.StreamPageInfo :=
  {| XtcStream.page_width := img_width imageData;
     XtcStream.page_height := img_height imageData |}.

(** Two images of the same size with the same red, green and blue
    values at every pixel. *)
Definition sameRGB (a b : ImageData) : Prop :=
  img_width b = img_width a
  /\ img_height b = img_height a
  /\ length (img_data b) = length (img_data a)
  /\ forall y x c,
       (y < img_height a)%nat -> (x < img_width a)%nat -> (c < 3)%nat ->
       img_data b !! ((y * img_width a + x) * 4 + c)%nat
       = img_data a !! ((y * img_width a + x) * 4 + c)%nat.

Definition containerSize (xtgBlobs : list (list Z))
    (options : XtcFormat.XtcBuildOptions) : Z :=
  dataOffset (length xtgBlobs) options + Z.of_nat (length (concat xtgBlobs)).

(** The index entries a reader finds for chunks stored from [relOffset]. *)
Fixpoint indexEntries (relOffset : Z) (xtgBlobs : list (list Z))
    : list XtcReader.XtcIndexEntry :=
  match xtgBlobs with
  | [] => []
  | blob :: rest =>
      {| XtcReader.entry_offset := relOffset;
         XtcReader.entry_size := byteLength blob;
         XtcReader.entry_width := chunkWidth blob mod 65536;
         XtcReader.entry_height := chunkHeight blob mod 65536 |}
      :: indexEntries (relOffset + byteLength blob) rest
  end.

(** A text field as the reader returns it: cut at [size - 1] bytes and
    at the first NUL. *)
Definition readText (size : nat) (field : option string) : list Z :=
  TextDecoder.decode
    (XtcReader.untilNul
       (take (size - 1) (XtcFormat.encode (default EmptyString field)))).

Definition readTocEntry (entry : Converter.TocEntry) : XtcReader.ParsedTocEntry :=
  {| XtcReader.ptoc_title :=
       TextDecoder.decode
         (XtcReader.untilNul (take 79 (XtcFormat.encode (Converter.title entry))));
     XtcReader.ptoc_startPage := Converter.startPage entry mod 65536;
     XtcReader.ptoc_endPage := Converter.endPage entry mod 65536 |}.

(** The table of contents holds as many entries as the 16-bit chapter
    count of the TOC header says. *)
Definition readMetadata (Date_now : Z) (m : XtcFormat.BookMetadata)
    : XtcReader.ParsedMetadata :=
  {| XtcReader.pm_title := Some (readText 128 (XtcFormat.meta_title m));
     XtcReader.pm_author := Some (readText 64 (XtcFormat.meta_author m));
     XtcReader.pm_publisher := Some (readText 32 (XtcFormat.meta_publisher m));
     XtcReader.pm_language := Some (readText 16 (XtcFormat.meta_language m));
     XtcReader.pm_createTime :=
       Some (timestamp Date_now (XtcFormat.createTime m) mod 4294967296);
     XtcReader.pm_coverPage := Some (default 0xFFFF (XtcFormat.coverPage m) mod 65536);
     XtcReader.pm_toc :=
       map readTocEntry
         (take (Z.to_nat (Z.of_nat (length (XtcFormat.toc m)) mod 65536))
               (XtcFormat.toc m)) |}.

Definition parsedMetadata (Date_now : Z) (options : XtcFormat.XtcBuildOptions)
    : XtcReader.ParsedMetadata :=
  match XtcFormat.metadata options with
  | Some m =>
      if XtcFormat.hasMetadata options then readMetadata Date_now m
      else XtcReader.emptyMetadata
  | None => XtcReader.emptyMetadata
  end.

Definition parsedHeader (pageCount : nat) (options : XtcFormat.XtcBuildOptions)
    : XtcReader.XtcHeader :=
  let hasMetadata := XtcFormat.hasMetadata options in
  {| XtcReader.hdr_is2bit := XtcFormat.build_is2bit options;
     XtcReader.hdr_version := 1;
     XtcReader.hdr_pageCount := Z.of_nat pageCount;
     XtcReader.hdr_hasMetadata := hasMetadata;
     XtcReader.hdr_metadataOffset := if hasMetadata then 56 else 0;
     XtcReader.hdr_indexOffset := indexOffset options;
     XtcReader.hdr_dataOffset := dataOffset pageCount options;
     XtcReader.hdr_tocOffset := if hasMetadata then 312 else 0 |}.

End Layout.

(** ** Reference definitions for the manhwa slices *)

(** [slices] tile the rows [[from, to)]: every slice starts at or above
    the first row not yet covered and at a non-negative row, extends
    below it, and the last one ends at row [to]. *)
Fixpoint covers (from to : Z) (slices : list Converter.EmittedPage) : Prop :=
  match slices with
  | [] => from = to
  | Converter.ManhwaSlice y h :: rest =>
      0 <= y <= from /\ from < y + h <= to /\ covers (y + h) to rest
  | _ :: _ => False
  end.

Definition sliceHeight (page : Converter.EmittedPage) : Z :=
  match page with
  | Converter.ManhwaSlice _ h => h
  | _ => 0
  end.

(** A webtoon converted for the X4: manhwa mode with the default overlap
    of 50%, margins of 5% and 10%. *)
Definition manhwaOptions : ConversionOptions :=
  {| splitMode := "overlap"; dithering := "none"; contrast := 0;
     horizontalMargin := Some 5%Q; verticalMargin := Some 10%Q;
     orientation := portrait; is2bit := false; manhwa := true;
     manhwaOverlap := 50; sidewaysOverviews := false;
     includeOverviews := false; padBlack := false; gamma := 1;
     imageMode := letterbox; invert := false; videoFps := 1;
     device := X4; sourceType := cbz |}.

(** ** The other dithering kernels (lib/processing/dithering.ts)

    Every error-diffusion function has the shape of
    [applyFloydSteinberg]: a [Float32Array] copy of the red channel, a
    double loop that quantizes the pixel at [(x, y)] and adds a share of
    the error to pixels further on, and the write-back.  The functions
    below are the bodies of the double loops. *)

Module Diffusion.

Definition atkinsonStep (width height : nat) (is2bit : bool) (data : list Q)
    (y x : nat) : list Q :=
  let stride := width in
  let idx := (y * stride + x)%nat in
  match data !! idx with
  | None => data
  | Some oldVal =>
      let newVal := inject_Z (quantize is2bit oldVal) in
      let data := <[ idx := newVal ]> data in
      let err := ((oldVal - newVal) / 8)%Q in
      if negb (Qeq_bool err 0) then
        let data :=
          if (x + 1 <? width)%nat then addAt data (idx + 1)%nat err else data in
        let data :=
          if (x + 2 <? width)%nat then addAt data (idx + 2)%nat err else data in
        let data :=
          if (y + 1 <? height)%nat then
            let data :=
              if (0 <? x)%nat then addAt data (idx + stride - 1)%nat err else data in
            let data := addAt data (idx + stride)%nat err in
            if (x + 1 <? width)%nat then addAt data (idx + stride + 1)%nat err
            else data
          else data in
        if (y + 2 <? height)%nat then addAt data (idx + stride * 2)%nat err
        else data
      else data
  end.

(** The twelve neighbours of the Stucki and Zhou-Fang kernels, with the
    amounts [a1 .. a12] added to them in the order of the source lines. *)
Definition spread12 (width height : nat) (data : list Q) (y x : nat)
    (a1 a2 a3 a4 a5 a6 a7 a8 a9 a10 a11 a12 : Q) : list Q :=
  let stride := width in
  let idx := (y * stride + x)%nat in
  let data :=
    if (x + 1 <? width)%nat then addAt data (idx + 1)%nat a1 else data in
  let data :=
    if (x + 2 <? width)%nat then addAt data (idx + 2)%nat a2 else data in
  let data :=
    if (y + 1 <? height)%nat then
      let data :=
        if (2 <=? x)%nat then addAt data (idx + stride - 2)%nat a3 else data in
      let data :=
        if (1 <=? x)%nat then addAt data (idx + stride - 1)%nat a4 else data in
      let data := addAt data (idx + stride)%nat a5 in
      let data :=
        if (x + 1 <? width)%nat then addAt data (idx + stride + 1)%nat a6
        else data in
      if (x + 2 <? width)%nat then addAt data (idx + stride + 2)%nat a7
      else data
    else data in
  if (y + 2 <? height)%nat then
    let data :=
      if (2 <=? x)%nat then addAt data (idx + stride * 2 - 2)%nat a8 else data in
    let data :=
      if (1 <=? x)%nat then addAt data (idx + stride * 2 - 1)%nat a9 else data in
    let data := addAt data (idx + stride * 2)%nat a10 in
    let data :=
      if (x + 1 <? width)%nat then addAt data (idx + stride * 2 + 1)%nat a11
      else data in
    if (x + 2 <? width)%nat then addAt data (idx + stride * 2 + 2)%nat a12
    else data
  else data.

Definition stuckiStep (width height : nat) (is2bit : bool) (data : list Q)
    (y x : nat) : list Q :=
  let idx := (y * width + x)%nat in
  match data !! idx with
  | None => data
  | Some oldVal =>
      let newVal := inject_Z (quantize is2bit oldVal) in
      let data := <[ idx := newVal ]> data in
      let err := (oldVal - newVal)%Q in
      if negb (Qeq_bool err 0) then
        let e := (err / 42)%Q in
        spread12 width height data y x
          (e * 8) (e * 4) (e * 2) (e * 4) (e * 8) (e * 4) (e * 2)
          (e * 1) (e * 2) (e * 4) (e * 2) (e * 1)
      else data
  end.

Definition zhouFangStep (width height : nat) (is2bit : bool) (data : list Q)
    (y x : nat) : list Q :=
  let idx := (y * width + x)%nat in
  match data !! idx with
  | None => data
  | Some oldVal =>
      let newVal := inject_Z (quantize is2bit oldVal) in
      let data := <[ idx := newVal ]> data in
      let err := (oldVal - newVal)%Q in
      if negb (Qeq_bool err 0) then
        let e := (err / 103)%Q in
        spread12 width height data y x
          (e * 16) (e * 9) (e * 5) (e * 11) (e * 16) (e * 11) (e * 5)
          (e * 3) (e * 5) (e * 9) (e * 5) (e * 3)
      else data
  end.

Definition ostromoukhovStep (width height : nat) (is2bit : bool) (data : list Q)
    (y x : nat) : list Q :=
  let stride := width in
  let idx := (y * stride + x)%nat in
  match data !! idx with
  | None => data
  | Some oldVal =>
      let newVal := inject_Z (quantize is2bit oldVal) in
      let data := <[ idx := newVal ]> data in
      let err := (oldVal - newVal)%Q in
      if negb (Qeq_bool err 0) then
        let v := Js.Math_minQ 255 (Js.Math_maxQ 0 oldVal) in
        let '(d1, d2, d3) :=
          if Qle_bool v 128 then
            let t := (v / 128)%Q in
            ((7 # 10) * (1 - t) + (3 # 10) * t,
             (2 # 10) * (1 - t) + (4 # 10) * t,
             (1 # 10) * (1 - t) + (3 # 10) * t)%Q
          else
            let t := ((v - 128) / 127)%Q in
            ((3 # 10) * (1 - t) + (7 # 10) * t,
             (4 # 10) * (1 - t) + (2 # 10) * t,
             (3 # 10) * (1 - t) + (1 # 10) * t)%Q in
        let data :=
          if (x + 1 <? width)%nat then addAt data (idx + 1)%nat (err * d1) else data in
        if (y + 1 <? height)%nat then
          let data :=
            if (0 <? x)%nat then addAt data (idx + stride - 1)%nat (err * d2)
            else data in
          addAt data (idx + stride)%nat (err * d3)
        else data
      else data
  end.

(** [applyAtkinson], [applyStucki], [applyZhouFang] and
    [applyOstromoukhov]: copy, double loop, write-back. *)
Definition diffuse (step : nat -> nat -> bool -> list Q -> nat -> nat -> list Q)
    (pixels : list Z) (width height : nat) (is2bit : bool) : list Z :=
  writeBack pixels
    (loop2 height width (step width height is2bit) (initBuffer pixels width height)).

Definition applyAtkinson := diffuse atkinsonStep.
Definition applyStucki := diffuse stuckiStep.
Definition applyZhouFang := diffuse zhouFangStep.
Definition applyOstromoukhov := diffuse ostromoukhovStep.

(** [applyOrdered]: a 4x4 Bayer threshold, black or white whatever the
    bit depth.  [(y * width + x) << 2] is four times the pixel index for
    every image of fewer than 2^29 pixels. *)
Definition bayer : list (list Z) :=
  [[0; 8; 2; 10]; [12; 4; 14; 6]; [3; 11; 1; 9]; [15; 7; 13; 5]].

Definition bayerAt (y x : nat) : Z :=
  default 0 (default [] (bayer !! (y mod 4)%nat) !! (x mod 4)%nat).

Definition orderedStep (width : nat) (data : list Z) (y x : nat) : list Z :=
  let idx := ((y * width + x) * 4)%nat in
  match data !! idx with
  | None => data
  | Some v =>
      let val := if bayerAt y x * 16 <? v then 255 else 0 in
      <[ (idx + 2)%nat := val ]>
        (<[ (idx + 1)%nat := val ]> (<[ idx := val ]> data))
  end.

Definition applyOrdered (data : list Z) (width height : nat) : list Z :=
  loop2 height width (orderedStep width) data.

(** [applyDitheringToData] on the JavaScript path ([useWasm] false).
    The space-filling-curve dither [applyStochastic] is outside the
    model: it is a parameter. *)
Definition applyDitheringToData
    (applyStochastic : list Z -> nat -> nat -> bool -> list Z)
    (data : list Z) (width height : nat) (algorithm : string) (is2bit : bool)
    : list Z :=
  if String.eqb algorithm "none" then DitheringOpt.applyThreshold data is2bit
  else if String.eqb algorithm "atkinson" then applyAtkinson data width height is2bit
  else if String.eqb algorithm "floyd"
       then DitheringOpt.applyFloydSteinberg data width height is2bit
  else if String.eqb algorithm "stucki" then applyStucki data width height is2bit
  else if String.eqb algorithm "ostromoukhov"
       then applyOstromoukhov data width height is2bit
  else if String.eqb algorithm "zhoufang" then applyZhouFang data width height is2bit
  else if String.eqb algorithm "ordered" then applyOrdered data width height
  else if String.eqb algorithm "stochastic"
       then applyStochastic data width height is2bit
  else DitheringOpt.applyFloydSteinberg data width height is2bit.

End Diffusion.

(** ** The first version of the kernels (src/lib/processing/dithering.ts)

    [applyZhouFang] and [applyOstromoukhov] have the loops of the
    optimised module; [applyThreshold] and [applyFloydSteinberg] are in
    [Dithering].  The three functions below differ. *)

Module DiffusionLegacy.

(** [const err = (oldVal - newVal) >> 3] *)
Definition atkinsonStep (width height : nat) (is2bit : bool) (data : list Q)
    (y x : nat) : list Q :=
  let stride := width in
  let idx := (y * stride + x)%nat in
  match data !! idx with
  | None => data
  | Some oldVal =>
      let newVal := inject_Z (quantize is2bit oldVal) in
      let data := <[ idx := newVal ]> data in
      let err := Js.sar (oldVal - newVal) 3 in
      if negb (err =? 0) then
        let err := inject_Z err in
        let data :=
          if (x + 1 <? width)%nat then addAt data (idx + 1)%nat err else data in
        let data :=
          if (x + 2 <? width)%nat then addAt data (idx + 2)%nat err else data in
        let data :=
          if (y + 1 <? height)%nat then
            let data :=
              if (0 <? x)%nat then addAt data (idx + stride - 1)%nat err else data in
            let data := addAt data (idx + stride)%nat err in
            if (x + 1 <? width)%nat then addAt data (idx + stride + 1)%nat err
            else data
          else data in
        if (y + 2 <? height)%nat then addAt data (idx + stride * 2)%nat err
        else data
      else data
  end.

(** [data[...] += (err * 8) / 42] and so on. *)
Definition stuckiStep (width height : nat) (is2bit : bool) (data : list Q)
    (y x : nat) : list Q :=
  let idx := (y * width + x)%nat in
  match data !! idx with
  | None => data
  | Some oldVal =>
      let newVal := inject_Z (quantize is2bit oldVal) in
      let data := <[ idx := newVal ]> data in
      let err := (oldVal - newVal)%Q in
      if negb (Qeq_bool err 0) then
        Diffusion.spread12 width height data y x
          (err * 8 / 42) (err * 4 / 42) (err * 2 / 42) (err * 4 / 42)
          (err * 8 / 42) (err * 4 / 42) (err * 2 / 42)
          (err * 1 / 42) (err * 2 / 42) (err * 4 / 42) (err * 2 / 42)
          (err * 1 / 42)
      else data
  end.

Definition applyAtkinson := Diffusion.diffuse atkinsonStep.
Definition applyStucki := Diffusion.diffuse stuckiStep.

(** [const threshold = (bayer[y % 4][x % 4] / 16) * 255] *)
Definition orderedStep (width : nat) (data : list Z) (y x : nat) : list Z :=
  let idx := ((y * width + x) * 4)%nat in
  match data !! idx with
  | None => data
  | Some v =>
      let threshold := (inject_Z (Diffusion.bayerAt y x) / 16 * 255)%Q in
      let val := if Js.Qltb threshold (inject_Z v) then 255 else 0 in
      <[ (idx + 2)%nat := val ]>
        (<[ (idx + 1)%nat := val ]> (<[ idx := val ]> data))
  end.

Definition applyOrdered (data : list Z) (width height : nat) : list Z :=
  loop2 height width (orderedStep width) data.

(** [applyDithering], from [getImageData] to [putImageData]. *)
Definition applyDithering (data : list Z) (width height : nat)
    (algorithm : string) (is2bit : bool) : list Z :=
  if String.eqb algorithm "none" then Dithering.applyThreshold data is2bit
  else if String.eqb algorithm "atkinson" then applyAtkinson data width height is2bit
  else if String.eqb algorithm "floyd"
       then Dithering.applyFloydSteinberg data width height is2bit
  else if String.eqb algorithm "stucki" then applyStucki data width height is2bit
  else if String.eqb algorithm "ostromoukhov"
       then Diffusion.applyOstromoukhov data width height is2bit
  else if String.eqb algorithm "zhoufang"
       then Diffusion.applyZhouFang data width height is2bit
  else if String.eqb algorithm "ordered" then applyOrdered data width height
  else Dithering.applyFloydSteinberg data width height is2bit.

End DiffusionLegacy.

(** ** The JavaScript pipeline of [processAndEncode] (src/lib/converter.ts)

    Filters, dithering and packing of the pixels of one canvas; the
    preview is outside the model. *)

Module Pipeline.

Section WithParameters.

Variable Math_pow : Q -> Q -> Q.
Variable applyStochastic : list Z -> nat -> nat -> bool -> list Z.

(** [imageData.data] after [applyUnifiedFilters] and
    [applyDitheringToData]. *)
Definition processed (imageData : ImageData) (options : ConversionOptions)
    : ImageData :=
  let width := img_width imageData in
  let height := img_height imageData in
  let data := Filters.processAndEncode_filters Math_pow (img_data imageData) options in
  let data :=
    Diffusion.applyDitheringToData applyStochastic data width height
      (dithering options) (is2bit options) in
  {| img_width := width; img_height := height; img_data := data |}.

Definition processAndEncode (imageData : ImageData) (options : ConversionOptions)
    : result (list Z) :=
  XtcFormat.encodeImageData (is2bit options) (processed imageData options).

End WithParameters.

End Pipeline.

(** ** Reference definitions for the dithering invariants *)

(** The first [k] cells of the error buffer hold a level. *)
Definition settled (is2bit : bool) (k : nat) (data : list Q) : Prop :=
  forall j, (j < k)%nat ->
    exists l, In l (levels is2bit) /\ data !! j = Some (inject_Z l).

(** [data'] has the length of [data] and its cells up to [idx]. *)
Definition later (idx : nat) (data data' : list Q) : Prop :=
  length data' = length data
  /\ forall j, (j <= idx)%nat -> data' !! j = data !! j.

(** A loop body that stores the quantized value at the current pixel
    and touches only pixels further on. *)
Definition causal (width height : nat) (is2bit : bool)
    (step : list Q -> nat -> nat -> list Q) : Prop :=
  forall data y x oldVal,
    (x < width)%nat -> (y < height)%nat ->
    data !! (y * width + x)%nat = Some oldVal ->
    later (y * width + x)
      (<[ (y * width + x)%nat := inject_Z (quantize is2bit oldVal) ]> data)
      (step data y x).

(** The same numbers, cell by cell. *)
Definition sameQ (data data' : list Q) : Prop := Forall2 Qeq data data'.

(** A loop body that changes no number when the current pixel already
    holds a level. *)
Definition quiet (width height : nat) (is2bit : bool)
    (step : list Q -> nat -> nat -> list Q) : Prop :=
  forall data y x oldVal l,
    (x < width)%nat -> (y < height)%nat ->
    data !! (y * width + x)%nat = Some oldVal ->
    (oldVal == inject_Z l)%Q -> In l (levels is2bit) ->
    sameQ data (step data y x).

(** ** Letterbox placement (lib/processing/canvas.ts) *)

Module Canvas.


End Canvas.

(** A title with two characters of two bytes each: Tokyo, written with
    its long vowels (U+014D). *)
Definition exampleTitle : string :=
  String (Ascii.ascii_of_nat 84) (String (Ascii.ascii_of_nat 197)
    (String (Ascii.ascii_of_nat 141) (String (Ascii.ascii_of_nat 107)
      (String (Ascii.ascii_of_nat 121) (String (Ascii.ascii_of_nat 197)
        (String (Ascii.ascii_of_nat 141) EmptyString)))))).

(* ==== end of definitions ==== *)

(** * Part II: properties of the embedded code *)

(** ** Geometry *)

Lemma crop_width_positive sourceWidth sourceHeight options :
  1 <= width (Geometry.getAxisCropRect sourceWidth sourceHeight options).
Proof. unfold Geometry.getAxisCropRect; simpl. apply Z.le_max_l. Qed.

Lemma crop_height_positive sourceWidth sourceHeight options :
  1 <= height (Geometry.getAxisCropRect sourceWidth sourceHeight options).
Proof. unfold Geometry.getAxisCropRect; simpl. apply Z.le_max_l. Qed.

(** C9, as stated, fails: on a 3x3 source with both margins at 20% the
    crop offsets are [floor(3 * 20 / 100) = 0], so the rectangle keeps
    its full 3x3 size instead of shrinking to 1x1. *)
Lemma C9_counterexample :
  let r := Geometry.getAxisCropRect 3 3 (withMargins 20 20 defaultOptions) in
  ~ (width r = 1 /\ height r = 1).
Proof. vm_compute. intros [H _]. discriminate H. Qed.

(** C9 (amended): for a 3x3 source with horizontal and vertical margins
    of 20% the crop rectangle is the whole image, x = 0, y = 0,
    width = 3, height = 3; and for every source size and every margin
    values the returned width and height are at least 1, never zero. *)
Theorem C9_crop_3x3_and_never_zero :
  Geometry.getAxisCropRect 3 3 (withMargins 20 20 defaultOptions)
    = {| x := 0; y := 0; width := 3; height := 3 |}
  /\ forall sourceWidth sourceHeight options,
       1 <= width (Geometry.getAxisCropRect sourceWidth sourceHeight options)
       /\ 1 <= height (Geometry.getAxisCropRect sourceWidth sourceHeight options).
Proof.
  split; [ reflexivity | ].
  intros; split; [ apply crop_width_positive | apply crop_height_positive ].
Qed.

(** ** Page mapping and TOC remapping *)

Import Converter.

Lemma addOriginalPages_spec calls : forall ctx,
  addOriginalPages ctx calls =
    {| mappings := mappings ctx ++ mkMappings (currentXtcPage ctx) calls;
       currentXtcPage := currentXtcPage ctx + sumZ (map snd calls) |}.
Proof.
  induction calls as [|c calls IH]; intros ctx; simpl.
  - destruct ctx; simpl. rewrite app_nil_r, Z.add_0_r. reflexivity.
  - unfold addOriginalPages in *. simpl. rewrite IH. simpl.
    rewrite <- app_assoc. simpl. f_equal. lia.
Qed.

Lemma mkMappings_calls start calls :
  map (fun m => (originalPage m, xtcPageCount m)) (mkMappings start calls) = calls.
Proof.
  revert start; induction calls as [|[p n] calls IH]; intros; simpl; [done|].
  by rewrite IH.
Qed.

Lemma mkMappings_head start calls m :
  mkMappings start calls !! 0%nat = Some m -> xtcStartPage m = start.
Proof. destruct calls; simpl; [done|]. intros [= <-]. done. Qed.

Lemma mkMappings_adjacent calls : forall start i m m',
  mkMappings start calls !! i = Some m ->
  mkMappings start calls !! S i = Some m' ->
  xtcStartPage m' = xtcStartPage m + xtcPageCount m.
Proof.
  induction calls as [|c calls IH]; intros start i m m'; simpl; [done|].
  destruct i as [|i]; simpl.
  - intros [= <-] H. simpl. by apply mkMappings_head in H.
  - apply IH.
Qed.

Lemma mkMappings_counts start calls :
  map xtcPageCount (mkMappings start calls) = map snd calls.
Proof.
  revert start; induction calls as [|c calls IH]; intros; simpl; [done|].
  by rewrite IH.
Qed.

(** C10: after any sequence of [addOriginalPage] calls the recorded
    mappings are exactly the calls, the first mapping starts at page 1,
    every later mapping starts at the previous mapping's start plus the
    previous mapping's page count, and [getTotalXtcPages] is the sum of
    all recorded page counts. *)
Theorem C10_page_numbering_contiguous (calls : list (Z * Z)) :
  let ctx := addOriginalPages newPageMappingContext calls in
  let ms := mappings ctx in
  map (fun m => (originalPage m, xtcPageCount m)) ms = calls
  /\ (forall m, ms !! 0%nat = Some m -> xtcStartPage m = 1)
  /\ (forall i m m', ms !! i = Some m -> ms !! S i = Some m' ->
        xtcStartPage m' = xtcStartPage m + xtcPageCount m)
  /\ getTotalXtcPages ctx = sumZ (map xtcPageCount ms).
Proof.
  intros ctx ms. subst ms ctx. rewrite addOriginalPages_spec. simpl.
  split; [apply mkMappings_calls|].
  split; [apply mkMappings_head|].
  split; [apply mkMappings_adjacent|].
  unfold getTotalXtcPages. simpl. rewrite mkMappings_counts. lia.
Qed.

Lemma frameCalls_cons {Page} g (r : list Page) frames :
  frameCalls g (r :: frames) = (g + 1, Z.of_nat (length r)) :: frameCalls (g + 1) frames.
Proof.
  unfold frameCalls. simpl. f_equal; [f_equal; lia|].
  apply imap_ext. intros i x _. simpl. f_equal. lia.
Qed.

Lemma collect_fold {Page} (frames : list (list Page)) : forall pageBlobs ctx g,
  fold_left
    (fun '(pageBlobs, mappingCtx, globalIdx) results =>
       (pageBlobs ++ results,
        addOriginalPage mappingCtx (globalIdx + 1) (Z.of_nat (length results)),
        globalIdx + 1))
    frames (pageBlobs, ctx, g)
  = (pageBlobs ++ concat frames, addOriginalPages ctx (frameCalls g frames),
     g + Z.of_nat (length frames)).
Proof.
  induction frames as [|r frames IH]; intros.
  - simpl. rewrite app_nil_r, Z.add_0_r. reflexivity.
  - cbn [fold_left]. rewrite IH, frameCalls_cons.
    cbn [addOriginalPages fold_left fst snd length concat].
    rewrite <- app_assoc. f_equal; try reflexivity; lia.
Qed.

Lemma collectPages_spec {Page} (frames : list (list Page)) :
  collectPages frames
  = (concat frames, addOriginalPages newPageMappingContext (frameCalls 0 frames)).
Proof. unfold collectPages. rewrite collect_fold. reflexivity. Qed.

Lemma find_frame_mapping {Page} (frames : list (list Page)) : forall g start k,
  g + 1 <= k <= g + Z.of_nat (length frames) ->
  exists m,
    List.find (fun m => originalPage m =? k) (mkMappings start (frameCalls g frames)) = Some m
    /\ xtcStartPage m
       = start + Z.of_nat (length (concat (take (Z.to_nat (k - g - 1)) frames))).
Proof.
  induction frames as [|r frames IH]; intros g start k Hk; [simpl in Hk; lia|].
  rewrite frameCalls_cons. cbn [length] in Hk. cbn [mkMappings List.find fst snd originalPage].
  destruct (Z.eqb_spec (g + 1) k) as [Heq|Hne].
  - eexists; split; [reflexivity|]. cbn [xtcStartPage].
    replace (k - g - 1) with 0 by lia. simpl. lia.
  - destruct (IH (g + 1) (start + Z.of_nat (length r)) k) as (m & Hf & Hs); [lia|].
    exists m; split; [exact Hf|]. rewrite Hs.
    replace (Z.to_nat (k - g - 1)) with (S (Z.to_nat (k - (g + 1) - 1))) by lia.
    cbn [take concat]. rewrite length_app. lia.
Qed.

Lemma getXtcPage_frame {Page} (frames : list (list Page)) k :
  1 <= k <= Z.of_nat (length frames) ->
  getXtcPage (snd (collectPages frames)) k = emittedStartPage frames k.
Proof.
  intros Hk. rewrite collectPages_spec. simpl.
  rewrite addOriginalPages_spec. unfold getXtcPage. simpl.
  destruct (find_frame_mapping frames 0 1 k) as (m & Hf & Hs); [lia|].
  rewrite Hf, Hs. unfold emittedStartPage.
  replace (k - 0 - 1) with (k - 1) by lia. reflexivity.
Qed.

Lemma totalXtcPages_frames {Page} (frames : list (list Page)) :
  getTotalXtcPages (snd (collectPages frames))
  = Z.of_nat (length (fst (collectPages frames))).
Proof.
  rewrite collectPages_spec. simpl. rewrite addOriginalPages_spec.
  unfold getTotalXtcPages. simpl.
  assert (H : forall g, sumZ (map snd (frameCalls g frames))
                        = Z.of_nat (length (concat frames))).
  { induction frames as [|r frames IH]; intros g; [reflexivity|].
    rewrite frameCalls_cons. simpl. rewrite IH, length_app. lia. }
  rewrite H. lia.
Qed.

(** X20: in the parallel path, outside manhwa mode: for every sequence
    of source frames (each with the pages emitted for it) and every
    table of contents whose entries start at existing frames,
    remapping replaces each entry's [startPage] by the emitted
    start page of its frame, sets a non-final entry's [endPage] to the
    next entry's remapped [startPage] minus 1, and the final entry's
    [endPage] to the total number of emitted pages; with fan-out counts
    (2, 1, 3, 1) the table [A 1-2, B 3-4] becomes [A 1-3, B 4-7] and 7
    pages are emitted. *)
Theorem toc_remapping_buffered {Page} (frames : list (list Page)) (toc : list TocEntry) :
  (forall e, e ∈ toc -> 1 <= startPage e <= Z.of_nat (length frames)) ->
  let pages := fst (collectPages frames) in
  let toc' := remapToc (snd (collectPages frames)) toc in
  (length toc' = length toc
   /\ forall i e, toc !! i = Some e ->
        toc' !! i =
          Some {| title := title e;
                  startPage := emittedStartPage frames (startPage e);
                  endPage :=
                    match toc !! S i with
                    | Some next => emittedStartPage frames (startPage next) - 1
                    | None => Z.of_nat (length pages)
                    end |})
  /\ (remapToc (snd (collectPages exampleFrames)) exampleToc
      = [ {| title := "A"; startPage := 1; endPage := 3 |};
          {| title := "B"; startPage := 4; endPage := 7 |} ]
      /\ length (fst (collectPages exampleFrames)) = 7%nat).
Proof.
  intros Hin pages toc'. split; [|split; reflexivity].
  subst toc' pages. unfold remapToc.
  destruct toc as [|e0 toc0] eqn:Etoc; [split; [done|intros ? ?; done]|].
  rewrite <- Etoc in *. 
  replace (0 <? length toc)%nat with true by (subst toc; reflexivity).
  split; [apply length_imap|].
  intros i e Hi. rewrite list_lookup_imap, Hi. simpl. f_equal. f_equal.
  - apply getXtcPage_frame, Hin. eapply list_elem_of_lookup_2; eauto.
  - pose proof (lookup_lt_Some _ _ _ Hi) as Hlt.
    destruct (Nat.ltb_spec i (length toc - 1)) as [Hlast|Hlast].
    + replace (i + 1)%nat with (S i) by lia.
      destruct (lookup_lt_is_Some_2 toc (S i)) as [nx Hnx]; [lia|].
      rewrite Hnx. f_equal. apply getXtcPage_frame, Hin.
      eapply list_elem_of_lookup_2; eauto.
    + rewrite (lookup_ge_None_2 toc (S i)) by lia.
      apply totalXtcPages_frames.
Qed.

Lemma toc_remapping_buffered_witness :
  (forall e, e ∈ exampleToc -> 1 <= startPage e <= Z.of_nat (length exampleFrames))
  /\ remapToc (snd (collectPages exampleFrames)) exampleToc
     = [ {| title := "A"; startPage := 1; endPage := 3 |};
         {| title := "B"; startPage := 4; endPage := 7 |} ].
Proof.
  assert (H : forall e, e ∈ exampleToc -> 1 <= startPage e <= Z.of_nat (length exampleFrames)).
  { intros e He. unfold exampleToc in He.
    repeat (apply elem_of_cons in He; destruct He as [->|He]; [simpl; lia|]).
    by apply elem_of_nil in He. }
  split; [exact H|].
  exact (proj1 (proj2 (toc_remapping_buffered exampleFrames exampleToc H))).
Defined.

(** One turn of the loop of [append]. *)
Lemma cut_unfold (isSolid : Z -> bool) (options : ConversionOptions)
    (fuel : nat) (height count : Z) (pages : list Z) :
  ManhwaStitcher.cut isSolid options (S fuel) height count pages =
    if ManhwaStitcher.targetHeight options <=? height then
      let count := count + 1 in
      let step :=
        if isSolid count then ManhwaStitcher.targetHeight options
        else ManhwaStitcher.targetHeight options - ManhwaStitcher.overlapPixels options in
      let pages := pages ++ [count] in
      let remainingHeight := height - step in
      if remainingHeight <=? 0 then (None, count, pages)
      else ManhwaStitcher.cut isSolid options fuel remainingHeight count pages
    else (Some height, count, pages).
Proof. reflexivity. Qed.

(** C5 (the code departs from the claim): the last entry of the table of
    contents does not always end at the last page written.  In manhwa
    mode the page that [stitcher.finish()] returns is pushed after the
    loop without a call of [addOriginalPage]: for a source of one image
    of 480 by 1000 pixels converted for the X4, whatever the slices look
    like, two pages are written and announced, and the only entry of
    the table of contents ends at page 1.  In the streamed path the
    mapping is fed with the predicted page counts: for a source of one
    page of 800 by 1600 pixels split with overlap, four pages are
    written, three are announced and the entry ends at page 3. *)
Theorem C5_last_entry_ends_before_last_page (isSolid : Z -> bool)
    (titleOf : nat -> string) :
  let stitched :=
    Conversion.convertCbzToXtc isSolid titleOf false [(480, 1000)] manhwaOptions in
  let streamed :=
    Conversion.convertCbzToXtc isSolid titleOf true [(800, 1600)] defaultOptions in
  (Conversion.written stitched = 2
   /\ Conversion.announced stitched = 2
   /\ Conversion.contents stitched
      = [ {| title := titleOf 0%nat; startPage := 1; endPage := 1 |} ])
  /\ (Conversion.written streamed = 4
      /\ Conversion.announced streamed = 3
      /\ Conversion.contents streamed
         = [ {| title := titleOf 0%nat; startPage := 1; endPage := 3 |} ]).
Proof.
  assert (Happend : forall solid, isSolid 1 = solid ->
            ManhwaStitcher.append isSolid manhwaOptions ManhwaStitcher.new 480 1000
            = ({| ManhwaStitcher.buffer := Some (if solid then 200 else 600);
                  ManhwaStitcher.pageCount := 1 |}, [1])).
  { intros solid Hsolid. unfold ManhwaStitcher.append.
    change (ManhwaStitcher.buffer ManhwaStitcher.new) with (@None Z).
    change (ManhwaStitcher.pageCount ManhwaStitcher.new) with 0.
    cbv zeta iota.
    replace (Js.Math_floor _) with 1000 by (vm_compute; reflexivity).
    change (Z.to_nat 1000) with (S (Z.to_nat 999)).
    rewrite cut_unfold.
    replace (ManhwaStitcher.targetHeight manhwaOptions) with 800 by (vm_compute; reflexivity).
    replace (ManhwaStitcher.overlapPixels manhwaOptions) with 400 by (vm_compute; reflexivity).
    change (0 + 1) with 1. cbv zeta. rewrite Hsolid.
    destruct solid; vm_compute; reflexivity. }
  intros stitched streamed. split.
  - subst stitched. unfold Conversion.convertCbzToXtc.
    change (manhwa manhwaOptions) with true. cbv iota beta delta [andb negb].
    unfold Conversion.stitched. cbn [fold_left].
    rewrite (Happend (isSolid 1) eq_refl).
    destruct (isSolid 1); vm_compute; repeat split.
  - subst streamed. vm_compute. repeat split.
Qed.

(** ** Page fan-out *)

Lemma growSegments_bounds fuel : forall segmentHeight height numSegments shift,
  numSegments <= 10 ->
  numSegments <= fst (Image.growSegments fuel segmentHeight height numSegments shift) <= 10.
Proof.
  induction fuel as [|fuel IH]; intros sh h n s Hn; simpl; [lia|].
  destruct (Js.div_gt _ _ _); simpl; [|lia].
  destruct (Z.ltb_spec n 10); simpl; [|lia].
  specialize (IH sh h (n + 1) (Image.shiftFor sh h (n + 1))). lia.
Qed.

(** The [while] loop of [calculateOverlapSegments] is not cut short by
    its fuel: when it returns, the loop condition is false. *)
Lemma growSegments_exit fuel : forall segmentHeight height numSegments shift,
  10 <= numSegments + Z.of_nat fuel ->
  let r := Image.growSegments fuel segmentHeight height numSegments shift in
  Js.div_gt (inject_Z (snd r)) (inject_Z segmentHeight) Image.minShare
  && (fst r <? 10) = false.
Proof.
  induction fuel as [|fuel IH]; intros sh h n s Hn; simpl.
  - replace (n <? 10) with false by (symmetry; apply Z.ltb_ge; lia).
    apply andb_false_r.
  - destruct (Js.div_gt (inject_Z s) (inject_Z sh) Image.minShare && (n <? 10)) eqn:Hc.
    + apply IH. lia.
    + exact Hc.
Qed.

(** X2: [calculateOverlapSegments] returns between 3 and 10 segments. *)
Lemma calculateOverlapSegments_length width height targetWidth targetHeight :
  (3 <= length (Image.calculateOverlapSegments width height targetWidth targetHeight) <= 10)%nat.
Proof.
  unfold Image.calculateOverlapSegments.
  match goal with |- context [Image.growSegments ?f ?a ?b ?c ?d] =>
    pose proof (growSegments_bounds f a b c d) as H;
    destruct (Image.growSegments f a b c d) as [n s] end.
  simpl in H. rewrite length_map, length_seq. lia.
Qed.

(** X1: outside manhwa mode the number of emitted pages is the predicted
    one in every branch but the overlap split of a tall page in
    landscape. *)
Lemma page_count_agrees_outside_overlap sourceWidth sourceHeight options :
  manhwa options = false ->
  let crop := Geometry.getAxisCropRect sourceWidth sourceHeight options in
  orientation options = portrait
  \/ height crop <= width crop
  \/ splitMode options <> "overlap"%string ->
  Z.of_nat (length (processCanvasAsImage sourceWidth sourceHeight options))
  = calculateOutputPageCount (width crop) (height crop) options.
Proof.
  intros Hm crop Hcase.
  unfold processCanvasAsImage, calculateOutputPageCount, isSingleImage.
  fold crop. rewrite Hm.
  destruct (sidewaysOverviews options), (includeOverviews options),
    (sourceType options), (orientation options);
    cbn [andb negb app length];
    destruct (String.eqb_spec (splitMode options) "nosplit") as [Hns|Hns];
    cbn [andb negb];
    try rewrite andb_false_r; cbn [app length map]; try reflexivity;
    destruct (Z.ltb_spec (width crop) (height crop)) as [Hlt|Hge];
    cbn [andb]; try reflexivity;
    destruct (String.eqb_spec (splitMode options) "overlap") as [Hov|Hov];
    try reflexivity;
    exfalso; destruct Hcase as [Hc|[Hc|Hc]]; try discriminate; try lia; try contradiction.
Qed.

Lemma page_count_agrees_outside_overlap_witness :
  Z.of_nat (length (processCanvasAsImage 1600 800 defaultOptions))
  = calculateOutputPageCount 1600 800 defaultOptions.
Proof.
  apply (page_count_agrees_outside_overlap 1600 800 defaultOptions eq_refl).
  right; left. vm_compute. discriminate.
Defined.

(** C1 (the code departs from the claim): a 800x1600 page converted in
    landscape with [splitMode = "overlap"] and no margins has
    [crop.width < crop.height]; [calculateOverlapSegments] returns four
    segments for it, so four pages are emitted, while
    [calculateOutputPageCount] predicts three. *)
Theorem C1_overlap_emits_more_pages_than_predicted :
  let options := defaultOptions in
  let crop := Geometry.getAxisCropRect 800 1600 options in
  manhwa options = false
  /\ orientation options = landscape
  /\ splitMode options = "overlap"%string
  /\ width crop < height crop
  /\ Z.of_nat (length (processCanvasAsImage 800 1600 options)) = 4
  /\ calculateOutputPageCount (width crop) (height crop) options = 3.
Proof. vm_compute. repeat split. Qed.

(** ** Filters *)




(** ** Dithering *)

Lemma thresholdValue_levels (val : Z) :
  DitheringOpt.thresholdValue true val
  = if val <? 42 then 0 else if val <? 127 then 85
    else if val <? 212 then 170 else 255.
Proof. reflexivity. Qed.

Lemma thresholdValue_in_levels (val : Z) :
  In (DitheringOpt.thresholdValue true val) [0; 85; 170; 255].
Proof.
  unfold DitheringOpt.thresholdValue.
  repeat (destruct (_ <? _)); simpl; tauto.
Qed.

(** The 2-bit threshold quantizer of the optimised module: thresholds
    42, 127, 212, strict comparisons, levels 0, 85, 170, 255. *)
Theorem threshold_opt_levels (val : Z) :
  DitheringOpt.thresholdValue true val
  = (if val <? 42 then 0 else if val <? 127 then 85
     else if val <? 212 then 170 else 255)
  /\ In (DitheringOpt.thresholdValue true val) [0; 85; 170; 255].
Proof. split; [reflexivity | apply thresholdValue_in_levels]. Qed.

(** C2 (the code departs from the claim): on a pixel of value 100 the
    2-bit [applyThreshold] of src/lib/processing/dithering.ts writes 1,
    and on a pixel of value 200 it writes 2; neither is one of the four
    levels.  The [applyThreshold] of the optimised dithering module
    writes 85 and 170 there. *)
Theorem C2_threshold_levels_missed :
  Dithering.applyThreshold [100; 100; 100; 255; 200; 200; 200; 255] true
    = [1; 1; 1; 255; 2; 2; 2; 255]
  /\ DitheringOpt.applyThreshold [100; 100; 100; 255; 200; 200; 200; 255] true
    = [85; 85; 85; 255; 170; 170; 170; 255].
Proof. split; reflexivity. Qed.

(** The Floyd-Steinberg of the optimised module adds the exact quotient
    to the right neighbour. *)
Lemma floydSteinberg_opt_term_exact (err k : Q) :
  (DitheringOpt.term err k == err * k / 16)%Q.
Proof. reflexivity. Qed.

(** C8 (the code departs from the claim): in the Floyd-Steinberg of
    src/lib/processing/dithering.ts the first pixel of the row
    [100, 100] has [err = 100]; its right neighbour receives
    [(100 * 7) >> 4 = 43] and holds 143, not 100 + 100 * 7 / 16 =
    143.75, which is what the optimised module stores.  On the row
    [1, 2, 127] the truncation changes the picture: the last pixel
    comes out black instead of white. *)
Theorem C8_floyd_steinberg_truncates_error :
  floydSteinbergStep Dithering.term 2 1 false [100; 100]%Q 0 0 = [0; 143]%Q
  /\ ~ (143 == 100 + 100 * 7 / 16)%Q
  /\ Forall2 Qeq (floydSteinbergStep DitheringOpt.term 2 1 false [100; 100]%Q 0 0)
       [0; 100 + 100 * 7 / 16]%Q
  /\ Dithering.applyFloydSteinberg
       [1; 1; 1; 255; 2; 2; 2; 255; 127; 127; 127; 255] 3 1 false
     = [0; 0; 0; 255; 0; 0; 0; 255; 0; 0; 0; 255]
  /\ DitheringOpt.applyFloydSteinberg
       [1; 1; 1; 255; 2; 2; 2; 255; 127; 127; 127; 255] 3 1 false
     = [0; 0; 0; 255; 0; 0; 0; 255; 255; 255; 255; 255].
Proof.
  split; [reflexivity|].
  split; [intros H; vm_compute in H; discriminate|].
  split; [repeat constructor|].
  split; vm_compute; reflexivity.
Qed.

(** ** Container writer *)

Import XtcFormat.







(** ** Container reader *)

Import XtcReader.

Lemma failsOnlyWith_bind {A B} P (r : result A) (k : A -> result B) :
  failsOnlyWith P r -> (forall a, failsOnlyWith P (k a)) ->
  failsOnlyWith P (bind r k).
Proof.
  intros Hr Hk e. destruct r as [a|e']; simpl; [apply Hk|].
  intros [= <-]. by apply Hr.
Qed.

Lemma failsOnlyWith_Ok {A} P (a : A) : failsOnlyWith P (Ok a).
Proof. intros e H; discriminate. Qed.

Lemma failsOnlyWith_mapM {A B} P (f : A -> result B) l :
  (forall a, failsOnlyWith P (f a)) -> failsOnlyWith P (mapM f l).
Proof.
  intros Hf. induction l as [|a l IH]; simpl; [apply failsOnlyWith_Ok|].
  apply failsOnlyWith_bind; [apply Hf|]. intros b.
  apply failsOnlyWith_bind; [apply IH|]. intros bs. apply failsOnlyWith_Ok.
Qed.

Lemma getUint16_range view o : failsOnlyWith isRangeError (DataView.getUint16 view o).
Proof. unfold DataView.getUint16. intros e. destruct (DataView.inBounds _ _ _); [discriminate|]. by intros [= <-]. Qed.

Lemma getUint32_range view o : failsOnlyWith isRangeError (DataView.getUint32 view o).
Proof. unfold DataView.getUint32. intros e. destruct (DataView.inBounds _ _ _); [discriminate|]. by intros [= <-]. Qed.

Lemma view_range buffer o n : failsOnlyWith isRangeError (Uint8Array.view buffer o n).
Proof. unfold Uint8Array.view. intros e. destruct (_ && _); [discriminate|]. by intros [= <-]. Qed.

Lemma getBigUint64_range view o : failsOnlyWith isRangeError (getBigUint64 view o).
Proof.
  unfold getBigUint64.
  apply failsOnlyWith_bind; [apply getUint32_range|]; intros ?.
  apply failsOnlyWith_bind; [apply getUint32_range|]; intros ?.
  apply failsOnlyWith_Ok.
Qed.

Ltac range_steps :=
  repeat first
    [ apply failsOnlyWith_Ok
    | apply getUint16_range
    | apply getUint32_range
    | apply getBigUint64_range
    | apply view_range
    | apply failsOnlyWith_mapM; intros ?
    | apply failsOnlyWith_bind; [ | intros ? ] ].

Lemma readNullTerminatedString_range view o n :
  failsOnlyWith isRangeError (readNullTerminatedString view o n).
Proof. unfold readNullTerminatedString. range_steps. Qed.

Lemma parseMetadata_range view h : failsOnlyWith isRangeError (parseMetadata view h).
Proof.
  unfold parseMetadata. destruct (_ || _); [apply failsOnlyWith_Ok|].
  range_steps.
Qed.

Lemma parseIndexEntry_range view o : failsOnlyWith isRangeError (parseIndexEntry view o).
Proof. unfold parseIndexEntry. range_steps. Qed.

Lemma magicIs_take4 c0 c1 c2 (buffer : list Z) :
  magicIs c0 c1 c2 (take 4 buffer) = magicIs c0 c1 c2 buffer.
Proof.
  unfold magicIs. rewrite !lookup_take_lt by lia. reflexivity.
Qed.

Lemma view_magic (buffer : list Z) :
  Uint8Array.view buffer 0 4
  = if 4 <=? byteLength buffer then Ok (take 4 buffer) else Err RangeError.
Proof.
  unfold Uint8Array.view, DataView.inBounds.
  change (Z.to_nat 0) with 0%nat. change (Z.to_nat 4) with 4%nat.
  rewrite drop_0. reflexivity.
Qed.

Lemma parseXtcHeader_tail_range (buffer uint8 : list Z) :
  failsOnlyWith isRangeError
    (let* flagsLow := DataView.getUint32 buffer 8 in
     let hasMetadata := negb (flagsLow =? 0) in
     let* version := DataView.getUint16 buffer 4 in
     let* pageCount := DataView.getUint16 buffer 6 in
     let* metadataOffset := getBigUint64 buffer 16 in
     let* indexOffset := getBigUint64 buffer 24 in
     let* dataOffset := getBigUint64 buffer 32 in
     let* tocOffset :=
       if hasMetadata && (56 <=? byteLength buffer)
       then getBigUint64 buffer 48 else Ok 0 in
     Ok {| hdr_is2bit :=
             (default 0 (uint8 !! 3%nat) =? 0x48)
             || (default 0 (uint8 !! 3%nat) =? 0x68);
           hdr_version := version;
           hdr_pageCount := pageCount;
           hdr_hasMetadata := hasMetadata;
           hdr_metadataOffset := metadataOffset;
           hdr_indexOffset := indexOffset;
           hdr_dataOffset := dataOffset;
           hdr_tocOffset := tocOffset |}).
Proof.
  range_steps.
  match goal with |- context [if ?c then _ else _] => destruct c end; range_steps.
Qed.

Lemma parseXtcHeader_magic (buffer : list Z) :
  parseXtcHeader buffer = Err InvalidMagic
  <-> 4 <= byteLength buffer /\ magicIs 0x58 0x54 0x43 buffer = false.
Proof.
  unfold parseXtcHeader. rewrite view_magic.
  destruct (Z.leb_spec 4 (byteLength buffer)) as [Hlen|Hlen]; cbn [bind].
  - rewrite magicIs_take4.
    destruct (magicIs 88 84 67 buffer) eqn:Hm; cbn [negb].
    + split; [|intros [_ ?]; discriminate].
      intros H. apply parseXtcHeader_tail_range in H. discriminate H.
    + split; [intros _; split; [lia|reflexivity] | reflexivity].
  - split; [discriminate | intros [? _]; lia].
Qed.

Lemma parseXtcHeader_errors buffer e :
  parseXtcHeader buffer = Err e -> e = InvalidMagic \/ e = RangeError.
Proof.
  unfold parseXtcHeader. rewrite view_magic.
  destruct (4 <=? byteLength buffer); cbn [bind].
  - destruct (magicIs 88 84 67 (take 4 buffer)); cbn [negb].
    + intros H. right. by apply parseXtcHeader_tail_range in H.
    + intros [= <-]. by left.
  - intros [= <-]. by right.
Qed.

Lemma isOk_bind {A B} (r : result A) (k : A -> result B) :
  isOk (bind r k) = match r with Ok a => isOk (k a) | Err _ => false end.
Proof. by destruct r. Qed.

Lemma getUint16_at (b : list Z) (o : Z) :
  DataView.getUint16 b o
  = if DataView.inBounds b o 2 then Ok (Fields.u16At b o) else Err RangeError.
Proof. reflexivity. Qed.

Lemma getUint32_at (b : list Z) (o : Z) :
  DataView.getUint32 b o
  = if DataView.inBounds b o 4 then Ok (Fields.u32At b o) else Err RangeError.
Proof. reflexivity. Qed.

Lemma inBounds_holds (b : list Z) (o n : Z) :
  DataView.inBounds b o n = true <-> Fields.holds b o n.
Proof.
  unfold DataView.inBounds, Fields.holds.
  rewrite andb_true_iff, !Z.leb_le. tauto.
Qed.

Lemma inBounds_true (b : list Z) (o n : Z) :
  Fields.holds b o n -> DataView.inBounds b o n = true.
Proof. apply inBounds_holds. Qed.

Lemma inBounds_false (b : list Z) (o n : Z) :
  ~ Fields.holds b o n -> DataView.inBounds b o n = false.
Proof.
  intros H. destruct (DataView.inBounds b o n) eqn:E; [|done].
  by apply inBounds_holds in E.
Qed.

Lemma getBigUint64_at (b : list Z) (o : Z) :
  getBigUint64 b o
  = if DataView.inBounds b o 8 then Ok (Fields.u64At b o) else Err RangeError.
Proof.
  unfold getBigUint64. rewrite !getUint32_at.
  destruct (DataView.inBounds b o 8) eqn:H8.
  - apply inBounds_holds in H8. destruct H8.
    rewrite !inBounds_true by (unfold Fields.holds; lia). reflexivity.
  - destruct (DataView.inBounds b o 4) eqn:H4; [|reflexivity]. cbn [bind].
    apply inBounds_holds in H4. destruct H4.
    rewrite inBounds_false; [reflexivity|].
    intros [? ?]. assert (Fields.holds b o 8) as Hh by (unfold Fields.holds; lia).
    apply inBounds_holds in Hh. congruence.
Qed.

Lemma view_at (b : list Z) (o n : Z) :
  0 <= n ->
  isOk (Uint8Array.view b o n) = DataView.inBounds b o n.
Proof.
  intros Hn. unfold Uint8Array.view.
  destruct (Z.leb_spec 0 n); [|lia]. cbn [andb]. by destruct (DataView.inBounds b o n).
Qed.

(** The header that a parse reads from a buffer of at least 40 bytes. *)
Lemma parseXtcHeader_at (b : list Z) :
  40 <= byteLength b -> magicIs 0x58 0x54 0x43 b = true ->
  exists h,
    parseXtcHeader b = Ok h
    /\ hdr_pageCount h = Fields.pageCount b
    /\ hdr_hasMetadata h = Fields.hasMetadata b
    /\ hdr_metadataOffset h = Fields.metadataOffset b
    /\ hdr_indexOffset h = Fields.indexOffset b
    /\ hdr_tocOffset h
       = if Fields.hasMetadata b && (56 <=? byteLength b)
         then Fields.u64At b 48 else 0.
Proof.
  intros Hlen Hm. unfold parseXtcHeader. rewrite view_magic.
  destruct (Z.leb_spec 4 (byteLength b)); [|lia]. cbn [bind].
  rewrite magicIs_take4, Hm. cbn [negb].
  rewrite getUint32_at, !getUint16_at, !getBigUint64_at.
  rewrite !inBounds_true by (unfold Fields.holds; lia). cbn [bind].
  fold (Fields.hasMetadata b).
  destruct (Fields.hasMetadata b && (56 <=? byteLength b)) eqn:Ht.
  - apply andb_true_iff in Ht as [_ Ht]. apply Z.leb_le in Ht.
    rewrite inBounds_true by (unfold Fields.holds; lia). cbn [bind].
    eexists. split; [reflexivity|]. by repeat split.
  - cbn [bind]. eexists. split; [reflexivity|]. by repeat split.
Qed.

Lemma parseXtcHeader_Ok_length (b : list Z) h :
  parseXtcHeader b = Ok h ->
  40 <= byteLength b /\ magicIs 0x58 0x54 0x43 b = true.
Proof.
  unfold parseXtcHeader. rewrite view_magic.
  destruct (Z.leb_spec 4 (byteLength b)); [|discriminate]. cbn [bind].
  rewrite magicIs_take4.
  destruct (magicIs 88 84 67 b); [|discriminate]. cbn [negb].
  rewrite getUint32_at, !getUint16_at, !getBigUint64_at.
  destruct (DataView.inBounds b 8 4); [|discriminate]. cbn [bind].
  destruct (DataView.inBounds b 4 2); [|discriminate]. cbn [bind].
  destruct (DataView.inBounds b 6 2); [|discriminate]. cbn [bind].
  destruct (DataView.inBounds b 16 8); [|discriminate]. cbn [bind].
  destruct (DataView.inBounds b 24 8); [|discriminate]. cbn [bind].
  destruct (DataView.inBounds b 32 8) eqn:H32; [|discriminate].
  apply inBounds_holds in H32. destruct H32. intros _. split; [lia|done].
Qed.

Lemma isOk_mapM {A B} (f : A -> result B) (l : list A) :
  isOk (mapM f l) = forallb (fun a => isOk (f a)) l.
Proof.
  induction l as [|a l IH]; [done|]. cbn [mapM forallb].
  rewrite isOk_bind. destruct (f a); [|done]. cbn [isOk andb].
  rewrite isOk_bind. rewrite <- IH. by destruct (mapM f l).
Qed.

Lemma mapM_Ok_in {A B} (f : A -> result B) (g : A -> B) (l : list A) :
  (forall a, a ∈ l -> f a = Ok (g a)) -> mapM f l = Ok (map g l).
Proof.
  induction l as [|a l IH]; intros H; [done|].
  cbn [mapM map]. rewrite (H a) by left. cbn [bind].
  rewrite IH; [done|]. intros a' Ha'. apply H. by right.
Qed.

Lemma isOk_true {A} (r : result A) : isOk r = true <-> exists a, r = Ok a.
Proof. destruct r; split; eauto; try done. by intros [? ?]. Qed.

(** The reads of [count] records of [step] bytes, [used] bytes of each
    read, starting at [offset]. *)
Lemma records_hold (b : list Z) (offset step used count : Z) :
  0 < used <= step ->
  (forall i : nat, i ∈ seq 0 (Z.to_nat count) ->
     Fields.holds b (offset + Z.of_nat i * step) used)
  <-> (0 < count -> Fields.holds b offset (step * count - (step - used))).
Proof.
  intros Hu. unfold Fields.holds. split.
  - intros H Hc. split.
    + destruct (H 0%nat) as [? _]; [apply elem_of_seq; lia|lia].
    + destruct (H (Z.to_nat (count - 1))) as [_ ?]; [apply elem_of_seq; lia|].
      rewrite Z2Nat.id in * by lia. lia.
  - intros H i Hi. apply elem_of_seq in Hi.
    destruct H as [H0 H1]; [lia|].
    assert (0 <= Z.of_nat i * step) by nia.
    assert (Z.of_nat i * step <= (count - 1) * step) by nia.
    split; lia.
Qed.

Lemma parseIndexEntry_at (b : list Z) (o : Z) :
  parseIndexEntry b o
  = if DataView.inBounds b o 16
    then Ok {| entry_offset := Fields.u64At b o;
               entry_size := Fields.u32At b (o + 8);
               entry_width := Fields.u16At b (o + 12);
               entry_height := Fields.u16At b (o + 14) |}
    else Err RangeError.
Proof.
  unfold parseIndexEntry.
  rewrite getBigUint64_at, getUint32_at, !getUint16_at.
  destruct (DataView.inBounds b o 16) eqn:H16.
  - apply inBounds_holds in H16. destruct H16.
    rewrite !inBounds_true by (unfold Fields.holds; lia). reflexivity.
  - destruct (DataView.inBounds b o 8) eqn:H8; [|reflexivity]. cbn [bind].
    destruct (DataView.inBounds b (o + 8) 4) eqn:H4; [|reflexivity]. cbn [bind].
    destruct (DataView.inBounds b (o + 12) 2) eqn:H2; [|reflexivity]. cbn [bind].
    destruct (DataView.inBounds b (o + 14) 2) eqn:H1; [|reflexivity].
    apply inBounds_holds in H8, H1. destruct H8, H1.
    assert (Fields.holds b o 16) as Hh by (unfold Fields.holds; lia).
    apply inBounds_holds in Hh. congruence.
Qed.

Lemma parseTocEntry_isOk (b : list Z) (tocOffset : Z) (i : nat) :
  isOk (parseTocEntry b tocOffset i)
  = DataView.inBounds b (tocOffset + Z.of_nat i * 96) 84.
Proof.
  unfold parseTocEntry, readNullTerminatedString.
  rewrite !isOk_bind.
  pose proof (view_at b (tocOffset + Z.of_nat i * 96) 80 ltac:(lia)) as Hv.
  destruct (Uint8Array.view b (tocOffset + Z.of_nat i * 96) 80) as [bytes|e];
    cbn [isOk bind] in *.
  - symmetry in Hv. apply inBounds_holds in Hv. destruct Hv.
    rewrite !getUint16_at.
    destruct (DataView.inBounds b (tocOffset + Z.of_nat i * 96) 84) eqn:H84.
    + apply inBounds_holds in H84. destruct H84.
      rewrite !inBounds_true by (unfold Fields.holds; lia). reflexivity.
    + destruct (DataView.inBounds b (tocOffset + Z.of_nat i * 96 + 80) 2) eqn:H2;
        [|reflexivity]. cbn [bind].
      destruct (DataView.inBounds b (tocOffset + Z.of_nat i * 96 + 82) 2) eqn:H1;
        [|reflexivity].
      apply inBounds_holds in H1. destruct H1.
      assert (Fields.holds b (tocOffset + Z.of_nat i * 96) 84) as Hh
        by (unfold Fields.holds; lia).
      apply inBounds_holds in Hh. congruence.
  - symmetry. apply inBounds_false. intros [? ?].
    assert (Fields.holds b (tocOffset + Z.of_nat i * 96) 80) as Hh
      by (unfold Fields.holds; lia).
    apply inBounds_holds in Hh. congruence.
Qed.

Lemma isOk_bind_inv {A B} (r : result A) (k : A -> result B) :
  isOk (bind r k) = true -> exists a, r = Ok a /\ isOk (k a) = true.
Proof. destruct r as [a|e]; [eauto|discriminate]. Qed.

Lemma view_Ok_holds (b : list Z) (o n : Z) bytes :
  Uint8Array.view b o n = Ok bytes -> Fields.holds b o n.
Proof.
  unfold Uint8Array.view. destruct (0 <=? n); [|discriminate]. cbn [andb].
  destruct (DataView.inBounds b o n) eqn:H; [|discriminate].
  intros _. by apply inBounds_holds.
Qed.

Lemma view_holds (b : list Z) (o n : Z) :
  0 <= n -> Fields.holds b o n ->
  Uint8Array.view b o n = Ok (take (Z.to_nat n) (drop (Z.to_nat o) b)).
Proof.
  intros Hn Hh. unfold Uint8Array.view.
  destruct (Z.leb_spec 0 n); [|lia]. by rewrite inBounds_true.
Qed.

Lemma toc_isOk (b : list Z) (tocOffset count : Z) :
  isOk (mapM (parseTocEntry b tocOffset) (seq 0 (Z.to_nat count))) = true
  <-> (0 < count -> Fields.holds b tocOffset (96 * count - 12)).
Proof.
  rewrite isOk_mapM, forallb_forall.
  rewrite <- (records_hold b tocOffset 96 84 count) by lia.
  split; intros H i Hi.
  - apply inBounds_holds. rewrite <- parseTocEntry_isOk. apply H.
    by apply list_elem_of_In.
  - rewrite parseTocEntry_isOk. apply inBounds_holds, H.
    by apply list_elem_of_In.
Qed.

Lemma parseMetadata_isOk (b : list Z) (h : XtcHeader) :
  hdr_hasMetadata h = true -> hdr_metadataOffset h <> 0 ->
  let metaOffset := hdr_metadataOffset h in
  let tocOffset :=
    if negb (hdr_tocOffset h =? 0) then hdr_tocOffset h else metaOffset + 256 in
  isOk (parseMetadata b h) = true
  <-> Fields.holds b metaOffset 248
      /\ (0 < Fields.u16At b (metaOffset + 246) ->
          Fields.holds b tocOffset (96 * Fields.u16At b (metaOffset + 246) - 12)).
Proof.
  intros Hm Ho metaOffset tocOffset.
  unfold parseMetadata. rewrite Hm.
  destruct (Z.eqb_spec (hdr_metadataOffset h) 0) as [|_]; [done|].
  cbn [negb orb]. fold metaOffset.
  unfold readNullTerminatedString.
  rewrite getUint32_at, !getUint16_at.
  split.
  - intros H.
    apply isOk_bind_inv in H as (title & H1 & H).
    destruct (Uint8Array.view b metaOffset 128) as [bytes|] eqn:Hv; [|discriminate].
    apply view_Ok_holds in Hv. destruct Hv as [Hv _]. clear H1.
    apply isOk_bind_inv in H as (author & _ & H).
    apply isOk_bind_inv in H as (publisher & _ & H).
    apply isOk_bind_inv in H as (language & _ & H).
    apply isOk_bind_inv in H as (createTime & _ & H).
    apply isOk_bind_inv in H as (coverPage & _ & H).
    apply isOk_bind_inv in H as (chapterCount & Hc & H).
    destruct (DataView.inBounds b (metaOffset + 240 + 6) 2) eqn:Hb; [|discriminate].
    injection Hc as <-.
    apply inBounds_holds in Hb. destruct Hb as [_ Hb].
    replace (metaOffset + 240 + 6) with (metaOffset + 246) in * by lia.
    split; [unfold Fields.holds; lia|].
    apply isOk_bind_inv in H as (toc & Ht & _).
    replace (metaOffset + 240 + 16) with (metaOffset + 256) in Ht by lia.
    apply toc_isOk. subst tocOffset. rewrite Ht. reflexivity.
  - intros [[H0 H1] Htoc].
    rewrite !view_holds by (unfold Fields.holds; lia). cbn [bind].
    rewrite !inBounds_true by (unfold Fields.holds; lia). cbn [bind].
    replace (metaOffset + 240 + 6) with (metaOffset + 246) by lia.
    apply toc_isOk in Htoc. fold tocOffset.
    replace (metaOffset + 240 + 16) with (metaOffset + 256) by lia.
    fold tocOffset.
    destruct (mapM _ _); [reflexivity|discriminate].
Qed.

Lemma index_isOk (b : list Z) (indexOffset count : Z) :
  isOk (mapM (fun i : nat => parseIndexEntry b (indexOffset + Z.of_nat i * 16))
             (seq 0 (Z.to_nat count))) = true
  <-> (0 < count -> Fields.holds b indexOffset (16 * count)).
Proof.
  rewrite isOk_mapM, forallb_forall.
  replace (16 * count) with (16 * count - (16 - 16)) by lia.
  rewrite <- (records_hold b indexOffset 16 16 count) by lia.
  split; intros H i Hi.
  - apply inBounds_holds. apply list_elem_of_In, H in Hi.
    rewrite parseIndexEntry_at in Hi. by destruct (DataView.inBounds _ _ _).
  - rewrite parseIndexEntry_at, inBounds_true; [done|].
    by apply H, list_elem_of_In.
Qed.

Lemma tocOffset_at (b : list Z) (h : XtcHeader) :
  hdr_hasMetadata h = true ->
  hdr_metadataOffset h = Fields.metadataOffset b ->
  hdr_tocOffset h
  = (if Fields.hasMetadata b && (56 <=? byteLength b) then Fields.u64At b 48 else 0) ->
  Fields.hasMetadata b = true ->
  (if negb (hdr_tocOffset h =? 0) then hdr_tocOffset h
   else hdr_metadataOffset h + 256)
  = Fields.tocOffset b.
Proof.
  intros _ -> -> ->. unfold Fields.tocOffset. cbn [andb].
  destruct (56 <=? byteLength b); cbn [andb]; [|reflexivity].
  by destruct (Fields.u64At b 48 =? 0).
Qed.

Lemma parseXtcFile_isOk (b : list Z) :
  isOk (parseXtcFile b) = true
  <-> magicIs 0x58 0x54 0x43 b = true /\ Fields.readable b.
Proof.
  unfold parseXtcFile, Fields.readable. split.
  - intros H. apply isOk_bind_inv in H as (h & Hh & H).
    destruct (parseXtcHeader_Ok_length b h Hh) as [Hlen Hm].
    destruct (parseXtcHeader_at b Hlen Hm) as (h' & Hh' & Hpc & Hhm & Hmo & Hio & Hto).
    rewrite Hh in Hh'. injection Hh' as <-.
    apply isOk_bind_inv in H as (metadata & Hmeta & H).
    apply isOk_bind_inv in H as (entries & Hentries & _).
    split; [done|]. split; [done|]. split.
    + intros Hmd Hoff. rewrite <- Hhm in Hmd. rewrite <- Hmo in Hoff.
      pose proof (parseMetadata_isOk b h Hmd Hoff) as Hiff. cbv zeta in Hiff.
      rewrite (tocOffset_at b h Hmd Hmo Hto) in Hiff by (by rewrite <- Hhm).
      rewrite Hmo in Hiff. apply Hiff. by rewrite Hmeta.
    + rewrite <- Hpc, <- Hio. apply index_isOk. by rewrite Hentries.
  - intros (Hm & Hlen & Hmeta & Hindex).
    destruct (parseXtcHeader_at b Hlen Hm) as (h & Hh & Hpc & Hhm & Hmo & Hio & Hto).
    rewrite Hh. cbn [bind].
    assert (isOk (parseMetadata b h) = true) as Hmd.
    { destruct (hdr_hasMetadata h) eqn:Hhas.
      - destruct (Z.eq_dec (hdr_metadataOffset h) 0) as [H0|H0].
        + unfold parseMetadata. rewrite Hhas, H0. reflexivity.
        + pose proof (parseMetadata_isOk b h Hhas H0) as Hiff. cbv zeta in Hiff.
          rewrite (tocOffset_at b h Hhas Hmo Hto) in Hiff by (by rewrite <- Hhm).
          rewrite Hmo in Hiff. apply Hiff. apply Hmeta; [by rewrite <- Hhm|].
          by rewrite <- Hmo.
      - unfold parseMetadata. rewrite Hhas. reflexivity. }
    destruct (parseMetadata b h) as [metadata|]; [|discriminate]. cbn [bind].
    rewrite <- Hpc, <- Hio in Hindex. apply index_isOk in Hindex.
    destruct (mapM _ _); [reflexivity|discriminate].
Qed.

Lemma parseXtcFile_entries (b : list Z) parsed :
  parseXtcFile b = Ok parsed ->
  entries parsed = map (Fields.entryAt b) (seq 0 (Z.to_nat (Fields.pageCount b)))
  /\ pageData parsed
     = map (fun entry =>
              slice b (entry_offset entry) (entry_offset entry + entry_size entry))
           (entries parsed).
Proof.
  intros Hp.
  assert (isOk (parseXtcFile b) = true) as Hok by (by rewrite Hp).
  apply parseXtcFile_isOk in Hok as (Hm & Hlen & _ & Hindex).
  destruct (parseXtcHeader_at b Hlen Hm) as (h & Hh & Hpc & _ & _ & Hio & _).
  unfold parseXtcFile in Hp. rewrite Hh in Hp. cbn [bind] in Hp.
  destruct (parseMetadata b h) as [metadata|]; [|discriminate]. cbn [bind] in Hp.
  rewrite (mapM_Ok_in _ (Fields.entryAt b)) in Hp.
  - cbn [bind] in Hp. injection Hp as <-. cbn [entries pageData].
    split; [by rewrite Hpc|reflexivity].
  - intros i Hi. rewrite parseIndexEntry_at, inBounds_true.
    + unfold Fields.entryAt. by rewrite Hio.
    + rewrite Hio. rewrite Hpc in Hi.
      apply (proj2 (records_hold b (Fields.indexOffset b) 16 16 (Fields.pageCount b)
                      ltac:(lia))); [|done].
      intros Hc. specialize (Hindex Hc).
      by replace (16 * Fields.pageCount b - (16 - 16))
        with (16 * Fields.pageCount b) by lia.
Qed.

(** C3 (amended): parsing fails with the bad-magic error exactly when
    the buffer holds at least four bytes and its first three are not
    "XTC"; it fails with a [RangeError] exactly when a read of the
    header, the metadata block or the index table runs past the end of
    the buffer; in all other cases it succeeds.  Index entries are not
    range-checked: the entries of a successful parse are the records of
    the index table as they stand, and each page's data is
    [buffer.slice(offset, offset + size)], clamped to the buffer. *)
Theorem C3_parse_failures (buffer : list Z) :
  (parseXtcFile buffer = Err InvalidMagic
   <-> 4 <= byteLength buffer /\ magicIs 0x58 0x54 0x43 buffer = false)
  /\ (parseXtcFile buffer = Err RangeError
      <-> (byteLength buffer < 4 \/ magicIs 0x58 0x54 0x43 buffer = true)
          /\ ~ Fields.readable buffer)
  /\ ((exists parsed, parseXtcFile buffer = Ok parsed)
      <-> magicIs 0x58 0x54 0x43 buffer = true /\ Fields.readable buffer)
  /\ (forall e, parseXtcFile buffer = Err e -> e = InvalidMagic \/ e = RangeError)
  /\ (forall parsed, parseXtcFile buffer = Ok parsed ->
        entries parsed
        = map (Fields.entryAt buffer)
              (seq 0 (Z.to_nat (Fields.pageCount buffer)))
        /\ pageData parsed
           = map (fun entry =>
                    slice buffer (entry_offset entry)
                      (entry_offset entry + entry_size entry))
                 (entries parsed)).
Proof.
  assert (Hmagic : parseXtcFile buffer = Err InvalidMagic
                   <-> 4 <= byteLength buffer
                       /\ magicIs 0x58 0x54 0x43 buffer = false).
  { unfold parseXtcFile. rewrite <- parseXtcHeader_magic.
    destruct (parseXtcHeader buffer) as [h|e] eqn:Hh; cbn [bind];
      [|split; intros [= ->]; reflexivity].
    split; [|discriminate]. intros H.
    assert (failsOnlyWith isRangeError
              (let* metadata := parseMetadata buffer h in
               let* entries :=
                 mapM (fun i : nat =>
                         parseIndexEntry buffer (hdr_indexOffset h + Z.of_nat i * 16))
                      (seq 0 (Z.to_nat (hdr_pageCount h))) in
               Ok {| header := h; parsed_metadata := metadata; entries := entries;
                     pageData := map (pageSlice buffer) entries |})) as Hrest.
    { apply failsOnlyWith_bind; [apply parseMetadata_range|]. intros ?.
      apply failsOnlyWith_bind; [|intros ?; apply failsOnlyWith_Ok].
      apply failsOnlyWith_mapM. intros ?. apply parseIndexEntry_range. }
    apply Hrest in H. discriminate H. }
  assert (Hok : (exists parsed, parseXtcFile buffer = Ok parsed)
                <-> magicIs 0x58 0x54 0x43 buffer = true /\ Fields.readable buffer).
  { rewrite <- parseXtcFile_isOk. symmetry. apply isOk_true. }
  assert (Herr : forall e, parseXtcFile buffer = Err e ->
                           e = InvalidMagic \/ e = RangeError).
  { intros e. unfold parseXtcFile.
    destruct (parseXtcHeader buffer) as [h|e'] eqn:Hh; cbn [bind].
    - intros H. right. revert e H.
      apply failsOnlyWith_bind; [apply parseMetadata_range|]. intros ?.
      apply failsOnlyWith_bind; [|intros ?; apply failsOnlyWith_Ok].
      apply failsOnlyWith_mapM. intros ?. apply parseIndexEntry_range.
    - intros [= <-]. by apply parseXtcHeader_errors in Hh. }
  split; [exact Hmagic|].
  split; [|split; [exact Hok|split; [exact Herr|apply parseXtcFile_entries]]].
  split.
  - intros Hr. split.
    + destruct (Z.lt_ge_cases (byteLength buffer) 4) as [?|Hlen]; [by left|right].
      destruct (magicIs 88 84 67 buffer) eqn:Hm; [done|].
      assert (parseXtcFile buffer = Err InvalidMagic) as Him by (by apply Hmagic).
      congruence.
    + intros Hread.
      assert (byteLength buffer < 4 \/ magicIs 88 84 67 buffer = true) as [Hlen|Hm].
      { destruct (Z.lt_ge_cases (byteLength buffer) 4) as [?|Hlen]; [by left|right].
        destruct (magicIs 88 84 67 buffer) eqn:Hm; [done|].
        assert (parseXtcFile buffer = Err InvalidMagic) as Him by (by apply Hmagic).
        congruence. }
      * destruct Hread as [? _]. lia.
      * destruct (proj2 Hok (conj Hm Hread)) as [parsed Hp]. congruence.
  - intros [Hcase Hno].
    destruct (parseXtcFile buffer) as [parsed|e] eqn:Hp.
    + exfalso. apply Hno. apply Hok. by exists parsed.
    + destruct (Herr e eq_refl) as [->| ->]; [|reflexivity].
      destruct (proj1 Hmagic eq_refl) as [Hlen Hm].
      destruct Hcase; [lia|congruence].
Qed.

(** C3, as stated, fails: a well-formed 64-byte container whose only
    index entry points at bytes 1000..1100 is parsed without error; the
    entry is kept and its page data is empty. *)
Lemma C3_counterexample :
  exists parsed entry,
    parseXtcFile outOfRangeContainer = Ok parsed
    /\ entries parsed = [entry]
    /\ ~ inRange (byteLength outOfRangeContainer) (header parsed) entry
    /\ pageData parsed = [[]].
Proof.
  eexists; eexists. split; [vm_compute; reflexivity|].
  split; [reflexivity|]. split; [|reflexivity].
  unfold inRange. vm_compute. intros [_ H]. apply H. reflexivity.
Qed.

(** ** Chunk round trip *)

Lemma foldl_seq_from {S} (P : nat -> S -> Prop) (f : S -> nat -> S) n :
  forall a s,
    P a s ->
    (forall i s, (a <= i < a + n)%nat -> P i s -> P (Datatypes.S i) (f s i)) ->
    P (a + n)%nat (foldl f s (seq a n)).
Proof.
  induction n as [|n IH]; intros a s H0 Hstep; simpl.
  - by rewrite Nat.add_0_r.
  - replace (a + Datatypes.S n)%nat with (Datatypes.S a + n)%nat by lia.
    apply IH.
    + apply Hstep; [lia | exact H0].
    + intros i s' Hi. apply Hstep. lia.
Qed.

Lemma foldl_seq_ind {S} (P : nat -> S -> Prop) (f : S -> nat -> S) n s :
  P 0%nat s ->
  (forall i s, (i < n)%nat -> P i s -> P (Datatypes.S i) (f s i)) ->
  P n (foldl f s (seq 0 n)).
Proof.
  intros H0 Hstep. apply (foldl_seq_from P f n 0 s H0).
  intros i s' Hi. apply Hstep. lia.
Qed.

Section Loop2.

Context {S O : Type}.
Variables (A B : nat) (step : S -> nat -> nat -> S).
Variables (Inv : S -> Prop) (obs : S -> nat -> nat -> O) (v : nat -> nat -> O).
Variable s0 : S.

Hypothesis Inv_init : Inv s0.
Hypothesis Inv_step :
  forall s a b, (a < A)%nat -> (b < B)%nat -> Inv s -> Inv (step s a b).
Hypothesis obs_hit :
  forall s a b, (a < A)%nat -> (b < B)%nat -> Inv s ->
    obs s a b = obs s0 a b -> obs (step s a b) a b = v a b.
Hypothesis obs_frame :
  forall s a b a' b', (a < A)%nat -> (b < B)%nat -> (a' < A)%nat -> (b' < B)%nat ->
    (a', b') <> (a, b) -> Inv s -> obs (step s a b) a' b' = obs s a' b'.

Lemma loopInv_step a b s :
  (a < A)%nat -> (b < B)%nat ->
  loopInv A B Inv obs v s0 a b s ->
  loopInv A B Inv obs v s0 a (Datatypes.S b) (step s a b).
Proof.
  intros Ha Hb [HI HJ]. split; [by apply Inv_step|].
  intros a' b' Ha' Hb'.
  destruct (decide ((a', b') = (a, b))) as [[= -> ->]|Hne].
  - split.
    + intros _. apply obs_hit; try done. apply HJ; try done.
      unfold lexDone. lia.
    + intros Hnd. exfalso. apply Hnd. unfold lexDone. lia.
  - rewrite obs_frame by done.
    assert (lexDone a (Datatypes.S b) a' b' <-> lexDone a b a' b') as Hiff.
    { unfold lexDone. split; intros [?|[-> ?]]; try (left; lia).
      - right. split; [done|]. destruct (decide (b' = b)) as [->|]; [congruence|lia].
      - right. split; [done|lia]. }
    rewrite Hiff. by apply HJ.
Qed.

Lemma loopInv_row a s :
  loopInv A B Inv obs v s0 a B s -> loopInv A B Inv obs v s0 (Datatypes.S a) 0 s.
Proof.
  intros [HI HJ]. split; [done|]. intros a' b' Ha' Hb'.
  assert (lexDone (Datatypes.S a) 0 a' b' <-> lexDone a B a' b') as Hiff.
  { unfold lexDone. split; [intros [?|[-> ?]]|intros [?|[-> ?]]]; lia. }
  rewrite Hiff. by apply HJ.
Qed.

Lemma loop2_obs :
  Inv (loop2 A B step s0)
  /\ forall a b, (a < A)%nat -> (b < B)%nat -> obs (loop2 A B step s0) a b = v a b.
Proof.
  assert (loopInv A B Inv obs v s0 A 0 (loop2 A B step s0)) as [HI HJ].
  { unfold loop2.
    apply (foldl_seq_ind (fun a s => loopInv A B Inv obs v s0 a 0 s)).
    - split; [done|]. intros a' b' _ _. split; [|done].
      unfold lexDone. lia.
    - intros a s Ha HJ. apply loopInv_row.
      apply (foldl_seq_ind (fun b s => loopInv A B Inv obs v s0 a b s)); [done|].
      intros b s' Hb HJ'. by apply loopInv_step. }
  split; [done|]. intros a b Ha Hb. apply HJ; try done. unfold lexDone. lia.
Qed.

End Loop2.

Lemma testbit_1 (n : Z) : Z.testbit 1 n = (n =? 0).
Proof. destruct n; reflexivity. Qed.

Lemma testbit_orbit (b k k' : Z) :
  0 <= k < 8 -> 0 <= k' < 8 ->
  Z.testbit (Js.u8 (Z.lor b (Z.shiftl 1 k))) k' = Z.testbit b k' || (k' =? k).
Proof.
  intros Hk Hk'. unfold Js.u8. change 256 with (2 ^ 8).
  rewrite Z.mod_pow2_bits_low by lia.
  rewrite Z.lor_spec, Z.shiftl_spec by lia. rewrite testbit_1.
  f_equal. destruct (Z.eqb_spec (k' - k) 0), (Z.eqb_spec k' k); lia || reflexivity.
Qed.

Lemma bitOf_testbit (plane : list Z) (byteIdx : nat) (bitIdx : Z) :
  0 <= bitIdx ->
  XtcReader.bitOf plane byteIdx bitIdx
  = Z.b2z (Z.testbit (default 0 (plane !! byteIdx)) bitIdx).
Proof.
  intros Hb. unfold XtcReader.bitOf.
  rewrite Z.testbit_spec' by lia. rewrite Z.shiftr_div_pow2 by lia.
  change 1 with (Z.ones 1) at 1. rewrite Z.land_ones by lia. reflexivity.
Qed.

Lemma orAt_lookup (arr : list Z) (i j : nat) (mask : Z) :
  Uint8Array.orAt arr i mask !! j
  = if decide (j = i) then (fun b => Js.u8 (Z.lor b mask)) <$> arr !! i
    else arr !! j.
Proof.
  unfold Uint8Array.orAt. destruct (arr !! i) as [b|] eqn:Hi.
  - destruct (decide (j = i)) as [->|Hne].
    + rewrite list_lookup_insert_eq; [done|]. by eapply lookup_lt_Some.
    + by rewrite list_lookup_insert_ne.
  - destruct (decide (j = i)) as [->|Hne]; [by rewrite Hi|done].
Qed.

Lemma orAt_length (arr : list Z) i mask :
  length (Uint8Array.orAt arr i mask) = length arr.
Proof.
  unfold Uint8Array.orAt. destruct (arr !! i); [apply length_insert|done].
Qed.

Lemma divmod_pair_inj (R a b a' b' : nat) :
  (b < R)%nat -> (b' < R)%nat -> (a * R + b = a' * R + b')%nat -> a = a' /\ b = b'.
Proof.
  intros Hb Hb' H.
  assert (a = a') as ->.
  { destruct (Nat.lt_trichotomy a a') as [Hlt|[?|Hlt]]; [|done|]; exfalso; nia. }
  split; [done|lia].
Qed.

Lemma ceil8_is_ceiling (n : nat) :
  Z.of_nat (ceil8 n) = Qceiling (inject_Z (Z.of_nat n) / 8).
Proof.
  unfold ceil8. rewrite Nat2Z.inj_div, Nat2Z.inj_add.
  change (Z.of_nat 7) with 7. change (Z.of_nat 8) with 8.
  set (z := Z.of_nat n). assert (0 <= z) by lia.
  unfold Qceiling, Qfloor, Qdiv, Qopp, Qmult, Qinv, inject_Z.
  cbn [Qnum Qden]. rewrite Z.mul_1_r.
  change (Z.pos (1 * 8)) with 8.
  pose proof (Z.div_mod (z + 7) 8 ltac:(lia)).
  pose proof (Z.mod_pos_bound (z + 7) 8 ltac:(lia)).
  pose proof (Z.div_mod (- z) 8 ltac:(lia)).
  pose proof (Z.mod_pos_bound (- z) 8 ltac:(lia)).
  lia.
Qed.

Lemma ceil8_bound (n x : nat) : (x < n)%nat -> (x / 8 < ceil8 n)%nat.
Proof.
  intros Hx. unfold ceil8. apply Nat.Div0.div_lt_upper_bound.
  pose proof (Nat.div_mod_eq (n + 7) 8).
  pose proof (Nat.mod_upper_bound (n + 7) 8). lia.
Qed.

Lemma byteIndex_bound (R n a b : nat) :
  (a < n)%nat -> (b < R)%nat -> (a * R + b < R * n)%nat.
Proof. intros. nia. Qed.

Lemma mod8_inj (x x' : nat) :
  (x / 8 = x' / 8)%nat -> (x mod 8 = x' mod 8)%nat -> x = x'.
Proof.
  intros Hd Hm. rewrite (Nat.div_mod_eq x 8), (Nat.div_mod_eq x' 8). lia.
Qed.

Lemma bitIndex_range (x : nat) : 0 <= 7 - Z.of_nat (x mod 8) < 8.
Proof. pose proof (Nat.mod_upper_bound x 8). lia. Qed.

(** The observation of one bit of a packed plane, and the effect on it
    of one guarded [orAt]. *)
Lemma orAt_bit_same (arr : list Z) (i : nat) (k : Z) :
  (i < length arr)%nat -> 0 <= k < 8 ->
  Z.testbit (default 0 (Uint8Array.orAt arr i (Z.shiftl 1 k) !! i)) k = true.
Proof.
  intros Hi Hk. rewrite orAt_lookup. rewrite decide_True by done.
  destruct (lookup_lt_is_Some_2 arr i Hi) as [b Hb]. rewrite Hb. simpl.
  rewrite testbit_orbit by lia. rewrite Z.eqb_refl. apply orb_true_r.
Qed.

Lemma orAt_bit_other (arr : list Z) (i j : nat) (k k' : Z) :
  0 <= k < 8 -> 0 <= k' < 8 -> (j, k') <> (i, k) ->
  Z.testbit (default 0 (Uint8Array.orAt arr i (Z.shiftl 1 k) !! j)) k'
  = Z.testbit (default 0 (arr !! j)) k'.
Proof.
  intros Hk Hk' Hne. rewrite orAt_lookup.
  destruct (decide (j = i)) as [->|]; [|done].
  destruct (arr !! i) as [b|]; simpl; [|done].
  rewrite testbit_orbit by lia.
  destruct (Z.eqb_spec k' k) as [->|]; [congruence|]. apply orb_false_r.
Qed.

Lemma zero_plane_bit (n i : nat) (k : Z) :
  Z.testbit (default 0 (replicate n 0 !! i)) k = false.
Proof.
  destruct (replicate n 0 !! i) as [b|] eqn:Hb; simpl.
  - apply lookup_replicate in Hb as [-> _]. apply Z.testbit_0_l.
  - apply Z.testbit_0_l.
Qed.

Lemma xtgPixelData_spec (img : ImageData) :
  let w := img_width img in
  let h := img_height img in
  let rowBytes := ceil8 w in
  length (xtgPixelData img) = (rowBytes * h)%nat
  /\ forall y x, (y < h)%nat -> (x < w)%nat ->
       Z.testbit (default 0 (xtgPixelData img !! (y * rowBytes + x / 8)%nat))
                 (7 - Z.of_nat (x mod 8))
       = xtgBit img y x.
Proof.
  intros w h rowBytes. unfold xtgPixelData. fold w h rowBytes.
  apply (loop2_obs h w _
           (fun s => length s = (rowBytes * h)%nat)
           (fun s y x =>
              Z.testbit (default 0 (s !! (y * rowBytes + x / 8)%nat))
                        (7 - Z.of_nat (x mod 8)))
           (xtgBit img)).
  - apply length_replicate.
  - intros s y x Hy Hx Hs. destruct (xtgBit img y x); [|done].
    by rewrite orAt_length.
  - intros s y x Hy Hx Hs Hobs. rewrite zero_plane_bit in Hobs.
    destruct (xtgBit img y x); [|done].
    apply orAt_bit_same; [|apply bitIndex_range].
    rewrite Hs. apply byteIndex_bound; [done|]. by apply ceil8_bound.
  - intros s y x y' x' Hy Hx Hy' Hx' Hne Hs.
    destruct (xtgBit img y x); [|done].
    apply orAt_bit_other; try apply bitIndex_range.
    intros Heq. pose proof (f_equal fst Heq) as Hb.
    pose proof (f_equal snd Heq) as Hk. cbn [fst snd] in Hb, Hk. apply Hne.
    apply divmod_pair_inj in Hb as [-> Hd]; try by apply ceil8_bound.
    f_equal. apply mod8_inj; [done|lia].
Qed.

Lemma xthPlanes_spec (img : ImageData) :
  let w := img_width img in
  let h := img_height img in
  let colBytes := ceil8 h in
  let planes := xthPlanes img in
  (length (fst planes) = (colBytes * w)%nat
   /\ length (snd planes) = (colBytes * w)%nat)
  /\ forall x y, (x < w)%nat -> (y < h)%nat ->
       (Z.testbit (default 0 (fst planes !! ((w - 1 - x) * colBytes + y / 8)%nat))
                  (7 - Z.of_nat (y mod 8)),
        Z.testbit (default 0 (snd planes !! ((w - 1 - x) * colBytes + y / 8)%nat))
                  (7 - Z.of_nat (y mod 8)))
       = (negb (Z.land (xthVal img x y) 1 =? 0),
          negb (Z.land (xthVal img x y) 2 =? 0)).
Proof.
  intros w h colBytes planes. subst planes. unfold xthPlanes. fold w h colBytes.
  apply (loop2_obs w h _
           (fun s => length (fst s) = (colBytes * w)%nat
                     /\ length (snd s) = (colBytes * w)%nat)
           (fun s x y =>
              (Z.testbit (default 0 (fst s !! ((w - 1 - x) * colBytes + y / 8)%nat))
                         (7 - Z.of_nat (y mod 8)),
               Z.testbit (default 0 (snd s !! ((w - 1 - x) * colBytes + y / 8)%nat))
                         (7 - Z.of_nat (y mod 8))))
           (fun x y => (negb (Z.land (xthVal img x y) 1 =? 0),
                        negb (Z.land (xthVal img x y) 2 =? 0)))).
  - simpl. by rewrite length_replicate.
  - intros [p0 p1] x y Hx Hy [H0 H1]; simpl in *.
    split.
    + destruct (negb (Z.land (xthVal img x y) 1 =? 0)); [|done]. by rewrite orAt_length.
    + destruct (negb (Z.land (xthVal img x y) 2 =? 0)); [|done]. by rewrite orAt_length.
  - intros [p0 p1] x y Hx Hy [H0 H1] Hobs; simpl in *.
    rewrite !zero_plane_bit in Hobs.
    assert (((w - 1 - x) * colBytes + y / 8 < colBytes * w)%nat) as Hidx.
    { apply byteIndex_bound; [lia|]. by apply ceil8_bound. }
    injection Hobs as Hb0 Hb1. f_equal.
    + destruct (negb (Z.land (xthVal img x y) 1 =? 0)); [|done].
      apply orAt_bit_same; [by rewrite H0|apply bitIndex_range].
    + destruct (negb (Z.land (xthVal img x y) 2 =? 0)); [|done].
      apply orAt_bit_same; [by rewrite H1|apply bitIndex_range].
  - intros [p0 p1] x y x' y' Hx Hy Hx' Hy' Hne [H0 H1]; simpl in *.
    assert ((((w - 1 - x') * colBytes + y' / 8)%nat, 7 - Z.of_nat (y' mod 8))
            <> (((w - 1 - x) * colBytes + y / 8)%nat, 7 - Z.of_nat (y mod 8))) as Hne'.
    { intros Heq. pose proof (f_equal fst Heq) as Hb.
      pose proof (f_equal snd Heq) as Hk. cbn [fst snd] in Hb, Hk. apply Hne.
      apply divmod_pair_inj in Hb as [Hcol Hd]; try by apply ceil8_bound.
      f_equal; [lia|]. apply mod8_inj; [done|lia]. }
    f_equal.
    + destruct (negb (Z.land (xthVal img x y) 1 =? 0)); [|done].
      apply orAt_bit_other; try apply bitIndex_range. done.
    + destruct (negb (Z.land (xthVal img x y) 2 =? 0)); [|done].
      apply orAt_bit_other; try apply bitIndex_range. done.
Qed.

Lemma bytesLE_length n v : length (DataView.bytesLE n v) = n.
Proof. revert v; induction n; intros; simpl; [done|by rewrite IHn]. Qed.

Lemma overwrite_mid (pre old new post : list Z) :
  length old = length new ->
  DataView.overwrite (pre ++ old ++ post) (length pre) new = pre ++ new ++ post.
Proof.
  intros Hlen. unfold DataView.overwrite.
  rewrite take_app_length. f_equal. f_equal.
  rewrite drop_app_add. rewrite <- Hlen. apply drop_app_length.
Qed.

Lemma inBounds_mid (pre old post : list Z) :
  DataView.inBounds (pre ++ old ++ post) (Z.of_nat (length pre)) (Z.of_nat (length old))
  = true.
Proof.
  unfold DataView.inBounds, byteLength. rewrite !length_app.
  apply andb_true_intro. split; [apply Z.leb_le|apply Z.leb_le]; lia.
Qed.

Lemma setUint_at (n : nat) (pre old post : list Z) (v : Z) :
  length old = n ->
  DataView.setUint n (pre ++ old ++ post) (Z.of_nat (length pre)) v
  = Ok (pre ++ DataView.bytesLE n v ++ post).
Proof.
  intros Hn. unfold DataView.setUint. rewrite <- Hn, inBounds_mid.
  rewrite Nat2Z.id, overwrite_mid; [done|]. by rewrite bytesLE_length.
Qed.

Lemma set_at (pre old post new : list Z) :
  length old = length new ->
  Uint8Array.set (pre ++ old ++ post) new (Z.of_nat (length pre))
  = Ok (pre ++ new ++ post).
Proof.
  intros Hn. unfold Uint8Array.set, byteLength. rewrite <- Hn, inBounds_mid.
  by rewrite Nat2Z.id, overwrite_mid.
Qed.

Lemma writeChunkHeader_spec (c : Z) (w h payloadLength : nat) (rest : list Z) :
  0 <= c < 256 ->
  writeChunkHeader (replicate 14 0 ++ rest) [0x58; 0x54; c; 0x00] w h payloadLength
  = Ok (chunkHeader [0x58; 0x54; c; 0x00] w h payloadLength ++ rest).
Proof.
  intros Hc. unfold writeChunkHeader, chunkHeader.
  cbn [replicate app foldl seq lookup list_lookup default Uint8Array.store
       insert list_insert].
  unfold Js.u8, id. rewrite (Z.mod_small c 256) by lia.
  change (88 mod 256) with 88. change (84 mod 256) with 84.
  change (0 mod 256) with 0.
  unfold DataView.setUint16, DataView.setUint8, DataView.setUint32.
  rewrite (setUint_at 2 [88; 84; c; 0] [0; 0] (replicate 8 0 ++ rest)) by done.
  cbn [bind app].
  set (bw := DataView.bytesLE 2 (Z.of_nat w)).
  assert (length bw = 2%nat) as Hbw by apply bytesLE_length.
  destruct bw as [|w0 [|w1 [|? ?]]]; try discriminate Hbw. cbn [app].
  rewrite (setUint_at 2 [88; 84; c; 0; w0; w1] [0; 0] (replicate 6 0 ++ rest)) by done.
  cbn [bind app].
  set (bh := DataView.bytesLE 2 (Z.of_nat h)).
  assert (length bh = 2%nat) as Hbh by apply bytesLE_length.
  destruct bh as [|h0 [|h1 [|? ?]]]; try discriminate Hbh. cbn [app].
  rewrite (setUint_at 1 [88; 84; c; 0; w0; w1; h0; h1] [0] (replicate 5 0 ++ rest)) by done.
  cbn [bind app DataView.bytesLE]. change (0 mod 256) with 0.
  rewrite (setUint_at 1 [88; 84; c; 0; w0; w1; h0; h1; 0] [0] (replicate 4 0 ++ rest)) by done.
  cbn [bind app DataView.bytesLE]. change (0 mod 256) with 0.
  rewrite (setUint_at 4 [88; 84; c; 0; w0; w1; h0; h1; 0; 0] [0; 0; 0; 0] rest) by done.
  reflexivity.
Qed.

Lemma putPixel_length data idx color :
  length (putPixel data idx color) = length data.
Proof. unfold putPixel. by rewrite !length_insert. Qed.

Lemma putPixel_lookup_hit (data : list Z) idx color :
  (idx + 3 < length data)%nat ->
  (putPixel data idx color !! idx,
   putPixel data idx color !! (idx + 1)%nat,
   putPixel data idx color !! (idx + 2)%nat,
   putPixel data idx color !! (idx + 3)%nat)
  = (Some color, Some color, Some color, Some 255).
Proof.
  intros Hlen. unfold putPixel.
  repeat f_equal.
  - rewrite !list_lookup_insert_ne by lia.
    apply list_lookup_insert_eq. lia.
  - rewrite !list_lookup_insert_ne by lia.
    apply list_lookup_insert_eq. rewrite length_insert. lia.
  - rewrite !list_lookup_insert_ne by lia.
    apply list_lookup_insert_eq. rewrite !length_insert. lia.
  - apply list_lookup_insert_eq. rewrite !length_insert. lia.
Qed.

Lemma putPixel_lookup_other (data : list Z) idx color j :
  (j < idx \/ idx + 3 < j)%nat ->
  putPixel data idx color !! j = data !! j.
Proof.
  intros Hj. unfold putPixel. by rewrite !list_lookup_insert_ne by lia.
Qed.

Lemma putPixel_loop (A B L : nat) (pix : nat -> nat -> nat)
    (color : nat -> nat -> Z) :
  (forall a b, (a < A)%nat -> (b < B)%nat -> (pix a b * 4 + 3 < L)%nat) ->
  (forall a b a' b', (a < A)%nat -> (b < B)%nat -> (a' < A)%nat -> (b' < B)%nat ->
     pix a' b' = pix a b -> (a', b') = (a, b)) ->
  let data :=
    loop2 A B (fun data a b => putPixel data (pix a b * 4) (color a b))
      (replicate L 0) in
  length data = L
  /\ forall a b, (a < A)%nat -> (b < B)%nat ->
       (data !! (pix a b * 4)%nat,
        data !! (pix a b * 4 + 1)%nat,
        data !! (pix a b * 4 + 2)%nat,
        data !! (pix a b * 4 + 3)%nat)
       = (Some (color a b), Some (color a b), Some (color a b), Some 255).
Proof.
  intros Hrange Hinj data. subst data.
  apply (loop2_obs A B _ (fun s => length s = L)
           (fun s a b =>
              (s !! (pix a b * 4)%nat, s !! (pix a b * 4 + 1)%nat,
               s !! (pix a b * 4 + 2)%nat, s !! (pix a b * 4 + 3)%nat))
           (fun a b => (Some (color a b), Some (color a b), Some (color a b), Some 255))).
  - apply length_replicate.
  - intros s a b _ _ Hs. by rewrite putPixel_length.
  - intros s a b Ha Hb Hs _. apply putPixel_lookup_hit.
    rewrite Hs. by apply Hrange.
  - intros s a b a' b' Ha Hb Ha' Hb' Hne Hs.
    assert (pix a' b' <> pix a b) as Hp by (intros Heq; by apply Hne, Hinj).
    rewrite !putPixel_lookup_other by lia. reflexivity.
Qed.

Lemma pixel_index_bound (w h y x : nat) :
  (y < h)%nat -> (x < w)%nat -> ((y * w + x) * 4 + 3 < 4 * w * h)%nat.
Proof. intros. nia. Qed.

Lemma chunkHeader_length (c : Z) (w h n : nat) :
  length (chunkHeader [0x58; 0x54; c; 0x00] w h n) = 14%nat.
Proof. reflexivity. Qed.

Lemma xtgDigest_length (pixelData : list Z) : length (xtgDigest pixelData) = 8%nat.
Proof. unfold xtgDigest. rewrite length_app, length_take, length_replicate. lia. Qed.

Lemma set_at_offset (pre old post new : list Z) (offset : Z) :
  offset = Z.of_nat (length pre) -> length old = length new ->
  Uint8Array.set (pre ++ old ++ post) new offset = Ok (pre ++ new ++ post).
Proof. intros -> Hlen. by apply set_at. Qed.

Lemma imageDataToXtg_layout (img : ImageData) :
  let pixelData := xtgPixelData img in
  imageDataToXtg img
  = Ok (chunkHeader [0x58; 0x54; 0x47; 0x00] (img_width img) (img_height img)
          (length pixelData)
        ++ xtgDigest pixelData ++ pixelData).
Proof.
  intros pixelData. unfold imageDataToXtg. fold pixelData.
  change (22 + length pixelData)%nat with (14 + (8 + length pixelData))%nat.
  rewrite !replicate_add.
  rewrite writeChunkHeader_spec by lia. cbn [bind].
  rewrite (set_at_offset _ (replicate 8 0) _ (xtgDigest pixelData) 14);
    [|reflexivity|by rewrite xtgDigest_length, length_replicate].
  cbn [bind].
  rewrite (app_assoc _ (xtgDigest pixelData)).
  rewrite <- (app_nil_r (replicate (length pixelData) 0)).
  rewrite (set_at_offset _ (replicate (length pixelData) 0) [] pixelData).
  - by rewrite app_nil_r, <- app_assoc.
  - rewrite length_app, chunkHeader_length, xtgDigest_length. reflexivity.
  - apply length_replicate.
Qed.

Lemma xthDigest_layout (c : Z) (w h n : nat) (p0 p1 rest : list Z) :
  exists digest,
    length digest = 8%nat
    /\ xthDigest (chunkHeader [0x58; 0x54; c; 0x00] w h n ++ replicate 8 0 ++ rest) p0 p1
       = chunkHeader [0x58; 0x54; c; 0x00] w h n ++ digest ++ rest.
Proof.
  eexists (map (fun i => Js.u8 (Z.lxor (default 0 (p0 !! i)) (default 0 (p1 !! i))))
               (seq 0 8)).
  split; reflexivity.
Qed.

Lemma xthPlanes_pair (img : ImageData) :
  xthPlanes img = (fst (xthPlanes img), snd (xthPlanes img)).
Proof. by destruct (xthPlanes img). Qed.

Lemma imageDataToXth_layout (img : ImageData) :
  let p0 := fst (xthPlanes img) in
  let p1 := snd (xthPlanes img) in
  exists digest,
    length digest = 8%nat
    /\ imageDataToXth img
       = Ok (chunkHeader [0x58; 0x54; 0x48; 0x00] (img_width img) (img_height img)
               (ceil8 (img_height img) * img_width img * 2)
             ++ digest ++ p0 ++ p1).
Proof.
  intros p0 p1.
  destruct (xthPlanes_spec img) as [[Hl0 Hl1] _]. fold p0 p1 in Hl0, Hl1.
  set (planeSize := (ceil8 (img_height img) * img_width img)%nat) in *.
  destruct (xthDigest_layout 0x48 (img_width img) (img_height img) (planeSize * 2)
              p0 p1 (replicate (planeSize * 2) 0)) as (digest & Hd & Hdig).
  exists digest. split; [done|].
  unfold imageDataToXth. rewrite xthPlanes_pair. fold p0 p1 planeSize.
  change (22 + planeSize * 2)%nat with (14 + (8 + planeSize * 2))%nat.
  rewrite !replicate_add.
  rewrite writeChunkHeader_spec by lia. cbn [bind].
  rewrite Hdig.
  replace (planeSize * 2)%nat with (planeSize + planeSize)%nat at 2 by lia.
  rewrite replicate_add.
  rewrite (app_assoc _ digest).
  rewrite (set_at_offset _ (replicate planeSize 0) _ p0);
    [|rewrite length_app, chunkHeader_length, Hd; reflexivity
     |by rewrite length_replicate].
  cbn [bind].
  rewrite (app_assoc _ p0).
  rewrite <- (app_nil_r (replicate planeSize 0)).
  rewrite (set_at_offset _ (replicate planeSize 0) [] p1).
  - by rewrite app_nil_r, <- !app_assoc.
  - rewrite !length_app, chunkHeader_length, Hd, Hl0. lia.
  - by rewrite length_replicate.
Qed.

(** X4: both packers always succeed, and the chunk they return has the
    size that [getXtcPageSize] computes from the dimensions. *)
Theorem packed_chunk_size (is2bit : bool) (img : ImageData) :
  exists chunk,
    encodeImageData is2bit img = Ok chunk
    /\ length chunk = getXtcPageSize (img_width img) (img_height img) is2bit.
Proof.
  destruct is2bit; unfold encodeImageData, getXtcPageSize.
  - destruct (imageDataToXth_layout img) as (digest & Hd & ->).
    destruct (xthPlanes_spec img) as [[H0 H1] _].
    eexists; split; [reflexivity|].
    rewrite !length_app, chunkHeader_length, Hd, H0, H1. lia.
  - rewrite imageDataToXtg_layout.
    destruct (xtgPixelData_spec img) as [HP _].
    eexists; split; [reflexivity|].
    rewrite !length_app, chunkHeader_length, xtgDigest_length, HP. lia.
Qed.

Lemma bytesLE2_value (v : Z) :
  v mod 256 + 256 * ((v / 256) mod 256) = v mod 65536.
Proof. change 65536 with (256 * 256). rewrite Z.rem_mul_r by lia. reflexivity. Qed.

Lemma bytesLE4_value (v : Z) :
  v mod 256 + 256 * ((v / 256) mod 256) + 65536 * ((v / 256 / 256) mod 256)
  + 16777216 * ((v / 256 / 256 / 256) mod 256) = v mod 4294967296.
Proof.
  change 4294967296 with (256 * (256 * (256 * 256))).
  rewrite (Z.rem_mul_r v 256 (256 * (256 * 256))) by lia.
  rewrite (Z.rem_mul_r (v / 256) 256 (256 * 256)) by lia.
  rewrite (Z.rem_mul_r (v / 256 / 256) 256 256) by lia.
  lia.
Qed.

Lemma byteAt_app_r (pre post : list Z) (offset : Z) (i : nat) :
  offset = Z.of_nat (length pre) ->
  DataView.byteAt (pre ++ post) (offset + Z.of_nat i) = default 0 (post !! i).
Proof.
  intros ->. unfold DataView.byteAt.
  rewrite lookup_app_r by lia. do 2 f_equal. lia.
Qed.

Lemma inBounds_decomp (buffer pre mid post : list Z) (offset size : Z) :
  buffer = pre ++ mid ++ post ->
  offset = Z.of_nat (length pre) -> size = Z.of_nat (length mid) ->
  DataView.inBounds buffer offset size = true.
Proof. intros -> -> ->. apply inBounds_mid. Qed.

Lemma getUint16_decomp (buffer pre post : list Z) (offset v : Z) :
  buffer = pre ++ DataView.bytesLE 2 v ++ post ->
  offset = Z.of_nat (length pre) ->
  DataView.getUint16 buffer offset = Ok (v mod 65536).
Proof.
  intros Hb Ho. unfold DataView.getUint16.
  rewrite (inBounds_decomp buffer pre (DataView.bytesLE 2 v) post) by done.
  rewrite Hb. rewrite <- (Z.add_0_r offset) at 1.
  rewrite (byteAt_app_r pre _ offset 0), (byteAt_app_r pre _ offset 1) by done.
  cbn. unfold id. by rewrite bytesLE2_value.
Qed.

Lemma getUint32_decomp (buffer pre post : list Z) (offset v : Z) :
  buffer = pre ++ DataView.bytesLE 4 v ++ post ->
  offset = Z.of_nat (length pre) ->
  DataView.getUint32 buffer offset = Ok (v mod 4294967296).
Proof.
  intros Hb Ho. unfold DataView.getUint32.
  rewrite (inBounds_decomp buffer pre (DataView.bytesLE 4 v) post) by done.
  rewrite Hb. rewrite <- (Z.add_0_r offset) at 1.
  rewrite (byteAt_app_r pre _ offset 0), (byteAt_app_r pre _ offset 1),
    (byteAt_app_r pre _ offset 2), (byteAt_app_r pre _ offset 3) by done.
  cbn. unfold id. by rewrite bytesLE4_value.
Qed.

Lemma view_decomp (buffer pre mid post : list Z) (offset size : Z) :
  buffer = pre ++ mid ++ post ->
  offset = Z.of_nat (length pre) -> size = Z.of_nat (length mid) ->
  Uint8Array.view buffer offset size = Ok mid.
Proof.
  intros Hb Ho Hs. unfold Uint8Array.view.
  rewrite (inBounds_decomp buffer pre mid post) by done.
  rewrite Hb, Ho, Hs, !Nat2Z.id.
  replace (0 <=? Z.of_nat (length mid)) with true by (symmetry; apply Z.leb_le; lia).
  cbn [andb]. by rewrite drop_app_length, take_app_length.
Qed.

Lemma decode_xtg_layout (w h : nat) (digest pixelData : list Z) :
  1 <= Z.of_nat w < 65536 -> 1 <= Z.of_nat h < 65536 ->
  length digest = 8%nat -> Z.of_nat (length pixelData) < 4294967296 ->
  decodeXtcPageToCanvas
    (chunkHeader [0x58; 0x54; 0x47; 0x00] w h (length pixelData)
     ++ digest ++ pixelData)
  = Ok {| img_width := w; img_height := h;
          img_data := xtgDecoded w h pixelData |}.
Proof.
  intros Hw Hh Hd Hn.
  set (buffer := chunkHeader _ _ _ _ ++ _).
  unfold decodeXtcPageToCanvas.
  change (magicIs 88 84 71 buffer) with true.
  change (magicIs 88 84 72 buffer) with false.
  cbn [negb andb].
  rewrite (getUint16_decomp buffer [88; 84; 71; 0]
             (DataView.bytesLE 2 (Z.of_nat h) ++ [0; 0]
              ++ DataView.bytesLE 4 (Z.of_nat (length pixelData))
              ++ digest ++ pixelData) 4 (Z.of_nat w)) by reflexivity.
  cbn [bind].
  rewrite (getUint16_decomp buffer
             ([88; 84; 71; 0] ++ DataView.bytesLE 2 (Z.of_nat w))
             ([0; 0] ++ DataView.bytesLE 4 (Z.of_nat (length pixelData))
              ++ digest ++ pixelData) 6 (Z.of_nat h)) by reflexivity.
  cbn [bind].
  rewrite !Z.mod_small by lia.
  replace (Z.of_nat w =? 0) with false by (symmetry; apply Z.eqb_neq; lia).
  replace (Z.of_nat h =? 0) with false by (symmetry; apply Z.eqb_neq; lia).
  cbn [orb]. rewrite !Nat2Z.id.
  rewrite (getUint32_decomp buffer
             ([88; 84; 71; 0] ++ DataView.bytesLE 2 (Z.of_nat w)
              ++ DataView.bytesLE 2 (Z.of_nat h) ++ [0; 0])
             (digest ++ pixelData) 10 (Z.of_nat (length pixelData))) by reflexivity.
  cbn [bind]. rewrite Z.mod_small by lia.
  rewrite (view_decomp buffer
             (chunkHeader [0x58; 0x54; 0x47; 0x00] w h (length pixelData) ++ digest)
             pixelData [] 22 (Z.of_nat (length pixelData))).
  - reflexivity.
  - subst buffer. by rewrite app_nil_r, <- app_assoc.
  - rewrite length_app, chunkHeader_length, Hd. reflexivity.
  - reflexivity.
Qed.

Lemma decode_xth_layout (w h : nat) (digest p0 p1 : list Z) :
  1 <= Z.of_nat w < 65536 -> 1 <= Z.of_nat h < 65536 ->
  length digest = 8%nat ->
  length p0 = (ceil8 h * w)%nat -> length p1 = (ceil8 h * w)%nat ->
  decodeXtcPageToCanvas
    (chunkHeader [0x58; 0x54; 0x48; 0x00] w h (ceil8 h * w * 2)
     ++ digest ++ p0 ++ p1)
  = Ok {| img_width := w; img_height := h;
          img_data := xthDecoded w h p0 p1 |}.
Proof.
  intros Hw Hh Hd H0 H1.
  set (n := (ceil8 h * w * 2)%nat).
  set (buffer := chunkHeader _ _ _ _ ++ _).
  unfold decodeXtcPageToCanvas.
  change (magicIs 88 84 71 buffer) with false.
  change (magicIs 88 84 72 buffer) with true.
  cbn [negb andb].
  rewrite (getUint16_decomp buffer [88; 84; 72; 0]
             (DataView.bytesLE 2 (Z.of_nat h) ++ [0; 0]
              ++ DataView.bytesLE 4 (Z.of_nat n)
              ++ digest ++ p0 ++ p1) 4 (Z.of_nat w)) by reflexivity.
  cbn [bind].
  rewrite (getUint16_decomp buffer
             ([88; 84; 72; 0] ++ DataView.bytesLE 2 (Z.of_nat w))
             ([0; 0] ++ DataView.bytesLE 4 (Z.of_nat n)
              ++ digest ++ p0 ++ p1) 6 (Z.of_nat h)) by reflexivity.
  cbn [bind].
  rewrite !Z.mod_small by lia.
  replace (Z.of_nat w =? 0) with false by (symmetry; apply Z.eqb_neq; lia).
  replace (Z.of_nat h =? 0) with false by (symmetry; apply Z.eqb_neq; lia).
  cbn [orb]. rewrite !Nat2Z.id.
  rewrite (view_decomp buffer
             (chunkHeader [0x58; 0x54; 0x48; 0x00] w h n ++ digest) p0 p1 22
             (Z.of_nat (ceil8 h * w)));
    [|subst buffer; by rewrite <- app_assoc
     |rewrite length_app, chunkHeader_length, Hd; reflexivity
     |by rewrite H0].
  cbn [bind].
  rewrite (view_decomp buffer
             (chunkHeader [0x58; 0x54; 0x48; 0x00] w h n ++ digest ++ p0) p1 []
             (22 + Z.of_nat (ceil8 h * w)) (Z.of_nat (ceil8 h * w)));
    [|subst buffer; by rewrite app_nil_r, <- !app_assoc
     |rewrite !length_app, chunkHeader_length, Hd, H0; lia
     |by rewrite H1].
  reflexivity.
Qed.

Lemma grayPixels_lookup (lv : list Z) (p : nat) : forall data,
  grayPixels lv data = true -> (p * 4 + 3 < length data)%nat ->
  exists gray,
    In gray lv
    /\ data !! (p * 4)%nat = Some gray
    /\ data !! (p * 4 + 1)%nat = Some gray
    /\ data !! (p * 4 + 2)%nat = Some gray.
Proof.
  induction p as [|p IH]; intros data Hg Hlen.
  - destruct data as [|r [|g [|b [|a rest]]]]; simpl in Hlen; try lia.
    simpl in Hg. rewrite !andb_true_iff in Hg.
    destruct Hg as [[[Hr Hg'] Hb] _].
    apply Z.eqb_eq in Hg', Hb. subst g b.
    exists r. split; [|done].
    apply existsb_exists in Hr as (l & Hin & Hl). apply Z.eqb_eq in Hl. by subst l.
  - destruct data as [|r [|g [|b [|a rest]]]]; simpl in Hlen; try lia.
    simpl in Hg. rewrite !andb_true_iff in Hg. destruct Hg as [_ Hrest].
    destruct (IH rest Hrest) as (gray & Hin & H0 & H1 & H2); [lia|].
    exists gray. split; [done|].
    replace (Datatypes.S p * 4)%nat with (4 + p * 4)%nat by lia.
    done.
Qed.

Lemma xtg_color (gray : Z) :
  In gray (levels false) ->
  (if negb (Z.b2z (128 <=? gray) =? 0) then 255 else 0) = gray.
Proof. simpl. intros [<-|[<-|[]]]; reflexivity. Qed.

Lemma xth_color (gray : Z) :
  In gray (levels true) ->
  let val :=
    if 212 <=? gray then 0 else if 127 <=? gray then 1
    else if 42 <=? gray then 2 else 3 in
  xthColor (Z.lor (Z.b2z (negb (Z.land val 1 =? 0)))
                  (Z.shiftl (Z.b2z (negb (Z.land val 2 =? 0))) 1))
  = gray.
Proof. simpl. intros [<-|[<-|[<-|[<-|[]]]]]; reflexivity. Qed.

Lemma ceil8_le (n : nat) : (ceil8 n <= n)%nat.
Proof.
  unfold ceil8. destruct n as [|n]; [reflexivity|].
  apply Nat.Div0.div_le_upper_bound. lia.
Qed.

Lemma pixel_index_inj (w h y x y' x' : nat) :
  (x < w)%nat -> (x' < w)%nat ->
  (y' * w + x' = y * w + x)%nat -> (y', x') = (y, x).
Proof.
  intros Hx Hx' Heq. apply divmod_pair_inj in Heq as [-> ->]; done.
Qed.

Lemma roundtrip_xtg (img : ImageData) :
  validImage img -> quantized false img ->
  exists chunk decoded,
    imageDataToXtg img = Ok chunk
    /\ decodeXtcPageToCanvas chunk = Ok decoded
    /\ img_width decoded = img_width img
    /\ img_height decoded = img_height img
    /\ length (img_data decoded) = length (img_data img)
    /\ forall y x c,
         (y < img_height img)%nat -> (x < img_width img)%nat -> (c < 3)%nat ->
         img_data decoded !! ((y * img_width img + x) * 4 + c)%nat
         = img_data img !! ((y * img_width img + x) * 4 + c)%nat.
Proof.
  intros (Hw & Hh & Hlen) Hq.
  set (w := img_width img) in *. set (h := img_height img) in *.
  destruct (xtgPixelData_spec img) as [HPlen Hbits]. fold w h in HPlen, Hbits.
  set (P := xtgPixelData img) in *.
  exists (chunkHeader [0x58; 0x54; 0x47; 0x00] w h (length P) ++ xtgDigest P ++ P).
  exists {| img_width := w; img_height := h; img_data := xtgDecoded w h P |}.
  split; [apply imageDataToXtg_layout|].
  split.
  { apply decode_xtg_layout; try done; [apply xtgDigest_length|].
    rewrite HPlen. pose proof (ceil8_le w). nia. }
  split; [done|]. split; [done|].
  destruct (putPixel_loop h w (4 * w * h) (fun y x => (y * w + x)%nat)
              (fun y x =>
                 if negb (bitOf P (y * ceil8 w + x / 8) (7 - Z.of_nat (x mod 8)) =? 0)
                 then 255 else 0)) as [HL Hpx].
  { intros y x Hy Hx. by apply pixel_index_bound. }
  { intros y x y' x' _ Hx _ Hx' Heq. by eapply pixel_index_inj. }
  change (loop2 h w _ _) with (xtgDecoded w h P) in HL, Hpx.
  cbn [img_data]. split; [by rewrite HL, Hlen|].
  intros y x c Hy Hx Hc.
  specialize (Hpx y x Hy Hx). cbv beta in Hpx.
  destruct (grayPixels_lookup (levels false) (y * w + x) (img_data img) Hq)
    as (gray & Hin & G0 & G1 & G2).
  { rewrite Hlen. by apply pixel_index_bound. }
  rewrite bitOf_testbit in Hpx by (pose proof (bitIndex_range x); lia).
  rewrite Hbits in Hpx by done.
  unfold xtgBit in Hpx. fold w in Hpx. rewrite G0 in Hpx.
  rewrite xtg_color in Hpx by done.
  injection Hpx as E0 E1 E2 _.
  destruct c as [|[|[|c]]]; [rewrite Nat.add_0_r| | |lia]; congruence.
Qed.

Lemma roundtrip_xth (img : ImageData) :
  validImage img -> quantized true img ->
  exists chunk decoded,
    imageDataToXth img = Ok chunk
    /\ decodeXtcPageToCanvas chunk = Ok decoded
    /\ img_width decoded = img_width img
    /\ img_height decoded = img_height img
    /\ length (img_data decoded) = length (img_data img)
    /\ forall y x c,
         (y < img_height img)%nat -> (x < img_width img)%nat -> (c < 3)%nat ->
         img_data decoded !! ((y * img_width img + x) * 4 + c)%nat
         = img_data img !! ((y * img_width img + x) * 4 + c)%nat.
Proof.
  intros (Hw & Hh & Hlen) Hq.
  destruct (imageDataToXth_layout img) as (digest & Hd & Hlayout).
  destruct (xthPlanes_spec img) as [[Hl0 Hl1] Hbits].
  set (w := img_width img) in *. set (h := img_height img) in *.
  set (p0 := fst (xthPlanes img)) in *. set (p1 := snd (xthPlanes img)) in *.
  eexists. exists {| img_width := w; img_height := h; img_data := xthDecoded w h p0 p1 |}.
  split; [exact Hlayout|].
  split; [by apply decode_xth_layout|].
  split; [done|]. split; [done|].
  destruct (putPixel_loop w h (4 * w * h) (fun x y => (y * w + x)%nat)
              (fun x y =>
                 xthColor
                   (Z.lor (bitOf p0 ((w - 1 - x) * ceil8 h + y / 8) (7 - Z.of_nat (y mod 8)))
                          (Z.shiftl
                             (bitOf p1 ((w - 1 - x) * ceil8 h + y / 8)
                                (7 - Z.of_nat (y mod 8))) 1))))
    as [HL Hpx].
  { intros x y Hx Hy. by apply pixel_index_bound. }
  { intros x y x' y' Hx _ Hx' _ Heq.
    apply (pixel_index_inj w h) in Heq; [|done|done]. congruence. }
  change (loop2 w h _ _) with (xthDecoded w h p0 p1) in HL, Hpx.
  cbn [img_data]. split; [by rewrite HL, Hlen|].
  intros y x c Hy Hx Hc.
  specialize (Hpx x y Hx Hy). cbv beta in Hpx.
  destruct (grayPixels_lookup (levels true) (y * w + x) (img_data img) Hq)
    as (gray & Hin & G0 & G1 & G2).
  { rewrite Hlen. by apply pixel_index_bound. }
  rewrite !bitOf_testbit in Hpx by (pose proof (bitIndex_range y); lia).
  specialize (Hbits x y Hx Hy).
  pose proof (f_equal fst Hbits) as Hb0. pose proof (f_equal snd Hbits) as Hb1.
  cbn [fst snd] in Hb0, Hb1.
  rewrite Hb0, Hb1 in Hpx.
  unfold xthVal in Hpx. fold w in Hpx. rewrite G0 in Hpx.
  rewrite (xth_color gray Hin) in Hpx.
  injection Hpx as E0 E1 E2 _.
  destruct c as [|[|[|c]]]; [rewrite Nat.add_0_r| | |lia]; congruence.
Qed.

(** C4: for every image with at least one pixel whose dimensions fit the
    16-bit header fields and whose pixels are quantized (red channel in
    {0, 255} for 1-bit, in {0, 85, 170, 255} for 2-bit, R = G = B),
    packing it into an XTG or XTH chunk succeeds, and decoding the chunk
    (22-byte header, then payload) succeeds with the same width, the
    same height and the same red, green and blue value at every pixel. *)
Theorem C4_pack_unpack_roundtrip (is2bit : bool) (img : ImageData) :
  validImage img -> quantized is2bit img ->
  exists chunk decoded,
    encodeImageData is2bit img = Ok chunk
    /\ decodeXtcPageToCanvas chunk = Ok decoded
    /\ img_width decoded = img_width img
    /\ img_height decoded = img_height img
    /\ length (img_data decoded) = length (img_data img)
    /\ forall y x c,
         (y < img_height img)%nat -> (x < img_width img)%nat -> (c < 3)%nat ->
         img_data decoded !! ((y * img_width img + x) * 4 + c)%nat
         = img_data img !! ((y * img_width img + x) * 4 + c)%nat.
Proof.
  destruct is2bit; [apply roundtrip_xth | apply roundtrip_xtg].
Qed.

Lemma valid_example1 : validImage exampleImage1bit.
Proof. unfold validImage; simpl; lia. Qed.

Lemma valid_example2 : validImage exampleImage2bit.
Proof. unfold validImage; simpl; lia. Qed.

Lemma C4_pack_unpack_roundtrip_witness :
  (validImage exampleImage2bit /\ quantized true exampleImage2bit)
  /\ exists chunk decoded,
       encodeImageData true exampleImage2bit = Ok chunk
       /\ decodeXtcPageToCanvas chunk = Ok decoded
       /\ img_width decoded = 3%nat
       /\ img_height decoded = 2%nat
       /\ length (img_data decoded) = 24%nat
       /\ forall y x c, (y < 2)%nat -> (x < 3)%nat -> (c < 3)%nat ->
            img_data decoded !! ((y * 3 + x) * 4 + c)%nat
            = img_data exampleImage2bit !! ((y * 3 + x) * 4 + c)%nat.
Proof.
  split; [split; [exact valid_example2 | reflexivity]|].
  exact (C4_pack_unpack_roundtrip true exampleImage2bit valid_example2 eq_refl).
Defined.

(** ** Layout of a written container *)

Lemma setUint_at_offset (n : nat) (pre old post : list Z) (offset v : Z) :
  offset = Z.of_nat (length pre) -> length old = n ->
  DataView.setUint n (pre ++ old ++ post) offset v
  = Ok (pre ++ DataView.bytesLE n v ++ post).
Proof. intros -> Hn. by apply setUint_at. Qed.

Lemma setBigUint64_at (pre old post : list Z) (offset v : Z) :
  offset = Z.of_nat (length pre) -> length old = 8%nat ->
  setBigUint64 (pre ++ old ++ post) offset v = Ok (pre ++ Layout.u64 v ++ post).
Proof.
  intros Ho Hn. unfold setBigUint64, DataView.setUint32, Layout.u64.
  rewrite <- (take_drop 4 old), <- (app_assoc (take 4 old)).
  rewrite (setUint_at_offset 4 pre (take 4 old)) by (rewrite ?length_take; lia).
  cbn [bind].
  rewrite (app_assoc pre).
  rewrite (setUint_at_offset 4 (pre ++ _) (drop 4 old));
    [|rewrite length_app, bytesLE_length; lia|rewrite length_drop; lia].
  by rewrite <- !app_assoc.
Qed.

Lemma u64_length v : length (Layout.u64 v) = 8%nat.
Proof. reflexivity. Qed.

Lemma take_to_nat_min (bytes : list Z) (k : nat) :
  take (Z.to_nat (Z.min (byteLength bytes) (Z.of_nat k))) bytes = take k bytes.
Proof.
  unfold byteLength.
  destruct (Z.min_spec (Z.of_nat (length bytes)) (Z.of_nat k)) as [[Hlt ->]|[Hle ->]].
  - rewrite Nat2Z.id, !take_ge by lia. reflexivity.
  - by rewrite Nat2Z.id.
Qed.

Lemma textBytes_length (size : nat) (bytes : list Z) :
  (1 <= size)%nat -> length (Layout.textBytes size bytes) = size.
Proof.
  intros Hs. unfold Layout.textBytes.
  rewrite length_app, length_replicate, length_take. lia.
Qed.

Lemma textBytes_nil (size : nat) : Layout.textBytes size [] = replicate size 0.
Proof.
  unfold Layout.textBytes. rewrite take_nil. cbn [length app]. by rewrite Nat.sub_0_r.
Qed.

Lemma set_text_at (pre post : list Z) (size : nat) (bytes : list Z) (offset : Z) :
  offset = Z.of_nat (length pre) -> (1 <= size)%nat ->
  Uint8Array.set (pre ++ replicate size 0 ++ post)
    (take (Z.to_nat (Z.min (byteLength bytes) (Z.of_nat size - 1))) bytes) offset
  = Ok (pre ++ Layout.textBytes size bytes ++ post).
Proof.
  intros Ho Hs.
  replace (Z.of_nat size - 1) with (Z.of_nat (size - 1)) by lia.
  rewrite take_to_nat_min. unfold Layout.textBytes.
  set (tb := take (size - 1) bytes).
  assert (length tb <= size - 1)%nat as Hl by (subst tb; rewrite length_take; lia).
  replace size with (length tb + (size - length tb))%nat at 1 by lia.
  rewrite replicate_add, <- !app_assoc.
  apply set_at_offset; [done|by rewrite length_replicate].
Qed.

Lemma writeText_at (pre post : list Z) (size : nat) (field : option string)
    (offset : Z) :
  offset = Z.of_nat (length pre) -> (1 <= size)%nat ->
  writeText (pre ++ replicate size 0 ++ post) field (Z.of_nat size) offset
  = Ok (pre ++ Layout.textField size field ++ post).
Proof.
  intros Ho Hs. unfold writeText, Layout.textField.
  destruct field as [[|c s]|]; cbn [default].
  - change (encode EmptyString) with (@nil Z). by rewrite textBytes_nil.
  - by apply set_text_at.
  - change (encode EmptyString) with (@nil Z). by rewrite textBytes_nil.
Qed.

Lemma writeTocHeader_at (Date_now : Z) (pre post : list Z)
    (offset chapterCount : Z) (cover ct : option Z) :
  offset = Z.of_nat (length pre) ->
  writeTocHeader Date_now (pre ++ replicate 16 0 ++ post) offset chapterCount cover ct
  = Ok (pre ++ Layout.tocHeaderBytes Date_now chapterCount cover ct ++ post).
Proof.
  intros Ho. unfold writeTocHeader, Layout.tocHeaderBytes.
  fold (Layout.timestamp Date_now ct).
  unfold DataView.setUint32, DataView.setUint16.
  change (replicate 16 0) with (replicate 4 0 ++ replicate 2 0 ++ replicate 2 0 ++ replicate 8 0).
  rewrite <- !app_assoc.
  rewrite (setUint_at_offset 4 pre (replicate 4 0)) by done.
  cbn [bind].
  rewrite (app_assoc pre).
  rewrite (setUint_at_offset 2 (pre ++ _) (replicate 2 0));
    [|rewrite length_app, bytesLE_length; lia|done].
  cbn [bind].
  rewrite (app_assoc (pre ++ _)).
  rewrite (setUint_at_offset 2 ((pre ++ _) ++ _) (replicate 2 0));
    [|rewrite !length_app, !bytesLE_length; lia|done].
  rewrite <- !app_assoc.
  by destruct cover.
Qed.

Lemma tocEntryBytes_length entry : length (Layout.tocEntryBytes entry) = 96%nat.
Proof.
  unfold Layout.tocEntryBytes.
  rewrite !length_app, textBytes_length, !bytesLE_length, length_replicate by lia.
  reflexivity.
Qed.

Lemma tocEntries_length (toc : list TocEntry) :
  length (concat (map Layout.tocEntryBytes toc)) = (96 * length toc)%nat.
Proof.
  induction toc as [|e toc IH]; [done|].
  cbn [map concat]. rewrite length_app, tocEntryBytes_length, IH. cbn [length]. lia.
Qed.

Lemma writeTocEntries_at (toc : list TocEntry) : forall (pre post : list Z) (offset : Z),
  offset = Z.of_nat (length pre) ->
  writeTocEntries (pre ++ replicate (96 * length toc) 0 ++ post) offset toc
  = Ok (pre ++ concat (map Layout.tocEntryBytes toc) ++ post).
Proof.
  induction toc as [|e toc IH]; intros pre post offset Ho.
  - reflexivity.
  - cbn [writeTocEntries length map concat].
    replace (96 * S (length toc))%nat with (80 + (2 + (2 + (12 + 96 * length toc))))%nat by lia.
    rewrite !replicate_add, <- !app_assoc.
    change (TOC_TITLE_SIZE - 1) with (Z.of_nat 80 - 1).
    rewrite (set_text_at pre _ 80) by (done || lia).
    cbn [bind]. unfold DataView.setUint16.
    rewrite (app_assoc pre).
    rewrite (setUint_at_offset 2 (pre ++ _) (replicate 2 0));
      [|rewrite length_app, textBytes_length by lia; unfold TOC_TITLE_SIZE; lia|done].
    cbn [bind].
    rewrite (app_assoc (pre ++ _)).
    rewrite (setUint_at_offset 2 ((pre ++ _) ++ _) (replicate 2 0));
      [|rewrite !length_app, textBytes_length, bytesLE_length by lia;
        unfold TOC_TITLE_SIZE; lia|done].
    cbn [bind].
    rewrite (app_assoc ((pre ++ _) ++ _)).
    rewrite (app_assoc (((pre ++ _) ++ _) ++ _) (replicate 12 0)).
    rewrite IH.
    + unfold Layout.tocEntryBytes. by rewrite <- !app_assoc.
    + rewrite !length_app, textBytes_length, !bytesLE_length, length_replicate by lia.
      unfold TOC_ENTRY_SIZE. lia.
Qed.

Lemma metadataBytes_length Date_now m :
  length (Layout.metadataBytes Date_now m) = (256 + 96 * length (toc m))%nat.
Proof.
  unfold Layout.metadataBytes, Layout.textField, Layout.tocHeaderBytes.
  rewrite !length_app, !textBytes_length, !bytesLE_length, length_replicate,
    tocEntries_length by lia.
  lia.
Qed.

Lemma writeMetadata_at (Date_now : Z) (m : BookMetadata) (pre post : list Z)
    (offset : Z) :
  offset = Z.of_nat (length pre) ->
  writeMetadata Date_now (pre ++ replicate (256 + 96 * length (toc m)) 0 ++ post) offset m
  = Ok (pre ++ Layout.metadataBytes Date_now m ++ post).
Proof.
  intros Ho. unfold writeMetadata, Layout.metadataBytes.
  replace (256 + 96 * length (toc m))%nat
    with (128 + (64 + (32 + (16 + (16 + 96 * length (toc m))))))%nat by lia.
  rewrite !replicate_add, <- !app_assoc.
  change TITLE_SIZE with (Z.of_nat 128). change AUTHOR_SIZE with (Z.of_nat 64).
  change PUBLISHER_SIZE with (Z.of_nat 32). change LANGUAGE_SIZE with (Z.of_nat 16).
  rewrite (writeText_at pre _ 128) by (done || lia). cbn [bind].
  rewrite (app_assoc pre).
  rewrite (writeText_at (pre ++ _) _ 64);
    [|rewrite length_app; unfold Layout.textField; rewrite textBytes_length; lia|lia].
  cbn [bind].
  rewrite (app_assoc (pre ++ _)).
  rewrite (writeText_at ((pre ++ _) ++ _) _ 32);
    [|rewrite !length_app; unfold Layout.textField; rewrite !textBytes_length; lia|lia].
  cbn [bind].
  rewrite (app_assoc ((pre ++ _) ++ _)).
  rewrite (writeText_at (((pre ++ _) ++ _) ++ _) _ 16);
    [|rewrite !length_app; unfold Layout.textField; rewrite !textBytes_length; lia|lia].
  cbn [bind].
  rewrite (app_assoc (((pre ++ _) ++ _) ++ _)).
  rewrite writeTocHeader_at;
    [|rewrite !length_app; unfold Layout.textField; rewrite !textBytes_length;
      unfold TOC_HEADER_SIZE; lia].
  cbn [bind].
  destruct (toc m) as [|e t] eqn:Htoc.
  - cbn [length Nat.ltb Nat.leb]. cbn. by rewrite <- !app_assoc.
  - replace (0 <? length (e :: t))%nat with true by reflexivity.
    rewrite (app_assoc ((((pre ++ _) ++ _) ++ _) ++ _)).
    rewrite writeTocEntries_at.
    + by rewrite <- !app_assoc.
    + rewrite !length_app. unfold Layout.textField, Layout.tocHeaderBytes.
      rewrite !textBytes_length, !length_app, !bytesLE_length, length_replicate by lia.
      unfold TOC_HEADER_SIZE. lia.
Qed.

Lemma getUint16_chunk (blob : list Z) :
  8 <= byteLength blob ->
  DataView.getUint16 blob 4 = Ok (Layout.chunkWidth blob)
  /\ DataView.getUint16 blob 6 = Ok (Layout.chunkHeight blob).
Proof.
  intros Hlen. unfold DataView.getUint16, DataView.inBounds.
  replace (4 + 2 <=? byteLength blob) with true by (symmetry; apply Z.leb_le; lia).
  replace (6 + 2 <=? byteLength blob) with true by (symmetry; apply Z.leb_le; lia).
  split; reflexivity.
Qed.

Lemma indexBytes_length (xtgBlobs : list (list Z)) : forall rel,
  length (Layout.indexBytes rel xtgBlobs) = (16 * length xtgBlobs)%nat.
Proof.
  induction xtgBlobs as [|blob rest IH]; intros rel; [done|].
  cbn [Layout.indexBytes length]. rewrite length_app, IH.
  unfold Layout.indexEntryBytes.
  rewrite !length_app, u64_length, !bytesLE_length. lia.
Qed.

Lemma writeIndex_at (xtgBlobs : list (list Z)) :
  forall (pre post : list Z) (entryOffset relOffset : Z),
  entryOffset = Z.of_nat (length pre) ->
  (forall blob, blob ∈ xtgBlobs -> 8 <= byteLength blob) ->
  writeIndex (pre ++ replicate (16 * length xtgBlobs) 0 ++ post)
    entryOffset relOffset xtgBlobs
  = Ok (pre ++ Layout.indexBytes relOffset xtgBlobs ++ post).
Proof.
  induction xtgBlobs as [|blob rest IH]; intros pre post entryOffset relOffset Ho Hlen.
  - reflexivity.
  - cbn [writeIndex length Layout.indexBytes].
    destruct (getUint16_chunk blob) as [-> ->]; [apply Hlen; left|].
    cbn [bind].
    replace (16 * S (length rest))%nat with (8 + (4 + (2 + (2 + 16 * length rest))))%nat by lia.
    rewrite !replicate_add, <- !app_assoc.
    rewrite (setBigUint64_at pre (replicate 8 0)) by done.
    cbn [bind]. unfold DataView.setUint32, DataView.setUint16.
    rewrite (app_assoc pre).
    rewrite (setUint_at_offset 4 (pre ++ _) (replicate 4 0));
      [|rewrite length_app, u64_length; lia|done].
    cbn [bind].
    rewrite (app_assoc (pre ++ _)).
    rewrite (setUint_at_offset 2 ((pre ++ _) ++ _) (replicate 2 0));
      [|rewrite !length_app, u64_length, bytesLE_length; lia|done].
    cbn [bind].
    rewrite (app_assoc ((pre ++ _) ++ _)).
    rewrite (setUint_at_offset 2 (((pre ++ _) ++ _) ++ _) (replicate 2 0));
      [|rewrite !length_app, u64_length, !bytesLE_length; lia|done].
    cbn [bind].
    rewrite (app_assoc (((pre ++ _) ++ _) ++ _)).
    rewrite IH.
    + unfold Layout.indexEntryBytes. by rewrite <- !app_assoc.
    + rewrite !length_app, u64_length, !bytesLE_length. unfold INDEX_ENTRY_SIZE. lia.
    + intros b Hb. apply Hlen. by right.
Qed.

Lemma writeData_at (xtgBlobs : list (list Z)) :
  forall (pre post : list Z) (writeOffset : Z),
  writeOffset = Z.of_nat (length pre) ->
  writeData (pre ++ replicate (length (concat xtgBlobs)) 0 ++ post) writeOffset xtgBlobs
  = Ok (pre ++ concat xtgBlobs ++ post).
Proof.
  induction xtgBlobs as [|blob rest IH]; intros pre post writeOffset Ho.
  - reflexivity.
  - cbn [writeData concat]. rewrite length_app, replicate_add, <- !app_assoc.
    rewrite (set_at_offset pre (replicate (length blob) 0) _ blob);
      [|done|by rewrite length_replicate].
    cbn [bind]. rewrite (app_assoc pre).
    rewrite IH; [by rewrite <- !app_assoc|].
    rewrite length_app. unfold byteLength. lia.
Qed.

Lemma totalSize_fold (xtgBlobs : list (list Z)) : forall dataOffset,
  fold_left (fun t blob => t + byteLength blob) xtgBlobs dataOffset
  = dataOffset + Z.of_nat (length (concat xtgBlobs)).
Proof.
  induction xtgBlobs as [|blob rest IH]; intros d; cbn [fold_left concat].
  - cbn. lia.
  - rewrite IH, length_app. unfold byteLength. lia.
Qed.

Lemma magic_store (c : Z) (rest : list Z) :
  0 <= c < 256 ->
  foldl (fun uint8 i => Uint8Array.store uint8 i (default 0 ([0x58; 0x54; 0x43; c] !! i)))
        (replicate 4 0 ++ rest) (seq 0 4)
  = [0x58; 0x54; 0x43; c] ++ rest.
Proof.
  intros Hc.
  cbn [replicate app foldl seq lookup list_lookup default Uint8Array.store
       insert list_insert].
  unfold Js.u8, id. rewrite (Z.mod_small c 256) by lia. reflexivity.
Qed.

(** One write into the next free region of the buffer: the written
    bytes join the prefix. *)
Tactic Notation "write_next" open_constr(lem) :=
  rewrite lem; [cbn [bind]; rewrite app_assoc| try done ..].

Lemma hasMetadata_Some (options : XtcBuildOptions) :
  hasMetadata options = true -> exists m, metadata options = Some m.
Proof.
  unfold hasMetadata. destruct (metadata options) as [m|]; [eauto|discriminate].
Qed.

Lemma build_layout (Date_now : Z) (xtgBlobs : list (list Z)) (options : XtcBuildOptions) :
  (forall blob, blob ∈ xtgBlobs -> 8 <= byteLength blob) ->
  buildXtcFromBuffers Date_now xtgBlobs options
  = Ok (Layout.containerBytes Date_now xtgBlobs options).
Proof.
  intros Hlen. unfold buildXtcFromBuffers, Layout.containerBytes, Layout.headerBytes,
    Layout.metadataSection, Layout.dataOffset, Layout.indexOffset.
  rewrite totalSize_fold.
  set (n := length xtgBlobs). set (L := length (concat xtgBlobs)).
  set (c := if build_is2bit options then 72 else 0).
  replace (if build_is2bit options then [88; 84; 67; 72] else [88; 84; 67; 0])
    with [88; 84; 67; c] by (subst c; by destruct (build_is2bit options)).
  assert (0 <= c < 256) as Hc by (subst c; destruct (build_is2bit options); lia).
  destruct (hasMetadata options) eqn:Hh.
  - destruct (hasMetadata_Some options Hh) as [m Hm]. rewrite Hm.
    set (T := length (toc m)).
    match goal with
    | |- context [replicate (Z.to_nat ?t) 0] =>
        replace (Z.to_nat t)
          with (4 + (2 + (2 + (4 + (4 + (8 + (8 + (8 + (8 + (8 +
                ((256 + 96 * T) + (16 * n + (L + 0)))))))))))))%nat
    end.
    2:{ unfold HEADER_WITH_METADATA_SIZE, HEADER_BASE_SIZE, TOC_OFFSET_PTR_SIZE,
          TITLE_SIZE, AUTHOR_SIZE, PUBLISHER_SIZE, LANGUAGE_SIZE, TOC_HEADER_SIZE,
          TOC_ENTRY_SIZE, INDEX_ENTRY_SIZE.
        fold T. destruct (0 <? Z.of_nat T) eqn:HT; [|apply Z.ltb_ge in HT]; lia. }
    rewrite !replicate_add.
    rewrite magic_store by done.
    unfold DataView.setUint16, DataView.setUint32.
    rewrite (setUint_at_offset 2 [88; 84; 67; c] (replicate 2 0)) by done.
    cbn [bind]. rewrite (app_assoc [88; 84; 67; c]).
    write_next (setUint_at_offset 2 (_ ++ _) (replicate 2 0)).
    write_next (setUint_at_offset 4 (_ ++ _) (replicate 4 0)).
    write_next (setUint_at_offset 4 (_ ++ _) (replicate 4 0)).
    write_next (setBigUint64_at (_ ++ _) (replicate 8 0)).
    write_next (setBigUint64_at (_ ++ _) (replicate 8 0)).
    write_next (setBigUint64_at (_ ++ _) (replicate 8 0)).
    write_next (setBigUint64_at (_ ++ _) (replicate 8 0)).
    write_next (setBigUint64_at (_ ++ _) (replicate 8 0)).
    write_next (writeMetadata_at Date_now m).
    subst n L.
    rewrite writeIndex_at; [cbn [bind]; rewrite app_assoc| |done].
    2:{ rewrite !length_app, metadataBytes_length.
        unfold HEADER_WITH_METADATA_SIZE, HEADER_BASE_SIZE, TOC_OFFSET_PTR_SIZE,
          TITLE_SIZE, AUTHOR_SIZE, PUBLISHER_SIZE, LANGUAGE_SIZE, TOC_HEADER_SIZE,
          TOC_ENTRY_SIZE.
        fold T. cbn [length DataView.bytesLE Layout.u64 app].
        destruct (0 <? Z.of_nat T) eqn:HT; [|apply Z.ltb_ge in HT]; lia. }
    rewrite writeData_at.
    2:{ rewrite !length_app, metadataBytes_length, indexBytes_length.
        unfold HEADER_WITH_METADATA_SIZE, HEADER_BASE_SIZE, TOC_OFFSET_PTR_SIZE,
          TITLE_SIZE, AUTHOR_SIZE, PUBLISHER_SIZE, LANGUAGE_SIZE, TOC_HEADER_SIZE,
          TOC_ENTRY_SIZE, INDEX_ENTRY_SIZE.
        fold T. cbn [length DataView.bytesLE Layout.u64 app].
        destruct (0 <? Z.of_nat T) eqn:HT; [|apply Z.ltb_ge in HT]; lia. }
    replace (TITLE_SIZE + AUTHOR_SIZE + PUBLISHER_SIZE + LANGUAGE_SIZE + TOC_HEADER_SIZE
             + (if 0 <? Z.of_nat T then Z.of_nat T * TOC_ENTRY_SIZE else 0))
      with (256 + 96 * Z.of_nat T).
    2:{ unfold TITLE_SIZE, AUTHOR_SIZE, PUBLISHER_SIZE, LANGUAGE_SIZE, TOC_HEADER_SIZE,
          TOC_ENTRY_SIZE.
        destruct (0 <? Z.of_nat T) eqn:HT; [|apply Z.ltb_ge in HT]; lia. }
    unfold HEADER_WITH_METADATA_SIZE, HEADER_BASE_SIZE, TOC_OFFSET_PTR_SIZE,
      TITLE_SIZE, AUTHOR_SIZE, PUBLISHER_SIZE, LANGUAGE_SIZE, TOC_HEADER_SIZE,
      INDEX_ENTRY_SIZE, FLAG_HAS_METADATA_LOW, FLAG_HAS_METADATA_HIGH.
    rewrite <- !app_assoc, app_nil_r.
    replace (48 + 8 + (256 + 96 * Z.of_nat T)) with (312 + 96 * Z.of_nat T) by lia.
    replace (Z.of_nat (length xtgBlobs) * 16) with (16 * Z.of_nat (length xtgBlobs)) by lia.
    reflexivity.
  - match goal with
    | |- context [replicate (Z.to_nat ?t) 0] =>
        replace (Z.to_nat t)
          with (4 + (2 + (2 + (4 + (4 + (8 + (8 + (8 + (8 +
                (16 * n + (L + 0)))))))))))%nat
    end.
    2:{ unfold HEADER_BASE_SIZE, INDEX_ENTRY_SIZE. lia. }
    rewrite !replicate_add.
    rewrite magic_store by done.
    unfold DataView.setUint16, DataView.setUint32.
    rewrite (setUint_at_offset 2 [88; 84; 67; c] (replicate 2 0)) by done.
    cbn [bind]. rewrite (app_assoc [88; 84; 67; c]).
    write_next (setUint_at_offset 2 (_ ++ _) (replicate 2 0)).
    write_next (setUint_at_offset 4 (_ ++ _) (replicate 4 0)).
    write_next (setUint_at_offset 4 (_ ++ _) (replicate 4 0)).
    write_next (setBigUint64_at (_ ++ _) (replicate 8 0)).
    write_next (setBigUint64_at (_ ++ _) (replicate 8 0)).
    write_next (setBigUint64_at (_ ++ _) (replicate 8 0)).
    write_next (setBigUint64_at (_ ++ _) (replicate 8 0)).
    cbn [bind].
    match goal with
    | |- context [match metadata options with Some _ => ?a | None => ?b end] =>
        replace (match metadata options with Some _ => a | None => b end) with b
          by (by destruct (metadata options))
    end.
    cbn [bind]. subst n L.
    rewrite writeIndex_at; [cbn [bind]; rewrite app_assoc| |done].
    2:{ unfold HEADER_BASE_SIZE. reflexivity. }
    rewrite writeData_at.
    2:{ rewrite !length_app, indexBytes_length.
        unfold HEADER_BASE_SIZE, INDEX_ENTRY_SIZE.
        cbn [length DataView.bytesLE Layout.u64 app]. lia. }
    replace (match metadata options with Some _ => 48 | None => 48 end) with 48
      by (by destruct (metadata options)).
    replace (match metadata options with Some _ => [] | None => [] end) with (@nil Z)
      by (by destruct (metadata options)).
    unfold HEADER_BASE_SIZE, INDEX_ENTRY_SIZE.
    rewrite <- !app_assoc, app_nil_r. cbn [app].
    replace (Z.of_nat (length xtgBlobs) * 16) with (16 * Z.of_nat (length xtgBlobs)) by lia.
    reflexivity.
Qed.

(** ** Reading a written container back *)

Lemma u64_value (v : Z) :
  0 <= v < 2 ^ 64 ->
  Z.land v 0xFFFFFFFF mod 4294967296 + Z.shiftl (Z.shiftr v 32 mod 4294967296) 32 = v.
Proof.
  intros Hv.
  change 0xFFFFFFFF with (Z.ones 32). rewrite Z.land_ones by lia.
  rewrite Z.shiftr_div_pow2, Z.shiftl_mul_pow2 by lia.
  change (2 ^ 32) with 4294967296.
  rewrite Z.mod_mod by lia.
  rewrite (Z.mod_small (v / 4294967296)).
  - pose proof (Z.div_mod v 4294967296). lia.
  - split; [apply Z.div_pos; lia|].
    apply Z.div_lt_upper_bound; [lia|]. change (2 ^ 64) with 18446744073709551616 in Hv. lia.
Qed.

Lemma getBigUint64_decomp (buffer pre post : list Z) (offset v : Z) :
  buffer = pre ++ Layout.u64 v ++ post ->
  offset = Z.of_nat (length pre) ->
  0 <= v < 2 ^ 64 ->
  getBigUint64 buffer offset = Ok v.
Proof.
  intros Hb Ho Hv. unfold getBigUint64, Layout.u64 in *.
  rewrite (getUint32_decomp buffer pre
             (DataView.bytesLE 4 (Z.shiftr v 32) ++ post) offset (Z.land v 0xFFFFFFFF));
    [|by rewrite Hb, <- app_assoc|done].
  cbn [bind].
  rewrite (getUint32_decomp buffer (pre ++ DataView.bytesLE 4 (Z.land v 0xFFFFFFFF))
             post (offset + 4) (Z.shiftr v 32));
    [|by rewrite Hb, <- !app_assoc|rewrite length_app, bytesLE_length; lia].
  cbn [bind]. by rewrite u64_value.
Qed.

Lemma untilNul_padded (bytes : list Z) (k : nat) (rest : list Z) :
  (1 <= k)%nat ->
  untilNul (bytes ++ replicate k 0 ++ rest) = untilNul bytes.
Proof.
  intros Hk. induction bytes as [|b bytes IH]; cbn [app untilNul].
  - destruct k; [lia|]. reflexivity.
  - destruct (b =? 0); [done|by rewrite IH].
Qed.

Lemma untilNul_textBytes (size : nat) (bytes : list Z) :
  (1 <= size)%nat ->
  untilNul (Layout.textBytes size bytes) = untilNul (take (size - 1) bytes).
Proof.
  intros Hs. unfold Layout.textBytes.
  rewrite <- (app_nil_r (replicate _ 0)).
  apply untilNul_padded. rewrite length_take. lia.
Qed.

Lemma readText_decomp (buffer pre post : list Z) (offset : Z) (size : nat)
    (bytes : list Z) :
  buffer = pre ++ Layout.textBytes size bytes ++ post ->
  offset = Z.of_nat (length pre) -> (1 <= size)%nat ->
  readNullTerminatedString buffer offset (Z.of_nat size)
  = Ok (TextDecoder.decode (untilNul (take (size - 1) bytes))).
Proof.
  intros Hb Ho Hs. unfold readNullTerminatedString.
  rewrite (view_decomp buffer pre (Layout.textBytes size bytes) post);
    [|done|done|by rewrite textBytes_length].
  cbn [bind]. by rewrite untilNul_textBytes.
Qed.

Lemma mapM_map {A B C} (f : B -> result C) (g : A -> B) (l : list A) :
  mapM f (map g l) = mapM (fun a => f (g a)) l.
Proof. induction l as [|a l IH]; [done|]. cbn [map mapM]. by rewrite IH. Qed.

Lemma mapM_ext_in {A B} (f g : A -> result B) (l : list A) :
  (forall a, a ∈ l -> f a = g a) -> mapM f l = mapM g l.
Proof.
  induction l as [|a l IH]; intros H; [done|].
  cbn [mapM]. rewrite (H a) by left. rewrite IH; [done|].
  intros b Hb. apply H. by right.
Qed.

Lemma mapM_Ok {A B} (f : A -> B) (l : list A) :
  mapM (fun a => Ok (f a)) l = Ok (map f l).
Proof. induction l as [|a l IH]; [done|]. cbn [mapM map bind]. by rewrite IH. Qed.

Lemma concat_map_split {A} (f : A -> list Z) (l : list A) (i : nat) (e : A) :
  l !! i = Some e ->
  concat (map f l)
  = concat (map f (take i l)) ++ f e ++ concat (map f (drop (S i) l)).
Proof.
  intros Hi. rewrite <- (take_drop_middle l i e Hi) at 1.
  by rewrite map_app, concat_app.
Qed.

Lemma parseTocEntry_decomp (buffer pre post : list Z) (toc : list TocEntry)
    (tocOffset : Z) (i : nat) (e : TocEntry) :
  buffer = pre ++ concat (map Layout.tocEntryBytes toc) ++ post ->
  tocOffset = Z.of_nat (length pre) ->
  toc !! i = Some e ->
  parseTocEntry buffer tocOffset i = Ok (Layout.readTocEntry e).
Proof.
  intros Hb Ho Hi. unfold parseTocEntry.
  rewrite (concat_map_split _ toc i e Hi) in Hb.
  set (before := concat (map Layout.tocEntryBytes (take i toc))) in *.
  set (after := concat (map Layout.tocEntryBytes (drop (S i) toc))) in *.
  assert (length before = (96 * i)%nat) as Hbefore.
  { subst before. rewrite tocEntries_length, length_take.
    apply lookup_lt_Some in Hi. lia. }
  unfold Layout.tocEntryBytes in Hb.
  change 80 with (Z.of_nat 80) at 1.
  erewrite (readText_decomp buffer (pre ++ before) _ _ 80 (encode (title e)));
    [|by rewrite Hb, <- !app_assoc|rewrite length_app; lia|lia].
  cbn [bind].
  erewrite (getUint16_decomp buffer
             ((pre ++ before) ++ Layout.textBytes 80 (encode (title e))) _ _ (startPage e));
    [|by rewrite Hb, <- !app_assoc|rewrite !length_app, textBytes_length by lia; lia].
  cbn [bind].
  erewrite (getUint16_decomp buffer
             (((pre ++ before) ++ Layout.textBytes 80 (encode (title e)))
              ++ DataView.bytesLE 2 (startPage e)) _ _ (endPage e));
    [|by rewrite Hb, <- !app_assoc
     |rewrite !length_app, textBytes_length, bytesLE_length by lia; lia].
  reflexivity.
Qed.

Lemma parseToc_decomp (buffer pre post : list Z) (toc : list TocEntry)
    (tocOffset : Z) (k : nat) :
  buffer = pre ++ concat (map Layout.tocEntryBytes toc) ++ post ->
  tocOffset = Z.of_nat (length pre) ->
  (k <= length toc)%nat ->
  mapM (parseTocEntry buffer tocOffset) (seq 0 k)
  = Ok (map Layout.readTocEntry (take k toc)).
Proof.
  intros Hb Ho Hk.
  rewrite (mapM_ext_in _ (fun i => Ok (default (Layout.readTocEntry
                                  {| title := EmptyString; startPage := 0; endPage := 0 |})
                                 (Layout.readTocEntry <$> toc !! i)))).
  - rewrite mapM_Ok. f_equal.
    apply list_eq. intros i.
    rewrite !list_lookup_fmap, lookup_take.
    destruct (decide (i < k)%nat) as [Hik|Hik].
    + rewrite lookup_seq_lt by done. cbn [fmap option_fmap option_map Nat.add].
      destruct (toc !! i) eqn:Hi; [done|].
      apply lookup_ge_None in Hi. lia.
    + rewrite lookup_seq_ge by lia. done.
  - intros i Hi. apply elem_of_seq in Hi.
    destruct (toc !! i) as [e|] eqn:He.
    + by apply (parseTocEntry_decomp buffer pre post toc).
    + apply lookup_ge_None in He. lia.
Qed.

Lemma parseIndexEntry_decomp (buffer pre post : list Z) (offset rel size w h : Z) :
  buffer = pre ++ Layout.indexEntryBytes rel size w h ++ post ->
  offset = Z.of_nat (length pre) ->
  0 <= rel < 2 ^ 64 ->
  parseIndexEntry buffer offset
  = Ok {| entry_offset := rel; entry_size := size mod 4294967296;
          entry_width := w mod 65536; entry_height := h mod 65536 |}.
Proof.
  intros Hb Ho Hrel. unfold parseIndexEntry. unfold Layout.indexEntryBytes in Hb.
  erewrite (getBigUint64_decomp buffer pre _ offset rel);
    [|by rewrite Hb, <- !app_assoc|done|done].
  cbn [bind].
  erewrite (getUint32_decomp buffer (pre ++ Layout.u64 rel) _ _ size);
    [|by rewrite Hb, <- !app_assoc|rewrite length_app, u64_length; lia].
  cbn [bind].
  erewrite (getUint16_decomp buffer ((pre ++ Layout.u64 rel) ++ DataView.bytesLE 4 size) _ _ w);
    [|by rewrite Hb, <- !app_assoc|rewrite !length_app, u64_length, bytesLE_length; lia].
  cbn [bind].
  erewrite (getUint16_decomp buffer
              (((pre ++ Layout.u64 rel) ++ DataView.bytesLE 4 size) ++ DataView.bytesLE 2 w)
              _ _ h);
    [|by rewrite Hb, <- !app_assoc
     |rewrite !length_app, u64_length, !bytesLE_length; lia].
  reflexivity.
Qed.

Lemma parseIndex_decomp (xtgBlobs : list (list Z)) :
  forall (buffer pre post : list Z) (rel : Z),
  buffer = pre ++ Layout.indexBytes rel xtgBlobs ++ post ->
  0 <= rel -> rel + Z.of_nat (length (concat xtgBlobs)) < 4294967296 ->
  mapM (fun i : nat => parseIndexEntry buffer (Z.of_nat (length pre) + Z.of_nat i * 16))
       (seq 0 (length xtgBlobs))
  = Ok (Layout.indexEntries rel xtgBlobs).
Proof.
  induction xtgBlobs as [|blob rest IH]; intros buffer pre post rel Hb Hrel Hsize.
  - reflexivity.
  - cbn [length seq mapM Layout.indexEntries]. cbn [concat] in Hsize.
    rewrite length_app in Hsize. cbn [Layout.indexBytes] in Hb.
    erewrite (parseIndexEntry_decomp buffer pre _ _ rel);
      [|by rewrite Hb, <- !app_assoc|lia|lia].
    cbn [bind].
    rewrite <- fmap_S_seq.
    change (S <$> seq 0 (length rest)) with (map S (seq 0 (length rest))).
    rewrite mapM_map.
    rewrite (mapM_ext_in _
               (fun i : nat =>
                  parseIndexEntry buffer
                    (Z.of_nat (length (pre ++ Layout.indexEntryBytes rel (byteLength blob)
                                               (Layout.chunkWidth blob)
                                               (Layout.chunkHeight blob)))
                     + Z.of_nat i * 16))).
    2:{ intros i _. f_equal. rewrite length_app. unfold Layout.indexEntryBytes.
        rewrite !length_app, u64_length, !bytesLE_length. lia. }
    rewrite (IH buffer _ post (rel + byteLength blob));
      [|by rewrite Hb, <- !app_assoc|unfold byteLength; lia|unfold byteLength; lia].
    cbn [bind]. rewrite Z.mod_small by (unfold byteLength; lia). reflexivity.
Qed.

Lemma slice_decomp (buffer pre mid post : list Z) (offset : Z) :
  buffer = pre ++ mid ++ post ->
  offset = Z.of_nat (length pre) ->
  slice buffer offset (offset + byteLength mid) = mid.
Proof.
  intros -> ->. unfold slice, byteLength. rewrite !length_app.
  rewrite !Z.min_l by lia.
  replace (Z.to_nat (Z.max _ 0)) with (length mid) by lia.
  by rewrite Nat2Z.id, drop_app_length, take_app_length.
Qed.

Lemma pageSlices (xtgBlobs : list (list Z)) :
  forall (buffer pre post : list Z) (rel : Z),
  buffer = pre ++ concat xtgBlobs ++ post ->
  rel = Z.of_nat (length pre) ->
  map (pageSlice buffer) (Layout.indexEntries rel xtgBlobs) = xtgBlobs.
Proof.
  induction xtgBlobs as [|blob rest IH]; intros buffer pre post rel Hb Hrel.
  - reflexivity.
  - cbn [Layout.indexEntries map]. cbn [concat] in Hb. f_equal.
    + unfold pageSlice. cbn [entry_offset entry_size].
      apply (slice_decomp buffer pre blob (concat rest ++ post));
        [by rewrite Hb, <- !app_assoc|done].
    + apply (IH buffer (pre ++ blob) post);
        [by rewrite Hb, <- !app_assoc|rewrite length_app; unfold byteLength; lia].
Qed.

Lemma metadataSection_length Date_now n options :
  Z.of_nat (length (Layout.headerBytes n options
                    ++ Layout.metadataSection Date_now options))
  = Layout.indexOffset options.
Proof.
  unfold Layout.metadataSection, Layout.indexOffset.
  rewrite length_app.
  change (length (Layout.headerBytes n options)) with 48%nat.
  destruct (metadata options) as [m|]; [destruct (hasMetadata options)|].
  - rewrite length_app, metadataBytes_length, u64_length. lia.
  - reflexivity.
  - reflexivity.
Qed.

Lemma headerBytes_length n options : length (Layout.headerBytes n options) = 48%nat.
Proof. reflexivity. Qed.

Lemma indexOffset_nonneg options : 48 <= Layout.indexOffset options.
Proof.
  unfold Layout.indexOffset.
  destruct (metadata options); [destruct (hasMetadata options)|]; lia.
Qed.

Lemma containerBytes_length Date_now xtgBlobs options :
  byteLength (Layout.containerBytes Date_now xtgBlobs options)
  = Layout.containerSize xtgBlobs options.
Proof.
  unfold byteLength, Layout.containerBytes, Layout.containerSize, Layout.dataOffset.
  rewrite <- (metadataSection_length Date_now (length xtgBlobs)).
  rewrite !length_app, indexBytes_length, !headerBytes_length. lia.
Qed.

Lemma parseXtcHeader_built (Date_now : Z) (xtgBlobs : list (list Z))
    (options : XtcBuildOptions) :
  Z.of_nat (length xtgBlobs) < 65536 ->
  Layout.containerSize xtgBlobs options < 4294967296 ->
  parseXtcHeader (Layout.containerBytes Date_now xtgBlobs options)
  = Ok (Layout.parsedHeader (length xtgBlobs) options).
Proof.
  intros Hn Hsize.
  pose proof (containerBytes_length Date_now xtgBlobs options) as Hlen.
  pose proof (indexOffset_nonneg options) as Hio.
  assert (0 <= Layout.dataOffset (length xtgBlobs) options < 4294967296) as Hdo
    by (unfold Layout.containerSize, Layout.dataOffset in *; lia).
  assert (Layout.indexOffset options < 4294967296) as Hio'
    by (unfold Layout.dataOffset in Hdo; lia).
  set (buffer := Layout.containerBytes Date_now xtgBlobs options) in *.
  assert (48 <= byteLength buffer) as H48
    by (rewrite Hlen; unfold Layout.containerSize, Layout.dataOffset; lia).
  unfold parseXtcHeader. rewrite view_magic.
  replace (4 <=? byteLength buffer) with true by (symmetry; apply Z.leb_le; lia).
  cbn [bind].
  set (n := length xtgBlobs) in *.
  set (c := if build_is2bit options then 72 else 0).
  set (hm := hasMetadata options).
  assert (buffer
          = [88; 84; 67; c] ++ DataView.bytesLE 2 1 ++ DataView.bytesLE 2 (Z.of_nat n)
            ++ DataView.bytesLE 4 (if hm then 16777472 else 0)
            ++ DataView.bytesLE 4 (if hm then 1 else 0)
            ++ Layout.u64 (if hm then 56 else 0)
            ++ Layout.u64 (Layout.indexOffset options)
            ++ Layout.u64 (Layout.dataOffset n options)
            ++ Layout.u64 0
            ++ Layout.metadataSection Date_now options
            ++ Layout.indexBytes (Layout.dataOffset n options) xtgBlobs
            ++ concat xtgBlobs) as Hb.
  { subst buffer. unfold Layout.containerBytes, Layout.headerBytes.
    by rewrite <- !app_assoc. }
  assert (take 4 buffer = [88; 84; 67; c]) as -> by (by rewrite Hb).
  change (magicIs 88 84 67 [88; 84; 67; c]) with true. cbn [negb].
  erewrite (getUint32_decomp buffer
              ([88; 84; 67; c] ++ DataView.bytesLE 2 1 ++ DataView.bytesLE 2 (Z.of_nat n))
              _ 8); [|by rewrite Hb, <- !app_assoc|done].
  cbn [bind].
  erewrite (getUint16_decomp buffer [88; 84; 67; c] _ 4 1); [|by rewrite Hb|done].
  cbn [bind].
  erewrite (getUint16_decomp buffer ([88; 84; 67; c] ++ DataView.bytesLE 2 1) _ 6);
    [|by rewrite Hb, <- !app_assoc|done].
  cbn [bind].
  erewrite (getBigUint64_decomp buffer
              ([88; 84; 67; c] ++ DataView.bytesLE 2 1 ++ DataView.bytesLE 2 (Z.of_nat n)
               ++ DataView.bytesLE 4 (if hm then 16777472 else 0)
               ++ DataView.bytesLE 4 (if hm then 1 else 0)) _ 16);
    [|by rewrite Hb, <- !app_assoc|done|destruct hm; lia].
  cbn [bind].
  erewrite (getBigUint64_decomp buffer
              ([88; 84; 67; c] ++ DataView.bytesLE 2 1 ++ DataView.bytesLE 2 (Z.of_nat n)
               ++ DataView.bytesLE 4 (if hm then 16777472 else 0)
               ++ DataView.bytesLE 4 (if hm then 1 else 0)
               ++ Layout.u64 (if hm then 56 else 0)) _ 24);
    [|by rewrite Hb, <- !app_assoc|done|lia].
  cbn [bind].
  erewrite (getBigUint64_decomp buffer
              ([88; 84; 67; c] ++ DataView.bytesLE 2 1 ++ DataView.bytesLE 2 (Z.of_nat n)
               ++ DataView.bytesLE 4 (if hm then 16777472 else 0)
               ++ DataView.bytesLE 4 (if hm then 1 else 0)
               ++ Layout.u64 (if hm then 56 else 0)
               ++ Layout.u64 (Layout.indexOffset options)) _ 32);
    [|by rewrite Hb, <- !app_assoc|done|lia].
  cbn [bind].
  unfold Layout.parsedHeader. fold hm n.
  rewrite (Z.mod_small (Z.of_nat n)) by lia.
  assert ((default 0 ([88; 84; 67; c] !! 3%nat) =? 72)
          || (default 0 ([88; 84; 67; c] !! 3%nat) =? 104) = build_is2bit options) as ->
    by (subst c; by destruct (build_is2bit options)).
  destruct hm eqn:Hh; subst hm.
  - destruct (hasMetadata_Some options Hh) as [m Hm].
    change (negb (16777472 mod 4294967296 =? 0)) with true. cbn [andb].
    replace (56 <=? byteLength buffer) with true.
    2:{ symmetry; apply Z.leb_le. rewrite Hlen.
        unfold Layout.containerSize, Layout.dataOffset, Layout.indexOffset.
        rewrite Hm, Hh. lia. }
    unfold Layout.metadataSection in Hb. rewrite Hm, Hh in Hb.
    erewrite (getBigUint64_decomp buffer
                ([88; 84; 67; c] ++ DataView.bytesLE 2 1 ++ DataView.bytesLE 2 (Z.of_nat n)
                 ++ DataView.bytesLE 4 16777472 ++ DataView.bytesLE 4 1
                 ++ Layout.u64 56
                 ++ Layout.u64 (Layout.indexOffset options)
                 ++ Layout.u64 (Layout.dataOffset n options)
                 ++ Layout.u64 0) _ 48 312);
      [|by rewrite Hb, <- !app_assoc|done|lia].
    reflexivity.
  - reflexivity.
Qed.

Ltac layout_length :=
  unfold Layout.textField, Layout.tocHeaderBytes;
  repeat first
    [ rewrite length_app
    | rewrite headerBytes_length
    | rewrite u64_length
    | rewrite textBytes_length by lia
    | rewrite bytesLE_length
    | rewrite length_replicate ];
  lia.

Lemma parseMetadata_built (Date_now : Z) (xtgBlobs : list (list Z))
    (options : XtcBuildOptions) :
  parseMetadata (Layout.containerBytes Date_now xtgBlobs options)
    (Layout.parsedHeader (length xtgBlobs) options)
  = Ok (Layout.parsedMetadata Date_now options).
Proof.
  unfold parseMetadata, Layout.parsedHeader, Layout.parsedMetadata.
  cbn [hdr_hasMetadata hdr_metadataOffset hdr_tocOffset].
  destruct (hasMetadata options) eqn:Hh.
  2:{ cbn [negb orb]. by destruct (metadata options). }
  destruct (hasMetadata_Some options Hh) as [m Hm]. rewrite Hm.
  change (negb true || (56 =? 0)) with false. cbv iota.
  change (negb (312 =? 0)) with true. cbv iota.
  set (buffer := Layout.containerBytes Date_now xtgBlobs options).
  set (hdr := Layout.headerBytes (length xtgBlobs) options ++ Layout.u64 312).
  assert (length hdr = 56%nat) as Hhdr by reflexivity.
  assert (buffer
          = hdr ++ Layout.textField 128 (meta_title m)
            ++ Layout.textField 64 (meta_author m)
            ++ Layout.textField 32 (meta_publisher m)
            ++ Layout.textField 16 (meta_language m)
            ++ DataView.bytesLE 4 (Layout.timestamp Date_now (createTime m))
            ++ DataView.bytesLE 2 (default 0xFFFF (coverPage m))
            ++ DataView.bytesLE 2 (Z.of_nat (length (toc m))) ++ replicate 8 0
            ++ concat (map Layout.tocEntryBytes (toc m))
            ++ Layout.indexBytes (Layout.dataOffset (length xtgBlobs) options) xtgBlobs
            ++ concat xtgBlobs) as Hb.
  { subst buffer hdr.
    unfold Layout.containerBytes, Layout.metadataSection, Layout.metadataBytes,
      Layout.tocHeaderBytes.
    rewrite Hm, Hh. by rewrite <- !app_assoc. }
  clearbody buffer hdr.
  change 128 with (Z.of_nat 128) at 1.
  erewrite (readText_decomp buffer hdr _ _ 128); [|exact Hb|lia|lia].
  cbn [bind].
  change 64 with (Z.of_nat 64) at 1.
  erewrite (readText_decomp buffer (hdr ++ Layout.textField 128 (meta_title m)) _ _ 64);
    [|by rewrite Hb, <- !app_assoc|layout_length|lia].
  cbn [bind].
  change 32 with (Z.of_nat 32) at 1.
  erewrite (readText_decomp buffer
              (hdr ++ Layout.textField 128 (meta_title m)
               ++ Layout.textField 64 (meta_author m)) _ _ 32);
    [|by rewrite Hb, <- !app_assoc|layout_length|lia].
  cbn [bind].
  change 16 with (Z.of_nat 16) at 1.
  erewrite (readText_decomp buffer
              (hdr ++ Layout.textField 128 (meta_title m)
               ++ Layout.textField 64 (meta_author m)
               ++ Layout.textField 32 (meta_publisher m)) _ _ 16);
    [|by rewrite Hb, <- !app_assoc|layout_length|lia].
  cbn [bind].
  set (texts := hdr ++ Layout.textField 128 (meta_title m)
               ++ Layout.textField 64 (meta_author m)
               ++ Layout.textField 32 (meta_publisher m)
               ++ Layout.textField 16 (meta_language m)).
  assert (length texts = 296%nat) as Htexts by (subst texts; layout_length).
  assert (buffer
          = texts ++ DataView.bytesLE 4 (Layout.timestamp Date_now (createTime m))
            ++ DataView.bytesLE 2 (default 0xFFFF (coverPage m))
            ++ DataView.bytesLE 2 (Z.of_nat (length (toc m))) ++ replicate 8 0
            ++ concat (map Layout.tocEntryBytes (toc m))
            ++ Layout.indexBytes (Layout.dataOffset (length xtgBlobs) options) xtgBlobs
            ++ concat xtgBlobs) as Hb'
    by (subst texts; by rewrite Hb, <- !app_assoc).
  clearbody texts.
  erewrite (getUint32_decomp buffer texts); [|exact Hb'|lia].
  cbn [bind].
  erewrite (getUint16_decomp buffer (texts ++ DataView.bytesLE 4 _));
    [|by rewrite Hb', <- !app_assoc|rewrite length_app, bytesLE_length; lia].
  cbn [bind].
  erewrite (getUint16_decomp buffer
              ((texts ++ DataView.bytesLE 4 _) ++ DataView.bytesLE 2 _));
    [|by rewrite Hb', <- !app_assoc|rewrite !length_app, !bytesLE_length; lia].
  cbn [bind].
  erewrite (parseToc_decomp buffer
              (texts ++ DataView.bytesLE 4 (Layout.timestamp Date_now (createTime m))
               ++ DataView.bytesLE 2 (default 0xFFFF (coverPage m))
               ++ DataView.bytesLE 2 (Z.of_nat (length (toc m))) ++ replicate 8 0)
              _ (toc m));
    [|by rewrite Hb', <- !app_assoc
     |rewrite !length_app, !bytesLE_length, length_replicate; lia
     |pose proof (Z.mod_pos_bound (Z.of_nat (length (toc m))) 65536);
      pose proof (Z.mod_le (Z.of_nat (length (toc m))) 65536); lia].
  reflexivity.
Qed.

Lemma parseXtcFile_built (Date_now : Z) (xtgBlobs : list (list Z))
    (options : XtcBuildOptions) :
  Z.of_nat (length xtgBlobs) < 65536 ->
  Layout.containerSize xtgBlobs options < 4294967296 ->
  parseXtcFile (Layout.containerBytes Date_now xtgBlobs options)
  = Ok {| header := Layout.parsedHeader (length xtgBlobs) options;
          parsed_metadata := Layout.parsedMetadata Date_now options;
          entries :=
            Layout.indexEntries (Layout.dataOffset (length xtgBlobs) options) xtgBlobs;
          pageData := xtgBlobs |}.
Proof.
  intros Hn Hsize. unfold parseXtcFile.
  rewrite parseXtcHeader_built by done. cbn [bind].
  rewrite parseMetadata_built. cbn [bind].
  cbn [Layout.parsedHeader hdr_indexOffset hdr_pageCount]. rewrite Nat2Z.id.
  pose proof (indexOffset_nonneg options) as Hio.
  set (pre := Layout.headerBytes (length xtgBlobs) options
              ++ Layout.metadataSection Date_now options).
  assert (Layout.indexOffset options = Z.of_nat (length pre)) as Hpre
    by (subst pre; by rewrite metadataSection_length).
  assert (Layout.containerBytes Date_now xtgBlobs options
          = pre ++ Layout.indexBytes (Layout.dataOffset (length xtgBlobs) options) xtgBlobs
            ++ concat xtgBlobs) as Hb
    by (subst pre; unfold Layout.containerBytes; by rewrite <- !app_assoc).
  rewrite Hpre.
  rewrite (parseIndex_decomp xtgBlobs _ pre (concat xtgBlobs)
             (Layout.dataOffset (length xtgBlobs) options));
    [|exact Hb|unfold Layout.dataOffset; lia|exact Hsize].
  cbn [bind]. f_equal. f_equal.
  apply (pageSlices xtgBlobs _
           (pre ++ Layout.indexBytes (Layout.dataOffset (length xtgBlobs) options) xtgBlobs)
           []).
  - by rewrite Hb, app_nil_r, <- !app_assoc.
  - rewrite length_app, indexBytes_length. unfold Layout.dataOffset. lia.
Qed.

Lemma indexEntries_size (xtgBlobs : list (list Z)) : forall rel,
  map entry_size (Layout.indexEntries rel xtgBlobs) = map byteLength xtgBlobs.
Proof.
  induction xtgBlobs as [|blob rest IH]; intros rel; [done|].
  cbn [Layout.indexEntries map entry_size]. by rewrite IH.
Qed.

(** X5: a container written by [buildXtcFromBuffers] is read back by
    [parseXtcFile] with the same pages, in order, and with the page
    count, bit depth and metadata flag it was written with. *)
Theorem container_roundtrip (Date_now : Z) (xtgBlobs : list (list Z))
    (options : XtcBuildOptions) :
  (forall blob, blob ∈ xtgBlobs -> 8 <= byteLength blob) ->
  Z.of_nat (length xtgBlobs) < 65536 ->
  Layout.containerSize xtgBlobs options < 4294967296 ->
  exists buffer parsed,
    buildXtcFromBuffers Date_now xtgBlobs options = Ok buffer
    /\ byteLength buffer = Layout.containerSize xtgBlobs options
    /\ parseXtcFile buffer = Ok parsed
    /\ pageData parsed = xtgBlobs
    /\ hdr_is2bit (header parsed) = build_is2bit options
    /\ hdr_pageCount (header parsed) = Z.of_nat (length xtgBlobs)
    /\ hdr_hasMetadata (header parsed) = hasMetadata options
    /\ map entry_size (entries parsed) = map byteLength xtgBlobs.
Proof.
  intros Hlen Hn Hsize.
  eexists _, _. split; [by apply build_layout|].
  split; [apply containerBytes_length|].
  split; [by apply parseXtcFile_built|].
  cbn [pageData header entries Layout.parsedHeader hdr_is2bit hdr_pageCount hdr_hasMetadata].
  rewrite indexEntries_size. done.
Qed.

Lemma container_roundtrip_witness :
  exists buffer parsed,
    buildXtcFromBuffers 1000000 [exampleChunk] (exampleBuildOptions (Some 1700000000))
    = Ok buffer
    /\ byteLength buffer = 448
    /\ parseXtcFile buffer = Ok parsed
    /\ pageData parsed = [exampleChunk]
    /\ hdr_is2bit (header parsed) = false
    /\ hdr_pageCount (header parsed) = 1
    /\ hdr_hasMetadata (header parsed) = true
    /\ map entry_size (entries parsed) = [24].
Proof.
  apply (container_roundtrip 1000000 [exampleChunk] (exampleBuildOptions (Some 1700000000))).
  - intros blob Hblob. apply list_elem_of_singleton in Hblob. subst blob.
    vm_compute. discriminate.
  - vm_compute. reflexivity.
  - vm_compute. reflexivity.
Defined.

Lemma run_wellFormed (n : nat) : forall bytes,
  (length bytes <= n)%nat -> Utf8.wellFormed bytes = true ->
  TextDecoder.run TextDecoder.initial bytes = bytes.
Proof.
  induction n as [|n IH]; intros bytes Hlen Hwf.
  { destruct bytes; [reflexivity|simpl in Hlen; lia]. }
  destruct bytes as [|b1 rest]; [reflexivity|].
  cbn [length] in Hlen.
  cbn [Utf8.wellFormed] in Hwf.
  cbn [TextDecoder.run TextDecoder.need TextDecoder.initial].
  unfold TextDecoder.start.
  destruct (TextDecoder.inRange 0 127 b1) eqn:H1.
  { cbn [app]. f_equal. apply IH; [lia|done]. }
  destruct rest as [|b2 rest2]; [discriminate|].
  cbn [length] in Hlen.
  destruct (TextDecoder.inRange 194 223 b1) eqn:H2.
  { apply andb_true_iff in Hwf as [Hc Hwf]. unfold Utf8.cont in Hc.
    cbn [app TextDecoder.run TextDecoder.need TextDecoder.lower TextDecoder.upper
         TextDecoder.pending].
    rewrite Hc. cbn [app]. do 2 f_equal. apply IH; [lia|done]. }
  destruct rest2 as [|b3 rest3]; [discriminate|].
  cbn [length] in Hlen.
  destruct (TextDecoder.inRange 224 239 b1) eqn:H3.
  { apply andb_true_iff in Hwf as [Hwf Hwf3].
    apply andb_true_iff in Hwf as [Hc2 Hc3]. unfold Utf8.cont in Hc3.
    cbn [app TextDecoder.run TextDecoder.need TextDecoder.lower TextDecoder.upper
         TextDecoder.pending].
    rewrite Hc2.
    cbn [app TextDecoder.run TextDecoder.need TextDecoder.lower TextDecoder.upper
         TextDecoder.pending].
    rewrite Hc3. cbn [app]. do 3 f_equal. apply IH; [lia|done]. }
  destruct rest3 as [|b4 rest4]; [discriminate|].
  cbn [length] in Hlen.
  apply andb_true_iff in Hwf as [Hwf Hwf4].
  apply andb_true_iff in Hwf as [Hwf Hc4].
  apply andb_true_iff in Hwf as [Hwf Hc3].
  apply andb_true_iff in Hwf as [H4 Hc2].
  unfold Utf8.cont in Hc3, Hc4.
  rewrite H4.
  cbn [app TextDecoder.run TextDecoder.need TextDecoder.lower TextDecoder.upper
       TextDecoder.pending].
  rewrite Hc2.
  cbn [app TextDecoder.run TextDecoder.need TextDecoder.lower TextDecoder.upper
       TextDecoder.pending].
  rewrite Hc3.
  cbn [app TextDecoder.run TextDecoder.need TextDecoder.lower TextDecoder.upper
       TextDecoder.pending].
  rewrite Hc4. cbn [app]. do 4 f_equal. apply IH; [lia|done].
Qed.

Lemma untilNul_no_nul (bytes : list Z) :
  forallb (fun b => negb (b =? 0)) bytes = true -> untilNul bytes = bytes.
Proof.
  induction bytes as [|b bytes IH]; [done|].
  cbn [forallb untilNul]. intros [Hb Hrest]%andb_true_iff.
  apply negb_true_iff in Hb. rewrite Hb. f_equal. by apply IH.
Qed.

Lemma decode_plain (bytes : list Z) :
  Utf8.plain bytes = true -> TextDecoder.decode bytes = bytes.
Proof.
  unfold Utf8.plain. intros [[Hwf _]%andb_true_iff Hbom]%andb_true_iff.
  unfold TextDecoder.decode. rewrite (run_wellFormed (length bytes)) by done.
  apply negb_true_iff in Hbom. unfold Utf8.hasByteOrderMark in Hbom.
  unfold TextDecoder.dropByteOrderMark.
  repeat (match goal with
          | H : context [match ?x with _ => _ end] |- _ => destruct x; try done
          end).
Qed.

Lemma readText_plain (size : nat) (text : string) :
  Utf8.plain (encode text) = true -> (length (encode text) < size)%nat ->
  Layout.readText size (Some text) = encode text.
Proof.
  intros Hp Hlen. unfold Layout.readText. cbn [default from_option id].
  rewrite take_ge by lia.
  rewrite untilNul_no_nul; [by apply decode_plain|].
  unfold Utf8.plain in Hp. by apply andb_true_iff in Hp as [[_ ?]%andb_true_iff _].
Qed.

(** X6: the metadata block written by [buildXtcFromBuffers] is read back
    by [parseXtcFile]: every text field cut to the field size minus one
    byte and at its first NUL and then decoded as UTF-8 (so that a
    character cut by the field size reads as U+FFFD), the numbers
    modulo the width of their field, the chapters in order; a container
    built without a metadata block parses to the empty metadata.  A
    text that is shorter than its field, holds no NUL and does not
    start with a byte order mark is read back as it was written. *)
Theorem container_metadata_roundtrip (Date_now : Z) (xtgBlobs : list (list Z))
    (options : XtcBuildOptions) :
  (forall blob, blob ∈ xtgBlobs -> 8 <= byteLength blob) ->
  Z.of_nat (length xtgBlobs) < 65536 ->
  Layout.containerSize xtgBlobs options < 4294967296 ->
  (exists buffer parsed,
     buildXtcFromBuffers Date_now xtgBlobs options = Ok buffer
     /\ parseXtcFile buffer = Ok parsed
     /\ (hasMetadata options = false -> parsed_metadata parsed = emptyMetadata)
     /\ (forall m,
           metadata options = Some m -> hasMetadata options = true ->
           Z.of_nat (length (toc m)) < 65536 ->
           parsed_metadata parsed
           = {| pm_title := Some (Layout.readText 128 (meta_title m));
                pm_author := Some (Layout.readText 64 (meta_author m));
                pm_publisher := Some (Layout.readText 32 (meta_publisher m));
                pm_language := Some (Layout.readText 16 (meta_language m));
                pm_createTime :=
                  Some (Layout.timestamp Date_now (createTime m) mod 4294967296);
                pm_coverPage := Some (default 0xFFFF (coverPage m) mod 65536);
                pm_toc :=
                  map (fun entry =>
                         {| ptoc_title := Layout.readText 80 (Some (title entry));
                            ptoc_startPage := startPage entry mod 65536;
                            ptoc_endPage := endPage entry mod 65536 |})
                      (toc m) |}))
  /\ (forall (size : nat) (text : string),
        Utf8.plain (encode text) = true -> (length (encode text) < size)%nat ->
        Layout.readText size (Some text) = encode text).
Proof.
  intros Hlen Hn Hsize. split; [|apply readText_plain].
  eexists _, _. split; [by apply build_layout|].
  split; [by apply parseXtcFile_built|].
  cbn [parsed_metadata]. unfold Layout.parsedMetadata. split.
  - intros ->. by destruct (metadata options).
  - intros m -> -> HT. unfold Layout.readMetadata.
    rewrite (Z.mod_small (Z.of_nat (length (toc m)))) by lia.
    rewrite Nat2Z.id, firstn_all. reflexivity.
Qed.

Lemma container_metadata_roundtrip_witness :
  (exists buffer parsed,
     buildXtcFromBuffers 1000000 [exampleChunk] (exampleBuildOptions (Some 1700000000))
     = Ok buffer
     /\ parseXtcFile buffer = Ok parsed
     /\ parsed_metadata parsed
        = {| pm_title := Some [84]; pm_author := Some []; pm_publisher := Some [];
             pm_language := Some []; pm_createTime := Some 1700000000;
             pm_coverPage := Some 65535;
             pm_toc := [ {| ptoc_title := [65]; ptoc_startPage := 1;
                            ptoc_endPage := 1 |} ] |})
  /\ Layout.readText 16 (Some exampleTitle) = [84; 197; 141; 107; 121; 197; 141].
Proof.
  destruct (container_metadata_roundtrip 1000000 [exampleChunk]
              (exampleBuildOptions (Some 1700000000)))
    as [(buffer & parsed & Hbuild & Hparse & _ & Hmeta) Hplain].
  - intros blob Hblob. apply list_elem_of_singleton in Hblob. subst blob.
    vm_compute. discriminate.
  - vm_compute. reflexivity.
  - vm_compute. reflexivity.
  - split.
    + exists buffer, parsed. split; [exact Hbuild|]. split; [exact Hparse|].
      rewrite (Hmeta (exampleMetadata (Some 1700000000)) eq_refl eq_refl);
        [reflexivity|vm_compute; reflexivity].
    + rewrite (Hplain 16%nat exampleTitle); [reflexivity|reflexivity|vm_compute; lia].
Defined.

(** *** Failures of the container writer *)

Lemma bind_Ok_inv {A B} (r : result A) (k : A -> result B) (b : B) :
  bind r k = Ok b -> exists a, r = Ok a /\ k a = Ok b.
Proof. destruct r as [a|e]; [eauto|discriminate]. Qed.

Lemma getUint16_Ok_inv (buffer : list Z) (offset v : Z) :
  DataView.getUint16 buffer offset = Ok v -> offset + 2 <= byteLength buffer.
Proof.
  unfold DataView.getUint16, DataView.inBounds.
  destruct (0 <=? offset); [|discriminate].
  destruct (offset + 2 <=? byteLength buffer) eqn:H; [|discriminate].
  intros _. by apply Z.leb_le.
Qed.

Lemma writeIndex_Ok_inv (xtgBlobs : list (list Z)) :
  forall (view view' : list Z) (entryOffset relOffset : Z),
  writeIndex view entryOffset relOffset xtgBlobs = Ok view' ->
  forall blob, blob ∈ xtgBlobs -> 8 <= byteLength blob.
Proof.
  induction xtgBlobs as [|b rest IH]; intros view view' eo rel H blob Hblob.
  - by apply elem_of_nil in Hblob.
  - cbn [writeIndex] in H.
    apply bind_Ok_inv in H as (w & _ & H).
    apply bind_Ok_inv in H as (h & Hh & H).
    apply getUint16_Ok_inv in Hh.
    do 4 (apply bind_Ok_inv in H as (? & _ & H)).
    apply elem_of_cons in Hblob as [->|Hblob]; [lia|].
    by apply (IH _ _ _ _ H).
Qed.

Lemma setUint_range n buffer o v :
  failsOnlyWith isRangeError (DataView.setUint n buffer o v).
Proof. unfold DataView.setUint. by destruct (DataView.inBounds _ _ _); intros ? [= <-]. Qed.

Lemma set_range target source o :
  failsOnlyWith isRangeError (Uint8Array.set target source o).
Proof. unfold Uint8Array.set. by destruct (DataView.inBounds _ _ _); intros ? [= <-]. Qed.

Lemma setBigUint64_range view o v : failsOnlyWith isRangeError (setBigUint64 view o v).
Proof.
  unfold setBigUint64. apply failsOnlyWith_bind; [|intros ?]; apply setUint_range.
Qed.

Ltac write_range_steps :=
  repeat first
    [ apply failsOnlyWith_Ok
    | apply getUint16_range
    | apply setUint_range
    | apply set_range
    | apply setBigUint64_range
    | apply failsOnlyWith_bind; [ | intros ? ] ].

Lemma writeText_range uint8 field size o :
  failsOnlyWith isRangeError (writeText uint8 field size o).
Proof. unfold writeText. destruct field as [[|? ?]|]; write_range_steps. Qed.

Lemma writeTocHeader_range d view o n cover ct :
  failsOnlyWith isRangeError (writeTocHeader d view o n cover ct).
Proof.
  unfold writeTocHeader, DataView.setUint32, DataView.setUint16. write_range_steps.
Qed.

Lemma writeTocEntries_range toc : forall uint8 o,
  failsOnlyWith isRangeError (writeTocEntries uint8 o toc).
Proof.
  induction toc as [|e toc IH]; intros uint8 o; cbn [writeTocEntries].
  - apply failsOnlyWith_Ok.
  - unfold DataView.setUint16. write_range_steps. apply IH.
Qed.

Lemma writeMetadata_range d uint8 o m :
  failsOnlyWith isRangeError (writeMetadata d uint8 o m).
Proof.
  unfold writeMetadata.
  repeat (apply failsOnlyWith_bind; [first [apply writeText_range|apply writeTocHeader_range]
                                    |intros ?]).
  destruct (0 <? length (toc m))%nat;
    [apply writeTocEntries_range|apply failsOnlyWith_Ok].
Qed.

Lemma writeIndex_range xtgBlobs : forall view eo rel,
  failsOnlyWith isRangeError (writeIndex view eo rel xtgBlobs).
Proof.
  induction xtgBlobs as [|b rest IH]; intros view eo rel; cbn [writeIndex].
  - apply failsOnlyWith_Ok.
  - unfold DataView.setUint32, DataView.setUint16. write_range_steps. apply IH.
Qed.

Lemma writeData_range xtgBlobs : forall uint8 o,
  failsOnlyWith isRangeError (writeData uint8 o xtgBlobs).
Proof.
  induction xtgBlobs as [|b rest IH]; intros uint8 o; cbn [writeData].
  - apply failsOnlyWith_Ok.
  - write_range_steps. apply IH.
Qed.

(** X7: [buildXtcFromBuffers] returns a container exactly when every
    chunk holds the 8 bytes up to its height field; otherwise it fails,
    and a failure is always a RangeError. *)
Theorem build_succeeds_iff (Date_now : Z) (xtgBlobs : list (list Z))
    (options : XtcBuildOptions) :
  ((exists buffer, buildXtcFromBuffers Date_now xtgBlobs options = Ok buffer)
   <-> forall blob, blob ∈ xtgBlobs -> 8 <= byteLength blob)
  /\ forall e, buildXtcFromBuffers Date_now xtgBlobs options = Err e -> e = RangeError.
Proof.
  split; [split|].
  - intros [buffer H]. unfold buildXtcFromBuffers in H. cbv zeta in H.
    do 10 (apply bind_Ok_inv in H as (? & _ & H)).
    apply bind_Ok_inv in H as (view & Hidx & _).
    by apply (writeIndex_Ok_inv _ _ _ _ _ Hidx).
  - intros Hlen. eexists. by apply build_layout.
  - change (failsOnlyWith isRangeError (buildXtcFromBuffers Date_now xtgBlobs options)).
    unfold buildXtcFromBuffers. cbv zeta.
    unfold DataView.setUint32, DataView.setUint16.
    do 8 (apply failsOnlyWith_bind; [first [apply setUint_range|apply setBigUint64_range]
                                    |intros ?]).
    apply failsOnlyWith_bind;
      [destruct (hasMetadata options);
       [apply setBigUint64_range|apply failsOnlyWith_Ok]|intros ?].
    apply failsOnlyWith_bind;
      [destruct (metadata options); [destruct (hasMetadata options)|];
       first [apply writeMetadata_range|apply failsOnlyWith_Ok]|intros ?].
    apply failsOnlyWith_bind; [apply writeIndex_range|intros ?].
    apply writeData_range.
Qed.

(** ** The streamed header *)

Lemma streamIndexBytes_length is2bit pages : forall rel,
  length (Layout.streamIndexBytes rel is2bit pages) = (16 * length pages)%nat.
Proof.
  induction pages as [|page rest IH]; intros rel; [done|].
  cbn [Layout.streamIndexBytes length]. rewrite length_app, IH.
  unfold Layout.indexEntryBytes.
  rewrite !length_app, u64_length, !bytesLE_length. lia.
Qed.

Lemma stream_writeIndex_at is2bit (pages : list XtcStream.StreamPageInfo) :
  forall (pre post : list Z) (entryOffset relOffset : Z),
  entryOffset = Z.of_nat (length pre) ->
  XtcStream.writeIndex (pre ++ replicate (16 * length pages) 0 ++ post)
    entryOffset relOffset is2bit pages
  = Ok (pre ++ Layout.streamIndexBytes relOffset is2bit pages ++ post).
Proof.
  induction pages as [|page rest IH]; intros pre post entryOffset relOffset Ho.
  - reflexivity.
  - cbn [XtcStream.writeIndex length Layout.streamIndexBytes].
    replace (16 * S (length rest))%nat with (8 + (4 + (2 + (2 + 16 * length rest))))%nat by lia.
    rewrite !replicate_add, <- !app_assoc.
    rewrite (setBigUint64_at pre (replicate 8 0)) by done.
    cbn [bind]. unfold DataView.setUint32, DataView.setUint16.
    rewrite (app_assoc pre).
    rewrite (setUint_at_offset 4 (pre ++ _) (replicate 4 0));
      [|rewrite length_app, u64_length; lia|done].
    cbn [bind].
    rewrite (app_assoc (pre ++ _)).
    rewrite (setUint_at_offset 2 ((pre ++ _) ++ _) (replicate 2 0));
      [|rewrite !length_app, u64_length, bytesLE_length; lia|done].
    cbn [bind].
    rewrite (app_assoc ((pre ++ _) ++ _)).
    rewrite (setUint_at_offset 2 (((pre ++ _) ++ _) ++ _) (replicate 2 0));
      [|rewrite !length_app, u64_length, !bytesLE_length; lia|done].
    cbn [bind].
    rewrite (app_assoc (((pre ++ _) ++ _) ++ _)).
    rewrite IH.
    + unfold Layout.indexEntryBytes. by rewrite <- !app_assoc.
    + rewrite !length_app, u64_length, !bytesLE_length. unfold INDEX_ENTRY_SIZE. lia.
Qed.

Lemma stream_layout (Date_now : Z) (pages : list XtcStream.StreamPageInfo)
    (options : XtcBuildOptions) :
  XtcStream.buildXtcHeaderAndIndex Date_now pages options
  = Ok (Layout.headerBytes (length pages) options
        ++ Layout.metadataSection Date_now options
        ++ Layout.streamIndexBytes (Layout.dataOffset (length pages) options)
             (build_is2bit options) pages).
Proof.
  unfold XtcStream.buildXtcHeaderAndIndex, Layout.headerBytes,
    Layout.metadataSection, Layout.dataOffset, Layout.indexOffset.
  set (c := if build_is2bit options then 72 else 0).
  replace (if build_is2bit options then [88; 84; 67; 72] else [88; 84; 67; 0])
    with [88; 84; 67; c] by (subst c; by destruct (build_is2bit options)).
  assert (0 <= c < 256) as Hc by (subst c; destruct (build_is2bit options); lia).
  destruct (hasMetadata options) eqn:Hh.
  - destruct (hasMetadata_Some options Hh) as [m Hm]. rewrite Hm.
    set (T := length (toc m)).
    match goal with
    | |- context [replicate (Z.to_nat ?t) 0] =>
        replace (Z.to_nat t)
          with (4 + (2 + (2 + (4 + (4 + (8 + (8 + (8 + (8 + (8 +
                ((256 + 96 * T) + (16 * length pages + 0))))))))))))%nat
    end.
    2:{ unfold HEADER_WITH_METADATA_SIZE, HEADER_BASE_SIZE, TOC_OFFSET_PTR_SIZE,
          TITLE_SIZE, AUTHOR_SIZE, PUBLISHER_SIZE, LANGUAGE_SIZE, TOC_HEADER_SIZE,
          TOC_ENTRY_SIZE, INDEX_ENTRY_SIZE.
        fold T. destruct (0 <? Z.of_nat T) eqn:HT; [|apply Z.ltb_ge in HT]; lia. }
    rewrite !replicate_add.
    rewrite magic_store by done.
    unfold DataView.setUint16, DataView.setUint32.
    rewrite (setUint_at_offset 2 [88; 84; 67; c] (replicate 2 0)) by done.
    cbn [bind]. rewrite (app_assoc [88; 84; 67; c]).
    write_next (setUint_at_offset 2 (_ ++ _) (replicate 2 0)).
    write_next (setUint_at_offset 4 (_ ++ _) (replicate 4 0)).
    write_next (setUint_at_offset 4 (_ ++ _) (replicate 4 0)).
    write_next (setBigUint64_at (_ ++ _) (replicate 8 0)).
    write_next (setBigUint64_at (_ ++ _) (replicate 8 0)).
    write_next (setBigUint64_at (_ ++ _) (replicate 8 0)).
    write_next (setBigUint64_at (_ ++ _) (replicate 8 0)).
    write_next (setBigUint64_at (_ ++ _) (replicate 8 0)).
    write_next (writeMetadata_at Date_now m).
    rewrite stream_writeIndex_at.
    2:{ rewrite !length_app, metadataBytes_length.
        unfold HEADER_WITH_METADATA_SIZE, HEADER_BASE_SIZE, TOC_OFFSET_PTR_SIZE,
          TITLE_SIZE, AUTHOR_SIZE, PUBLISHER_SIZE, LANGUAGE_SIZE, TOC_HEADER_SIZE,
          TOC_ENTRY_SIZE.
        fold T. cbn [length DataView.bytesLE Layout.u64 app].
        destruct (0 <? Z.of_nat T) eqn:HT; [|apply Z.ltb_ge in HT]; lia. }
    replace (TITLE_SIZE + AUTHOR_SIZE + PUBLISHER_SIZE + LANGUAGE_SIZE + TOC_HEADER_SIZE
             + (if 0 <? Z.of_nat T then Z.of_nat T * TOC_ENTRY_SIZE else 0))
      with (256 + 96 * Z.of_nat T).
    2:{ unfold TITLE_SIZE, AUTHOR_SIZE, PUBLISHER_SIZE, LANGUAGE_SIZE, TOC_HEADER_SIZE,
          TOC_ENTRY_SIZE.
        destruct (0 <? Z.of_nat T) eqn:HT; [|apply Z.ltb_ge in HT]; lia. }
    unfold HEADER_WITH_METADATA_SIZE, HEADER_BASE_SIZE, TOC_OFFSET_PTR_SIZE,
      TITLE_SIZE, AUTHOR_SIZE, PUBLISHER_SIZE, LANGUAGE_SIZE, TOC_HEADER_SIZE,
      INDEX_ENTRY_SIZE, FLAG_HAS_METADATA_LOW, FLAG_HAS_METADATA_HIGH.
    rewrite <- !app_assoc, app_nil_r.
    replace (48 + 8 + (256 + 96 * Z.of_nat T)) with (312 + 96 * Z.of_nat T) by lia.
    replace (Z.of_nat (length pages) * 16) with (16 * Z.of_nat (length pages)) by lia.
    reflexivity.
  - match goal with
    | |- context [replicate (Z.to_nat ?t) 0] =>
        replace (Z.to_nat t)
          with (4 + (2 + (2 + (4 + (4 + (8 + (8 + (8 + (8 +
                (16 * length pages + 0))))))))))%nat
    end.
    2:{ unfold HEADER_BASE_SIZE, INDEX_ENTRY_SIZE. lia. }
    rewrite !replicate_add.
    rewrite magic_store by done.
    unfold DataView.setUint16, DataView.setUint32.
    rewrite (setUint_at_offset 2 [88; 84; 67; c] (replicate 2 0)) by done.
    cbn [bind]. rewrite (app_assoc [88; 84; 67; c]).
    write_next (setUint_at_offset 2 (_ ++ _) (replicate 2 0)).
    write_next (setUint_at_offset 4 (_ ++ _) (replicate 4 0)).
    write_next (setUint_at_offset 4 (_ ++ _) (replicate 4 0)).
    write_next (setBigUint64_at (_ ++ _) (replicate 8 0)).
    write_next (setBigUint64_at (_ ++ _) (replicate 8 0)).
    write_next (setBigUint64_at (_ ++ _) (replicate 8 0)).
    write_next (setBigUint64_at (_ ++ _) (replicate 8 0)).
    cbn [bind].
    match goal with
    | |- context [match metadata options with Some _ => ?a | None => ?b end] =>
        replace (match metadata options with Some _ => a | None => b end) with b
          by (by destruct (metadata options))
    end.
    cbn [bind].
    rewrite stream_writeIndex_at.
    2:{ unfold HEADER_BASE_SIZE. reflexivity. }
    replace (match metadata options with Some _ => 48 | None => 48 end) with 48
      by (by destruct (metadata options)).
    replace (match metadata options with Some _ => [] | None => [] end) with (@nil Z)
      by (by destruct (metadata options)).
    unfold HEADER_BASE_SIZE, INDEX_ENTRY_SIZE.
    rewrite <- !app_assoc, app_nil_r. cbn [app].
    replace (Z.of_nat (length pages) * 16) with (16 * Z.of_nat (length pages)) by lia.
    reflexivity.
Qed.

Lemma chunk_dimensions (magic : list Z) (w h n : nat) (rest : list Z) :
  length magic = 4%nat ->
  let chunk := chunkHeader magic w h n ++ rest in
  Layout.chunkWidth chunk = Z.of_nat w mod 65536
  /\ Layout.chunkHeight chunk = Z.of_nat h mod 65536.
Proof.
  intros Hm chunk. subst chunk.
  destruct magic as [|m0 [|m1 [|m2 [|m3 [|? ?]]]]]; try discriminate Hm.
  unfold Layout.chunkWidth, Layout.chunkHeight, DataView.byteAt, chunkHeader.
  change (Z.to_nat 4) with 4%nat. change (Z.to_nat 5) with 5%nat.
  change (Z.to_nat 6) with 6%nat. change (Z.to_nat 7) with 7%nat.
  cbn. unfold id. by rewrite !bytesLE2_value.
Qed.

Lemma encodeImageData_chunk (is2bit : bool) (img : ImageData) :
  exists chunk,
    encodeImageData is2bit img = Ok chunk
    /\ byteLength chunk
       = Z.of_nat (getXtcPageSize (img_width img) (img_height img) is2bit)
    /\ Layout.chunkWidth chunk = Z.of_nat (img_width img) mod 65536
    /\ Layout.chunkHeight chunk = Z.of_nat (img_height img) mod 65536.
Proof.
  destruct is2bit; unfold encodeImageData, getXtcPageSize, byteLength.
  - destruct (imageDataToXth_layout img) as (digest & Hd & ->).
    destruct (xthPlanes_spec img) as [[H0 H1] _].
    eexists; split; [reflexivity|]. split.
    + rewrite !length_app, chunkHeader_length, Hd, H0, H1. f_equal. lia.
    + by apply chunk_dimensions.
  - rewrite imageDataToXtg_layout.
    destruct (xtgPixelData_spec img) as [HP _].
    eexists; split; [reflexivity|]. split.
    + rewrite !length_app, chunkHeader_length, xtgDigest_length, HP. f_equal.
    + by apply chunk_dimensions.
Qed.

Lemma getXtcPageSize_ge (w h : nat) (is2bit : bool) :
  (22 <= getXtcPageSize w h is2bit)%nat.
Proof. unfold getXtcPageSize. destruct is2bit; lia. Qed.

(** The chunks of a list of images, with what the container writer
    reads from each of them. *)
Lemma encode_all (is2bit : bool) (images : list ImageData) :
  exists xtgBlobs,
    mapM (encodeImageData is2bit) images = Ok xtgBlobs
    /\ Forall2 (fun img chunk =>
                  encodeImageData is2bit img = Ok chunk
                  /\ byteLength chunk
                     = Z.of_nat (getXtcPageSize (img_width img) (img_height img) is2bit)
                  /\ Layout.chunkWidth chunk = Z.of_nat (img_width img) mod 65536
                  /\ Layout.chunkHeight chunk = Z.of_nat (img_height img) mod 65536)
               images xtgBlobs.
Proof.
  induction images as [|img rest (blobs & Hblobs & HF)].
  - exists []. split; [reflexivity|constructor].
  - destruct (encodeImageData_chunk is2bit img) as (chunk & Hc & Hrest).
    exists (chunk :: blobs). split.
    + cbn [mapM]. rewrite Hc. cbn [bind]. rewrite Hblobs. reflexivity.
    + constructor; [tauto|done].
Qed.

Lemma bytesLE2_mod (v : Z) : DataView.bytesLE 2 (v mod 65536) = DataView.bytesLE 2 v.
Proof.
  cbn [DataView.bytesLE].
  pose proof (Z.div_mod v 65536 ltac:(lia)) as H.
  set (r := v mod 65536) in *. set (q := v / 65536) in *.
  assert (v = r + (q * 256) * 256) as Hv by lia.
  clearbody r q. rewrite Hv.
  rewrite Z.mod_add, Z.div_add, Z.mod_add by lia. reflexivity.
Qed.

Lemma index_of_chunks (is2bit : bool) (images : list ImageData) (xtgBlobs : list (list Z)) :
  Forall2 (fun img chunk =>
             encodeImageData is2bit img = Ok chunk
             /\ byteLength chunk
                = Z.of_nat (getXtcPageSize (img_width img) (img_height img) is2bit)
             /\ Layout.chunkWidth chunk = Z.of_nat (img_width img) mod 65536
             /\ Layout.chunkHeight chunk = Z.of_nat (img_height img) mod 65536)
          images xtgBlobs ->
  forall rel,
    Layout.indexBytes rel xtgBlobs
    = Layout.streamIndexBytes rel is2bit (map Layout.pageInfo images).
Proof.
  induction 1 as [|img chunk images blobs (_ & Hsize & Hw & Hh) _ IH]; intros rel.
  - reflexivity.
  - cbn [Layout.indexBytes Layout.streamIndexBytes map Layout.pageInfo
         XtcStream.page_width XtcStream.page_height].
    rewrite Hsize, IH. f_equal.
    unfold Layout.indexEntryBytes. rewrite Hw, Hh, !bytesLE2_mod. reflexivity.
Qed.

(** X8: for pages packed by [imageDataToXtg] or [imageDataToXth], the
    header and index that the streamed path writes first
    ([buildXtcHeaderAndIndex], from the page dimensions alone) followed
    by the chunks is byte for byte the container that
    [buildXtcFromBuffers] builds from the chunks. *)
Theorem streamed_header_matches (Date_now : Z) (images : list ImageData)
    (options : XtcBuildOptions) :
  exists xtgBlobs headerAndIndex buffer,
    mapM (encodeImageData (build_is2bit options)) images = Ok xtgBlobs
    /\ XtcStream.buildXtcHeaderAndIndex Date_now (map Layout.pageInfo images) options
       = Ok headerAndIndex
    /\ buildXtcFromBuffers Date_now xtgBlobs options = Ok buffer
    /\ buffer = headerAndIndex ++ concat xtgBlobs.
Proof.
  destruct (encode_all (build_is2bit options) images) as (blobs & Hblobs & HF).
  exists blobs. eexists _, _.
  split; [exact Hblobs|]. split; [apply stream_layout|]. split.
  - apply build_layout. intros blob Hblob.
    apply list_elem_of_lookup in Hblob as [i Hi].
    destruct (Forall2_lookup_r _ _ _ _ _ HF Hi) as (img & _ & _ & -> & _).
    pose proof (getXtcPageSize_ge (img_width img) (img_height img) (build_is2bit options)).
    lia.
  - unfold Layout.containerBytes.
    rewrite (index_of_chunks _ _ _ HF), length_map, (Forall2_length _ _ _ HF).
    by rewrite <- !app_assoc.
Qed.

(** ** From images to a container and back *)

Lemma roundtrip_encode (is2bit : bool) (img : ImageData) :
  validImage img -> quantized is2bit img ->
  exists chunk decoded,
    encodeImageData is2bit img = Ok chunk
    /\ decodeXtcPageToCanvas chunk = Ok decoded
    /\ Layout.sameRGB img decoded.
Proof.
  intros Hv Hq. unfold Layout.sameRGB, encodeImageData.
  destruct is2bit; [apply roundtrip_xth|apply roundtrip_xtg]; done.
Qed.

Lemma roundtrip_all (is2bit : bool) (images : list ImageData) :
  Forall validImage images -> Forall (quantized is2bit) images ->
  exists xtgBlobs decoded,
    mapM (encodeImageData is2bit) images = Ok xtgBlobs
    /\ mapM decodeXtcPageToCanvas xtgBlobs = Ok decoded
    /\ Forall2 Layout.sameRGB images decoded.
Proof.
  induction images as [|img rest IH]; intros Hv Hq.
  - exists [], []. repeat split; constructor.
  - apply Forall_cons in Hv as [Hv Hvs]. apply Forall_cons in Hq as [Hq Hqs].
    destruct (IH Hvs Hqs) as (blobs & decs & Hb & Hd & HF).
    destruct (roundtrip_encode is2bit img Hv Hq) as (chunk & dec & Hc & Hdec & Hsame).
    exists (chunk :: blobs), (dec :: decs). split; [|split].
    + cbn [mapM]. rewrite Hc. cbn [bind]. by rewrite Hb.
    + cbn [mapM]. rewrite Hdec. cbn [bind]. by rewrite Hd.
    + by constructor.
Qed.

(** X9: images that are packed into chunks, written into a container by
    [buildXtcFromBuffers] and read back by [extractXtcPages] come out in
    the same order, with the same dimensions and the same red, green and
    blue values, provided they were quantized and the container stays
    below 4 GiB and 65536 pages. *)
Theorem container_pipeline_roundtrip (Date_now : Z) (images : list ImageData)
    (options : XtcBuildOptions) :
  Forall validImage images ->
  Forall (quantized (build_is2bit options)) images ->
  Z.of_nat (length images) < 65536 ->
  exists xtgBlobs,
    mapM (encodeImageData (build_is2bit options)) images = Ok xtgBlobs
    /\ (Layout.containerSize xtgBlobs options < 4294967296 ->
        exists buffer decoded,
          buildXtcFromBuffers Date_now xtgBlobs options = Ok buffer
          /\ XtcExtract.extractXtcPages buffer = Ok decoded
          /\ Forall2 Layout.sameRGB images decoded).
Proof.
  intros Hv Hq Hn.
  destruct (roundtrip_all _ images Hv Hq) as (blobs & decs & Hb & Hd & HF).
  exists blobs. split; [exact Hb|]. intros Hsize.
  destruct (encode_all (build_is2bit options) images) as (blobs' & Hb' & HF').
  rewrite Hb in Hb'. injection Hb' as <-.
  assert (length blobs = length images) as Hlen by (symmetry; apply (Forall2_length _ _ _ HF')).
  exists (Layout.containerBytes Date_now blobs options), decs.
  split; [|split; [|exact HF]].
  - apply build_layout. intros blob Hblob.
    apply list_elem_of_lookup in Hblob as [i Hi].
    destruct (Forall2_lookup_r _ _ _ _ _ HF' Hi) as (img & _ & _ & -> & _).
    pose proof (getXtcPageSize_ge (img_width img) (img_height img) (build_is2bit options)).
    lia.
  - unfold XtcExtract.extractXtcPages.
    rewrite parseXtcFile_built by (rewrite ?Hlen; done).
    cbn [bind pageData]. exact Hd.
Qed.

Lemma container_pipeline_roundtrip_witness :
  exists xtgBlobs,
    mapM (encodeImageData false) [exampleImage1bit; exampleImage1bit] = Ok xtgBlobs
    /\ (Layout.containerSize xtgBlobs (exampleBuildOptions None) < 4294967296 ->
        exists buffer decoded,
          buildXtcFromBuffers 0 xtgBlobs (exampleBuildOptions None) = Ok buffer
          /\ XtcExtract.extractXtcPages buffer = Ok decoded
          /\ Forall2 Layout.sameRGB [exampleImage1bit; exampleImage1bit] decoded).
Proof.
  apply (container_pipeline_roundtrip 0 [exampleImage1bit; exampleImage1bit]
           (exampleBuildOptions None)).
  - repeat constructor; apply valid_example1.
  - repeat constructor.
  - vm_compute. reflexivity.
Defined.

(** ** Crop rectangle *)


Lemma Zle_of_Q (a b : Z) : (inject_Z a <= inject_Z b)%Q -> a <= b.
Proof. by rewrite <- Zle_Qle. Qed.

Lemma Zlt_of_Q (a b : Z) : (inject_Z a < inject_Z b)%Q -> a < b.
Proof. by rewrite <- Zlt_Qlt. Qed.

Lemma Q_of_Zle (a b : Z) : a <= b -> (inject_Z a <= inject_Z b)%Q.
Proof. by rewrite <- Zle_Qle. Qed.



(** [cropX] (or [cropY]) for a side of [size] pixels and a clamped
    margin [m]: non-negative, at most a fifth of the side, and leaving
    at least one pixel. *)
Lemma crop_offset_bounds (size : Z) (m : Q) :
  1 <= size -> (0 <= m <= 20)%Q ->
  let c := Z.min (Js.Math_floor (inject_Z size * m / 100))
                 (Js.Math_floor (inject_Z (size - 1) / 2)) in
  0 <= c /\ 5 * c <= size /\ 1 <= size - c * 2.
Proof.
  intros Hsize Hm c. unfold Js.Math_floor in c.
  assert (1 <= inject_Z size)%Q as Hs
    by (change 1%Q with (inject_Z 1); by apply Q_of_Zle).
  assert (inject_Z (size - 1) == inject_Z size - 1)%Q as Hpred
    by (unfold Z.sub; rewrite inject_Z_plus, inject_Z_opp; reflexivity).
  pose proof (Qfloor_le (inject_Z size * m / 100)) as Ha1.
  pose proof (Qlt_floor (inject_Z size * m / 100)) as Ha2.
  pose proof (Qfloor_le (inject_Z (size - 1) / 2)) as Hb1.
  pose proof (Qlt_floor (inject_Z (size - 1) / 2)) as Hb2.
  set (a := Qfloor (inject_Z size * m / 100)) in *.
  set (b := Qfloor (inject_Z (size - 1) / 2)) in *.
  clearbody a b.
  rewrite inject_Z_plus in Ha2, Hb2. rewrite Hpred in Hb1, Hb2.
  change (inject_Z 1) with 1%Q in *.
  unfold Qdiv in *. change (/ 100)%Q with (1 # 100)%Q in *.
  change (/ 2)%Q with (1 # 2)%Q in *.
  assert (0 <= a) as Ha0.
  { apply Z.lt_succ_r, Zlt_of_Q. unfold Z.succ. rewrite inject_Z_plus.
    change (inject_Z 0) with 0%Q. change (inject_Z 1) with 1%Q. nra. }
  assert (5 * a <= size) as Ha5.
  { apply Zle_of_Q. rewrite inject_Z_mult. change (inject_Z 5) with 5%Q. nra. }
  assert (0 <= b) as Hb0.
  { apply Z.lt_succ_r, Zlt_of_Q. unfold Z.succ. rewrite inject_Z_plus.
    change (inject_Z 0) with 0%Q. change (inject_Z 1) with 1%Q. lra. }
  assert (2 * b <= size - 1) as Hb5.
  { apply Zle_of_Q. rewrite inject_Z_mult, Hpred.
    change (inject_Z 2) with 2%Q. lra. }
  subst c. lia.
Qed.



Lemma floor_zero_margin (size : Z) :
  Js.Math_floor (inject_Z size * 0 / 100) = 0.
Proof.
  unfold Js.Math_floor.
  assert (inject_Z size * 0 / 100 == inject_Z 0)%Q as -> by (unfold Qdiv; ring).
  apply Qfloor_Z.
Qed.

(** X11: in manhwa mode the vertical margin is ignored: the crop starts
    at the top row and keeps the full height of the source, whatever
    the option says. *)
Theorem manhwa_keeps_full_height (sourceWidth sourceHeight : Z)
    (options : ConversionOptions) :
  manhwa options = true -> 1 <= sourceHeight ->
  let r := Geometry.getAxisCropRect sourceWidth sourceHeight options in
  y r = 0 /\ height r = sourceHeight.
Proof.
  intros Hm Hh r. subst r. unfold Geometry.getAxisCropRect. cbn [y height].
  rewrite Hm. cbn [Geometry.clampMarginPercent].
  change (Js.Math_maxQ 0 (Js.Math_minQ 20 0)) with 0%Q.
  rewrite floor_zero_margin.
  pose proof (crop_offset_bounds sourceHeight 0 Hh ltac:(lra)) as Hc.
  cbv zeta in Hc. rewrite floor_zero_margin in Hc. lia.
Qed.

Lemma manhwa_keeps_full_height_witness :
  let r := Geometry.getAxisCropRect 800 3000 manhwaOptions in
  y r = 0 /\ height r = 3000.
Proof.
  apply (manhwa_keeps_full_height 800 3000 manhwaOptions); [reflexivity|lia].
Defined.

(** ** Double arithmetic

    [Js.fl] rounds to the double of the binade of its argument: the
    relative error is at most [2^-53], integers below [2^53] are not
    moved, and equal rationals have the same rounding. *)

Lemma pow2_Qpower (e : Z) : (Js.pow2 e == 2 ^ e)%Q.
Proof.
  unfold Js.pow2. destruct (Z.leb_spec 0 e) as [He|He].
  - change 2%Q with (inject_Z 2). by rewrite Zpower_Qpower.
  - destruct e as [|p|p]; try lia.
    change (- Z.neg p) with (Z.pos p).
    change (2 ^ Z.neg p)%Q with (/ (inject_Z 2 ^ Z.pos p))%Q.
    rewrite <- Zpower_Qpower by lia.
    pose proof (Z.pow_pos_nonneg 2 (Z.pos p) ltac:(lia) ltac:(lia)) as Hpos.
    destruct (2 ^ Z.pos p) as [|r|r]; try lia. reflexivity.
Qed.

Lemma pow2_add (a b : Z) : (Js.pow2 (a + b) == Js.pow2 a * Js.pow2 b)%Q.
Proof. rewrite !pow2_Qpower. apply Qpower_plus. discriminate. Qed.

Lemma pow2_pos (e : Z) : (0 < Js.pow2 e)%Q.
Proof. rewrite pow2_Qpower. apply Qpower_0_lt. reflexivity. Qed.

Lemma pow2_nonneg_Z (e : Z) : 0 <= e -> Js.pow2 e = inject_Z (2 ^ e).
Proof. intros He. unfold Js.pow2. by rewrite (proj2 (Z.leb_le 0 e) He). Qed.

Lemma pow2_ge_1 (e : Z) : 0 <= e -> (1 <= Js.pow2 e)%Q.
Proof.
  intros He. rewrite pow2_nonneg_Z by done. change 1%Q with (inject_Z 1).
  rewrite <- Zle_Qle. pose proof (Z.pow_pos_nonneg 2 e ltac:(lia) He). lia.
Qed.

Lemma pow2_le (a b : Z) : a <= b -> (Js.pow2 a <= Js.pow2 b)%Q.
Proof.
  intros Hab. replace b with (a + (b - a)) by lia. rewrite pow2_add.
  pose proof (pow2_pos a). pose proof (pow2_ge_1 (b - a) ltac:(lia)). nra.
Qed.

Lemma pow2_lt (a b : Z) : a < b -> (Js.pow2 a < Js.pow2 b)%Q.
Proof.
  intros Hab. replace b with (a + 1 + (b - a - 1)) by lia. rewrite !pow2_add.
  pose proof (pow2_pos a). pose proof (pow2_ge_1 (b - a - 1) ltac:(lia)).
  change (Js.pow2 1) with 2%Q. nra.
Qed.

Lemma pow2_inv (e : Z) : (Js.pow2 e * Js.pow2 (- e) == 1)%Q.
Proof. rewrite <- pow2_add. by replace (e + - e) with 0 by lia. Qed.

Lemma Qle_bool_le (a b : Q) : Qle_bool a b = true <-> (a <= b)%Q.
Proof. apply Qle_bool_iff. Qed.

Lemma Qle_bool_lt (a b : Q) : Qle_bool a b = false <-> (b < a)%Q.
Proof.
  split.
  - intros H. apply Qnot_le_lt. intros Hle. apply Qle_bool_iff in Hle. congruence.
  - intros H. destruct (Qle_bool a b) eqn:E; [|done].
    apply Qle_bool_iff in E. lra.
Qed.

Lemma Qltb_true (a b : Q) : Js.Qltb a b = true <-> (a < b)%Q.
Proof.
  unfold Js.Qltb. rewrite negb_true_iff. apply Qle_bool_lt.
Qed.

Lemma Qltb_false (a b : Q) : Js.Qltb a b = false <-> (b <= a)%Q.
Proof.
  unfold Js.Qltb. rewrite negb_false_iff. apply Qle_bool_le.
Qed.

(** The exponent of the last place. *)
Lemma binade_spec (q : Q) :
  (0 < q)%Q ->
  (Js.pow2 (Js.binade q + 52) <= q < Js.pow2 (Js.binade q + 53))%Q.
Proof.
  intros Hq. destruct q as [n d]. unfold Js.binade. cbn [Qnum Qden].
  assert (0 < n) as Hn by (unfold Qlt in Hq; cbn in Hq; lia).
  pose proof (Z.log2_spec n Hn) as [Hn1 Hn2].
  pose proof (Z.log2_spec (Z.pos d) ltac:(lia)) as [Hd1 Hd2].
  pose proof (Z.log2_nonneg n) as Ha. pose proof (Z.log2_nonneg (Z.pos d)) as Hb.
  set (a := Z.log2 n) in *. set (b := Z.log2 (Z.pos d)) in *.
  assert (inject_Z (2 ^ a) <= inject_Z n)%Q as Qn1 by (by rewrite <- Zle_Qle).
  assert (inject_Z n < inject_Z (2 ^ Z.succ a))%Q as Qn2 by (by rewrite <- Zlt_Qlt).
  assert (inject_Z (2 ^ b) <= inject_Z (Z.pos d))%Q as Qd1 by (by rewrite <- Zle_Qle).
  assert (inject_Z (Z.pos d) < inject_Z (2 ^ Z.succ b))%Q as Qd2 by (by rewrite <- Zlt_Qlt).
  rewrite <- !pow2_nonneg_Z in Qn1, Qn2, Qd1, Qd2 by lia.
  assert (n # d == inject_Z n / inject_Z (Z.pos d))%Q as Hq' by apply Qmake_Qdiv.
  set (N := inject_Z n) in *. set (D := inject_Z (Z.pos d)) in *.
  assert (0 < D)%Q as HD by (pose proof (pow2_pos b); lra).
  set (x := (n # d)%Q) in *.
  assert (x * D == N)%Q as Hx by (rewrite Hq'; field; lra).
  clearbody x N D.
  assert (Js.pow2 (a - b - 1) < x)%Q as Hlo.
  { pose proof (pow2_add (a - b - 1) (Z.succ b)) as E.
    replace (a - b - 1 + Z.succ b) with a in E by lia.
    pose proof (pow2_pos (a - b - 1)). nra. }
  assert (x < Js.pow2 (a - b + 1))%Q as Hhi.
  { pose proof (pow2_add (a - b + 1) b) as E.
    replace (a - b + 1 + b) with (Z.succ a) in E by lia.
    pose proof (pow2_pos (a - b + 1)). nra. }
  destruct (Qle_bool (Js.pow2 (a - b - 52 + 52)) x) eqn:E.
  - apply Qle_bool_le in E. split; [exact E|].
    by replace (a - b - 52 + 53) with (a - b + 1) by lia.
  - apply Qle_bool_lt in E. split.
    + replace (a - b - 52 - 1 + 52) with (a - b - 1) by lia. lra.
    + by replace (a - b - 52 - 1 + 53) with (a - b - 52 + 52) by lia.
Qed.

Lemma binade_unique (q : Q) (e : Z) :
  (Js.pow2 (e + 52) <= q < Js.pow2 (e + 53))%Q -> Js.binade q = e.
Proof.
  intros [H1 H2].
  assert (0 < q)%Q as Hq by (pose proof (pow2_pos (e + 52)); lra).
  pose proof (binade_spec q Hq) as [H3 H4].
  destruct (Z.lt_trichotomy (Js.binade q) e) as [Hlt|[Heq|Hgt]]; [|done|].
  - pose proof (pow2_le (Js.binade q + 53) (e + 52) ltac:(lia)). lra.
  - pose proof (pow2_le (e + 53) (Js.binade q + 52) ltac:(lia)). lra.
Qed.

Lemma binade_comp (p q : Q) : (0 < p)%Q -> (p == q)%Q -> Js.binade p = Js.binade q.
Proof.
  intros Hp Hpq. apply binade_unique. rewrite Hpq.
  apply binade_spec. by rewrite <- Hpq.
Qed.

Lemma roundEven_comp (p q : Q) : (p == q)%Q -> Js.roundEven p = Js.roundEven q.
Proof.
  intros Hpq. unfold Js.roundEven.
  rewrite (Qfloor_comp _ _ Hpq).
  set (f := Qfloor q).
  assert (forall a b c d : Q, (a == b)%Q -> (c == d)%Q -> Js.Qltb a c = Js.Qltb b d) as Hlt.
  { intros a b c d Hab Hcd. unfold Js.Qltb. f_equal.
    destruct (Qle_bool c a) eqn:E1, (Qle_bool d b) eqn:E2; try done.
    - apply Qle_bool_le in E1. apply Qle_bool_lt in E2. lra.
    - apply Qle_bool_lt in E1. apply Qle_bool_le in E2. lra. }
  rewrite (Hlt (p - inject_Z f)%Q (q - inject_Z f)%Q (1 # 2) (1 # 2)) by (rewrite ?Hpq; reflexivity).
  rewrite (Hlt (1 # 2) (1 # 2) (p - inject_Z f)%Q (q - inject_Z f)%Q) by (rewrite ?Hpq; reflexivity).
  reflexivity.
Qed.

Lemma roundEven_near (q : Q) :
  (q - (1 # 2) <= inject_Z (Js.roundEven q) <= q + (1 # 2))%Q.
Proof.
  unfold Js.roundEven.
  pose proof (Qfloor_le q) as H1. pose proof (Qlt_floor q) as H2.
  rewrite inject_Z_plus in H2. change (inject_Z 1) with 1%Q in H2.
  set (f := Qfloor q) in *. clearbody f.
  destruct (Js.Qltb (q - inject_Z f) (1 # 2)) eqn:E1.
  { apply Qltb_true in E1. lra. }
  apply Qltb_false in E1.
  destruct (Js.Qltb (1 # 2) (q - inject_Z f)) eqn:E2.
  { rewrite inject_Z_plus. change (inject_Z 1) with 1%Q. lra. }
  apply Qltb_false in E2.
  destruct (Z.even f); [lra|].
  rewrite inject_Z_plus. change (inject_Z 1) with 1%Q. lra.
Qed.

Lemma roundEven_Z (n : Z) : Js.roundEven (inject_Z n) = n.
Proof.
  unfold Js.roundEven. rewrite Qfloor_Z.
  replace (Js.Qltb (inject_Z n - inject_Z n) (1 # 2)) with true; [done|].
  symmetry. apply Qltb_true. lra.
Qed.

Lemma fl_pos (q : Q) : (0 < q)%Q -> (Js.fl q == Js.flPos q)%Q.
Proof.
  intros Hq. unfold Js.fl, Js.flPos.
  replace (Qeq_bool q 0) with false
    by (symmetry; apply not_true_iff_false; intros E; apply Qeq_bool_iff in E; lra).
  replace (Qle_bool 0 q) with true by (symmetry; apply Qle_bool_le; lra).
  cbv zeta.
  assert (Qabs q == q)%Q as Ha by (apply Qabs_pos; lra).
  rewrite (binade_comp (Qabs q) q) by (rewrite ?Ha; done).
  rewrite (roundEven_comp (Qabs q / Js.pow2 (Js.binade q)) (q / Js.pow2 (Js.binade q)));
    [reflexivity|by rewrite Ha].
Qed.

Lemma fl_neg (q : Q) : (q < 0)%Q -> (Js.fl q == - Js.flPos (- q))%Q.
Proof.
  intros Hq. unfold Js.fl, Js.flPos.
  replace (Qeq_bool q 0) with false
    by (symmetry; apply not_true_iff_false; intros E; apply Qeq_bool_iff in E; lra).
  replace (Qle_bool 0 q) with false by (symmetry; apply Qle_bool_lt; lra).
  cbv zeta.
  assert (Qabs q == - q)%Q as Ha by (apply Qabs_neg; lra).
  rewrite (binade_comp (Qabs q) (- q)) by (rewrite ?Ha; lra).
  rewrite (roundEven_comp (Qabs q / Js.pow2 (Js.binade (- q))) (- q / Js.pow2 (Js.binade (- q))));
    [reflexivity|by rewrite Ha].
Qed.

Lemma fl_zero (q : Q) : (q == 0)%Q -> (Js.fl q == 0)%Q.
Proof.
  intros Hq. unfold Js.fl.
  by replace (Qeq_bool q 0) with true by (symmetry; by apply Qeq_bool_iff).
Qed.

Lemma flPos_comp (p q : Q) : (0 < p)%Q -> (p == q)%Q -> (Js.flPos p == Js.flPos q)%Q.
Proof.
  intros Hp Hpq. unfold Js.flPos. rewrite (binade_comp p q Hp Hpq).
  rewrite (roundEven_comp (p / Js.pow2 (Js.binade q)) (q / Js.pow2 (Js.binade q)));
    [reflexivity|by rewrite Hpq].
Qed.

Lemma fl_comp (p q : Q) : (p == q)%Q -> (Js.fl p == Js.fl q)%Q.
Proof.
  intros Hpq. destruct (Q_dec p 0) as [[Hneg|Hpos]|Hzero].
  - rewrite (fl_neg p), (fl_neg q) by lra.
    rewrite (flPos_comp (- p) (- q)); [reflexivity|lra|by rewrite Hpq].
  - rewrite (fl_pos p), (fl_pos q) by lra. by apply flPos_comp.
  - rewrite (fl_zero p), (fl_zero q); [reflexivity|by rewrite <- Hpq|done].
Qed.

(** The relative error of a rounding is at most [2^-53]. *)
Lemma flPos_error (a : Q) :
  (0 < a)%Q ->
  (a - a * Js.pow2 (-53) <= Js.flPos a <= a + a * Js.pow2 (-53))%Q.
Proof.
  intros Ha. unfold Js.flPos.
  pose proof (binade_spec a Ha) as [H1 H2].
  set (e := Js.binade a) in *. clearbody e.
  pose proof (roundEven_near (a / Js.pow2 e)) as [R1 R2].
  set (r := inject_Z (Js.roundEven (a / Js.pow2 e))) in *. clearbody r.
  pose proof (pow2_pos e) as He.
  set (x := (a / Js.pow2 e)%Q) in *.
  assert (x * Js.pow2 e == a)%Q as Hx by (subst x; field; lra).
  clearbody x.
  pose proof (pow2_add e 52) as E52. change (Js.pow2 52) with 4503599627370496%Q in E52.
  change (Js.pow2 (-53)) with (1 # 9007199254740992)%Q.
  set (u := Js.pow2 e) in *. clearbody u.
  rewrite E52 in H1. split; nra.
Qed.

Lemma fl_error (q : Q) :
  (Qabs (Js.fl q - q) <= Qabs q * Js.pow2 (-53))%Q.
Proof.
  change (Js.pow2 (-53)) with (1 # 9007199254740992)%Q.
  destruct (Q_dec q 0) as [[Hneg|Hpos]|Hzero].
  - rewrite (fl_neg q Hneg). pose proof (flPos_error (- q) ltac:(lra)) as [H1 H2].
    change (Js.pow2 (-53)) with (1 # 9007199254740992)%Q in *.
    rewrite (Qabs_neg q) by lra. apply Qabs_Qle_condition. split; lra.
  - rewrite (fl_pos q Hpos). pose proof (flPos_error q Hpos) as [H1 H2].
    change (Js.pow2 (-53)) with (1 # 9007199254740992)%Q in *.
    rewrite (Qabs_pos q) by lra. apply Qabs_Qle_condition. split; lra.
  - rewrite (fl_zero q Hzero), Hzero. vm_compute. discriminate.
Qed.

(** Integers below [2^53] are doubles. *)
Lemma flPos_Z (n : Z) : 0 < n < 2 ^ 53 -> (Js.flPos (inject_Z n) == inject_Z n)%Q.
Proof.
  intros Hn. unfold Js.flPos.
  assert (0 < inject_Z n)%Q as Hq by (change 0%Q with (inject_Z 0); rewrite <- Zlt_Qlt; lia).
  pose proof (binade_spec (inject_Z n) Hq) as [H1 H2].
  set (e := Js.binade (inject_Z n)) in *. clearbody e.
  assert (e <= 0) as He.
  { destruct (Z.le_gt_cases e 0) as [|Hgt]; [done|exfalso].
    pose proof (pow2_le 53 (e + 52) ltac:(lia)) as H3.
    assert (inject_Z n < Js.pow2 53)%Q.
    { rewrite pow2_nonneg_Z by lia. rewrite <- Zlt_Qlt. lia. }
    lra. }
  pose proof (pow2_inv e) as Hinv. pose proof (pow2_pos e) as Hpos.
  rewrite (pow2_nonneg_Z (- e)) in Hinv by lia.
  rewrite (roundEven_comp _ (inject_Z (n * 2 ^ (- e)))).
  - rewrite roundEven_Z, inject_Z_mult.
    set (u := Js.pow2 e) in *. set (v := inject_Z (2 ^ (- e))) in *. clearbody u v.
    rewrite <- Qmult_assoc, (Qmult_comm v u), Hinv. ring.
  - rewrite inject_Z_mult.
    set (u := Js.pow2 e) in *. set (v := inject_Z (2 ^ (- e))) in *. clearbody u v.
    assert (v == / u)%Q as ->; [|reflexivity].
    field_simplify_eq; [lra|lra].
Qed.

Lemma fl_Z (n : Z) : - 2 ^ 53 < n < 2 ^ 53 -> (Js.fl (inject_Z n) == inject_Z n)%Q.
Proof.
  intros Hn. destruct (Z.lt_trichotomy n 0) as [Hneg|[->|Hpos]].
  - rewrite fl_neg by (change 0%Q with (inject_Z 0); rewrite <- Zlt_Qlt; lia).
    rewrite <- inject_Z_opp, flPos_Z by lia. rewrite inject_Z_opp. ring.
  - reflexivity.
  - rewrite fl_pos by (change 0%Q with (inject_Z 0); rewrite <- Zlt_Qlt; lia).
    apply flPos_Z. lia.
Qed.

Lemma flPos_nonneg (a : Q) : (0 < a)%Q -> (0 <= Js.flPos a)%Q.
Proof.
  intros Ha. pose proof (flPos_error a Ha) as [H _].
  change (Js.pow2 (-53)) with (1 # 9007199254740992)%Q in H. lra.
Qed.

Lemma fl_nonneg (q : Q) : (0 <= q)%Q -> (0 <= Js.fl q)%Q.
Proof.
  intros Hq. destruct (Q_dec q 0) as [[Hneg|Hpos]|Hzero]; [lra| |].
  - rewrite fl_pos by done. by apply flPos_nonneg.
  - rewrite fl_zero by done. lra.
Qed.

Lemma fl_nonpos (q : Q) : (q <= 0)%Q -> (Js.fl q <= 0)%Q.
Proof.
  intros Hq. destruct (Q_dec q 0) as [[Hneg|Hpos]|Hzero]; [|lra|].
  - rewrite fl_neg by done. pose proof (flPos_nonneg (- q) ltac:(lra)). lra.
  - rewrite fl_zero by done. lra.
Qed.

(** A rounding moves a number of magnitude at most [m] by at most
    [m * 2^-53]. *)
Lemma fl_near (q m : Q) :
  (- m <= q <= m)%Q ->
  (q - m * (1 # 9007199254740992) <= Js.fl q <= q + m * (1 # 9007199254740992))%Q.
Proof.
  intros Hq. pose proof (fl_error q) as H.
  change (Js.pow2 (-53)) with (1 # 9007199254740992)%Q in H.
  assert (Qabs q <= m)%Q as Hm by (apply Qabs_Qle_condition; lra).
  assert (Qabs (Js.fl q - q) <= m * (1 # 9007199254740992))%Q as H' by lra.
  apply Qabs_Qle_condition in H'. lra.
Qed.

Lemma Qfloor_between (q : Q) (k : Z) :
  (inject_Z k <= q < inject_Z (k + 1))%Q -> Qfloor q = k.
Proof.
  intros [H1 H2].
  pose proof (Qfloor_resp_le _ _ H1) as H3. rewrite Qfloor_Z in H3.
  pose proof (Qfloor_le q) as H4.
  assert (inject_Z (Qfloor q) < inject_Z (k + 1))%Q as H5 by lra.
  rewrite <- Zlt_Qlt in H5. lia.
Qed.

Lemma Qfloor_div_Z (a b : Z) :
  0 < b -> Qfloor (inject_Z a / inject_Z b) = a / b.
Proof.
  intros Hb. destruct b as [|p|p]; try lia.
  unfold Qdiv, Qinv, Qmult, inject_Z, Qfloor. cbn [Qnum Qden].
  by rewrite Z.mul_1_r, Pos.mul_1_l.
Qed.

(** Below [2^32] rows the roundings of [shiftFor] do not show: the shift
    is the integer quotient of the rows that the segments must cross by
    the number of steps. *)
Lemma shiftFor_div (segmentHeight height numSegments : Z) :
  3 <= numSegments <= 10 ->
  0 <= segmentHeight <= 2 ^ 32 -> 0 <= height <= 2 ^ 32 ->
  Image.shiftFor segmentHeight height numSegments
  = (height - segmentHeight) / (numSegments - 1).
Proof.
  intros Hn Hsh Hh. unfold Image.shiftFor, Js.Math_floor, Js.fsub, Js.fdiv, Js.fmul.
  set (d := numSegments - 1).
  set (B := height - segmentHeight).
  set (A := segmentHeight * numSegments - height).
  change (2 ^ 32) with 4294967296 in *.
  rewrite (Qfloor_comp _ (Js.fl (inject_Z segmentHeight - Js.fl (inject_Z A / inject_Z d)))).
  2:{ (* the product and the difference of the rows are exact *)
      apply fl_comp, Qplus_comp; [reflexivity|].
      apply Qopp_comp, fl_comp, Qmult_comp; [|reflexivity].
      transitivity (Js.fl (inject_Z (segmentHeight * numSegments) - inject_Z height)).
      - apply fl_comp, Qplus_comp; [|reflexivity].
        rewrite <- inject_Z_mult. apply fl_Z.
        change (2 ^ 53) with 9007199254740992. nia.
      - unfold Qminus. rewrite <- inject_Z_opp, <- inject_Z_plus. apply fl_Z.
        change (2 ^ 53) with 9007199254740992. nia. }
  assert (A = segmentHeight * d - B) as HAB by (subst A B d; lia).
  pose proof (Z.div_mod B d ltac:(subst d; lia)) as Hdm.
  pose proof (Z.mod_pos_bound B d ltac:(subst d; lia)) as Hm.
  set (k := B / d) in *. set (m := B mod d) in *.
  assert (2 <= d <= 9) as Hd by (subst d; lia).
  assert (- 4294967296 <= B <= 4294967296) as HB by (subst B; lia).
  assert (- 4294967296 <= k <= 4294967296) as Hk by (subst k; nia).
  assert (0 < inject_Z d)%Q as HdQ
      by (change 0%Q with (inject_Z 0); rewrite <- Zlt_Qlt; lia).
  clearbody A B d k m.
  destruct (Z.eq_dec m 0) as [Hm0|Hm0].
  - (* the quotient is an integer: every operation is exact *)
    assert (inject_Z A / inject_Z d == inject_Z (segmentHeight - k))%Q as Hq.
    { assert (A = (segmentHeight - k) * d) as -> by lia.
      rewrite inject_Z_mult. field. lra. }
    rewrite (Qfloor_comp _ (inject_Z k)); [apply Qfloor_Z|].
    transitivity (Js.fl (inject_Z k));
      [apply fl_comp|apply fl_Z; change (2 ^ 53) with 9007199254740992; lia].
    rewrite (fl_comp _ _ Hq).
    rewrite fl_Z by (change (2 ^ 53) with 9007199254740992; lia).
    unfold Z.sub. rewrite inject_Z_plus, inject_Z_opp. ring.
  - (* the quotient is at least 1/d away from the integers *)
    apply Qfloor_between.
    set (x := (inject_Z A / inject_Z d)%Q).
    assert (x * inject_Z d == inject_Z A)%Q as Hx by (subst x; field; lra).
    assert (inject_Z A == inject_Z segmentHeight * inject_Z d
                          - (inject_Z d * inject_Z k + inject_Z m))%Q as HAq.
    { rewrite HAB, Hdm. unfold Z.sub.
      rewrite !inject_Z_plus, !inject_Z_opp, !inject_Z_mult, !inject_Z_plus, !inject_Z_mult.
      ring. }
    assert (1 <= inject_Z m)%Q as Hm1
        by (change 1%Q with (inject_Z 1); rewrite <- Zle_Qle; lia).
    assert (inject_Z m <= inject_Z d - 1)%Q as Hm2.
    { assert (inject_Z (m + 1) <= inject_Z d)%Q as H by (rewrite <- Zle_Qle; lia).
      rewrite inject_Z_plus in H. change (inject_Z 1) with 1%Q in H. lra. }
    assert (2 <= inject_Z d <= 9)%Q as HdQ2.
    { change 2%Q with (inject_Z 2). change 9%Q with (inject_Z 9).
      rewrite <- !Zle_Qle. lia. }
    assert (0 <= inject_Z segmentHeight <= 4294967296)%Q as HsQ.
    { change 0%Q with (inject_Z 0). change 4294967296%Q with (inject_Z 4294967296).
      rewrite <- !Zle_Qle. lia. }
    assert (- 4294967296 <= inject_Z k <= 4294967296)%Q as HkQ.
    { change (- 4294967296)%Q with (inject_Z (- 4294967296)).
      change 4294967296%Q with (inject_Z 4294967296).
      rewrite <- !Zle_Qle. lia. }
    rewrite inject_Z_plus. change (inject_Z 1) with 1%Q.
    set (S := inject_Z segmentHeight) in *. set (D := inject_Z d) in *.
    set (K := inject_Z k) in *. set (M := inject_Z m) in *.
    rewrite HAq in Hx. clearbody S D K M x.
    (* x = S - K - M / D *)
    assert (S - x == K + M / D)%Q as Hsx.
    { assert (x == (S * D - (D * K + M)) / D)%Q as -> by (rewrite <- Hx; field; lra).
      field. lra. }
    assert (0 < / D)%Q as HiD by (apply Qinv_lt_0_compat; lra).
    assert (D * / D == 1)%Q as HDi by (field; lra).
    assert (1 # 9 <= / D)%Q as HiD9 by nra.
    assert (/ D <= M / D <= 1 - / D)%Q as HMD.
    { unfold Qdiv. split; nra. }
    set (t := (M / D)%Q) in *. clearbody t.
    assert (- 17179869184 <= x <= 17179869184)%Q as Hxb by lra.
    pose proof (fl_near x 17179869184 Hxb) as Hy.
    set (y := Js.fl x) in *. clearbody y.
    assert (- 34359738368 <= S - y <= 34359738368)%Q as Hzb by lra.
    pose proof (fl_near (S - y) 34359738368 Hzb) as Hz.
    set (z := Js.fl (S - y)) in *. clearbody z.
    split; lra.
Qed.

(** [0.95] as a double is just below 95/100. *)
Lemma minShare_value :
  (Image.minShare == 8556839292003942 # 9007199254740992)%Q.
Proof. vm_compute. reflexivity. Qed.

(** Below [2^32] rows the test [shift / segmentHeight > 0.95] is the
    exact one. *)
Lemma div_gt_pos (shift segmentHeight : Z) :
  1 <= segmentHeight <= 2 ^ 32 ->
  Js.div_gt (inject_Z shift) (inject_Z segmentHeight) Image.minShare
  = (95 * segmentHeight <? 100 * shift).
Proof.
  intros Hs. change (2 ^ 32) with 4294967296 in Hs.
  unfold Js.div_gt, Js.fdiv.
  replace (Qeq_bool (inject_Z segmentHeight) 0) with false.
  2:{ symmetry. apply not_true_iff_false. intros E. apply Qeq_bool_iff in E.
      change 0%Q with (inject_Z 0) in E. rewrite inject_Z_injective in E. lia. }
  assert (1 <= inject_Z segmentHeight <= 4294967296)%Q as HsQ.
  { change 1%Q with (inject_Z 1). change 4294967296%Q with (inject_Z 4294967296).
    rewrite <- !Zle_Qle. lia. }
  set (x := (inject_Z shift / inject_Z segmentHeight)%Q).
  assert (x * inject_Z segmentHeight == inject_Z shift)%Q as Hx by (subst x; field; lra).
  pose proof minShare_value as Hc.
  destruct (Z.ltb_spec (95 * segmentHeight) (100 * shift)) as [Hgt|Hle].
  - apply Qltb_true.
    assert (95 * inject_Z segmentHeight + 1 <= 100 * inject_Z shift)%Q as Hq.
    { change 95%Q with (inject_Z 95). change 100%Q with (inject_Z 100).
      change 1%Q with (inject_Z 1).
      rewrite <- !inject_Z_mult, <- inject_Z_plus, <- Zle_Qle. lia. }
    rewrite <- Hx in Hq.
    set (S := inject_Z segmentHeight) in *. clearbody S x.
    assert (0 < x)%Q as Hx0 by nra.
    rewrite (fl_pos x Hx0).
    pose proof (flPos_error x Hx0) as [H1 _].
    change (Js.pow2 (-53)) with (1 # 9007199254740992)%Q in H1.
    assert ((95 # 100) + (1 # 429496729600) <= x)%Q as Hgap by nra.
    lra.
  - apply Qltb_false.
    destruct (Z.eq_dec (95 * segmentHeight) (100 * shift)) as [Heq|Hne].
    + rewrite (fl_comp x (95 # 100)); [fold Image.minShare; lra|].
      assert (95 * inject_Z segmentHeight == 100 * inject_Z shift)%Q as Hq.
      { change 95%Q with (inject_Z 95). change 100%Q with (inject_Z 100).
        rewrite <- !inject_Z_mult. by rewrite Heq. }
      subst x. field_simplify_eq; [lra|lra].
    + assert (100 * inject_Z shift + 1 <= 95 * inject_Z segmentHeight)%Q as Hq.
      { change 95%Q with (inject_Z 95). change 100%Q with (inject_Z 100).
        change 1%Q with (inject_Z 1).
        rewrite <- !inject_Z_mult, <- inject_Z_plus, <- Zle_Qle. lia. }
      rewrite <- Hx in Hq.
      set (S := inject_Z segmentHeight) in *. clearbody S x.
      destruct (Qlt_le_dec 0 x) as [Hx0|Hx0].
      * rewrite (fl_pos x Hx0).
        pose proof (flPos_error x Hx0) as [_ H1].
        change (Js.pow2 (-53)) with (1 # 9007199254740992)%Q in H1.
        assert (x <= (95 # 100) - (1 # 429496729600))%Q as Hgap by nra.
        lra.
      * pose proof (fl_nonpos x Hx0). lra.
Qed.

(** ** Overlap segments *)

Lemma growSegments_result fuel : forall segmentHeight height numSegments shift,
  3 <= numSegments <= 10 ->
  shift = Image.shiftFor segmentHeight height numSegments ->
  10 <= numSegments + Z.of_nat fuel ->
  let r := Image.growSegments fuel segmentHeight height numSegments shift in
  3 <= fst r <= 10
  /\ snd r = Image.shiftFor segmentHeight height (fst r)
  /\ Js.div_gt (inject_Z (snd r)) (inject_Z segmentHeight) Image.minShare
     && (fst r <? 10) = false.
Proof.
  induction fuel as [|fuel IH]; intros sh h n s Hn Hs Hfuel; cbn [Image.growSegments].
  - cbn [fst snd]. split; [lia|]. split; [done|].
    replace (n <? 10) with false by (symmetry; apply Z.ltb_ge; lia).
    apply andb_false_r.
  - destruct (Js.div_gt (inject_Z s) (inject_Z sh) Image.minShare && (n <? 10)) eqn:Hc.
    + apply andb_prop in Hc as [_ Hlt]. apply Z.ltb_lt in Hlt.
      apply IH; [lia|reflexivity|lia].
    + cbn [fst snd]. split; [lia|]. split; [done|exact Hc].
Qed.

Lemma growSegments_tall fuel : forall segmentHeight height numSegments,
  1 <= segmentHeight -> 10 * segmentHeight + 9 <= height -> height <= 2 ^ 32 ->
  3 <= numSegments <= 10 -> 10 <= numSegments + Z.of_nat fuel ->
  fst (Image.growSegments fuel segmentHeight height numSegments
         (Image.shiftFor segmentHeight height numSegments)) = 10.
Proof.
  induction fuel as [|fuel IH]; intros sh h n Hsh Hh Hmax Hn Hfuel;
    cbn [Image.growSegments].
  - cbn [fst]. lia.
  - rewrite div_gt_pos, shiftFor_div by lia.
    assert (sh + 1 <= (h - sh) / (n - 1)) as Hshift.
    { apply Z.div_le_lower_bound; nia. }
    replace (95 * sh <? 100 * ((h - sh) / (n - 1))) with true
      by (symmetry; apply Z.ltb_lt; lia).
    cbn [andb].
    destruct (Z.ltb_spec n 10) as [Hlt|Hge].
    + apply IH; lia.
    + cbn [fst]. lia.
Qed.

(** The segment count and shift that [calculateOverlapSegments] settles
    on, and the list it builds from them. *)
Lemma calculateOverlapSegments_shape (width height targetWidth targetHeight : Z) :
  let segmentHeight := Image.segmentHeight width targetWidth targetHeight in
  0 <= segmentHeight <= 2 ^ 32 -> 0 <= height <= 2 ^ 32 ->
  exists numSegments shift,
    3 <= numSegments <= 10
    /\ shift = (height - segmentHeight) / (numSegments - 1)
    /\ Js.div_gt (inject_Z shift) (inject_Z segmentHeight) Image.minShare
       && (numSegments <? 10) = false
    /\ (1 <= segmentHeight -> 10 * segmentHeight + 9 <= height -> numSegments = 10)
    /\ Image.calculateOverlapSegments width height targetWidth targetHeight
       = map (fun i : nat =>
                {| Image.seg_x := 0;
                   Image.seg_y := shift * Z.of_nat i;
                   Image.seg_w := width;
                   Image.seg_h :=
                     if Z.of_nat i =? numSegments - 1
                     then height - shift * Z.of_nat i else segmentHeight |})
             (seq 0 (Z.to_nat numSegments)).
Proof.
  intros segmentHeight Hsh Hh. unfold Image.calculateOverlapSegments.
  fold segmentHeight.
  pose proof (growSegments_result (Z.to_nat (10 - 3)) segmentHeight height 3
                (Image.shiftFor segmentHeight height 3) ltac:(lia) eq_refl ltac:(lia))
    as (Hn & Hs & Hexit).
  pose proof (growSegments_tall (Z.to_nat (10 - 3)) segmentHeight height 3) as Htall.
  destruct (Image.growSegments (Z.to_nat (10 - 3)) segmentHeight height 3
              (Image.shiftFor segmentHeight height 3)) as [n s].
  cbn [fst snd] in *.
  exists n, s. split; [exact Hn|]. split; [rewrite Hs; apply shiftFor_div; lia|].
  split; [exact Hexit|]. split; [|reflexivity].
  intros H1 H2. apply Htall; lia.
Qed.

Lemma elem_of_map_seq {A} (f : nat -> A) (n : nat) (a : A) :
  a ∈ map f (seq 0 n) -> exists i, (i < n)%nat /\ a = f i.
Proof.
  intros H. apply list_elem_of_fmap in H as (i & -> & Hi).
  apply elem_of_seq in Hi. exists i. split; [lia|done].
Qed.

(** X12: for an image of at most [2^32] rows, when a segment is at
    most as tall as the image, every segment that
    [calculateOverlapSegments] returns lies inside the image, spans its
    full width and is at least one segment height tall; the first starts
    at the top row and the last ends at the bottom row.  The segment
    height is the one that the double arithmetic of the source gives
    (236 rows, not 237, for a page 395 pixels wide on the X4). *)
Theorem overlap_segments_inside (width height targetWidth targetHeight : Z) :
  let segmentHeight := Image.segmentHeight width targetWidth targetHeight in
  let segs := Image.calculateOverlapSegments width height targetWidth targetHeight in
  1 <= segmentHeight <= height -> height <= 2 ^ 32 ->
  (forall seg, seg ∈ segs ->
     Image.seg_x seg = 0 /\ Image.seg_w seg = width
     /\ 0 <= Image.seg_y seg /\ segmentHeight <= Image.seg_h seg
     /\ Image.seg_y seg + Image.seg_h seg <= height)
  /\ (exists seg, segs !! 0%nat = Some seg /\ Image.seg_y seg = 0)
  /\ (exists seg, last segs = Some seg
                  /\ Image.seg_y seg + Image.seg_h seg = height).
Proof.
  intros segmentHeight segs Hsh Hmax. subst segs.
  destruct (calculateOverlapSegments_shape width height targetWidth targetHeight)
    as (n & s & Hn & Hs & _ & _ & ->); [fold segmentHeight; lia|lia|].
  fold segmentHeight in Hs |- *.
  set (d := n - 1) in *.
  assert (0 <= s /\ s * d <= height - segmentHeight) as [Hs0 Hsd].
  { rewrite Hs. split; [apply Z.div_pos; lia|].
    rewrite Z.mul_comm. apply Z.mul_div_le. lia. }
  split; [|split].
  - intros seg Hseg. apply elem_of_map_seq in Hseg as (i & Hi & ->).
    cbn [Image.seg_x Image.seg_y Image.seg_w Image.seg_h].
    destruct (Z.eqb_spec (Z.of_nat i) d) as [Hlast|Hnot]; nia.
  - eexists. split.
    + rewrite list_lookup_fmap, lookup_seq_lt by lia. reflexivity.
    + cbn [Image.seg_y]. lia.
  - eexists. split.
    + rewrite last_lookup, length_map, length_seq, list_lookup_fmap.
      rewrite lookup_seq_lt by lia. reflexivity.
    + cbn [Image.seg_y Image.seg_h].
      replace (Z.of_nat (0 + Nat.pred (Z.to_nat n)) =? d) with true
        by (symmetry; apply Z.eqb_eq; lia).
      lia.
Qed.

Lemma overlap_segments_inside_witness :
  let segs := Image.calculateOverlapSegments 395 2370 480 800 in
  (forall seg, seg ∈ segs ->
     Image.seg_x seg = 0 /\ Image.seg_w seg = 395
     /\ 0 <= Image.seg_y seg /\ 236 <= Image.seg_h seg
     /\ Image.seg_y seg + Image.seg_h seg <= 2370)
  /\ (exists seg, segs !! 0%nat = Some seg /\ Image.seg_y seg = 0)
  /\ (exists seg, last segs = Some seg
                  /\ Image.seg_y seg + Image.seg_h seg = 2370).
Proof.
  apply (overlap_segments_inside 395 2370 480 800).
  - vm_compute. split; discriminate.
  - vm_compute. discriminate.
Defined.

(** X13: for an image of at most [2^32] rows, when a segment is at
    most as tall as the image, consecutive segments overlap or touch, so
    that no row of the image is left out, exactly when the image is less
    than ten segment heights plus nine rows tall; in a taller image rows
    between two consecutive segments are left out. *)
Theorem overlap_segments_cover (width height targetWidth targetHeight : Z) :
  let segmentHeight := Image.segmentHeight width targetWidth targetHeight in
  let segs := Image.calculateOverlapSegments width height targetWidth targetHeight in
  1 <= segmentHeight <= height -> height <= 2 ^ 32 ->
  ((forall i seg seg',
      segs !! i = Some seg -> segs !! S i = Some seg' ->
      Image.seg_y seg' <= Image.seg_y seg + Image.seg_h seg)
   <-> height < 10 * segmentHeight + 9).
Proof.
  intros segmentHeight segs Hsh Hmax. subst segs.
  destruct (calculateOverlapSegments_shape width height targetWidth targetHeight)
    as (n & s & Hn & Hs & Hexit & Htall & ->); [fold segmentHeight; lia|lia|].
  fold segmentHeight in Hs, Hexit, Htall |- *.
  rewrite div_gt_pos in Hexit by lia.
  split.
  - intros Hcover.
    match type of Hcover with
    | forall i seg seg', map ?f _ !! i = _ -> _ =>
        assert (map f (seq 0 (Z.to_nat n)) !! 0%nat = Some (f 0%nat)) as H0
          by (rewrite list_lookup_fmap, lookup_seq_lt by lia; reflexivity);
        assert (map f (seq 0 (Z.to_nat n)) !! 1%nat = Some (f 1%nat)) as H1
          by (rewrite list_lookup_fmap, lookup_seq_lt by lia; reflexivity)
    end.
    specialize (Hcover 0%nat _ _ H0 H1). cbn [Image.seg_y Image.seg_h] in Hcover.
    replace (Z.of_nat 0 =? n - 1) with false in Hcover
      by (symmetry; apply Z.eqb_neq; lia).
    destruct (Z.lt_ge_cases height (10 * segmentHeight + 9)) as [Hlt|Hge]; [done|].
    exfalso. rewrite (Htall ltac:(lia) Hge) in Hs.
    assert (segmentHeight + 1 <= s) by (rewrite Hs; apply Z.div_le_lower_bound; lia).
    lia.
  - intros Hheight i seg seg' Hi Hi'.
    rewrite list_lookup_fmap in Hi, Hi'.
    destruct (seq 0 (Z.to_nat n) !! i) as [j|] eqn:Hj; [|discriminate].
    destruct (seq 0 (Z.to_nat n) !! S i) as [j'|] eqn:Hj'; [|discriminate].
    apply lookup_seq in Hj as [-> Hlt], Hj' as [-> Hlt'].
    injection Hi as <-. injection Hi' as <-.
    cbn [Image.seg_y Image.seg_h Nat.add].
    replace (Z.of_nat i =? n - 1) with false
      by (symmetry; apply Z.eqb_neq; lia).
    assert (s <= segmentHeight) as Hle.
    { destruct (Z.ltb_spec n 10) as [Hn10|Hn10].
      - rewrite andb_true_r in Hexit. apply Z.ltb_ge in Hexit. lia.
      - assert (n = 10) as -> by lia.
        rewrite Hs. apply Z.lt_succ_r. apply Z.div_lt_upper_bound; lia. }
    nia.
Qed.

Lemma overlap_segments_cover_witness :
  (let segs := Image.calculateOverlapSegments 800 1600 480 800 in
   (forall i seg seg',
      segs !! i = Some seg -> segs !! S i = Some seg' ->
      Image.seg_y seg' <= Image.seg_y seg + Image.seg_h seg)
   <-> 1600 < 10 * 480 + 9)
  /\ (let segs := Image.calculateOverlapSegments 395 2370 480 800 in
      (forall i seg seg',
         segs !! i = Some seg -> segs !! S i = Some seg' ->
         Image.seg_y seg' <= Image.seg_y seg + Image.seg_h seg)
      <-> 2370 < 10 * 236 + 9).
Proof.
  split.
  - apply (overlap_segments_cover 800 1600 480 800).
    + vm_compute. split; discriminate.
    + vm_compute. discriminate.
  - apply (overlap_segments_cover 395 2370 480 800).
    + vm_compute. split; discriminate.
    + vm_compute. discriminate.
Defined.

(** ** Manhwa slices *)

Lemma manhwaSlices_tall fuel : forall newHeight devHeight sliceStep y,
  1 <= sliceStep <= devHeight -> devHeight < newHeight ->
  0 <= y < newHeight -> newHeight - y <= Z.of_nat fuel ->
  forall from, 0 <= from -> newHeight - devHeight <= from \/ y <= from ->
               from < newHeight -> from < y + devHeight ->
  let slices := manhwaSlices fuel newHeight devHeight sliceStep y in
  covers from newHeight slices
  /\ Forall (fun page => sliceHeight page = devHeight) slices.
Proof.
  induction fuel as [|fuel IH];
    intros newHeight devHeight sliceStep y Hstep Htall Hy Hfuel from Hf0 Hfrom Hf1 Hf2;
    cbn [manhwaSlices].
  - lia.
  - replace (y <? newHeight) with true by (symmetry; apply Z.ltb_lt; lia).
    replace (devHeight <? newHeight) with true by (symmetry; apply Z.ltb_lt; lia).
    rewrite andb_true_r.
    destruct (Z.ltb_spec (Z.min devHeight (newHeight - y)) devHeight) as [Hshort|Hfull].
    + replace (newHeight <=? newHeight - devHeight + devHeight) with true
        by (symmetry; apply Z.leb_le; lia).
      cbn [covers]. split; [|by repeat constructor].
      repeat split; lia.
    + rewrite Z.min_l by lia.
      destruct (Z.leb_spec newHeight (y + devHeight)) as [Hend|Hmore].
      * cbn [covers]. split; [|by repeat constructor].
        repeat split; lia.
      * cbn [covers].
        destruct (IH newHeight devHeight sliceStep (y + sliceStep) Hstep Htall
                    ltac:(lia) ltac:(lia) (y + devHeight) ltac:(lia) ltac:(lia)
                    ltac:(lia) ltac:(lia)) as [Hcov Hall].
        split; [|constructor; [reflexivity|exact Hall]].
        repeat split; try lia. exact Hcov.
Qed.

Lemma manhwaSlices_cover (newHeight devHeight sliceStep : Z) :
  1 <= sliceStep <= devHeight -> 1 <= newHeight ->
  let slices :=
    manhwaSlices (Z.to_nat newHeight) newHeight devHeight sliceStep 0 in
  covers 0 newHeight slices
  /\ Forall (fun page => sliceHeight page = Z.min devHeight newHeight) slices.
Proof.
  intros Hstep Hnew.
  destruct (Z.lt_ge_cases devHeight newHeight) as [Htall|Hshort].
  - rewrite Z.min_l by lia.
    apply manhwaSlices_tall; lia.
  - rewrite Z.min_r by lia.
    destruct (Z.to_nat newHeight) as [|fuel] eqn:Hfuel; [lia|].
    cbn [manhwaSlices].
    replace (0 <? newHeight) with true by (symmetry; apply Z.ltb_lt; lia).
    replace (devHeight <? newHeight) with false by (symmetry; apply Z.ltb_ge; lia).
    rewrite andb_false_r, Z.sub_0_r, Z.min_r by lia.
    replace (newHeight <=? 0 + newHeight) with true by (symmetry; apply Z.leb_le; lia).
    cbn [covers]. split; [|by repeat constructor].
    repeat split; lia.
Qed.

Lemma manhwaSliceStep_le (dims : Dimensions) (overlap : Q) :
  0 <= dim_height dims -> (0 <= overlap)%Q ->
  manhwaSliceStep dims overlap <= dim_height dims.
Proof.
  intros Hdev Hov. unfold manhwaSliceStep, Js.Math_floor, Js.fmul, Js.fdiv.
  assert (0 <= inject_Z (dim_height dims))%Q as Hd
    by (change 0%Q with (inject_Z 0); by rewrite <- Zle_Qle).
  assert (0 <= Js.fl (overlap / 100))%Q as H1.
  { apply fl_nonneg. unfold Qdiv. change (/ 100)%Q with (1 # 100)%Q. lra. }
  assert (0 <= Js.fl (inject_Z (dim_height dims) * Js.fl (overlap / 100)))%Q as H2.
  { apply fl_nonneg. nra. }
  apply Qfloor_resp_le in H2. change (Qfloor 0) with 0 in H2. lia.
Qed.

(** Every whole percentage from 0 to 99 leaves a step of at least one
    row, on both devices. *)
Lemma manhwaSliceStep_percent (d : Device) (percent : Z) :
  0 <= percent < 100 ->
  1 <= manhwaSliceStep (DEVICE_DIMENSIONS d) (inject_Z percent).
Proof.
  intros Hp.
  assert (forallb (fun p : nat =>
                     1 <=? manhwaSliceStep (DEVICE_DIMENSIONS d) (inject_Z (Z.of_nat p)))
                  (seq 0 100) = true) as H
    by (destruct d; vm_compute; reflexivity).
  rewrite forallb_forall in H. specialize (H (Z.to_nat percent)).
  rewrite Z2Nat.id in H by lia. apply Z.leb_le, H, in_seq. lia.
Qed.

(** X14: in manhwa mode, with an overlap that is not negative and
    leaves a step of at least one row (as every whole percentage from 0
    to 99 does, [manhwaSliceStep_percent]), the slices that
    [processCanvasAsImage] cuts from the scaled strip all have the
    height of the device (or of the strip, when it is shorter), lie
    inside the strip, and follow each other from its top row to its
    bottom row without leaving a row out.  The strip height is the one
    that the double arithmetic of the source gives (1439 rows, not
    1440, for a crop of 735 by 2205 pixels on the X4). *)
Theorem manhwa_slices_cover (sourceWidth sourceHeight : Z)
    (options : ConversionOptions) :
  manhwa options = true ->
  (0 <= manhwaOverlap options)%Q ->
  let dims := getTargetDimensions options in
  let crop := Geometry.getAxisCropRect sourceWidth sourceHeight options in
  let newHeight := manhwaNewHeight dims crop in
  1 <= manhwaSliceStep dims (manhwaOverlap options) ->
  1 <= newHeight ->
  exists slices,
    processCanvasAsImage sourceWidth sourceHeight options
    = (if sidewaysOverviews options then [SidewaysOverview] else [])
      ++ (if includeOverviews options then [Overview] else [])
      ++ slices
    /\ covers 0 newHeight slices
    /\ Forall (fun page => sliceHeight page = Z.min (dim_height dims) newHeight) slices.
Proof.
  intros Hm Hov dims crop newHeight Hstep1 Hnew.
  unfold processCanvasAsImage, isSingleImage. rewrite Hm.
  cbn [negb]. rewrite andb_false_r. cbn [andb].
  fold dims crop newHeight.
  assert (1 <= dim_height dims) as Hdev
    by (subst dims; unfold getTargetDimensions; destruct (device options); cbn; lia).
  pose proof (manhwaSliceStep_le dims (manhwaOverlap options) ltac:(lia) Hov) as Hstep2.
  destruct (manhwaSlices_cover newHeight (dim_height dims) _ (conj Hstep1 Hstep2) Hnew)
    as [Hcov Hall].
  eexists. split; [|split; [exact Hcov|exact Hall]].
  destruct (sidewaysOverviews options), (includeOverviews options); reflexivity.
Qed.

Lemma manhwa_slices_cover_witness :
  (exists slices,
     processCanvasAsImage 735 2205 (withMargins 0 0 manhwaOptions) = slices
     /\ covers 0 1439 slices
     /\ Forall (fun page => sliceHeight page = 800) slices)
  /\ processCanvasAsImage 735 2205 (withMargins 0 0 manhwaOptions)
     = [ManhwaSlice 0 800; ManhwaSlice 400 800; ManhwaSlice 639 800].
Proof.
  split; [|vm_compute; reflexivity].
  destruct (manhwa_slices_cover 735 2205 (withMargins 0 0 manhwaOptions) eq_refl)
    as (slices & Hs & Hcov & Hall).
  - discriminate.
  - apply (manhwaSliceStep_percent X4 50). lia.
  - vm_compute. discriminate.
  - exists slices. split; [exact Hs|]. split; [exact Hcov|exact Hall].
Defined.

(** ** Dithering: every kernel leaves a quantized image *)

Import Diffusion.

Lemma addAt_length data i d : length (addAt data i d) = length data.
Proof. unfold addAt. destruct (data !! i); [apply length_insert|done]. Qed.

Lemma addAt_lookup_ne data i j d : i <> j -> addAt data i d !! j = data !! j.
Proof.
  intros Hne. unfold addAt. destruct (data !! i); [|done].
  by apply list_lookup_insert_ne.
Qed.

Lemma loop2_rowmajor {S} (A B : nat) (step : S -> nat -> nat -> S)
    (P : nat -> S -> Prop) (s0 : S) :
  P 0%nat s0 ->
  (forall s a b, (a < A)%nat -> (b < B)%nat ->
     P (a * B + b)%nat s -> P (Datatypes.S (a * B + b)) (step s a b)) ->
  P (A * B)%nat (loop2 A B step s0).
Proof.
  intros H0 Hstep. unfold loop2.
  apply (foldl_seq_ind (fun a s => P (a * B)%nat s)); [done|].
  intros a s Ha Hs.
  replace (Datatypes.S a * B)%nat with (a * B + B)%nat by lia.
  apply (foldl_seq_ind (fun b s => P (a * B + b)%nat s)).
  - by rewrite Nat.add_0_r.
  - intros b s' Hb Hs'.
    replace (a * B + Datatypes.S b)%nat with (Datatypes.S (a * B + b)) by lia.
    by apply Hstep.
Qed.

Lemma later_refl idx data : later idx data data.
Proof. by split. Qed.

Lemma later_addAt idx data0 data i d :
  later idx data0 data -> (idx < i)%nat -> later idx data0 (addAt data i d).
Proof.
  intros [Hl Hj] Hi. split.
  - by rewrite addAt_length.
  - intros j Hle. rewrite addAt_lookup_ne by lia. by apply Hj.
Qed.

Lemma later_let idx data0 (X : list Q) (f : list Q -> list Q) :
  later idx data0 X ->
  (forall d, later idx data0 d -> later idx data0 (f d)) ->
  later idx data0 (let x := X in f x).
Proof. intros HX Hf. by apply Hf. Qed.

Ltac later_steps :=
  repeat
    match goal with
    | |- later ?i ?D (let x := ?X in @?f x) =>
        apply (later_let i D X f);
        [ | let d := fresh "d" in let Hd := fresh "Hd" in intros d Hd; cbv beta ]
    | |- later _ _ (if (?a <? ?b)%nat then _ else _) =>
        destruct (Nat.ltb_spec a b)
    | |- later _ _ (if (?a <=? ?b)%nat then _ else _) =>
        destruct (Nat.leb_spec a b)
    | |- later _ _ (addAt _ _ _) => apply later_addAt; [ | lia ]
    | |- later _ ?D ?D => apply later_refl
    | H : later ?i ?D ?X |- later ?i ?D ?X => exact H
    end.

Lemma floydSteinbergStep_causal term width height is2bit :
  causal width height is2bit (floydSteinbergStep term width height is2bit).
Proof.
  intros data y x oldVal Hx Hy Hold. unfold floydSteinbergStep.
  rewrite Hold. later_steps.
Qed.

Lemma atkinsonStep_causal width height is2bit :
  causal width height is2bit (atkinsonStep width height is2bit).
Proof.
  intros data y x oldVal Hx Hy Hold. unfold atkinsonStep.
  rewrite Hold. cbv zeta.
  destruct (negb _); later_steps.
Qed.

Lemma spread12_later idx0 data0 width height data y x
    a1 a2 a3 a4 a5 a6 a7 a8 a9 a10 a11 a12 :
  (x < width)%nat -> idx0 = (y * width + x)%nat ->
  later idx0 data0 data ->
  later idx0 data0
    (spread12 width height data y x a1 a2 a3 a4 a5 a6 a7 a8 a9 a10 a11 a12).
Proof.
  intros Hx -> Hd. unfold spread12. later_steps.
Qed.

Lemma stuckiStep_causal width height is2bit :
  causal width height is2bit (stuckiStep width height is2bit).
Proof.
  intros data y x oldVal Hx Hy Hold. unfold stuckiStep.
  rewrite Hold. cbv zeta.
  destruct (negb _); [|apply later_refl].
  by apply spread12_later; [| |apply later_refl].
Qed.

Lemma zhouFangStep_causal width height is2bit :
  causal width height is2bit (zhouFangStep width height is2bit).
Proof.
  intros data y x oldVal Hx Hy Hold. unfold zhouFangStep.
  rewrite Hold. cbv zeta.
  destruct (negb _); [|apply later_refl].
  by apply spread12_later; [| |apply later_refl].
Qed.

Lemma ostromoukhovStep_causal width height is2bit :
  causal width height is2bit (ostromoukhovStep width height is2bit).
Proof.
  intros data y x oldVal Hx Hy Hold. unfold ostromoukhovStep.
  rewrite Hold. cbv zeta.
  destruct (negb _); [|apply later_refl].
  destruct (Qle_bool _ 128); later_steps.
Qed.

Lemma quantize_level is2bit q : In (quantize is2bit q) (levels is2bit).
Proof.
  unfold quantize, levels.
  destruct is2bit; repeat (destruct (Js.Qltb _ _)); simpl; tauto.
Qed.

Lemma initBuffer_length pixels width height :
  length (initBuffer pixels width height) = (width * height)%nat.
Proof. unfold initBuffer. by rewrite length_map, length_seq. Qed.

Lemma initBuffer_lookup pixels width height j :
  (j < width * height)%nat ->
  initBuffer pixels width height !! j
  = Some (inject_Z (default 0 (pixels !! (j * 4)%nat))).
Proof.
  intros Hj. unfold initBuffer.
  rewrite list_lookup_fmap, lookup_seq_lt by done. reflexivity.
Qed.

(** After the double loop of a causal body every cell holds a level. *)
Lemma causal_loop_settled width height is2bit step data0 :
  causal width height is2bit step ->
  length data0 = (height * width)%nat ->
  let data := loop2 height width step data0 in
  length data = (height * width)%nat /\ settled is2bit (height * width) data.
Proof.
  intros Hc Hlen data. subst data.
  apply (loop2_rowmajor height width step
           (fun k s => length s = (height * width)%nat /\ settled is2bit k s)).
  - split; [done|]. intros j Hj. lia.
  - intros s y x Hy Hx [Hs Hset].
    assert (y * width + x < length s)%nat as Hidx by (rewrite Hs; nia).
    destruct (lookup_lt_is_Some_2 s _ Hidx) as [oldVal Hold].
    destruct (Hc s y x oldVal Hx Hy Hold) as [Hl Hj].
    split; [by rewrite Hl, length_insert|].
    intros j Hlt. rewrite Hj by lia.
    destruct (decide (j = y * width + x)%nat) as [->|Hne].
    + exists (quantize is2bit oldVal). split; [apply quantize_level|].
      by apply list_lookup_insert_eq.
    + rewrite list_lookup_insert_ne by done. apply Hset. lia.
Qed.

(** *** The write-back *)

Lemma writeBack_spec (pixels : list Z) (data : list Q) :
  (4 * length data <= length pixels)%nat ->
  let out := writeBack pixels data in
  length out = length pixels
  /\ (forall j c, (j < length data)%nat -> (c < 3)%nat ->
        out !! (j * 4 + c)%nat
        = Some (Js.clamp8 (Js.Math_maxQ 0 (Js.Math_minQ 255 (default 0%Q (data !! j))))))
  /\ (forall k, (k mod 4 = 3 \/ 4 * length data <= k)%nat -> out !! k = pixels !! k).
Proof.
  intros Hlen out. subst out. unfold writeBack.
  apply (foldl_seq_ind
           (fun i s =>
              length s = length pixels
              /\ (forall j c, (j < i)%nat -> (c < 3)%nat ->
                    s !! (j * 4 + c)%nat
                    = Some (Js.clamp8 (Js.Math_maxQ 0
                              (Js.Math_minQ 255 (default 0%Q (data !! j))))))
              /\ (forall k, (k mod 4 = 3 \/ 4 * i <= k)%nat -> s !! k = pixels !! k))).
  - split; [done|]. split; [intros; lia|done].
  - intros i s Hi (Hs & Hdone & Hrest). split; [by rewrite !length_insert|]. split.
    + intros j c Hj Hc.
      destruct (decide (j = i)) as [->|Hne].
      * destruct c as [|[|[|c]]]; [| | |lia].
        -- rewrite !list_lookup_insert_ne by lia. rewrite Nat.add_0_r.
           apply list_lookup_insert_eq. lia.
        -- rewrite list_lookup_insert_ne by lia.
           apply list_lookup_insert_eq. rewrite length_insert. lia.
        -- apply list_lookup_insert_eq. rewrite !length_insert. lia.
      * rewrite !list_lookup_insert_ne by lia. apply Hdone; lia.
    + intros k Hk.
      assert (k <> i * 4 /\ k <> i * 4 + 1 /\ k <> i * 4 + 2)%nat as (? & ? & ?).
      { destruct Hk as [Hk|Hk]; [|lia].
        repeat split; intros ->.
        - replace (i * 4)%nat with (0 + i * 4)%nat in Hk by lia.
          rewrite Nat.Div0.mod_add in Hk. cbn in Hk. lia.
        - replace (i * 4 + 1)%nat with (1 + i * 4)%nat in Hk by lia.
          rewrite Nat.Div0.mod_add in Hk. cbn in Hk. lia.
        - replace (i * 4 + 2)%nat with (2 + i * 4)%nat in Hk by lia.
          rewrite Nat.Div0.mod_add in Hk. cbn in Hk. lia. }
      rewrite !list_lookup_insert_ne by lia. apply Hrest.
      destruct Hk as [Hk|Hk]; [by left|right; lia].
Qed.

Lemma clamp8_level is2bit l :
  In l (levels is2bit) ->
  Js.clamp8 (Js.Math_maxQ 0 (Js.Math_minQ 255 (inject_Z l))) = l.
Proof.
  destruct is2bit; simpl; intros H;
    repeat (destruct H as [<-|H]; [reflexivity|]); destruct H.
Qed.

(** A list of whole pixels whose colour channels all hold the same
    level is a quantized image. *)
Lemma grayPixels_intro (lv : list Z) (n : nat) : forall data,
  length data = (4 * n)%nat ->
  (forall p, (p < n)%nat ->
     exists gray, In gray lv
       /\ data !! (p * 4)%nat = Some gray
       /\ data !! (p * 4 + 1)%nat = Some gray
       /\ data !! (p * 4 + 2)%nat = Some gray) ->
  grayPixels lv data = true.
Proof.
  induction n as [|n IH]; intros data Hlen Hpix.
  - by destruct data.
  - destruct data as [|r [|g [|b [|a rest]]]]; simpl in Hlen; try lia.
    destruct (Hpix 0%nat ltac:(lia)) as (gray & Hin & [= ->] & [= ->] & [= ->]).
    cbn [grayPixels]. rewrite !Z.eqb_refl, !andb_true_r.
    apply andb_true_iff. split.
    + apply existsb_exists. exists gray. split; [done|apply Z.eqb_refl].
    + apply IH; [lia|]. intros p Hp.
      destruct (Hpix (Datatypes.S p) ltac:(lia)) as (gr & Hin' & H0 & H1 & H2).
      exists gr. split; [done|].
      replace (Datatypes.S p * 4)%nat with (4 + p * 4)%nat in * by lia.
      done.
Qed.

(** The write-back of a settled buffer: a quantized image with the
    alpha bytes of the input. *)
Lemma writeBack_settled is2bit (pixels : list Z) (data : list Q) :
  length pixels = (4 * length data)%nat ->
  settled is2bit (length data) data ->
  let out := writeBack pixels data in
  grayPixels (levels is2bit) out = true
  /\ length out = length pixels
  /\ forall p, out !! (p * 4 + 3)%nat = pixels !! (p * 4 + 3)%nat.
Proof.
  intros Hlen Hset out.
  destruct (writeBack_spec pixels data ltac:(lia)) as (Hl & Hrgb & Ha).
  fold out in Hl, Hrgb, Ha.
  split; [|split; [done|]].
  - apply (grayPixels_intro _ (length data)); [lia|].
    intros p Hp. destruct (Hset p Hp) as (l & Hin & Hcell).
    exists l. split; [done|].
    pose proof (Hrgb p 0%nat Hp ltac:(lia)) as H0.
    pose proof (Hrgb p 1%nat Hp ltac:(lia)) as H1.
    pose proof (Hrgb p 2%nat Hp ltac:(lia)) as H2.
    rewrite Hcell in H0, H1, H2.
    change (default 0%Q (Some (inject_Z l))) with (inject_Z l) in H0, H1, H2.
    rewrite (clamp8_level is2bit l Hin) in H0, H1, H2.
    rewrite Nat.add_0_r in H0. done.
  - intros p. apply Ha. left.
    replace (p * 4 + 3)%nat with (3 + p * 4)%nat by lia.
    by rewrite Nat.Div0.mod_add.
Qed.

(** Every function of the shape copy, causal double loop, write-back. *)
Lemma diffusion_quantized step (pixels : list Z) (width height : nat) is2bit :
  causal width height is2bit step ->
  length pixels = (4 * width * height)%nat ->
  let out :=
    writeBack pixels (loop2 height width step (initBuffer pixels width height)) in
  grayPixels (levels is2bit) out = true
  /\ length out = length pixels
  /\ forall p, out !! (p * 4 + 3)%nat = pixels !! (p * 4 + 3)%nat.
Proof.
  intros Hc Hlen.
  destruct (causal_loop_settled width height is2bit step
              (initBuffer pixels width height) Hc) as [Hl Hset].
  { rewrite initBuffer_length. lia. }
  apply writeBack_settled; [rewrite Hl; lia|by rewrite Hl].
Qed.

(** *** The threshold and the ordered dither *)

Lemma thresholdValue_level is2bit val :
  In (DitheringOpt.thresholdValue is2bit val) (levels is2bit).
Proof.
  unfold DitheringOpt.thresholdValue, levels.
  destruct is2bit; repeat (destruct (_ <? _)); simpl; tauto.
Qed.

Lemma applyThreshold_quantized is2bit (n : nat) : forall data,
  length data = (4 * n)%nat ->
  let out := DitheringOpt.applyThreshold data is2bit in
  grayPixels (levels is2bit) out = true
  /\ length out = length data
  /\ forall p, out !! (p * 4 + 3)%nat = data !! (p * 4 + 3)%nat.
Proof.
  induction n as [|n IH]; intros data Hlen.
  - destruct data; [|done]. cbn. split; [done|]. split; done.
  - destruct data as [|r [|g [|b [|a rest]]]]; simpl in Hlen; try lia.
    destruct (IH rest ltac:(lia)) as (Hg & Hl & Ha).
    cbn [DitheringOpt.applyThreshold]. cbv zeta. cbn [grayPixels].
    split; [|split].
    + rewrite !Z.eqb_refl, !andb_true_r. apply andb_true_iff. split; [|exact Hg].
      apply existsb_exists. eexists. split; [apply thresholdValue_level|].
      apply Z.eqb_refl.
    + cbn [length]. by rewrite Hl.
    + intros [|p]; [reflexivity|].
      replace (Datatypes.S p * 4 + 3)%nat
        with (Datatypes.S (Datatypes.S (Datatypes.S (Datatypes.S (p * 4 + 3)))))
        by lia.
      apply Ha.
Qed.

Lemma bayerAt_range y x : 0 <= bayerAt y x <= 15.
Proof.
  unfold bayerAt.
  pose proof (Nat.mod_upper_bound y 4 ltac:(lia)) as Hy.
  pose proof (Nat.mod_upper_bound x 4 ltac:(lia)) as Hx.
  destruct (y mod 4)%nat as [|[|[|[|?]]]]; try lia;
    destruct (x mod 4)%nat as [|[|[|[|?]]]]; try lia; cbn; lia.
Qed.

Lemma mod4_3 (k : nat) (c : nat) : (c < 3)%nat -> ((k * 4 + c) mod 4 <> 3)%nat.
Proof.
  intros Hc. replace (k * 4 + c)%nat with (c + k * 4)%nat by lia.
  rewrite Nat.Div0.mod_add, Nat.mod_small; lia.
Qed.

(** What a loop leaves at pixel [(x, y)] when its body writes black or
    white after a test [f] of the red value, read off the input. *)
Lemma bilevel_loop_spec (f : nat -> nat -> Z -> bool)
    (step : list Z -> nat -> nat -> list Z) (data : list Z) (width height : nat) :
  (forall d y x,
     step d y x
     = match d !! ((y * width + x) * 4)%nat with
       | None => d
       | Some v =>
           let val := if f y x v then 255 else 0 in
           <[ ((y * width + x) * 4 + 2)%nat := val ]>
             (<[ ((y * width + x) * 4 + 1)%nat := val ]>
                (<[ ((y * width + x) * 4)%nat := val ]> d))
       end) ->
  length data = (4 * width * height)%nat ->
  let out := loop2 height width step data in
  (length out = length data
   /\ forall k, (k mod 4 = 3)%nat -> out !! k = data !! k)
  /\ forall y x, (y < height)%nat -> (x < width)%nat ->
       let val :=
         if f y x (default 0 (data !! ((y * width + x) * 4)%nat))
         then 255 else 0 in
       (out !! ((y * width + x) * 4)%nat,
        out !! ((y * width + x) * 4 + 1)%nat,
        out !! ((y * width + x) * 4 + 2)%nat)
       = (Some val, Some val, Some val).
Proof.
  intros Hstep Hlen out. subst out.
  apply (loop2_obs height width step
           (fun s => length s = length data
                     /\ forall k, (k mod 4 = 3)%nat -> s !! k = data !! k)
           (fun s y x =>
              (s !! ((y * width + x) * 4)%nat,
               s !! ((y * width + x) * 4 + 1)%nat,
               s !! ((y * width + x) * 4 + 2)%nat))).
  - by split.
  - intros s y x Hy Hx [Hs Ha]. rewrite Hstep.
    destruct (s !! _); [|by split].
    split; [by rewrite !length_insert|].
    intros k Hk.
    pose proof (mod4_3 (y * width + x) 0 ltac:(lia)) as H0.
    pose proof (mod4_3 (y * width + x) 1 ltac:(lia)) as H1.
    pose proof (mod4_3 (y * width + x) 2 ltac:(lia)) as H2.
    rewrite Nat.add_0_r in H0.
    rewrite !list_lookup_insert_ne by (intros <-; congruence).
    by apply Ha.
  - intros s y x Hy Hx [Hs Ha] Hobs.
    injection Hobs as Hobs _ _.
    pose proof (pixel_index_bound width height y x Hy Hx) as Hb.
    assert ((y * width + x) * 4 < length data)%nat as Hidx by lia.
    destruct (lookup_lt_is_Some_2 data _ Hidx) as [v Hv].
    rewrite Hstep, Hobs, Hv. cbn [default from_option].
    repeat f_equal.
    + rewrite !list_lookup_insert_ne by lia.
      apply list_lookup_insert_eq. lia.
    + rewrite list_lookup_insert_ne by lia.
      apply list_lookup_insert_eq. rewrite length_insert. lia.
    + apply list_lookup_insert_eq. rewrite !length_insert. lia.
  - intros s y x y' x' Hy Hx Hy' Hx' Hne [Hs Ha].
    assert (y' * width + x' <> y * width + x)%nat as Hp.
    { intros Heq. apply Hne. by apply (pixel_index_inj width height). }
    rewrite Hstep. destruct (s !! ((y * width + x) * 4)%nat); [|done].
    rewrite !list_lookup_insert_ne by lia. reflexivity.
Qed.

Lemma bilevel_loop_quantized is2bit (f : nat -> nat -> Z -> bool)
    (step : list Z -> nat -> nat -> list Z) (data : list Z) (width height : nat) :
  (forall d y x,
     step d y x
     = match d !! ((y * width + x) * 4)%nat with
       | None => d
       | Some v =>
           let val := if f y x v then 255 else 0 in
           <[ ((y * width + x) * 4 + 2)%nat := val ]>
             (<[ ((y * width + x) * 4 + 1)%nat := val ]>
                (<[ ((y * width + x) * 4)%nat := val ]> d))
       end) ->
  length data = (4 * width * height)%nat ->
  let out := loop2 height width step data in
  grayPixels (levels is2bit) out = true
  /\ length out = length data
  /\ forall p, out !! (p * 4 + 3)%nat = data !! (p * 4 + 3)%nat.
Proof.
  intros Hstep Hlen out.
  destruct (bilevel_loop_spec f step data width height Hstep Hlen) as [[Hl Ha] Hrgb].
  fold out in Hl, Ha, Hrgb.
  split; [|split; [done|]].
  - apply (grayPixels_intro _ (width * height)); [lia|].
    intros p Hp.
    assert (0 < width)%nat as Hw by nia.
    pose proof (Nat.div_mod_eq p width) as Hdm.
    pose proof (Nat.mod_upper_bound p width ltac:(lia)) as Hm.
    assert (p / width < height)%nat as Hy
      by (apply Nat.Div0.div_lt_upper_bound; lia).
    specialize (Hrgb (p / width)%nat (p mod width)%nat Hy Hm).
    replace (p / width * width + p mod width)%nat with p in Hrgb by lia.
    cbv zeta in Hrgb. injection Hrgb as H0 H1 H2.
    eexists. split; [|by rewrite H0, H1, H2].
    destruct (f _ _ _); destruct is2bit; simpl; tauto.
  - intros p. apply Ha.
    replace (p * 4 + 3)%nat with (3 + p * 4)%nat by lia.
    by rewrite Nat.Div0.mod_add.
Qed.

Lemma applyOrdered_spec (data : list Z) (width height : nat) :
  length data = (4 * width * height)%nat ->
  let out := applyOrdered data width height in
  (length out = length data
   /\ forall k, (k mod 4 = 3)%nat -> out !! k = data !! k)
  /\ forall y x, (y < height)%nat -> (x < width)%nat ->
       let val :=
         if bayerAt y x * 16 <? default 0 (data !! ((y * width + x) * 4)%nat)
         then 255 else 0 in
       (out !! ((y * width + x) * 4)%nat,
        out !! ((y * width + x) * 4 + 1)%nat,
        out !! ((y * width + x) * 4 + 2)%nat)
       = (Some val, Some val, Some val).
Proof.
  intros Hlen.
  by apply (bilevel_loop_spec (fun y x v => bayerAt y x * 16 <? v)).
Qed.

Lemma applyOrdered_quantized is2bit (data : list Z) (width height : nat) :
  length data = (4 * width * height)%nat ->
  let out := applyOrdered data width height in
  grayPixels (levels is2bit) out = true
  /\ length out = length data
  /\ forall p, out !! (p * 4 + 3)%nat = data !! (p * 4 + 3)%nat.
Proof.
  intros Hlen.
  by apply (bilevel_loop_quantized is2bit (fun y x v => bayerAt y x * 16 <? v)).
Qed.

(** The dispatcher, kernel by kernel. *)
Lemma applyDitheringToData_quantized
    (applyStochastic : list Z -> nat -> nat -> bool -> list Z)
    (data : list Z) (width height : nat) (algorithm : string) (is2bit : bool) :
  length data = (4 * width * height)%nat ->
  algorithm <> "stochastic"%string ->
  let out :=
    applyDitheringToData applyStochastic data width height algorithm is2bit in
  grayPixels (levels is2bit) out = true
  /\ length out = length data
  /\ forall p, out !! (p * 4 + 3)%nat = data !! (p * 4 + 3)%nat.
Proof.
  intros Hlen Hst. unfold applyDitheringToData.
  destruct (String.eqb algorithm "none");
    [apply (applyThreshold_quantized is2bit (width * height)); lia|].
  destruct (String.eqb algorithm "atkinson");
    [by apply diffusion_quantized; [apply atkinsonStep_causal|]|].
  destruct (String.eqb algorithm "floyd");
    [by apply diffusion_quantized; [apply floydSteinbergStep_causal|]|].
  destruct (String.eqb algorithm "stucki");
    [by apply diffusion_quantized; [apply stuckiStep_causal|]|].
  destruct (String.eqb algorithm "ostromoukhov");
    [by apply diffusion_quantized; [apply ostromoukhovStep_causal|]|].
  destruct (String.eqb algorithm "zhoufang");
    [by apply diffusion_quantized; [apply zhouFangStep_causal|]|].
  destruct (String.eqb algorithm "ordered");
    [by apply applyOrdered_quantized|].
  destruct (String.eqb_spec algorithm "stochastic"); [done|].
  by apply diffusion_quantized; [apply floydSteinbergStep_causal|].
Qed.

(** X3: whatever the algorithm (the space-filling-curve dither apart,
    which is outside the model), [applyDitheringToData] leaves a
    quantized image: every pixel has R = G = B, equal to one of the
    levels of the bit depth, and the alpha bytes and the length of the
    array are those of the input. *)
Theorem dithered_image_is_quantized
    (applyStochastic : list Z -> nat -> nat -> bool -> list Z)
    (data : list Z) (width height : nat) (algorithm : string) (is2bit : bool) :
  length data = (4 * width * height)%nat ->
  algorithm <> "stochastic"%string ->
  let out :=
    applyDitheringToData applyStochastic data width height algorithm is2bit in
  grayPixels (levels is2bit) out = true
  /\ length out = length data
  /\ forall p, out !! (p * 4 + 3)%nat = data !! (p * 4 + 3)%nat.
Proof. apply applyDitheringToData_quantized. Qed.

Lemma dithered_image_is_quantized_witness :
  let out :=
    applyDitheringToData (fun data _ _ _ => data)
      [100; 100; 100; 255; 200; 200; 200; 255] 2 1 "atkinson" true in
  grayPixels (levels true) out = true
  /\ length out = 8%nat
  /\ forall p, out !! (p * 4 + 3)%nat
               = [100; 100; 100; 255; 200; 200; 200; 255] !! (p * 4 + 3)%nat.
Proof.
  apply (dithered_image_is_quantized (fun data _ _ _ => data)
           [100; 100; 100; 255; 200; 200; 200; 255] 2 1 "atkinson" true);
    [reflexivity|discriminate].
Defined.

(** ** Dithering: a quantized image is left as it is *)

Lemma sameQ_refl data : sameQ data data.
Proof. induction data; constructor; [reflexivity|done]. Qed.

Lemma sameQ_trans a b c : sameQ a b -> sameQ b c -> sameQ a c.
Proof.
  intros Hab. revert c. induction Hab as [|x y a b Hxy Hab IH]; intros c Hbc.
  - done.
  - inversion Hbc as [|? z ? c' Hyz Hbc']; subst. constructor.
    + by rewrite Hxy.
    + by apply IH.
Qed.

Lemma sameQ_insert data i q q' :
  data !! i = Some q -> (q == q')%Q -> sameQ data (<[ i := q' ]> data).
Proof.
  revert i. induction data as [|a data IH]; intros [|i] Hi Hq; try done.
  - injection Hi as ->. constructor; [done|apply sameQ_refl].
  - constructor; [reflexivity|]. by apply IH.
Qed.

Lemma sameQ_addAt data0 data i d :
  sameQ data0 data -> (d == 0)%Q -> sameQ data0 (addAt data i d).
Proof.
  intros Hs Hd. apply (sameQ_trans _ data); [done|].
  unfold addAt. destruct (data !! i) as [v|] eqn:Hv; [|apply sameQ_refl].
  apply (sameQ_insert _ _ v); [done|]. rewrite Hd. ring.
Qed.

Lemma sameQ_let data0 (X : list Q) (f : list Q -> list Q) :
  sameQ data0 X ->
  (forall d, sameQ data0 d -> sameQ data0 (f d)) ->
  sameQ data0 (let x := X in f x).
Proof. intros HX Hf. by apply Hf. Qed.

Lemma quantize_comp is2bit (q q' : Q) :
  (q == q')%Q -> quantize is2bit q = quantize is2bit q'.
Proof.
  intros H. unfold quantize, Js.Qltb.
  by rewrite !(Qleb_comp _ _ (Qeq_refl _) _ _ H).
Qed.

Lemma quantize_of_level is2bit (q : Q) (l : Z) :
  (q == inject_Z l)%Q -> In l (levels is2bit) -> quantize is2bit q = l.
Proof.
  intros H Hin. rewrite (quantize_comp is2bit _ _ H).
  destruct is2bit; simpl in Hin;
    repeat (destruct Hin as [<-|Hin]; [reflexivity|]); destruct Hin.
Qed.

Lemma Math_minQ_comp a (q q' : Q) :
  (q == q')%Q -> (Js.Math_minQ a q == Js.Math_minQ a q')%Q.
Proof.
  intros H. unfold Js.Math_minQ.
  rewrite (Qleb_comp _ _ (Qeq_refl a) _ _ H).
  destruct (Qle_bool a q'); [reflexivity|done].
Qed.

Lemma Math_maxQ_comp a (q q' : Q) :
  (q == q')%Q -> (Js.Math_maxQ a q == Js.Math_maxQ a q')%Q.
Proof.
  intros H. unfold Js.Math_maxQ.
  rewrite (Qleb_comp _ _ (Qeq_refl a) _ _ H).
  destruct (Qle_bool a q'); [done|reflexivity].
Qed.

Lemma clamp8_comp (q q' : Q) : (q == q')%Q -> Js.clamp8 q = Js.clamp8 q'.
Proof.
  intros H. unfold Js.clamp8, Js.Qltb.
  rewrite (Qleb_comp _ _ H _ _ (Qeq_refl 0)).
  rewrite (Qleb_comp _ _ (Qeq_refl 255) _ _ H).
  rewrite (Qfloor_comp _ _ H).
  assert (q - inject_Z (Qfloor q') == q' - inject_Z (Qfloor q'))%Q as Hr
    by (by rewrite H).
  rewrite (Qleb_comp _ _ (Qeq_refl (1 # 2)) _ _ Hr).
  rewrite (Qleb_comp _ _ Hr _ _ (Qeq_refl (1 # 2))).
  reflexivity.
Qed.

Lemma clamp8_of_level is2bit (q : Q) (l : Z) :
  (q == inject_Z l)%Q -> In l (levels is2bit) ->
  Js.clamp8 (Js.Math_maxQ 0 (Js.Math_minQ 255 q)) = l.
Proof.
  intros H Hin.
  rewrite (clamp8_comp _ (Js.Math_maxQ 0 (Js.Math_minQ 255 (inject_Z l)))).
  - by apply (clamp8_level is2bit).
  - by apply Math_maxQ_comp, Math_minQ_comp.
Qed.

(** The guard [err !== 0] of the kernels fails on a level. *)
Lemma guard_level is2bit (oldVal : Q) (l : Z) (k : Q) :
  (oldVal == inject_Z l)%Q -> In l (levels is2bit) ->
  negb (Qeq_bool ((oldVal - inject_Z (quantize is2bit oldVal)) * k) 0) = false.
Proof.
  intros H Hin. rewrite (quantize_of_level is2bit _ _ H Hin).
  rewrite Qeq_eq_bool; [done|]. rewrite H. ring.
Qed.

Lemma atkinsonStep_quiet width height is2bit :
  quiet width height is2bit (atkinsonStep width height is2bit).
Proof.
  unfold quiet, atkinsonStep.
  intros data y x oldVal l _ _ Hold Heq Hin. rewrite Hold. cbv zeta.
  unfold Qdiv at 1. rewrite (guard_level is2bit oldVal l _ Heq Hin).
  apply (sameQ_insert _ _ oldVal); [done|].
  by rewrite (quantize_of_level is2bit _ _ Heq Hin).
Qed.

Lemma guard_level_1 is2bit (oldVal : Q) (l : Z) :
  (oldVal == inject_Z l)%Q -> In l (levels is2bit) ->
  negb (Qeq_bool (oldVal - inject_Z (quantize is2bit oldVal)) 0) = false.
Proof.
  intros H Hin. rewrite (quantize_of_level is2bit _ _ H Hin).
  rewrite Qeq_eq_bool; [done|]. rewrite H. ring.
Qed.

Lemma stuckiStep_quiet width height is2bit :
  quiet width height is2bit (stuckiStep width height is2bit).
Proof.
  unfold quiet, stuckiStep.
  intros data y x oldVal l _ _ Hold Heq Hin. rewrite Hold. cbv zeta.
  rewrite (guard_level_1 is2bit oldVal l Heq Hin).
  apply (sameQ_insert _ _ oldVal); [done|].
  by rewrite (quantize_of_level is2bit _ _ Heq Hin).
Qed.

Lemma zhouFangStep_quiet width height is2bit :
  quiet width height is2bit (zhouFangStep width height is2bit).
Proof.
  unfold quiet, zhouFangStep.
  intros data y x oldVal l _ _ Hold Heq Hin. rewrite Hold. cbv zeta.
  rewrite (guard_level_1 is2bit oldVal l Heq Hin).
  apply (sameQ_insert _ _ oldVal); [done|].
  by rewrite (quantize_of_level is2bit _ _ Heq Hin).
Qed.

Lemma ostromoukhovStep_quiet width height is2bit :
  quiet width height is2bit (ostromoukhovStep width height is2bit).
Proof.
  unfold quiet, ostromoukhovStep.
  intros data y x oldVal l _ _ Hold Heq Hin. rewrite Hold. cbv zeta.
  rewrite (guard_level_1 is2bit oldVal l Heq Hin).
  apply (sameQ_insert _ _ oldVal); [done|].
  by rewrite (quantize_of_level is2bit _ _ Heq Hin).
Qed.

Ltac quiet_steps :=
  repeat
    match goal with
    | |- sameQ ?D (let x := ?X in @?f x) =>
        apply (sameQ_let D X f);
        [ | let d := fresh "d" in let Hd := fresh "Hd" in intros d Hd; cbv beta ]
    | |- sameQ _ (if ?c then _ else _) => destruct c
    | |- sameQ _ (addAt _ _ _) => apply sameQ_addAt; [ | ]
    | H : sameQ ?D ?X |- sameQ ?D ?X => exact H
    end.

Lemma floydSteinbergStep_quiet term width height is2bit :
  (forall err k, (err == 0)%Q -> (term err k == 0)%Q) ->
  quiet width height is2bit (floydSteinbergStep term width height is2bit).
Proof.
  intros Hterm. unfold quiet, floydSteinbergStep.
  intros data y x oldVal l _ _ Hold Heq Hin. rewrite Hold.
  rewrite (quantize_of_level is2bit _ _ Heq Hin).
  assert (oldVal - inject_Z l == 0)%Q as Herr by (rewrite Heq; ring).
  assert (sameQ data (<[ (y * width + x)%nat := inject_Z l ]> data)) as H0
    by by apply (sameQ_insert _ _ oldVal).
  quiet_steps; by apply Hterm.
Qed.

Lemma term_opt_zero err k : (err == 0)%Q -> (DitheringOpt.term err k == 0)%Q.
Proof. intros H. unfold DitheringOpt.term, Qdiv. rewrite H. ring. Qed.

Lemma quiet_loop width height is2bit step data0 :
  quiet width height is2bit step ->
  length data0 = (height * width)%nat ->
  settled is2bit (height * width) data0 ->
  sameQ data0 (loop2 height width step data0).
Proof.
  intros Hq Hlen Hset.
  apply (loop2_rowmajor height width step (fun _ s => sameQ data0 s)).
  - apply sameQ_refl.
  - intros s y x Hy Hx Hs.
    assert (y * width + x < height * width)%nat as Hidx by nia.
    destruct (Hset _ Hidx) as (l & Hin & Hl).
    destruct (Forall2_lookup_l _ _ _ _ _ Hs Hl) as (oldVal & Hold & Heq).
    apply (sameQ_trans _ s); [done|].
    apply (Hq s y x oldVal l); done.
Qed.

Lemma initBuffer_settled is2bit pixels width height :
  length pixels = (4 * width * height)%nat ->
  grayPixels (levels is2bit) pixels = true ->
  settled is2bit (height * width) (initBuffer pixels width height).
Proof.
  intros Hlen Hg j Hj.
  destruct (grayPixels_lookup _ j pixels Hg ltac:(lia)) as (gray & Hin & H0 & _).
  exists gray. split; [done|].
  rewrite initBuffer_lookup by lia. by rewrite H0.
Qed.

(** Every function of the shape copy, quiet double loop, write-back. *)
Lemma diffusion_fixpoint step (pixels : list Z) (width height : nat) is2bit :
  quiet width height is2bit step ->
  length pixels = (4 * width * height)%nat ->
  grayPixels (levels is2bit) pixels = true ->
  writeBack pixels (loop2 height width step (initBuffer pixels width height))
  = pixels.
Proof.
  intros Hq Hlen Hg.
  pose proof (initBuffer_settled is2bit pixels width height Hlen Hg) as Hset.
  assert (length (initBuffer pixels width height) = (height * width)%nat) as Hil
    by (rewrite initBuffer_length; lia).
  pose proof (quiet_loop width height is2bit step _ Hq Hil Hset) as Hsame.
  set (data := loop2 height width step (initBuffer pixels width height)) in *.
  assert (length data = (width * height)%nat) as Hdl
    by (rewrite <- (Forall2_length _ _ _ Hsame); apply initBuffer_length).
  assert (4 * length data <= length pixels)%nat as Hle by (rewrite Hdl, Hlen; lia).
  destruct (writeBack_spec pixels data Hle) as (Hl & Hrgb & Ha).
  apply list_eq. intros k.
  destruct (decide (k mod 4 = 3 \/ 4 * length data <= k)%nat) as [Hk|Hk];
    [by apply Ha|].
  pose proof (Nat.div_mod_eq k 4) as Hdm.
  pose proof (Nat.mod_upper_bound k 4 ltac:(lia)) as Hm.
  set (j := (k / 4)%nat) in *. set (c := (k mod 4)%nat) in *.
  assert (j < width * height)%nat as Hj by lia.
  replace k with (j * 4 + c)%nat by lia.
  rewrite Hrgb by lia.
  destruct (Hset j ltac:(lia)) as (l & Hin & Hl0).
  destruct (Forall2_lookup_l _ _ _ _ _ Hsame Hl0) as (q & Hq' & Heq).
  rewrite Hq'. change (default 0%Q (Some q)) with q.
  rewrite (clamp8_of_level is2bit q l) by (done || by symmetry).
  destruct (grayPixels_lookup _ j pixels Hg ltac:(lia)) as (gray & _ & H0 & H1 & H2).
  rewrite initBuffer_lookup in Hl0 by lia. rewrite H0 in Hl0.
  assert (gray = l) as -> by (by injection Hl0).
  clearbody c.
  destruct c as [|[|[|c]]]; [| | |lia].
  - by rewrite Nat.add_0_r.
  - done.
  - done.
Qed.

Lemma thresholdValue_of_level is2bit l :
  In l (levels is2bit) -> DitheringOpt.thresholdValue is2bit l = l.
Proof.
  destruct is2bit; simpl; intros H;
    repeat (destruct H as [<-|H]; [reflexivity|]); destruct H.
Qed.

Lemma applyThreshold_fixpoint is2bit (n : nat) : forall data,
  length data = (4 * n)%nat ->
  grayPixels (levels is2bit) data = true ->
  DitheringOpt.applyThreshold data is2bit = data.
Proof.
  induction n as [|n IH]; intros data Hlen Hg.
  - by destruct data.
  - destruct data as [|r [|g [|b [|a rest]]]]; simpl in Hlen; try lia.
    cbn [grayPixels] in Hg. rewrite !andb_true_iff in Hg.
    destruct Hg as [[[Hr Hgr] Hb] Hrest].
    apply Z.eqb_eq in Hgr, Hb. subst g b.
    apply existsb_exists in Hr as (l & Hin & Hl). apply Z.eqb_eq in Hl. subst l.
    cbn [DitheringOpt.applyThreshold]. cbv zeta.
    rewrite (thresholdValue_of_level is2bit r Hin).
    rewrite (IH rest) by (done || lia). reflexivity.
Qed.

Lemma applyOrdered_fixpoint (data : list Z) (width height : nat) :
  length data = (4 * width * height)%nat ->
  grayPixels (levels false) data = true ->
  applyOrdered data width height = data.
Proof.
  intros Hlen Hg.
  destruct (applyOrdered_spec data width height Hlen) as [[Hl Ha] Hrgb].
  apply list_eq. intros k.
  destruct (decide (k mod 4 = 3)%nat) as [Hk|Hk]; [by apply Ha|].
  destruct (decide (k < length data)%nat) as [Hin|Hout].
  2: { rewrite !lookup_ge_None_2; [done|lia|rewrite Hl; lia]. }
  pose proof (Nat.div_mod_eq k 4) as Hdm.
  pose proof (Nat.mod_upper_bound k 4 ltac:(lia)) as Hm.
  set (p := (k / 4)%nat) in *. set (c := (k mod 4)%nat) in *. clearbody p c.
  assert (p < width * height)%nat as Hp by lia.
  assert (0 < width)%nat as Hw by nia.
  pose proof (Nat.div_mod_eq p width) as Hdp.
  pose proof (Nat.mod_upper_bound p width ltac:(lia)) as Hmp.
  assert (p / width < height)%nat as Hy
    by (apply Nat.Div0.div_lt_upper_bound; lia).
  specialize (Hrgb (p / width)%nat (p mod width)%nat Hy Hmp).
  pose proof (bayerAt_range (p / width) (p mod width)) as Hbay.
  replace (p / width * width + p mod width)%nat with p in Hrgb by lia.
  cbv zeta in Hrgb. injection Hrgb as H0 H1 H2.
  destruct (grayPixels_lookup _ p data Hg ltac:(lia))
    as (gray & Hlev & G0 & G1 & G2).
  rewrite G0 in H0, H1, H2.
  change (default 0 (Some gray)) with gray in H0, H1, H2.
  assert ((if bayerAt (p / width) (p mod width) * 16 <? gray then 255 else 0)
          = gray) as Hval.
  { simpl in Hlev. destruct Hlev as [<-|[<-|[]]].
    - destruct (Z.ltb_spec (bayerAt (p / width) (p mod width) * 16) 0); lia.
    - destruct (Z.ltb_spec (bayerAt (p / width) (p mod width) * 16) 255); lia. }
  rewrite Hval in H0, H1, H2. subst k.
  destruct c as [|[|[|c]]]; [| | |lia].
  - replace (4 * p + 0)%nat with (p * 4)%nat by lia. congruence.
  - replace (4 * p + 1)%nat with (p * 4 + 1)%nat by lia. congruence.
  - replace (4 * p + 2)%nat with (p * 4 + 2)%nat by lia. congruence.
Qed.

(** X15: dithering changes nothing in an image that is already
    quantized for the bit depth: every error-diffusion kernel and the
    threshold return the input array, and so does the ordered dither
    for 1-bit output (for 2-bit output it maps the two middle levels to
    black or white).  The space-filling-curve dither is outside the
    model. *)
Theorem dithering_keeps_quantized_image
    (applyStochastic : list Z -> nat -> nat -> bool -> list Z)
    (data : list Z) (width height : nat) (algorithm : string) (is2bit : bool) :
  length data = (4 * width * height)%nat ->
  grayPixels (levels is2bit) data = true ->
  algorithm <> "stochastic"%string ->
  (algorithm = "ordered"%string -> is2bit = false) ->
  applyDitheringToData applyStochastic data width height algorithm is2bit = data.
Proof.
  intros Hlen Hg Hst Hord. unfold applyDitheringToData.
  destruct (String.eqb algorithm "none");
    [apply (applyThreshold_fixpoint is2bit (width * height)); [lia|done]|].
  destruct (String.eqb algorithm "atkinson");
    [by apply (diffusion_fixpoint _ _ _ _ is2bit); [apply atkinsonStep_quiet| |]|].
  destruct (String.eqb algorithm "floyd");
    [by apply (diffusion_fixpoint _ _ _ _ is2bit);
       [apply floydSteinbergStep_quiet, term_opt_zero| |]|].
  destruct (String.eqb algorithm "stucki");
    [by apply (diffusion_fixpoint _ _ _ _ is2bit); [apply stuckiStep_quiet| |]|].
  destruct (String.eqb algorithm "ostromoukhov");
    [by apply (diffusion_fixpoint _ _ _ _ is2bit); [apply ostromoukhovStep_quiet| |]|].
  destruct (String.eqb algorithm "zhoufang");
    [by apply (diffusion_fixpoint _ _ _ _ is2bit); [apply zhouFangStep_quiet| |]|].
  destruct (String.eqb_spec algorithm "ordered") as [Ho|_].
  { rewrite (Hord Ho) in Hg. by apply applyOrdered_fixpoint. }
  destruct (String.eqb_spec algorithm "stochastic"); [done|].
  by apply (diffusion_fixpoint _ _ _ _ is2bit);
    [apply floydSteinbergStep_quiet, term_opt_zero| |].
Qed.

Lemma dithering_keeps_quantized_image_witness :
  applyDitheringToData (fun data _ _ _ => data)
    (img_data exampleImage2bit) 3 2 "stucki" true
  = img_data exampleImage2bit.
Proof.
  apply (dithering_keeps_quantized_image (fun data _ _ _ => data)
           (img_data exampleImage2bit) 3 2 "stucki" true);
    [reflexivity|reflexivity|discriminate|discriminate].
Defined.

(** ** The first version of the dithering module *)

Lemma legacy_atkinsonStep_causal width height is2bit :
  causal width height is2bit (DiffusionLegacy.atkinsonStep width height is2bit).
Proof.
  intros data y x oldVal Hx Hy Hold. unfold DiffusionLegacy.atkinsonStep.
  rewrite Hold. cbv zeta.
  destruct (negb _); later_steps.
Qed.

Lemma legacy_stuckiStep_causal width height is2bit :
  causal width height is2bit (DiffusionLegacy.stuckiStep width height is2bit).
Proof.
  intros data y x oldVal Hx Hy Hold. unfold DiffusionLegacy.stuckiStep.
  rewrite Hold. cbv zeta.
  destruct (negb _); [|apply later_refl].
  by apply spread12_later; [| |apply later_refl].
Qed.

Lemma legacy_applyThreshold_1bit (n : nat) : forall data,
  length data = (4 * n)%nat ->
  let out := Dithering.applyThreshold data false in
  grayPixels (levels false) out = true
  /\ length out = length data
  /\ forall p, out !! (p * 4 + 3)%nat = data !! (p * 4 + 3)%nat.
Proof.
  induction n as [|n IH]; intros data Hlen.
  - destruct data; [|done]. cbn. split; [done|]. split; done.
  - destruct data as [|r [|g [|b [|a rest]]]]; simpl in Hlen; try lia.
    destruct (IH rest ltac:(lia)) as (Hg & Hl & Ha).
    cbn [Dithering.applyThreshold]. cbv zeta. cbn [grayPixels].
    split; [|split].
    + rewrite !Z.eqb_refl, !andb_true_r. apply andb_true_iff. split; [|exact Hg].
      unfold Dithering.thresholdValue. by destruct (r <? 128).
    + cbn [length]. by rewrite Hl.
    + intros [|p]; [reflexivity|].
      replace (Datatypes.S p * 4 + 3)%nat
        with (Datatypes.S (Datatypes.S (Datatypes.S (Datatypes.S (p * 4 + 3)))))
        by lia.
      apply Ha.
Qed.

(** X19: the first version of [applyDithering] leaves a quantized image
    for every algorithm and bit depth but one, the threshold ('none')
    for 2-bit output: every pixel has R = G = B at a level of the bit
    depth, and the alpha bytes and the length of the array are those of
    the input. *)
Theorem legacy_dithered_image_is_quantized
    (data : list Z) (width height : nat) (algorithm : string) (is2bit : bool) :
  length data = (4 * width * height)%nat ->
  (algorithm = "none"%string -> is2bit = false) ->
  let out := DiffusionLegacy.applyDithering data width height algorithm is2bit in
  grayPixels (levels is2bit) out = true
  /\ length out = length data
  /\ forall p, out !! (p * 4 + 3)%nat = data !! (p * 4 + 3)%nat.
Proof.
  intros Hlen Hnone. unfold DiffusionLegacy.applyDithering.
  destruct (String.eqb_spec algorithm "none") as [Hn|_].
  { rewrite (Hnone Hn). apply (legacy_applyThreshold_1bit (width * height)). lia. }
  destruct (String.eqb algorithm "atkinson");
    [by apply diffusion_quantized; [apply legacy_atkinsonStep_causal|]|].
  destruct (String.eqb algorithm "floyd");
    [by apply diffusion_quantized; [apply floydSteinbergStep_causal|]|].
  destruct (String.eqb algorithm "stucki");
    [by apply diffusion_quantized; [apply legacy_stuckiStep_causal|]|].
  destruct (String.eqb algorithm "ostromoukhov");
    [by apply diffusion_quantized; [apply ostromoukhovStep_causal|]|].
  destruct (String.eqb algorithm "zhoufang");
    [by apply diffusion_quantized; [apply zhouFangStep_causal|]|].
  destruct (String.eqb algorithm "ordered").
  { by apply (bilevel_loop_quantized is2bit
                (fun y x v =>
                   Js.Qltb (inject_Z (bayerAt y x) / 16 * 255) (inject_Z v))). }
  by apply diffusion_quantized; [apply floydSteinbergStep_causal|].
Qed.

Lemma legacy_dithered_image_is_quantized_witness :
  let out :=
    DiffusionLegacy.applyDithering
      [100; 100; 100; 255; 200; 200; 200; 255] 2 1 "atkinson" true in
  grayPixels (levels true) out = true
  /\ length out = 8%nat
  /\ forall p, out !! (p * 4 + 3)%nat
               = [100; 100; 100; 255; 200; 200; 200; 255] !! (p * 4 + 3)%nat.
Proof.
  apply (legacy_dithered_image_is_quantized
           [100; 100; 100; 255; 200; 200; 200; 255] 2 1 "atkinson" true);
    [reflexivity|discriminate].
Defined.

(** ** The JavaScript pipeline of one page *)

Lemma mapPixels_length f (n : nat) : forall data,
  length data = (4 * n)%nat -> length (Filters.mapPixels f data) = length data.
Proof.
  induction n as [|n IH]; intros data Hlen.
  - by destruct data.
  - destruct data as [|r [|g [|b [|a rest]]]]; simpl in Hlen; try lia.
    cbn [Filters.mapPixels]. cbv zeta. cbn [length]. rewrite IH; [done|lia].
Qed.

Lemma processAndEncode_filters_length Math_pow data options (n : nat) :
  length data = (4 * n)%nat ->
  length (Filters.processAndEncode_filters Math_pow data options) = length data.
Proof.
  intros Hlen. unfold Filters.processAndEncode_filters, Filters.applyUnifiedFilters.
  destruct (Filters.contrastPoints _ _). by apply (mapPixels_length _ n).
Qed.

(** X16: what [processAndEncode] packs is a quantized image, and the
    reader gets it back: for every canvas that fits the 16-bit header
    fields and every algorithm of the model, the chunk decodes, and the
    decoded picture has the size and the colour of every pixel of the
    filtered and dithered image. *)
Theorem pipeline_page_decodes_to_dithered_image
    (Math_pow : Q -> Q -> Q)
    (applyStochastic : list Z -> nat -> nat -> bool -> list Z)
    (imageData : ImageData) (options : ConversionOptions) :
  validImage imageData ->
  dithering options <> "stochastic"%string ->
  let page := Pipeline.processed Math_pow applyStochastic imageData options in
  quantized (is2bit options) page
  /\ exists chunk decoded,
       Pipeline.processAndEncode Math_pow applyStochastic imageData options
       = Ok chunk
       /\ decodeXtcPageToCanvas chunk = Ok decoded
       /\ Layout.sameRGB page decoded.
Proof.
  intros (Hw & Hh & Hlen) Hst page.
  pose proof (processAndEncode_filters_length Math_pow (img_data imageData) options
                (img_width imageData * img_height imageData) ltac:(lia)) as Hfl.
  destruct (applyDitheringToData_quantized applyStochastic
              (Filters.processAndEncode_filters Math_pow (img_data imageData) options)
              (img_width imageData) (img_height imageData)
              (dithering options) (is2bit options)
              ltac:(lia) Hst) as (Hq & Hl & _).
  assert (quantized (is2bit options) page) as Hquant by exact Hq.
  split; [done|].
  apply roundtrip_encode; [|done].
  split; [done|]. split; [done|].
  subst page. cbn [Pipeline.processed img_data img_width img_height].
  rewrite Hl, Hfl. exact Hlen.
Qed.

Lemma pipeline_page_decodes_to_dithered_image_witness :
  let page :=
    Pipeline.processed Filters.powSquare (fun data _ _ _ => data)
      exampleImage2bit defaultOptions in
  quantized (is2bit defaultOptions) page
  /\ exists chunk decoded,
       Pipeline.processAndEncode Filters.powSquare (fun data _ _ _ => data)
         exampleImage2bit defaultOptions
       = Ok chunk
       /\ decodeXtcPageToCanvas chunk = Ok decoded
       /\ Layout.sameRGB page decoded.
Proof.
  apply (pipeline_page_decodes_to_dithered_image Filters.powSquare
           (fun data _ _ _ => data) exampleImage2bit defaultOptions);
    [exact valid_example2|discriminate].
Defined.

(** ** The chunk header around a payload packed by the Wasm module *)

Lemma wrapWasmData_layout (pixelData : list Z) (w h : nat) (is2bit : bool) :
  XtcStream.wrapWasmData pixelData w h is2bit
  = Ok (chunkHeader [0x58; 0x54; if is2bit then 0x48 else 0x47; 0x00] w h
          (length pixelData)
        ++ xtgDigest pixelData ++ pixelData).
Proof.
  unfold XtcStream.wrapWasmData.
  change (22 + length pixelData)%nat with (14 + (8 + length pixelData))%nat.
  rewrite !replicate_add.
  replace (if is2bit then [88; 84; 72; 0] else [88; 84; 71; 0])
    with [88; 84; if is2bit then 72 else 71; 0] by (by destruct is2bit).
  rewrite writeChunkHeader_spec by (destruct is2bit; lia). cbn [bind].
  rewrite (set_at_offset _ (replicate 8 0) _ (xtgDigest pixelData) 14);
    [|by destruct is2bit|by rewrite xtgDigest_length, length_replicate].
  cbn [bind].
  rewrite (app_assoc _ (xtgDigest pixelData)).
  rewrite <- (app_nil_r (replicate (length pixelData) 0)).
  rewrite (set_at_offset _ (replicate (length pixelData) 0) [] pixelData).
  - by rewrite app_nil_r, <- app_assoc.
  - rewrite length_app, xtgDigest_length. by destruct is2bit.
  - apply length_replicate.
Qed.

(** X17: the Wasm path wraps its packed payload into a chunk that reads
    like the one of the JavaScript packers: given the payload that the
    JavaScript packer builds for an image (the bitmap, or the two
    planes one after the other), [wrapWasmData] returns a chunk of the
    same length that [decodeXtcPageToCanvas] decodes to the same
    picture; the two chunks are equal outside the 8 digest bytes. *)
Theorem wasm_chunk_reads_like_js_chunk (is2bit : bool) (img : ImageData) :
  validImage img ->
  let payload :=
    if is2bit then fst (xthPlanes img) ++ snd (xthPlanes img)
    else xtgPixelData img in
  exists wasmChunk jsChunk decoded,
    XtcStream.wrapWasmData payload (img_width img) (img_height img) is2bit
    = Ok wasmChunk
    /\ encodeImageData is2bit img = Ok jsChunk
    /\ length wasmChunk = length jsChunk
    /\ take 14 wasmChunk = take 14 jsChunk
    /\ drop 22 wasmChunk = drop 22 jsChunk
    /\ decodeXtcPageToCanvas wasmChunk = Ok decoded
    /\ decodeXtcPageToCanvas jsChunk = Ok decoded.
Proof.
  intros (Hw & Hh & Hlen) payload. subst payload.
  rewrite wrapWasmData_layout. unfold encodeImageData. destruct is2bit.
  - destruct (imageDataToXth_layout img) as (digest & Hd & ->).
    destruct (xthPlanes_spec img) as [[H0 H1] _].
    set (p0 := fst (xthPlanes img)) in *. set (p1 := snd (xthPlanes img)) in *.
    assert (length (p0 ++ p1) = (ceil8 (img_height img) * img_width img * 2)%nat)
      as Hpl by (rewrite length_app, H0, H1; lia).
    rewrite Hpl.
    do 3 eexists. split; [reflexivity|]. split; [reflexivity|].
    split; [by rewrite !length_app, !chunkHeader_length, xtgDigest_length, Hd|].
    split; [by rewrite !take_app_length' by reflexivity|].
    split.
    { rewrite !app_assoc, <- !(app_assoc _ p0 p1).
      rewrite !drop_app_length'; [reflexivity| |].
      - by rewrite length_app, chunkHeader_length, Hd.
      - by rewrite length_app, chunkHeader_length, xtgDigest_length. }
    split; apply decode_xth_layout; try done. apply xtgDigest_length.
  - rewrite imageDataToXtg_layout.
    destruct (xtgPixelData_spec img) as [Hl _].
    assert (Z.of_nat (length (xtgPixelData img)) < 4294967296) as Hsmall
      by (rewrite Hl; pose proof (ceil8_le (img_width img)); nia).
    do 3 eexists. do 5 (split; [reflexivity|]).
    split; apply decode_xtg_layout; try done; apply xtgDigest_length.
Qed.

Lemma wasm_chunk_reads_like_js_chunk_witness :
  let payload := fst (xthPlanes exampleImage2bit) ++ snd (xthPlanes exampleImage2bit) in
  exists wasmChunk jsChunk decoded,
    XtcStream.wrapWasmData payload 3 2 true = Ok wasmChunk
    /\ encodeImageData true exampleImage2bit = Ok jsChunk
    /\ length wasmChunk = length jsChunk
    /\ take 14 wasmChunk = take 14 jsChunk
    /\ drop 22 wasmChunk = drop 22 jsChunk
    /\ decodeXtcPageToCanvas wasmChunk = Ok decoded
    /\ decodeXtcPageToCanvas jsChunk = Ok decoded.
Proof.
  apply (wasm_chunk_reads_like_js_chunk true exampleImage2bit).
  unfold validImage; simpl; lia.
Defined.

(** ** Letterbox placement *)




